(* ===== verification/_CoqProject ===== *)
-Q . S2P
Prelude.v
Flags.v
Effects.v
Crdt.v
Encoding.v
Sha256.v
Bech32m.v
Unicode.v
Endpoint.v
Crypto.v
Envelope.v
Boxes.v
Credentials.v
Phrase.v
LocalStore.v
LocalStoreFacts.v
SyncState.v
StoreProps.v
Client.v
ClientFacts.v
ClientProps.v
Server.v
ServerFacts.v
ServerProps.v
RelayStart.v
ClientRelay.v
ClientSample.v
Agent.v
AgentProps.v
AgentSample.v
Runner.v
ReplayEvent.v
ReplaySequence.v
ReplayReport.v
ReplayNative.v
ReplayDisk.v
ReplayStore.v
ReplayStoreFacts.v
ReplayLab.v
ReplaySafety.v
ReplayCommand.v
AgentLock.v
AgentSecrets.v
AgentKeychain.v
AgentWindows.v
AgentCommand.v
AgentBuilds.v
RelayProcess.v
ReplaySample.v
