(* ===== verification/Prelude.v ===== *)
(** * YunPin: a verification development

    YunPin is an input method whose personal phrases are synchronised end to end
    encrypted between the devices of a user.  This development models the Go
    program: the protocol library ([protocol/]), the encrypted store of a device
    ([localstore/]), the client and its worker ([syncclient/]), the desktop agent
    ([desktopagent/]), the relay ([sync/internal/server/]) and the offline replay
    laboratory ([replaylab/]).  Paths are relative to [src/].

    ** The program and how its parts interact

    A phrase is recorded in the local store, where a mutation also puts an event
    into an outbox and stamps it with a hybrid logical clock.  The worker takes
    the oldest event, seals and signs it as an envelope that links to the one
    before, stages it in the checkpoint of the store, and sends it to the relay.
    The relay checks the envelope and the link and stores it in one chain per
    device; it never sees a plaintext.  Other devices pull pages of envelopes,
    open them with the keys of their session, and merge the payloads into their
    store with the CRDT of the protocol.  The agent loads keys from the secret
    store of the operating system and drives the worker in a loop, under a lock;
    a command line sets it up.
    The laboratory records the events of an input session in an append-only log
    and reports on them; it uses no network.

    ** Files

    Common: [Prelude] (results and errors, integers of a width, lists, the
    tactics and hint databases), [Flags] (the command-line flags of both commands
    and the durations they read), [Effects] (the state and error monad of files,
    locks, command lines and the relay's start), [Encoding] (hex, base64, big endian),
    [Sha256] (SHA-256 and HMAC, executable), [Unicode] (runes, white space, case,
    UTF-8 validity).

    Protocol: [Crdt] ([protocol/crdt.go]); [Bech32m] ([bech32m.go]); [Crypto] and
    [Envelope] ([crypto.go], [wire.go]); [Boxes] ([boxes.go]).

    Device: [Phrase] and [LocalStore] ([localstore/crdt_adapter.go],
    [localstore/store.go]), [SyncState] ([localstore/sync_state.go]), with
    [LocalStoreFacts] and [StoreProps]; [Endpoint] and [Client]
    ([syncclient/endpoint.go], [client.go], [worker.go]), with [ClientFacts] and
    [ClientProps]; [Credentials], [Agent], [Runner], [AgentLock]
    ([desktopagent/credentials.go], [agent.go], [secret_store.go], [runner.go],
    [process_lock_unix.go], [paths_darwin.go], [paths_other.go]), with [AgentProps]
    and [AgentSample]; [AgentSecrets] and [AgentKeychain]
    ([secret_store_windows.go], [secret_store_darwin.go]), which give the secret
    store that [Agent] takes as an interface; [AgentWindows]
    ([paths_windows.go], [process_lock_windows.go] and the directory of the
    credentials); [AgentCommand] ([cmd/yunpin-sync-agent/main.go]), over the
    interface [AgentBuild], and [AgentBuilds], which gives that interface for
    macOS, the other Unix systems ([secret_store_unsupported.go]) and Windows.

    Relay: [Server] and [RelayStart] ([sync/internal/server/server.go] and the
    tables of [migrations/001_init.sql]), with [ServerFacts] and [ServerProps];
    [RelayProcess] ([sync/cmd/yunpin-sync/main.go] and the handler chain);
    [ClientRelay] puts client and relay together, [ClientSample] runs them.

    Laboratory: [ReplayEvent], [ReplaySequence], [ReplayReport], [ReplayNative]
    (the files of the same name), [ReplayDisk] and [ReplayStore]
    ([replaylab/store.go], [replace_unix.go]), [ReplayCommand]
    ([cmd/yunpin-replay-lab/main.go]), with [ReplayStoreFacts], [ReplayLab],
    [ReplaySafety] and [ReplaySample].

    ** How code is modelled

    Definitions keep the names of the source; a name a Go method shares with
    another one gets a prefix ([agent_SyncOnce], [store_Report]).  A function
    that returns [(T, error)] is a function into [result T]; error values keep
    the message or format of the source, and [errors.Is] follows wrapped causes.
    Integers are [Z] with the wrap-around of their width where the source
    computes with them ([wrap_u64], [wrap_i64], 32-bit words in [Sha256]); bytes
    are [list byte]; maps are finite maps, and where two Go values share a map
    the sharing is written out ([shared_with], [share_episodes]).

    Stateful code threads its state: [LocalStore] and [Server] the tables, the
    random source and the number of statements run; [Client] the local world and
    a remote state; [Agent] the secret store as well; [Effects] any state.
    Whether a statement, a system call, the network or the random source fails
    is decided by the environment ([Environment], [ServerEnv], [Machine],
    [WindowsSystem], [KeychainSystem], [transport]), which the theorems leave arbitrary unless they say otherwise.
    A failing transaction is undone; a failing file operation keeps what the
    calls before it did.

    Code outside the repository is a parameter: the ciphers and signatures
    ([Primitives] with [PrimitiveLaws]), CBOR and JSON ([Codec], [ClientJson],
    [ServerJson], [EventJson], [NativeJson], [LabJson], with laws), Unicode tables,
    the grammar of URLs, RFC 3339 times ([TimeFormat]), what an SQL script makes of a
    schema, and the operating system.  Each set of laws is satisfied by a
    concrete instance, in one of the sample files or at the end of the file that
    states it, where the theorems are applied to concrete inputs.

    ** Theorems

    - Replication: merges are semilattices and replicas converge ([Crdt],
      [Phrase]).
    - Confidentiality boundary: an envelope opens to what was sealed
      ([Envelope]), a relay cannot inject phrases ([ClientProps]), plaintext HTTP
      stays on private hosts ([Endpoint]), a recovery text in either case
      detects a substituted ASCII character ([Bech32m]).
    - The local store: the invariant of every reachable database, atomic
      mutations, what saving and learning do ([StoreProps]).
    - Synchronisation: a round refines the abstract checkpoint machine
      ([ClientProps]); client and relay stay in step whatever is lost, and an
      upload is confirmed ([ClientRelay]); drains are bounded.
    - The relay: its invariant under any requests, append-only data, idempotent
      retries, complete delivery, final revocation, single use of a pairing
      ([ServerProps]); migrations are applied exactly once ([RelayStart]); the
      process from its start to its log ([RelayProcess]).
    - The agent: sessions from credentials, the decoded credential records
      are exactly the encodings of the valid bundles,
      recoverable accounts, what a run achieves ([Credentials], [AgentProps]), the
      pace of the loop ([Runner]), one agent at a time ([AgentLock]), a credential
      is saved or kept ([AgentSecrets], [AgentKeychain]) and stays below
      LOCALAPPDATA ([AgentWindows]); what the commands can do and that the flags
      decide which agent runs ([AgentCommand]).
    - The laboratory: accepted streams ([ReplaySequence]), the report counts what
      the events say ([ReplayReport]), when native frames are read back
      ([ReplayNative]), the log is append-only under failing calls, except for
      failures between the opening and the closing of a log, and a new process
      recovers it ([ReplayLab]); export and removal ([ReplaySafety]); what the
      commands do to the log ([ReplayCommand]).
    - Defects of the code, as theorems: an append that fails after its write can
      lose a session, a failed append blocks its episode ([ReplayLab]), a lost
      snapshot makes a report fail ([ReplayNative]), an event with a local-only
      counter is rejected by every peer ([Phrase]), the jitter overflows
      ([Runner]), the clock wraps ([StoreProps]), a keyring list is truncated
      silently ([ServerProps]), profiles that differ in case share one file on
      Windows ([AgentSecrets]), the log mistakes a path that ends in a slash
      ([RelayProcess]).

    ** Bounds and fuel

    Loops over data are structural.  [write_loop] has one round more than bytes
    to write, since a round without an error writes at least one of them;
    [worktree_above] one more than the bytes of a path, which [Dir] shortens; the
    rune decoder as many as bytes; decimal digits at most twenty; a duration has
    at most as many terms as bytes ([duration_terms_fuel]), and so have two paths
    that are compared element by element; [CreateTemp] tries ten thousand names,
    like [os.CreateTemp].  [SyncUntilIdle] has the bound the
    source gives it (1024 rounds in the agent), and the background loop is
    followed along a list of turns.

    ** Not modelled

    - The rename of the laboratory on Windows ([replace_windows.go]) and its
      default root there.  [Clean] of Windows is followed on paths with a volume,
      the only ones the source cleans.  DPAPI and Keychain are parameters with
      their documented behaviour; the glue of C and DLL calls is left out, and
      wiping memory has no effect on results.
    - Signals, the settings and the orderly end of the HTTP server, the encoding
      of what commands print.
    - HTTP plumbing: [decodeJSON] and [writeJSON] (a body is the decoded value or
      refused), headers other than the authorisation, timeouts and cancellation of
      contexts; the construction of an [http.Client].
    - SQLite beyond tables, constraints and transactions; requests run one after
      the other, as every handler writes in one statement or transaction.  The two
      queries of [Snapshot] see one database; overflow of the SQLite integers
      [generation] and [version] would take 2^63 mutations.
    - File systems beyond regular files, directories and the links that [Lstat]
      sees; permissions; crashes in the middle of a system call, other than by a
      failing call.  Paths are Unix paths, except in [AgentWindows].
    - [int] is unbounded where it counts things in memory.
    - The C++ engine, the Rime plug-in, the Python importers and packaging. *)

From Stdlib Require Export ZArith Lia Bool List String.
From Stdlib Require Strings.Byte.
From stdpp Require Export base gmap strings list fin_maps sorting.

Abbreviation byte := Byte.byte.

#[global] Open Scope Z_scope.

(** ** Results and errors

    A Go function that returns [(T, error)] is a function into [result T].
    The message texts are the ones of the source; a message built with
    [fmt.Errorf] keeps its format and its arguments. *)

Inductive error : Type :=
  | errors_New (message : string)
  | Errorf_d (format : string) (arg : Z)
  | Errorf_s (format : string) (arg : list byte)
  | Errorf_args (format : string) (args : list (Z + list byte))
  | Errorf_w (format : string) (cause : error)
  | APIError (status : Z) (code : list byte).

Inductive result (A : Type) : Type :=
  | Ok (value : A)
  | Err (err : error).

Arguments Ok {A} value.
Arguments Err {A} err.

Definition is_Ok {A} (r : result A) : bool :=
  match r with Ok _ => true | Err _ => false end.

Definition rbind {A B} (r : result A) (f : A -> result B) : result B :=
  match r with Ok a => f a | Err e => Err e end.

(** [errors.New] as a failing computation, and a check that fails with it. *)
Definition fail {A} (message : string) : result A := Err (errors_New message).

Definition reject_if (condition : bool) (message : string) : result unit :=
  if condition then fail message else Ok tt.

Declare Scope go_scope.
Delimit Scope go_scope with go.

Notation "'let!' x := m 'in' k" := (rbind m (fun x => k))
  (at level 10, x pattern, m at level 100, k at level 200) : go_scope.

#[global] Open Scope go_scope.

Lemma rbind_Ok {A B} (r : result A) (f : A -> result B) b :
  rbind r f = Ok b <-> exists a, r = Ok a /\ f a = Ok b.
Proof. destruct r as [a|e]; simpl; split; [eauto | | done |]; intros (a' & [= <-] & ?); done. Qed.

Lemma reject_if_Ok c m u : reject_if c m = Ok u <-> c = false.
Proof. unfold reject_if, fail. destruct u, c; simpl; split; congruence. Qed.

(** ** Tactics *)

Create HintDb yunpin.
Create Rewrite HintDb len.

(** Take apart one computation known to succeed, step by step. *)
Ltac invert_ok :=
  repeat match goal with
  | H : rbind _ _ = Ok _ |- _ =>
      let a := fresh "a" in let H1 := fresh "Hok" in
      apply rbind_Ok in H as (a & H1 & H)
  | H : reject_if _ _ = Ok _ |- _ => apply reject_if_Ok in H
  | H : Ok _ = Ok _ |- _ => injection H as H; subst
  | H : Err _ = Ok _ |- _ => discriminate H
  | H : Ok _ = Err _ |- _ => discriminate H
  | H : fail _ = Ok _ |- _ => discriminate H
  | H : (if ?c then fail _ else _) = Ok _ |- _ => destruct c eqn:?; [discriminate H|]
  | H : (if ?c then Err _ else _) = Ok _ |- _ => destruct c eqn:?; [discriminate H|]
  end.

(** Turn boolean tests among the hypotheses into propositions. *)
Ltac bools :=
  repeat match goal with
  | H : orb _ _ = false |- _ => apply orb_false_elim in H; destruct H
  | H : andb _ _ = true |- _ => apply andb_prop in H; destruct H
  | H : negb _ = true |- _ => apply negb_true_iff in H
  | H : negb _ = false |- _ => apply negb_false_iff in H
  | H : bool_decide _ = true |- _ => apply bool_decide_eq_true in H
  | H : bool_decide _ = false |- _ => apply bool_decide_eq_false in H
  | H : (_ <? _) = true |- _ => apply Z.ltb_lt in H
  | H : (_ <? _) = false |- _ => apply Z.ltb_ge in H
  | H : (_ <=? _) = true |- _ => apply Z.leb_le in H
  | H : (_ <=? _) = false |- _ => apply Z.leb_gt in H
  | H : (_ =? _) = true |- _ => apply Z.eqb_eq in H
  | H : (_ =? _) = false |- _ => apply Z.eqb_neq in H
  end.

(** Case analysis on the scrutinee of a visible [match] or [if]. *)
Ltac case_scrutinee :=
  match goal with
  | |- context [match ?x with _ => _ end] =>
      lazymatch x with context [match _ with _ => _ end] => fail | _ => destruct x eqn:? end
  | |- context [if ?x then _ else _] => destruct x eqn:?
  end.

Ltac mlia := Z.div_mod_to_equations; nia.

(** ** Machine integers

    Go's fixed-width integers are kept in [Z]; every operation that can leave
    the range is followed by the wrap of its type. *)

Definition u8max : Z := 255.
Definition MaxUint32 : Z := 4294967295.
Definition MaxUint64 : Z := 18446744073709551615.
Definition MaxInt64 : Z := 9223372036854775807.
Definition MinInt64 : Z := -9223372036854775808.

Definition wrap_u32 (z : Z) : Z := z mod 2 ^ 32.
Definition wrap_u64 (z : Z) : Z := z mod 2 ^ 64.
Definition wrap_i64 (z : Z) : Z := (z + 2 ^ 63) mod 2 ^ 64 - 2 ^ 63.

Definition in_u32 (z : Z) : Prop := 0 <= z <= MaxUint32.
Definition in_u64 (z : Z) : Prop := 0 <= z <= MaxUint64.
Definition in_i64 (z : Z) : Prop := MinInt64 <= z <= MaxInt64.

Lemma wrap_u64_id z : in_u64 z -> wrap_u64 z = z.
Proof. unfold in_u64, wrap_u64, MaxUint64. intros; apply Z.mod_small; lia. Qed.

Lemma wrap_u64_range z : in_u64 (wrap_u64 z).
Proof. unfold in_u64, wrap_u64, MaxUint64. pose proof (Z.mod_pos_bound z (2 ^ 64)); lia. Qed.

Lemma wrap_i64_id z : in_i64 z -> wrap_i64 z = z.
Proof.
  unfold in_i64, wrap_i64, MinInt64, MaxInt64; intros.
  rewrite Z.mod_small by lia. lia.
Qed.

Lemma wrap_i64_range z : in_i64 (wrap_i64 z).
Proof.
  unfold in_i64, wrap_i64, MinInt64, MaxInt64.
  pose proof (Z.mod_pos_bound (z + 2 ^ 63) (2 ^ 64)); lia.
Qed.

#[export] Hint Resolve wrap_u64_range wrap_i64_range : yunpin.

(** ** Bytes

    [\[\]byte] and [string] are both sequences of bytes in Go. *)

Abbreviation bytes := (list byte).

#[export] Instance byte_eq_dec : EqDecision byte := Byte.byte_eq_dec.

#[export] Instance error_eq_dec : EqDecision error.
Proof. solve_decision. Defined.

(** [errors.Is]: a sentinel is found under any number of wrappers. *)
Fixpoint errors_Is (err target : error) : bool :=
  bool_decide (err = target)
  || match err with Errorf_w _ cause => errors_Is cause target | _ => false end.

#[export] Instance byte_inhabited : Inhabited byte := populate Byte.x00.

#[export] Instance byte_countable : Countable byte.
Proof.
  refine (inj_countable Byte.to_N Byte.of_N _).
  intros b. apply Byte.of_to_N.
Defined.

(** The bytes of a Go string literal. *)
Definition str (s : string) : bytes := String.list_byte_of_string s.

(** One of some string literals. *)
Definition one_of (value : bytes) (texts : list string) : bool :=
  existsb (fun text => bool_decide (value = str text)) texts.

Definition u8 (b : byte) : Z := Z.of_N (Byte.to_N b).

Definition byte_of_Z (z : Z) : byte :=
  match Byte.of_N (Z.to_N (z mod 256)) with Some b => b | None => Byte.x00 end.

Definition len {A} (l : list A) : Z := Z.of_nat (length l).

Lemma u8_range b : 0 <= u8 b < 256.
Proof. unfold u8. pose proof (Byte.to_N_bounded b). lia. Qed.

Lemma u8_byte_of_Z z : u8 (byte_of_Z z) = z mod 256.
Proof.
  unfold byte_of_Z, u8. pose proof (Z.mod_pos_bound z 256 eq_refl).
  destruct (Byte.of_N (Z.to_N (z mod 256))) as [b|] eqn:E.
  - apply Byte.to_of_N in E. lia.
  - apply Byte.of_N_None_iff in E. lia.
Qed.

Lemma u8_inj a b : u8 a = u8 b -> a = b.
Proof.
  unfold u8. intros H. apply N2Z.inj in H.
  pose proof (Byte.of_to_N a). pose proof (Byte.of_to_N b). congruence.
Qed.

Lemma byte_of_Z_u8 b : byte_of_Z (u8 b) = b.
Proof. apply u8_inj. rewrite u8_byte_of_Z. apply Z.mod_small, u8_range. Qed.

Lemma u8_of_small z : 0 <= z < 256 -> u8 (byte_of_Z z) = z.
Proof. intros. rewrite u8_byte_of_Z. by apply Z.mod_small. Qed.

Lemma len_nonneg {A} (l : list A) : 0 <= len l.
Proof. unfold len. lia. Qed.

Lemma len_app {A} (l1 l2 : list A) : len (l1 ++ l2) = len l1 + len l2.
Proof. unfold len. rewrite length_app. lia. Qed.

Lemma len_map {A B} (f : A -> B) (l : list A) : len (map f l) = len l.
Proof. unfold len. by rewrite length_map. Qed.

Lemma len_cons {A} (a : A) (l : list A) : len (a :: l) = 1 + len l.
Proof. unfold len. simpl length. lia. Qed.

Lemma len_replicate {A} n (a : A) : len (replicate n a) = Z.of_nat n.
Proof. unfold len. by rewrite length_replicate. Qed.

#[export] Hint Rewrite @len_app @len_map @len_cons @len_replicate : len.
#[export] Hint Resolve u8_range len_nonneg : yunpin.

(** Go's slice expression [l\[lo:hi\]] within range. *)
Definition slice {A} (l : list A) (lo hi : Z) : list A :=
  take (Z.to_nat (hi - lo)) (drop (Z.to_nat lo) l).

Lemma len_slice {A} (l : list A) lo hi :
  0 <= lo <= hi -> hi <= len l -> len (slice l lo hi) = hi - lo.
Proof. unfold slice, len. rewrite length_take, length_drop. lia. Qed.

Lemma slice_app_l {A} (l r : list A) : slice (l ++ r) 0 (len l) = l.
Proof.
  unfold slice, len. rewrite Z.sub_0_r, Nat2Z.id. simpl.
  by rewrite drop_0, take_app_length.
Qed.

Lemma slice_app_r {A} (l r : list A) : slice (l ++ r) (len l) (len (l ++ r)) = r.
Proof.
  unfold slice, len. rewrite Nat2Z.id, drop_app_length.
  apply take_ge. rewrite length_app. lia.
Qed.

Lemma slice_app_shift {A} (l r : list A) lo hi :
  0 <= lo -> slice (l ++ r) (len l + lo) (len l + hi) = slice r lo hi.
Proof.
  intros. unfold slice, len.
  replace (Z.to_nat (Z.of_nat (length l) + lo)) with (length l + Z.to_nat lo)%nat by lia.
  rewrite <- drop_drop, drop_app_length. f_equal. lia.
Qed.

Lemma slice_prefix {A} (l r : list A) n : len l = n -> slice (l ++ r) 0 n = l.
Proof. intros <-. apply slice_app_l. Qed.

Lemma slice_middle {A} (l m r : list A) lo hi :
  len l = lo -> lo + len m = hi -> slice (l ++ m ++ r) lo hi = m.
Proof.
  intros <- <-. rewrite <- (Z.add_0_r (len l)) at 1.
  rewrite slice_app_shift by lia. apply slice_app_l.
Qed.

Lemma slice_suffix {A} (l r : list A) lo : len l = lo -> slice (l ++ r) lo (len (l ++ r)) = r.
Proof. intros <-. apply slice_app_r. Qed.

Lemma slice_all {A} (l : list A) : slice l 0 (len l) = l.
Proof. pose proof (slice_app_l l []) as H. by rewrite app_nil_r in H. Qed.

(** A slice is cut in two at any point of it. *)
Lemma slice_split {A} (l : list A) a b c :
  0 <= a <= b -> b <= c -> slice l a c = slice l a b ++ slice l b c.
Proof.
  intros Ha Hb. unfold slice.
  replace (Z.to_nat (c - a)) with (Z.to_nat (b - a) + Z.to_nat (c - b))%nat by lia.
  rewrite <- take_take_drop, drop_drop. do 3 f_equal. lia.
Qed.

Lemma slice_one {A} (l : list A) a d :
  0 <= a < len l -> slice l a (a + 1) = [nth (Z.to_nat a) l d].
Proof.
  intros H. unfold slice, len in *. replace (a + 1 - a) with 1 by lia.
  destruct (lookup_lt_is_Some_2 l (Z.to_nat a)) as [x E]; [lia|].
  rewrite (drop_S _ x) by done. simpl. by rewrite take_0, (nth_lookup_Some _ _ _ _ E).
Qed.

Lemma take_slice_drop {A} (l : list A) n :
  0 <= n <= len l -> slice l 0 n ++ slice l n (len l) = l.
Proof.
  unfold slice, len; intros. rewrite Z.sub_0_r, drop_0.
  rewrite (take_ge (drop _ _)) by (rewrite length_drop; lia).
  apply take_drop.
Qed.

(** ** Comparison functions that are total orders

    The replicated state is merged by keeping the greater of two values in
    some lexicographic order; the class collects what that needs. *)

Class TotalCompare {A : Type} (cmp : A -> A -> comparison) : Prop := {
  cmp_eq_iff : forall a b, cmp a b = Eq <-> a = b;
  cmp_antisym : forall a b, cmp b a = CompOpp (cmp a b);
  cmp_lt_trans : forall a b c, cmp a b = Lt -> cmp b c = Lt -> cmp a c = Lt
}.

Arguments cmp_eq_iff {A} cmp {_} a b.
Arguments cmp_antisym {A} cmp {_} a b.
Arguments cmp_lt_trans {A} cmp {_} a b c _ _.

#[export] Instance Zcompare_total : TotalCompare Z.compare.
Proof.
  split; intros; [apply Z.compare_eq_iff | apply Z.compare_antisym|].
  rewrite Z.compare_lt_iff in *. lia.
Qed.

Definition bool_compare (a b : bool) : comparison :=
  match a, b with false, true => Lt | true, false => Gt | _, _ => Eq end.

#[export] Instance bool_compare_total : TotalCompare bool_compare.
Proof. split; intros; repeat match goal with b : bool |- _ => destruct b end; naive_solver. Qed.

(** Lexicographic combination, and the order seen through an injection. *)
Definition lex (c1 c2 : comparison) : comparison :=
  match c1 with Eq => c2 | _ => c1 end.

Definition pair_compare {A B} (ca : A -> A -> comparison) (cb : B -> B -> comparison)
    (p q : A * B) : comparison := lex (ca p.1 q.1) (cb p.2 q.2).

Section total_compare.
Context {A : Type} (cmp : A -> A -> comparison) {Hcmp : TotalCompare cmp}.

Lemma cmp_refl a : cmp a a = Eq.
Proof. by apply cmp_eq_iff. Qed.

Lemma cmp_gt_lt a b : cmp a b = Gt <-> cmp b a = Lt.
Proof. rewrite (cmp_antisym cmp a b). destruct (cmp a b); naive_solver. Qed.

Lemma cmp_lt_irrefl a : cmp a a <> Lt.
Proof. by rewrite (cmp_refl). Qed.

(** The greater of two values; the left one on a tie. *)
Definition cmp_max (a b : A) : A := match cmp a b with Lt => b | _ => a end.

Lemma cmp_max_comm a b : cmp_max a b = cmp_max b a.
Proof.
  unfold cmp_max. rewrite (cmp_antisym cmp a b).
  destruct (cmp a b) eqn:E; simpl; [by apply cmp_eq_iff in E|done..].
Qed.

Lemma cmp_max_idem a : cmp_max a a = a.
Proof. unfold cmp_max. by rewrite (cmp_refl). Qed.

Lemma cmp_max_assoc a b c : cmp_max a (cmp_max b c) = cmp_max (cmp_max a b) c.
Proof.
  unfold cmp_max.
  destruct (cmp a b) eqn:Eab, (cmp b c) eqn:Ebc;
    try (apply (cmp_eq_iff cmp) in Eab as ->); try (apply (cmp_eq_iff cmp) in Ebc as ->);
    rewrite ?Eab, ?Ebc, ?cmp_refl; try done.
  - by rewrite (cmp_lt_trans cmp a b c).
  - apply cmp_gt_lt in Eab, Ebc. pose proof (cmp_lt_trans cmp _ _ _ Ebc Eab) as H.
    apply cmp_gt_lt in H. by rewrite H.
Qed.

Lemma cmp_max_l a b : cmp a (cmp_max a b) <> Gt.
Proof. unfold cmp_max. destruct (cmp a b) eqn:E; rewrite ?cmp_refl, ?E; done. Qed.

End total_compare.

#[export] Instance pair_compare_total {A B} (ca : A -> A -> comparison) (cb : B -> B -> comparison) :
  TotalCompare ca -> TotalCompare cb -> TotalCompare (pair_compare ca cb).
Proof.
  intros Ha Hb. unfold pair_compare, lex. split.
  - intros [a b] [a' b']; simpl. destruct (ca a a') eqn:E.
    + apply (cmp_eq_iff ca) in E. rewrite (cmp_eq_iff cb). naive_solver.
    + split; [done|]. intros [= -> ->]. by rewrite (cmp_refl ca) in E.
    + split; [done|]. intros [= -> ->]. by rewrite (cmp_refl ca) in E.
  - intros [a b] [a' b']; simpl. rewrite (cmp_antisym ca a a'), (cmp_antisym cb b b').
    by destruct (ca a a').
  - intros [a b] [a' b'] [a'' b'']; simpl.
    destruct (ca a a') eqn:E1, (ca a' a'') eqn:E2; try done; intros;
      try (apply (cmp_eq_iff ca) in E1 as ->); try (apply (cmp_eq_iff ca) in E2 as ->);
      rewrite ?E1, ?E2, ?(cmp_refl ca); try done.
    + by eapply (cmp_lt_trans cb).
    + by rewrite (cmp_lt_trans ca a a' a'').
Qed.

Lemma inj_compare_total {A B} (f : A -> B) (cb : B -> B -> comparison) :
  Inj (=) (=) f -> TotalCompare cb -> TotalCompare (fun x y => cb (f x) (f y)).
Proof.
  intros Hf Hb. split; intros.
  - rewrite (cmp_eq_iff cb). split; [apply Hf | congruence].
  - apply (cmp_antisym cb).
  - by eapply cmp_lt_trans.
Qed.

(** Folding a join depends only on the set of the joined values. *)
Section semilattice_fold.
Context {A : Type} (join : A -> A -> A).
Hypothesis join_comm : forall a b, join a b = join b a.
Hypothesis join_assoc : forall a b c, join a (join b c) = join (join a b) c.
Hypothesis join_idem : forall a, join a a = a.

Let below (a b : A) : Prop := join a b = b.

Lemma fold_join_upper l : forall a x, x = a \/ x ∈ l -> below x (fold_left join l a).
Proof.
  unfold below. induction l as [|y l IH]; simpl; intros a x Hx.
  - destruct Hx as [->|Hx]; [apply join_idem | by apply not_elem_of_nil in Hx].
  - destruct Hx as [->|[->|Hx]%elem_of_cons]; [| |by apply IH; right];
      rewrite <- (IH (join a y) (join a y)) by (by left);
      rewrite !join_assoc; f_equal.
    + by rewrite join_idem.
    + by rewrite (join_comm (join y a) y), join_assoc, join_idem, join_comm.
Qed.

Lemma fold_join_least l : forall a u,
  below a u -> (forall x, x ∈ l -> below x u) -> below (fold_left join l a) u.
Proof.
  unfold below. induction l as [|y l IH]; simpl; intros a u Ha Hl; [done|].
  apply IH; [|intros; apply Hl; by right].
  rewrite <- join_assoc, (Hl y) by (by left). done.
Qed.

Lemma fold_join_set a l l' :
  (forall x, x ∈ l <-> x ∈ l') -> fold_left join l a = fold_left join l' a.
Proof.
  intros Hset. rewrite <- (fold_join_least l a (fold_left join l' a)).
  - rewrite join_comm. symmetry. apply fold_join_least.
    + apply fold_join_upper. by left.
    + intros x Hx. apply fold_join_upper. right. by apply Hset.
  - apply fold_join_upper. by left.
  - intros x Hx. apply fold_join_upper. right. by apply Hset.
Qed.

End semilattice_fold.

(** [bytes.Compare] and the order of Go strings: lexicographic on bytes. *)
Fixpoint bytes_compare (a b : bytes) : comparison :=
  match a, b with
  | [], [] => Eq
  | [], _ :: _ => Lt
  | _ :: _, [] => Gt
  | x :: a', y :: b' => lex (u8 x ?= u8 y) (bytes_compare a' b')
  end.

Definition str_lt (a b : bytes) : bool :=
  match bytes_compare a b with Lt => true | _ => false end.

#[export] Instance bytes_compare_total : TotalCompare bytes_compare.
Proof.
  assert (Heq : forall a b, bytes_compare a b = Eq <-> a = b).
  { induction a as [|x a IH]; intros [|y b]; simpl; try naive_solver.
    unfold lex. destruct (u8 x ?= u8 y) eqn:E.
    - apply Z.compare_eq_iff, u8_inj in E. rewrite IH. naive_solver.
    - split; [done|]. intros [= -> ->]. by rewrite Z.compare_refl in E.
    - split; [done|]. intros [= -> ->]. by rewrite Z.compare_refl in E. }
  split; [done| |].
  - induction a as [|x a IH]; intros [|y b]; simpl; try done.
    rewrite IH, (Z.compare_antisym (u8 x) (u8 y)). by destruct (u8 x ?= u8 y).
  - induction a as [|x a IH]; intros [|y b] [|z c]; simpl; try done.
    unfold lex. intros H1 H2.
    destruct (Z.compare_spec (u8 x) (u8 y)), (Z.compare_spec (u8 y) (u8 z)); try done;
      destruct (Z.compare_spec (u8 x) (u8 z)); try done; try lia; eauto.
Qed.
