(* ===== verification/Flags.v ===== *)
(** * Command-line flags

    What the commands of the laboratory and of the agent use of the package
    [flag]: flags of text, of truth values and of durations, and the arguments
    that are left.  A set of flags is a function from names to what a value of
    the flag changes in the record of the command.  Durations are read as
    [time.ParseDuration] reads them, fractions with the binary64 arithmetic of
    the language. *)

From S2P Require Import Prelude.
From Stdlib Require Floats.SpecFloat.

(** ** Durations *)

Definition decimal_digit (c : byte) : bool := (48 <=? u8 c) && (u8 c <=? 57).
Definition period : byte := Byte.x2e.
Definition dash : byte := Byte.x2d.
Definition equals : byte := Byte.x3d.

(** Whole digits, as a [uint64] that stays below the smallest negative
    duration; no digits are zero. *)
Fixpoint leadingInt (x : Z) (s : bytes) : option (Z * bytes) :=
  match s with
  | [] => Some (x, [])
  | c :: rest =>
      if negb (decimal_digit c) then Some (x, s)
      else if x >? 2 ^ 63 / 10 then None
      else
        let x := x * 10 + (u8 c - 48) in
        if x >? 2 ^ 63 then None else leadingInt x rest
  end.

Definition float64 (z : Z) : SpecFloat.spec_float := SpecFloat.binary_normalize 53 1024 z 0 false.

(** [uint64(x)] of a number that is neither negative nor too large. *)
Definition truncate (x : SpecFloat.spec_float) : Z :=
  match x with
  | SpecFloat.S754_finite false m e => Z.shiftl (Zpos m) e
  | _ => 0
  end.

(** The digits of a fraction, as many as fit, and the power of ten below. *)
Fixpoint leadingFraction (x : Z) (scale : SpecFloat.spec_float) (overflow : bool) (s : bytes)
    : Z * SpecFloat.spec_float * bytes :=
  match s with
  | [] => (x, scale, [])
  | c :: rest =>
      if negb (decimal_digit c) then (x, scale, s)
      else if overflow || (x >? (2 ^ 63 - 1) / 10) then leadingFraction x scale true rest
      else
        let y := x * 10 + (u8 c - 48) in
        if y >? 2 ^ 63 then leadingFraction x scale true rest
        else leadingFraction y (SpecFloat.SFmul 53 1024 scale (float64 10)) false rest
  end.

Definition unitMap (unit : bytes) : option Z :=
  if bool_decide (unit = str "ns") then Some 1
  else if bool_decide (unit = str "us") || bool_decide (unit = [Byte.xc2; Byte.xb5; Byte.x73])
       || bool_decide (unit = [Byte.xce; Byte.xbc; Byte.x73]) then Some 1000
  else if bool_decide (unit = str "ms") then Some 1000000
  else if bool_decide (unit = str "s") then Some 1000000000
  else if bool_decide (unit = str "m") then Some 60000000000
  else if bool_decide (unit = str "h") then Some 3600000000000
  else None.

(** Up to the next period or digit. *)
Fixpoint cut_unit (s : bytes) : bytes * bytes :=
  match s with
  | [] => ([], [])
  | c :: rest =>
      if bool_decide (c = period) || decimal_digit c then ([], s)
      else let '(u, after) := cut_unit rest in (c :: u, after)
  end.

(** One number with its unit, in nanoseconds, and what follows. *)
Definition duration_term (s : bytes) : option (Z * bytes) :=
  if match s with c :: _ => negb (bool_decide (c = period) || decimal_digit c) | [] => true end then None
  else
    match leadingInt 0 s with
    | None => None
    | Some (v, s1) =>
        let '(f, scale, post, s2) :=
          match s1 with
          | c :: rest =>
              if bool_decide (c = period) then
                let '(f, scale, s2) := leadingFraction 0 (float64 1) false rest in
                (f, scale, negb (len s2 =? len rest), s2)
              else (0, float64 1, false, s1)
          | [] => (0, float64 1, false, s1)
          end in
        if (len s1 =? len s) && negb post then None
        else
          let '(u, after) := cut_unit s2 in
          match unitMap u with
          | None => None
          | Some unit =>
              if v >? 2 ^ 63 / unit then None
              else if f >? 0 then
                let v := wrap_u64 (v * unit + truncate (SpecFloat.SFmul 53 1024 (float64 f) (SpecFloat.SFdiv 53 1024 (float64 unit) scale))) in
                if v >? 2 ^ 63 then None else Some (v, after)
              else Some (v * unit, after)
          end
    end.

(** The sum of the terms. *)
Fixpoint duration_terms (fuel : nat) (d : Z) (s : bytes) : option Z :=
  match s, fuel with
  | [], _ => Some d
  | _, O => None
  | _, S fuel =>
      match duration_term s with
      | None => None
      | Some (v, rest) =>
          let d := wrap_u64 (d + v) in
          if d >? 2 ^ 63 then None else duration_terms fuel d rest
      end
  end.

Definition ParseDuration (s : bytes) : option Z :=
  let '(neg, s) :=
    match s with
    | c :: rest => if bool_decide (c = dash) then (true, rest) else if bool_decide (c = Byte.x2b) then (false, rest) else (false, s)
    | [] => (false, s)
    end in
  if bool_decide (s = str "0") then Some 0
  else if bool_decide (s = []) then None
  else
    match duration_terms (length s) 0 s with
    | None => None
    | Some d =>
        if neg then Some (wrap_i64 (- wrap_i64 d))
        else if d >? 2 ^ 63 - 1 then None else Some d
    end.

Example durations :
  map (fun s => ParseDuration (str s))
    ["60s"; "1m30s"; "-1.5h"; ".25ms"; "0"; "0.1us"; "+2h"; "1h1"; "90"; "s"; ".s"; ""; "1 h"; "2562047h47m16.854775807s"; "2562048h"]
  = [Some 60000000000; Some 90000000000; Some (-5400000000000); Some 250000; Some 0; Some 100; Some 7200000000000;
     None; None; None; None; None; None; Some 9223372036854775807; None].
Proof. vm_compute. reflexivity. Qed.

(** *** The loop over the terms *)

Lemma leadingInt_length s : forall x v rest, leadingInt x s = Some (v, rest) -> (length rest <= length s)%nat.
Proof.
  induction s as [|c s IH]; intros x v rest H; cbn in H; [by injection H as _ <-|].
  repeat case_match; simplify_eq; cbn; try lia. apply IH in H. lia.
Qed.

Lemma leadingFraction_length s : forall x scale overflow v sc rest,
  leadingFraction x scale overflow s = (v, sc, rest) -> (length rest <= length s)%nat.
Proof.
  induction s as [|c s IH]; intros x scale overflow v sc rest H; cbn -[SpecFloat.SFmul float64] in H; [by injection H as _ _ <-|].
  repeat case_match; simplify_eq; cbn; try lia; apply IH in H; lia.
Qed.

Lemma cut_unit_app s : forall u after, cut_unit s = (u, after) -> s = u ++ after.
Proof.
  induction s as [|c s IH]; intros u after H; cbn in H; [by injection H as <- <-|].
  destruct (_ || _); [by injection H as <- <-|]. destruct (cut_unit s) as [u' a']. injection H as <- <-. cbn. by rewrite (IH u' a').
Qed.

(** A term is not empty. *)
Lemma duration_term_shorter s v rest : duration_term s = Some (v, rest) -> (length rest < length s)%nat.
Proof.
  unfold duration_term. destruct (match s with [] => true | c :: _ => _ end); [done|].
  destruct (leadingInt 0 s) as [[v1 s1]|] eqn:E1; [|done]. apply leadingInt_length in E1.
  destruct (match s1 with [] => _ | c :: rest => _ end) as [[[f scale] post] s2] eqn:E2.
  assert (length s2 <= length s1)%nat as H2.
  { destruct s1 as [|c s1]; [by injection E2 as _ _ _ <-|]. destruct (bool_decide _); [|by injection E2 as _ _ _ <-].
    destruct (leadingFraction _ _ _ _) as [[f0 sc] s3] eqn:E3. injection E2 as _ _ _ <-. apply leadingFraction_length in E3. cbn. lia. }
  destruct (_ && _); [done|]. destruct (cut_unit s2) as [u after] eqn:E3. apply cut_unit_app in E3.
  destruct (unitMap u) as [unit|] eqn:Eu; [|done]. assert (1 <= length u)%nat as Hu by (destruct u; [done|cbn; lia]).
  intros H. assert (rest = after) as -> by (repeat case_match; congruence).
  subst s2. rewrite length_app in H2. lia.
Qed.

(** The fuel is enough: more of it changes nothing. *)
Lemma duration_terms_fuel fuel : forall d s, (length s <= fuel)%nat -> duration_terms fuel d s = duration_terms (length s) d s.
Proof.
  induction fuel as [fuel IH] using (well_founded_induction lt_wf). intros d s Hs.
  destruct s as [|c s]; [by destruct fuel|]. destruct fuel as [|fuel]; [cbn in Hs; lia|]. cbn [duration_terms length].
  destruct (duration_term (c :: s)) as [[v rest]|] eqn:E; [|done]. destruct (_ >? _); [done|].
  apply duration_term_shorter in E. cbn [length] in *. rewrite (IH fuel) by lia. symmetry. apply IH; lia.
Qed.

Lemma duration_terms_range fuel : forall d s x, 0 <= d <= 2 ^ 63 -> duration_terms fuel d s = Some x -> 0 <= x <= 2 ^ 63.
Proof.
  induction fuel as [|fuel IH]; intros d s x Hd H; destruct s as [|c s]; cbn [duration_terms] in H; try congruence.
  destruct (duration_term _) as [[v rest]|]; [|done]. destruct (_ >? _) eqn:E; [done|]. rewrite Z.gtb_ltb in E. bools.
  eapply IH; [|exact H]. pose proof (wrap_u64_range (d + v)) as Hw. unfold in_u64 in Hw. lia.
Qed.

(** A duration fits in an [int64]. *)
Lemma ParseDuration_range s d : ParseDuration s = Some d -> in_i64 d.
Proof.
  unfold ParseDuration. destruct (match s with [] => _ | c :: rest => _ end) as [neg s1]. 
  destruct (bool_decide (s1 = str "0")); [intros [= <-]; unfold in_i64, MinInt64, MaxInt64; lia|]. destruct (bool_decide _); [done|].
  destruct (duration_terms _ _ _) as [x|] eqn:E; [|done]. apply duration_terms_range in E; [|lia].
  destruct neg; [intros [= <-]; apply wrap_i64_range|]. destruct (_ >? _) eqn:Ex; [done|]. rewrite Z.gtb_ltb in Ex. bools.
  intros [= <-]. unfold in_i64, MinInt64, MaxInt64. lia.
Qed.

(** *** Whole numbers *)

Definition digits_number (ds : bytes) : Z := fold_left (fun x c => x * 10 + (u8 c - 48)) ds 0.

Lemma digits_from ds : forall x, 0 <= x -> forallb decimal_digit ds = true ->
  x <= fold_left (fun x c => x * 10 + (u8 c - 48)) ds x.
Proof.
  induction ds as [|c ds IH]; intros x Hx H; cbn in *; [lia|]. bools. unfold decimal_digit in *. bools.
  etrans; [|apply IH; [lia|done]]. lia.
Qed.

(** Digits that are followed by something else. *)
Lemma leadingInt_digits ds rest : forall x, 0 <= x ->
  forallb decimal_digit ds = true -> (forall c t, rest = c :: t -> decimal_digit c = false) ->
  leadingInt x (ds ++ rest) =
    let v := fold_left (fun x c => x * 10 + (u8 c - 48)) ds x in if v >? 2 ^ 63 then match ds with [] => Some (x, rest) | _ => None end else Some (v, rest).
Proof.
  induction ds as [|c ds IH]; intros x Hx H Hrest; cbn [app leadingInt forallb fold_left] in *.
  - destruct rest as [|c t]; cbn; [by destruct (_ >? _)|]. rewrite (Hrest c t) by done. cbn. by destruct (_ >? _).
  - bools. rewrite H. cbn [negb]. assert (0 <= u8 c - 48 <= 9) as Hc by (unfold decimal_digit in H; bools; lia).
    pose proof (digits_from ds (x * 10 + (u8 c - 48)) ltac:(lia) ltac:(done)) as Hd. cbn zeta in *.
    destruct (x >? 2 ^ 63 / 10) eqn:E1; rewrite ?Z.gtb_ltb in *; bools.
    { rewrite (proj2 (Z.ltb_lt _ _)); [done|]. assert (x >= 2 ^ 63 / 10 + 1) by lia. change (2 ^ 63 / 10) with 922337203685477580 in *. lia. }
    destruct (_ <? x * 10 + _) eqn:E2; bools; [rewrite (proj2 (Z.ltb_lt _ _)); [done|lia]|].
    rewrite IH by (done || lia). cbn zeta. rewrite Z.gtb_ltb. destruct (_ <? _) eqn:E3; [|done]. bools. destruct ds; [cbn in E3; lia|done].
Qed.

Lemma unit_name u unit : unitMap u = Some unit -> 0 < unit <= 3600000000000 /\
  forallb (fun c => negb (bool_decide (c = period) || decimal_digit c)) u = true /\ u <> [].
Proof.
  unfold unitMap. intros H.
  repeat match type of H with
  | context [bool_decide ?P] => let E := fresh in destruct (bool_decide P) eqn:E; cbn [orb] in H; [apply bool_decide_eq_true in E; subst u|clear E]
  end; first [discriminate H | injection H as <-; split; [lia|by split]].
Qed.

Lemma cut_unit_all u : forallb (fun c => negb (bool_decide (c = period) || decimal_digit c)) u = true -> cut_unit u = (u, []).
Proof.
  induction u as [|c u IH]; intros H; cbn in *; [done|]. apply andb_true_iff in H as [->%negb_true_iff H]. by rewrite IH.
Qed.

Lemma term_digits ds u unit : ds <> [] -> forallb decimal_digit ds = true -> unitMap u = Some unit ->
  duration_term (ds ++ u) = if digits_number ds * unit >? 2 ^ 63 then None else Some (digits_number ds * unit, []).
Proof.
  intros Hne Hds Hu. destruct (unit_name u unit Hu) as (Hunit & Hname & Hnu). unfold duration_term.
  destruct ds as [|c ds]; [done|]. cbn [app]. pose proof Hds as Hds'. cbn [forallb] in Hds'. apply andb_true_iff in Hds' as [Hc _].
  rewrite Hc, orb_true_r. cbn [negb]. change (c :: ds ++ u) with ((c :: ds) ++ u).
  assert (exists c0 u0, u = c0 :: u0 /\ bool_decide (c0 = period) = false /\ decimal_digit c0 = false) as (c0 & u0 & -> & Hp & Hd).
  { destruct u as [|c0 u0]; [done|]. exists c0, u0. cbn in Hname. apply andb_true_iff in Hname as [Hname _]. apply negb_true_iff, orb_false_iff in Hname. tauto. }
  rewrite leadingInt_digits; [|lia|done|by intros ? ? [= <- <-]]. cbn zeta. fold (digits_number (c :: ds)).
  assert (0 <= digits_number (c :: ds)) as Hpos by (by apply digits_from).
  rewrite !Z.gtb_ltb. destruct (2 ^ 63 <? digits_number (c :: ds)) eqn:E1; bools.
  { rewrite (proj2 (Z.ltb_lt _ _)); [done|nia]. }
  rewrite (bool_decide_false _ Hp). replace (len (c0 :: u0) =? len ((c :: ds) ++ c0 :: u0)) with false.
  2: { symmetry. apply Z.eqb_neq. unfold len. rewrite length_app. cbn [length]. lia. }
  cbn [andb]. rewrite cut_unit_all, Hu by done. cbn [Z.gtb Z.compare]. rewrite Z.gtb_ltb.
  destruct (2 ^ 63 / unit <? digits_number (c :: ds)) eqn:E2; bools.
  - rewrite (proj2 (Z.ltb_lt _ _)); [done|]. pose proof (Z.mul_succ_div_gt (2 ^ 63) unit ltac:(lia)). nia.
  - rewrite (proj2 (Z.ltb_ge _ _)); [done|]. pose proof (Z.mul_div_le (2 ^ 63) unit ltac:(lia)). nia.
Qed.

Lemma digit_not_sign c : decimal_digit c = true -> bool_decide (c = dash) = false /\ bool_decide (c = Byte.x2b) = false.
Proof. intros H. split; apply bool_decide_false; intros ->; by vm_compute in H. Qed.

Lemma duration_terms_one s v : s <> [] -> duration_term s = Some (v, []) -> 0 <= v <= 2 ^ 63 -> duration_terms (length s) 0 s = Some v.
Proof.
  intros Hne H Hv. destruct s as [|c s]; [done|]. cbn [length duration_terms]. rewrite H, Z.add_0_l, wrap_u64_id by (unfold in_u64, MaxUint64; lia).
  rewrite Z.gtb_ltb, (proj2 (Z.ltb_ge _ _)) by lia. by destruct (length s).
Qed.

(** Whole numbers of a unit are read exactly, whatever leading zeros they have,
    and refused beyond the range of a duration, which has one value more below
    zero than above. *)
Lemma whole_durations ds u unit :
  ds <> [] -> forallb decimal_digit ds = true -> unitMap u = Some unit ->
  let d := digits_number ds * unit in
  ParseDuration (ds ++ u) = (if d <=? MaxInt64 then Some d else None) /\
  ParseDuration (dash :: ds ++ u) = (if d <=? - MinInt64 then Some (- d) else None).
Proof.
  intros Hne Hds Hu d. destruct (unit_name u unit Hu) as (Hunit & _ & Hnu).
  pose proof (term_digits ds u unit Hne Hds Hu) as Ht. fold d in Ht.
  assert (0 <= d) as Hd by (unfold d; pose proof (digits_from ds 0 ltac:(lia) Hds) as Hp; unfold digits_number; nia).
  assert (ds ++ u <> []) as Happ by (by destruct ds). assert (ds ++ u <> str "0") as Hzero.
  { intros E. apply (f_equal length) in E. rewrite length_app in E. destruct ds, u; cbn in *; try done. lia. }
  assert (duration_terms (length (ds ++ u)) 0 (ds ++ u) = if d >? 2 ^ 63 then None else Some d) as Hterms.
  { destruct (d >? 2 ^ 63) eqn:E.
    - destruct (ds ++ u); [done|]. cbn [length duration_terms]. by rewrite Ht.
    - rewrite Z.gtb_ltb in E. bools. by apply duration_terms_one. }
  split.
  - unfold ParseDuration. destruct ds as [|c ds]; [done|]. cbn [app]. pose proof Hds as Hc. cbn in Hc. apply andb_true_iff in Hc as [Hc _].
    destruct (digit_not_sign c Hc) as [-> ->]. change (c :: ds ++ u) with ((c :: ds) ++ u). rewrite !bool_decide_false, Hterms by done.
    rewrite Z.gtb_ltb. destruct (2 ^ 63 <? d) eqn:E; bools; [by rewrite (proj2 (Z.leb_gt _ _)) by (unfold MaxInt64; lia)|].
    rewrite Z.gtb_ltb. destruct (2 ^ 63 - 1 <? d) eqn:E2; bools.
    + by rewrite (proj2 (Z.leb_gt _ _)) by (unfold MaxInt64; lia).
    + by rewrite (proj2 (Z.leb_le _ _)) by (unfold MaxInt64; lia).
  - unfold ParseDuration. rewrite (bool_decide_true (dash = dash)), !bool_decide_false, Hterms by done.
    rewrite Z.gtb_ltb. destruct (2 ^ 63 <? d) eqn:E; bools; [by rewrite (proj2 (Z.leb_gt _ _)) by (unfold MinInt64; lia)|].
    rewrite (proj2 (Z.leb_le _ _)) by (unfold MinInt64; lia). f_equal.
    destruct (Z.eq_dec d (2 ^ 63)) as [->|Hn]; [vm_compute; reflexivity|]. rewrite (wrap_i64_id d) by (unfold in_i64, MinInt64, MaxInt64; lia).
    apply wrap_i64_id. unfold in_i64, MinInt64, MaxInt64. lia.
Qed.

(** ** Flags *)

(** [strconv.ParseBool] *)
Definition ParseBool (value : bytes) : option bool :=
  if one_of value ["1"; "t"; "T"; "TRUE"; "true"; "True"] then Some true
  else if one_of value ["0"; "f"; "F"; "FALSE"; "false"; "False"] then Some false
  else None.

(** The name of a flag and the value after the first [=] that is not its first
    character. *)
Fixpoint cut_value (s : bytes) : bytes * option bytes :=
  match s with
  | [] => ([], None)
  | c :: rest => if bool_decide (c = equals) then ([], Some rest) else let '(name, value) := cut_value rest in (c :: name, value)
  end.

Definition split_value (name : bytes) : bytes * option bytes :=
  match name with [] => ([], None) | c :: rest => let '(n, value) := cut_value rest in (c :: n, value) end.

(** What an argument is: the end of the flags, the end marked by [--], a flag
    with what follows its dashes, or none at all. *)
Inductive argument := NotAFlag | EndOfFlags | AFlag (name : bytes).

Definition classify (s : bytes) : argument :=
  match s with
  | c :: (_ :: _) as rest =>
      if negb (bool_decide (c = dash)) then NotAFlag
      else match rest with
      | c2 :: name => if negb (bool_decide (c2 = dash)) then AFlag rest
                      else match name with [] => EndOfFlags | _ => AFlag name end
      | [] => NotAFlag
      end
  | _ => NotAFlag
  end.

Definition ErrHelp : error := errors_New "flag: help requested".

(** What setting a flag does to the record of a command. *)
Inductive flag_kind (F : Type) :=
  | TextFlag (set : bytes -> F -> F) | BoolFlag (set : bool -> F -> F) | DurationFlag (set : Z -> F -> F).
Arguments TextFlag {F}.
Arguments BoolFlag {F}.
Arguments DurationFlag {F}.

(** The flags of a command inside a larger record. *)
Definition flag_within {F G} (inside : (F -> F) -> G -> G) (kind : flag_kind F) : flag_kind G :=
  match kind with
  | TextFlag set => TextFlag (fun v => inside (set v))
  | BoolFlag set => BoolFlag (fun v => inside (set v))
  | DurationFlag set => DurationFlag (fun v => inside (set v))
  end.

Section parsing.
Context {F : Type}.
Variable formal : bytes -> option (flag_kind F).

(** [Value.Set] *)
Definition set_flag (kind : flag_kind F) (value : bytes) (f : F) : option F :=
  match kind with
  | TextFlag set => Some (set value f)
  | BoolFlag set => match ParseBool value with Some b => Some (set b f) | None => None end
  | DurationFlag set => match ParseDuration value with Some d => Some (set d f) | None => None end
  end.

Definition bad_value (kind : flag_kind F) (name value : bytes) : error :=
  Errorf_args (match kind with BoolFlag _ => "invalid boolean value %q for -%s: parse error" | _ => "invalid value %q for flag -%s: parse error" end)
    [inr value; inr name].

(** [FlagSet.Parse]: the flags, and the arguments that are left. *)
Fixpoint parse_flags (f : F) (args : list bytes) : result (F * list bytes) :=
  match args with
  | [] => Ok (f, [])
  | s :: rest =>
      match classify s with
      | NotAFlag => Ok (f, args)
      | EndOfFlags => Ok (f, rest)
      | AFlag name =>
          if match name with c :: _ => bool_decide (c = dash) || bool_decide (c = equals) | [] => true end then
            Err (Errorf_s "bad flag syntax: %s" s)
          else
            let '(name, value) := split_value name in
            match formal name with
            | None => if one_of name ["help"; "h"] then Err ErrHelp else Err (Errorf_s "flag provided but not defined: -%s" name)
            | Some kind =>
                match kind, value, rest with
                | BoolFlag set, None, _ => parse_flags (set true f) rest
                | _, Some v, _ =>
                    match set_flag kind v f with Some f => parse_flags f rest | None => Err (bad_value kind name v) end
                | _, None, v :: rest =>
                    match set_flag kind v f with Some f => parse_flags f rest | None => Err (bad_value kind name v) end
                | _, None, [] => Err (Errorf_s "flag needs an argument: -%s" name)
                end
            end
      end
  end.

(** *** Flags written as [--name=value] *)

Definition flag_text (setting : bytes * bytes) : bytes := dash :: dash :: setting.1 ++ equals :: setting.2.

(** A name that can be written. *)
Definition plain_name (name : bytes) : bool :=
  match name with [] => false | c :: _ => negb (bool_decide (c = dash)) && forallb (fun c => negb (bool_decide (c = equals))) name end.

Lemma cut_value_name name value : forallb (fun c => negb (bool_decide (c = equals))) name = true ->
  cut_value (name ++ equals :: value) = (name, Some value).
Proof.
  induction name as [|c name IH]; cbn; [by rewrite bool_decide_true|]. intros [H1%negb_true_iff H2]%andb_true_iff. by rewrite H1, IH.
Qed.

(** One written flag is set, unless its value is refused. *)
Lemma parse_written name value kind f rest :
  plain_name name = true -> formal name = Some kind ->
  parse_flags f (flag_text (name, value) :: rest) =
    match set_flag kind value f with Some f' => parse_flags f' rest | None => Err (bad_value kind name value) end.
Proof.
  intros Hn Hf. destruct name as [|c name]; [done|]. cbn [plain_name] in Hn. apply andb_true_iff in Hn as [Hd He].
  cbn [forallb] in He. apply andb_true_iff in He as [Hc He]. apply negb_true_iff in Hd, Hc.
  assert (classify (flag_text (c :: name, value)) = AFlag ((c :: name) ++ equals :: value)) as Hcl.
  { unfold flag_text, classify. cbn [fst snd app]. by rewrite !(bool_decide_true (dash = dash)) by done. }
  cbn [parse_flags]. rewrite Hcl. cbn [app]. rewrite Hd, Hc. cbn [orb]. unfold split_value. rewrite cut_value_name by done. rewrite Hf.
  by destruct kind.
Qed.

(** Setting one flag after the other. *)
Fixpoint set_all (settings : list (bytes * bytes)) (f : F) : option F :=
  match settings with
  | [] => Some f
  | (name, value) :: rest =>
      match formal name with
      | Some kind => match set_flag kind value f with Some f => set_all rest f | None => None end
      | None => None
      end
  end.

(** What was written is read: in the order of the arguments, the last value of
    a flag winning. *)
Lemma parse_all settings : forall f f' rest,
  forallb (fun setting => plain_name setting.1) settings = true -> set_all settings f = Some f' ->
  parse_flags f (map flag_text settings ++ rest) = parse_flags f' rest.
Proof.
  induction settings as [|[name value] settings IH]; intros f f' rest Hn H; cbn [set_all map forallb app] in *; [by injection H as ->|].
  apply andb_true_iff in Hn as [Hn Hns]. destruct (formal name) as [kind|] eqn:Ef; [|done].
  destruct (set_flag kind value f) as [f1|] eqn:Es; [|done]. rewrite (parse_written name value kind) by done. rewrite Es. by apply IH.
Qed.

End parsing.
