(* ===== verification/Effects.v ===== *)
(** * Computations with a state

    The monad of code that changes a state and can fail, where a failing call
    keeps the effects of the calls before it: the files of the replay laboratory
    and the start of the relay.  The lemmas and [invert_run] take a run apart
    into the runs of its calls. *)

From S2P Require Import Prelude.

(** A computation with a state that keeps its effects when it fails. *)
Definition St (S A : Type) : Type := S -> result A * S.

Definition ret {S A} (a : A) : St S A := fun s => (Ok a, s).
Definition raise {S A} (e : error) : St S A := fun s => (Err e, s).
Definition lift {S A} (r : result A) : St S A := fun s => (r, s).
Definition bind {S A B} (m : St S A) (f : A -> St S B) : St S B := fun s =>
  match m s with (Ok a, s') => f a s' | (Err e, s') => (Err e, s') end.

(** The error of a call as a value. *)
Definition attempt {S A} (m : St S A) : St S (result A) := fun s => let '(r, s') := m s in (Ok r, s').

(** [fmt.Errorf(format, err)] around a failing call. *)
Definition wrap_error {S A} (format : string) (m : St S A) : St S A := fun s =>
  match m s with (Err e, s') => (Err (Errorf_w format e), s') | success => success end.

Declare Scope effect_scope.
Delimit Scope effect_scope with effect.
Notation "'do!' x := m 'in' k" := (bind m (fun x => k))
  (at level 10, x pattern, m at level 100, k at level 200) : effect_scope.
#[global] Open Scope effect_scope.

(** ** Runs *)

Lemma bind_cases {S A B} (m : St S A) (f : A -> St S B) s r s' :
  bind m f s = (r, s') ->
  (exists e, m s = (Err e, s') /\ r = Err e) \/ (exists a s1, m s = (Ok a, s1) /\ f a s1 = (r, s')).
Proof. unfold bind. destruct (m s) as [[a|e] s1]; [eauto|]. intros [= <- <-]. eauto. Qed.

Lemma bind_ok {S A B} (m : St S A) (f : A -> St S B) s a s1 : m s = (Ok a, s1) -> bind m f s = f a s1.
Proof. unfold bind. by intros ->. Qed.

Lemma attempt_inv {S A} (m : St S A) s r s' :
  attempt m s = (r, s') -> exists r', m s = (r', s') /\ r = Ok r'.
Proof. unfold attempt. destruct (m s) as [r' s1]. intros [= <- <-]. eauto. Qed.

Lemma wrap_error_cases {S A} format (m : St S A) s r s' :
  wrap_error format m s = (r, s') ->
  (exists a, m s = (Ok a, s') /\ r = Ok a) \/ (exists e, m s = (Err e, s') /\ r = Err (Errorf_w format e)).
Proof. unfold wrap_error. destruct (m s) as [[a|e] s1]; intros [= <- <-]; eauto. Qed.

(** Take apart a run of a computation. *)
Ltac invert_run :=
  repeat match goal with
  | H : bind _ _ _ = (_, _) |- _ =>
      let e := fresh "e" in let Hr := fresh "Hrun" in let a := fresh "a" in let s := fresh "s" in
      let He := fresh "He" in apply bind_cases in H as [(e & Hr & He)|(a & s & Hr & H)]
  | H : attempt _ _ = (_, _) |- _ =>
      let r := fresh "r" in let He := fresh "He" in apply attempt_inv in H as (r & H & He)
  | H : wrap_error _ _ _ = (_, _) |- _ =>
      let a := fresh "a" in let He := fresh "He" in apply wrap_error_cases in H as [(a & H & He)|(a & H & He)]
  | H : ret _ _ = (_, _) |- _ => unfold ret in H; injection H as H ?
  | H : raise _ _ = (_, _) |- _ => unfold raise in H; injection H as H ?
  | H : lift _ _ = (_, _) |- _ => unfold lift in H; injection H as H ?
  | H : Ok _ = Ok _ |- _ => injection H as H
  | H : Err _ = Err _ |- _ => injection H as H
  | H : Err _ = Ok _ |- _ => discriminate H
  | H : Ok _ = Err _ |- _ => discriminate H
  end; subst.
