(* ===== verification/Crdt.v ===== *)
(** * The replicated phrase and setting state ([protocol/crdt.go])

    Hybrid logical clocks, the last-writer-wins and remove-wins choices, the
    grow-only usage counters and the two merge functions.  The theorems give
    the join-semilattice laws of the merges and what follows from them for
    replicas that exchange states in any order. *)

From S2P Require Import Prelude.

(** ** Data and operations *)

Record HLC := mkHLC { WallMillis : Z; Counter : Z; Node : bytes }.

Definition zeroHLC : HLC := mkHLC 0 0 [].

Definition Compare (clock other : HLC) : Z :=
  if WallMillis clock <? WallMillis other then -1
  else if WallMillis clock >? WallMillis other then 1
  else if Counter clock <? Counter other then -1
  else if Counter clock >? Counter other then 1
  else if str_lt (Node clock) (Node other) then -1
  else if str_lt (Node other) (Node clock) then 1
  else 0.

Record LWWBool := mkLWWBool { Value : bool; Clock : HLC }.

Record Presence := mkPresence { Present : bool; PClock : HLC; Generation : Z }.

(** A Go map is [None] when it is nil. *)
Definition counter_map : Type := option (gmap bytes Z).

Record PhraseState := mkPhraseState {
  ObjectID : bytes;
  Counts : counter_map;
  Pinned : LWWBool;
  presence : Presence
}.

(** Reading a key of a map that does not have it gives the zero value. *)
Definition map_get (counts : gmap bytes Z) (device : bytes) : Z :=
  default 0 (counts !! device).

Definition counts_get (counts : counter_map) (device : bytes) : Z :=
  match counts with None => 0 | Some m => map_get m device end.

Definition chooseBool (left right : LWWBool) : LWWBool :=
  let comparison := Compare (Clock left) (Clock right) in
  if comparison <? 0 then right
  else if comparison >? 0 then left
  else if Value right then right
  else left.

Definition choosePresence (left right : Presence) : Presence :=
  if Generation left <? Generation right then right
  else if Generation left >? Generation right then left
  else if negb (eqb (Present left) (Present right)) then
    if negb (Present right) then right else left
  else
    let comparison := Compare (PClock left) (PClock right) in
    if comparison <? 0 then right
    else if comparison >? 0 then left
    else left.

(** The loop [for device, count := range right.Counts] over the entries in
    some order, and the same loop over the map itself. *)
Definition merge_count (counts : gmap bytes Z) (entry : bytes * Z) : gmap bytes Z :=
  let '(device, count) := entry in
  if count >? map_get counts device then <[device := count]> counts else counts.

Arguments merge_count : simpl never.

Definition merge_counts_loop (entries : list (bytes * Z)) (counts : gmap bytes Z) : gmap bytes Z :=
  fold_left merge_count entries counts.

Definition merge_counts (left right : counter_map) : gmap bytes Z :=
  merge_counts_loop (map_to_list (default ∅ right)) (default ∅ left).

Definition MergePhrase (left right : PhraseState) : result PhraseState :=
  if bool_decide (ObjectID left = []) || negb (bool_decide (ObjectID left = ObjectID right)) then
    fail "cannot merge different phrase objects"
  else Ok (mkPhraseState (ObjectID left)
             (Some (merge_counts (Counts left) (Counts right)))
             (chooseBool (Pinned left) (Pinned right))
             (choosePresence (presence left) (presence right))).

Record SettingState := mkSettingState { Key : bytes; SValue : bytes; SClock : HLC }.

Definition MergeSetting (left right : SettingState) : result SettingState :=
  if bool_decide (Key left = []) || negb (bool_decide (Key left = Key right)) then
    fail "cannot merge different setting keys"
  else
    let comparison := Compare (SClock left) (SClock right) in
    if comparison <? 0 then Ok right
    else if comparison >? 0 then Ok left
    else if str_lt (SValue left) (SValue right) then Ok right
    else Ok left.

#[export] Instance HLC_eq_dec : EqDecision HLC.
Proof. solve_decision. Defined.
#[export] Instance LWWBool_eq_dec : EqDecision LWWBool.
Proof. solve_decision. Defined.
#[export] Instance Presence_eq_dec : EqDecision Presence.
Proof. solve_decision. Defined.
#[export] Instance PhraseState_eq_dec : EqDecision PhraseState.
Proof. solve_decision. Defined.

(** ** The clock order *)

Definition hlc_compare (a b : HLC) : comparison :=
  pair_compare (pair_compare Z.compare Z.compare) bytes_compare
    (WallMillis a, Counter a, Node a) (WallMillis b, Counter b, Node b).

#[export] Instance hlc_compare_total : TotalCompare hlc_compare.
Proof.
  apply (inj_compare_total (fun a => (WallMillis a, Counter a, Node a))); [|apply _].
  intros [] []; simpl; congruence.
Qed.

(** The integer the code returns is the sign of the lexicographic order. *)
Lemma Compare_spec a b :
  Compare a b = match hlc_compare a b with Lt => -1 | Eq => 0 | Gt => 1 end.
Proof.
  unfold Compare, hlc_compare, pair_compare, lex, str_lt; simpl.
  rewrite (cmp_antisym bytes_compare (Node a) (Node b)), !Z.gtb_ltb.
  unfold Z.ltb. rewrite (Z.compare_antisym (WallMillis a) (WallMillis b)),
    (Z.compare_antisym (Counter a) (Counter b)).
  destruct (WallMillis a ?= WallMillis b); simpl; [|done..].
  destruct (Counter a ?= Counter b); simpl; [|done..].
  by destruct (bytes_compare (Node a) (Node b)).
Qed.

Lemma Compare_swap a b : Compare b a = - Compare a b.
Proof. rewrite !Compare_spec, (cmp_antisym hlc_compare a b). by destruct (hlc_compare a b). Qed.

Lemma Compare_zero a b : Compare a b = 0 <-> a = b.
Proof.
  rewrite Compare_spec, <- (cmp_eq_iff hlc_compare).
  destruct (hlc_compare a b); split; (done || lia).
Qed.

Lemma Compare_neg a b : Compare a b < 0 <-> hlc_compare a b = Lt.
Proof. rewrite Compare_spec. destruct (hlc_compare a b); split; (done || lia). Qed.

Lemma Compare_neg_trans a b c : Compare a b < 0 -> Compare b c < 0 -> Compare a c < 0.
Proof. rewrite !Compare_neg. apply (cmp_lt_trans hlc_compare). Qed.

(** ** Each choice is the maximum of a total order *)

Definition lww_compare (a b : LWWBool) : comparison :=
  pair_compare hlc_compare bool_compare (Clock a, Value a) (Clock b, Value b).

#[export] Instance lww_compare_total : TotalCompare lww_compare.
Proof.
  apply (inj_compare_total (fun a => (Clock a, Value a))); [|apply _].
  intros [] []; simpl; congruence.
Qed.

(** A removal is above a presence of the same generation. *)
Definition presence_compare (a b : Presence) : comparison :=
  pair_compare (pair_compare Z.compare bool_compare) hlc_compare
    (Generation a, negb (Present a), PClock a) (Generation b, negb (Present b), PClock b).

#[export] Instance presence_compare_total : TotalCompare presence_compare.
Proof.
  apply (inj_compare_total (fun a => (Generation a, negb (Present a), PClock a))); [|apply _].
  intros [[] ? ?] [[] ? ?]; simpl; congruence.
Qed.

Definition setting_compare (a b : SettingState) : comparison :=
  pair_compare (pair_compare hlc_compare bytes_compare) bytes_compare
    (SClock a, SValue a, Key a) (SClock b, SValue b, Key b).

#[export] Instance setting_compare_total : TotalCompare setting_compare.
Proof.
  apply (inj_compare_total (fun a => (SClock a, SValue a, Key a))); [|apply _].
  intros [] []; simpl; congruence.
Qed.

Lemma chooseBool_max left right :
  chooseBool left right = cmp_max lww_compare left right.
Proof.
  unfold chooseBool, cmp_max, lww_compare, pair_compare, lex. rewrite Compare_spec; simpl.
  destruct (hlc_compare (Clock left) (Clock right)) eqn:E; simpl; [|done..].
  apply (cmp_eq_iff hlc_compare) in E.
  destruct left as [[] ?], right as [[] ?]; simpl in *; congruence.
Qed.

Lemma choosePresence_max left right :
  choosePresence left right = cmp_max presence_compare left right.
Proof.
  unfold choosePresence, cmp_max, presence_compare, pair_compare, lex; simpl.
  rewrite Z.gtb_ltb, Compare_spec. unfold Z.ltb.
  rewrite (Z.compare_antisym (Generation left) (Generation right)).
  destruct (Generation left ?= Generation right); simpl; [|done..].
  destruct (Present left), (Present right); simpl; try done;
    by destruct (hlc_compare (PClock left) (PClock right)).
Qed.

Lemma MergeSetting_max left right :
  Key left <> [] -> Key left = Key right ->
  MergeSetting left right = Ok (cmp_max setting_compare left right).
Proof.
  intros Hne Heq. unfold MergeSetting, cmp_max, setting_compare, pair_compare, lex, str_lt.
  rewrite bool_decide_eq_false_2, bool_decide_eq_true_2 by done; simpl.
  rewrite Compare_spec, Heq, (cmp_refl bytes_compare).
  destruct (hlc_compare (SClock left) (SClock right)); simpl; [|done..].
  by destruct (bytes_compare (SValue left) (SValue right)).
Qed.

(** ** Counters *)

Lemma map_get_insert counts d c e :
  map_get (<[d := c]> counts) e = if decide (d = e) then c else map_get counts e.
Proof. unfold map_get. rewrite lookup_insert. by case_decide. Qed.

Lemma map_get_merge_count counts e c d :
  map_get (merge_count counts (e, c)) d =
    if decide (e = d) then Z.max (map_get counts d) c else map_get counts d.
Proof.
  unfold merge_count. destruct (Z.gtb_spec c (map_get counts e));
    rewrite ?map_get_insert; repeat case_decide; subst; (done || lia).
Qed.

Lemma merge_counts_loop_get entries counts d :
  NoDup entries.*1 ->
  map_get (merge_counts_loop entries counts) d =
    match (list_to_map entries : gmap bytes Z) !! d with
    | Some c => Z.max (map_get counts d) c
    | None => map_get counts d
    end.
Proof.
  unfold merge_counts_loop. revert counts.
  induction entries as [|[e c] entries IH]; intros counts Hnd; csimpl; [done|].
  csimpl in Hnd. apply NoDup_cons in Hnd as [Hnotin Hnd].
  rewrite IH, map_get_merge_count, lookup_insert by done.
  case_decide; [|done]. subst.
  by rewrite (not_elem_of_list_to_map_1 entries) by done.
Qed.

(** The order in which the runtime enumerates the map does not matter. *)
Lemma merge_counts_loop_perm entries entries' counts d :
  NoDup entries.*1 -> entries ≡ₚ entries' ->
  map_get (merge_counts_loop entries' counts) d = map_get (merge_counts_loop entries counts) d.
Proof.
  intros Hnd Hp. rewrite !merge_counts_loop_get; [|done|by rewrite <- Hp].
  by rewrite (list_to_map_proper entries entries').
Qed.

(** Counters are unsigned 64-bit values. *)
Definition counts_ok (counts : counter_map) : Prop :=
  map_Forall (fun _ c => in_u64 c) (default ∅ counts).

Lemma counts_get_default counts d : counts_get counts d = map_get (default ∅ counts) d.
Proof. by destruct counts. Qed.

Lemma counts_ok_empty : counts_ok (Some ∅).
Proof. intros d c H. simpl in H. by rewrite lookup_empty in H. Qed.

Lemma counts_ok_insert d v m :
  in_u64 v -> counts_ok (Some m) -> counts_ok (Some (<[d := v]> m)).
Proof. intros Hv Hm. by apply map_Forall_insert_2. Qed.

#[export] Hint Resolve counts_ok_empty counts_ok_insert : yunpin.

Lemma counts_ok_get counts d : counts_ok counts -> in_u64 (counts_get counts d).
Proof.
  intros H. rewrite counts_get_default. unfold map_get.
  destruct (default ∅ counts !! d) as [c|] eqn:E; [by apply (H d)|].
  unfold in_u64, MaxUint64; simpl; lia.
Qed.

Lemma merge_counts_get left right d :
  counts_ok left -> counts_ok right ->
  map_get (merge_counts left right) d = Z.max (counts_get left d) (counts_get right d).
Proof.
  intros Hl Hr. unfold merge_counts.
  rewrite merge_counts_loop_get by apply NoDup_fst_map_to_list.
  rewrite list_to_map_to_list, !counts_get_default.
  pose proof (counts_ok_get left d Hl) as Hb. rewrite counts_get_default in Hb.
  unfold in_u64 in Hb. unfold map_get at 4.
  destruct (default ∅ right !! d) as [c|]; simpl; lia.
Qed.

Lemma merge_counts_ok left right :
  counts_ok left -> counts_ok right -> counts_ok (Some (merge_counts left right)).
Proof.
  intros Hl Hr d c Hd. simpl in Hd.
  assert (c = map_get (merge_counts left right) d) as ->.
  { unfold map_get. by rewrite Hd. }
  rewrite merge_counts_get by done.
  pose proof (counts_ok_get left d Hl). pose proof (counts_ok_get right d Hr).
  unfold in_u64 in *. lia.
Qed.

(** ** States up to the counts they stand for

    A missing counter and a zero counter are the same count, and a nil map is
    an empty one, so states are compared by what they say. *)

#[export] Instance phrase_equiv : Equiv PhraseState := fun a b =>
  ObjectID a = ObjectID b /\ (forall d, counts_get (Counts a) d = counts_get (Counts b) d) /\
  Pinned a = Pinned b /\ presence a = presence b.

#[export] Instance phrase_equiv_equivalence : Equivalence (≡@{PhraseState}).
Proof.
  split.
  - intros a; repeat split; auto.
  - intros a b (H1 & H2 & H3 & H4); repeat split; auto.
  - intros a b c (H1 & H2 & H3 & H4) (G1 & G2 & G3 & G4);
      repeat split; intros; etrans; eauto.
Qed.

#[export] Instance result_equiv {A} `{Equiv A} : Equiv (result A) := fun r s =>
  match r, s with
  | Ok a, Ok b => a ≡ b
  | Err e, Err e' => e = e'
  | _, _ => False
  end.

Definition state_ok (s : PhraseState) : Prop := counts_ok (Counts s).

Definition same_object (oid : bytes) (s : PhraseState) : Prop := ObjectID s = oid /\ state_ok s.

Lemma MergePhrase_total oid a b :
  oid <> [] -> same_object oid a -> same_object oid b ->
  exists m, MergePhrase a b = Ok m /\ same_object oid m /\
    (forall d, counts_get (Counts m) d = Z.max (counts_get (Counts a) d) (counts_get (Counts b) d)) /\
    Pinned m = chooseBool (Pinned a) (Pinned b) /\
    presence m = choosePresence (presence a) (presence b).
Proof.
  intros Hne [Ha Hwa] [Hb Hwb]. unfold MergePhrase.
  rewrite bool_decide_eq_false_2, bool_decide_eq_true_2 by congruence; simpl.
  eexists; split; [done|]. split; [split; [done | by apply merge_counts_ok]|].
  split; [intros d; by apply merge_counts_get | done].
Qed.

Lemma MergePhrase_Ok a b m :
  MergePhrase a b = Ok m -> ObjectID a <> [] /\ ObjectID b = ObjectID a /\ ObjectID m = ObjectID a.
Proof.
  unfold MergePhrase. destruct (_ || _) eqn:E; intros; invert_ok.
  by bools.
Qed.

#[export] Instance MergePhrase_proper_l :
  forall b, state_ok b -> Proper ((fun x y => x ≡ y /\ state_ok x /\ state_ok y) ==> (≡)) (fun a => MergePhrase a b).
Proof.
  intros b Hb a a' ((Hid & Hc & Hp & Hr) & Ha & Ha'). unfold MergePhrase. rewrite Hid.
  destruct (_ || _); [done|]. repeat split; simpl; [|congruence..].
  intros d. rewrite !merge_counts_get by done. by rewrite Hc.
Qed.

(** ** Properties *)

(** A small family of concrete states used to exercise the statements. *)
Definition sample_state (device : bytes) (count : Z) (present : bool) (wall : Z) : PhraseState :=
  mkPhraseState (str "o") (Some (<[device := count]> ∅))
    (mkLWWBool true (mkHLC wall 0 device)) (mkPresence present (mkHLC wall 0 device) 1).

Lemma sample_state_ok device count present wall :
  in_u64 count -> same_object (str "o") (sample_state device count present wall).
Proof. intros. split; [done|]. apply counts_ok_insert; auto with yunpin. Qed.

Lemma in_u64_small z : (0 <=? z) && (z <=? MaxUint64) = true -> in_u64 z.
Proof. intros. bools. done. Qed.

(** [HLC.Compare] is a strict total order on clocks: it reports equality
    exactly on identical clocks, its sign flips when the arguments are swapped,
    and "before" is transitive. *)
Theorem Compare_total_order :
  (forall a b, Compare a b = 0 <-> a = b) /\
  (forall a b, Compare b a = - Compare a b) /\
  (forall a b c, Compare a b < 0 -> Compare b c < 0 -> Compare a c < 0).
Proof. split_and!; [apply Compare_zero | apply Compare_swap | apply Compare_neg_trans]. Qed.

(** [MergePhrase] is commutative, up to the counts the states stand for,
    and reports the same error whichever side comes first. *)
Theorem MergePhrase_comm a b :
  state_ok a -> state_ok b -> MergePhrase a b ≡ MergePhrase b a.
Proof.
  intros Ha Hb. unfold MergePhrase.
  destruct (decide (ObjectID a = ObjectID b)) as [Heq|Hne].
  - rewrite Heq. destruct (bool_decide (ObjectID b = [])); simpl; [done|].
    rewrite bool_decide_eq_true_2 by done; simpl.
    split_and!; simpl; [done| |by rewrite !chooseBool_max, (cmp_max_comm lww_compare)|by rewrite !choosePresence_max, (cmp_max_comm presence_compare)].
    intros d. by rewrite !merge_counts_get, Z.max_comm.
  - rewrite (bool_decide_eq_false_2 (ObjectID a = ObjectID b)), (bool_decide_eq_false_2 (ObjectID b = ObjectID a)) by congruence.
    by rewrite !orb_true_r.
Qed.

(** [MergePhrase] is associative on states of one object. *)
Theorem MergePhrase_assoc oid a b c :
  oid <> [] -> same_object oid a -> same_object oid b -> same_object oid c ->
  (let! ab := MergePhrase a b in MergePhrase ab c) ≡ (let! bc := MergePhrase b c in MergePhrase a bc).
Proof.
  intros Hne Ha Hb Hc.
  destruct (MergePhrase_total oid a b) as (ab & -> & Hab & Cab & Pab & Rab); auto.
  destruct (MergePhrase_total oid b c) as (bc & -> & Hbc & Cbc & Pbc & Rbc); auto. simpl.
  destruct (MergePhrase_total oid ab c) as (x & -> & Hx & Cx & Px & Rx); auto.
  destruct (MergePhrase_total oid a bc) as (y & -> & Hy & Cy & Py & Ry); auto.
  split_and!; [by rewrite (proj1 Hx), (proj1 Hy)| | |].
  - intros d. rewrite Cx, Cy, Cab, Cbc. lia.
  - by rewrite Px, Py, Pab, Pbc, !chooseBool_max, (cmp_max_assoc lww_compare).
  - by rewrite Rx, Ry, Rab, Rbc, !choosePresence_max, (cmp_max_assoc presence_compare).
Qed.

(** [MergePhrase] is idempotent on every state that names an object. *)
Theorem MergePhrase_idem a :
  ObjectID a <> [] -> state_ok a -> MergePhrase a a ≡ Ok a.
Proof.
  intros Hne Ha. destruct (MergePhrase_total (ObjectID a) a a) as (m & -> & Hm & Cm & Pm & Rm); try done.
  split_and!; [apply Hm | | by rewrite Pm, chooseBool_max, (cmp_max_idem lww_compare) | by rewrite Rm, choosePresence_max, (cmp_max_idem presence_compare)].
  intros d. rewrite Cm. lia.
Qed.

(** ** Replicas that exchange states

    A replica folds the states it receives into its own one; this is what a
    sequence of [MergeRemotePayload] calls does to one object. *)

Definition merge_all (s : PhraseState) (received : list PhraseState) : result PhraseState :=
  fold_left (fun acc r => let! a := acc in MergePhrase a r) received (Ok s).

Lemma fold_map {A B} (op : B -> B -> B) (f : A -> B) l b :
  fold_left (fun acc x => op acc (f x)) l b = fold_left op (map f l) b.
Proof. revert b. induction l; simpl; auto. Qed.

Lemma merge_all_total oid received : forall s,
  oid <> [] -> same_object oid s -> Forall (same_object oid) received ->
  exists m, merge_all s received = Ok m /\ same_object oid m /\
    (forall d, counts_get (Counts m) d =
       fold_left Z.max (map (fun r => counts_get (Counts r) d) received) (counts_get (Counts s) d)) /\
    Pinned m = fold_left chooseBool (map Pinned received) (Pinned s) /\
    presence m = fold_left choosePresence (map presence received) (presence s).
Proof.
  unfold merge_all. induction received as [|r received IH]; intros s Hne Hs Hall; simpl.
  - exists s. split_and!; try done; apply Hs.
  - apply Forall_cons in Hall as [Hr Hall].
    destruct (MergePhrase_total oid s r) as (m & -> & Hm & Cm & Pm & Rm); auto.
    destruct (IH m) as (x & Hx & Hox & Cx & Px & Rx); auto.
    exists x. split_and!; try done; try apply Hox; [|by rewrite Px, Pm|by rewrite Rx, Rm].
    intros d. by rewrite Cx, Cm.
Qed.

Lemma set_map {A B} (f : A -> B) (l l' : list A) :
  (forall x, x ∈ l <-> x ∈ l') -> forall y, y ∈ map f l <-> y ∈ map f l'.
Proof.
  intros H y. change (map f) with (fmap (M := list) f).
  rewrite !list_elem_of_fmap. naive_solver.
Qed.

(** C2: Strong eventual consistency.  Two replicas that start from the same
    state of an object and receive the same set of states, in any order and any
    number of times each, both succeed and end in the same state. *)
Theorem replicas_converge oid s received received' :
  oid <> [] -> same_object oid s -> Forall (same_object oid) received ->
  (forall r, r ∈ received <-> r ∈ received') ->
  exists m m', merge_all s received = Ok m /\ merge_all s received' = Ok m' /\ m ≡ m'.
Proof.
  intros Hne Hs Hall Hset.
  assert (Hall' : Forall (same_object oid) received').
  { rewrite Forall_forall in *. intros x Hx. by apply Hall, Hset. }
  destruct (merge_all_total oid received s) as (m & Hm & Om & Cm & Pm & Rm); auto.
  destruct (merge_all_total oid received' s) as (m' & Hm' & Om' & Cm' & Pm' & Rm'); auto.
  exists m, m'. do 2 (split; [done|]). split_and!; [by rewrite (proj1 Om), (proj1 Om')| | |].
  - intros d. rewrite Cm, Cm'. apply fold_join_set; try by apply set_map. all: lia.
  - rewrite Pm, Pm'. apply fold_join_set; [..|by apply set_map]; intros; rewrite !chooseBool_max.
    + apply (cmp_max_comm lww_compare).
    + apply (cmp_max_assoc lww_compare).
    + apply (cmp_max_idem lww_compare).
  - rewrite Rm, Rm'. apply fold_join_set; [..|by apply set_map]; intros; rewrite !choosePresence_max.
    + apply (cmp_max_comm presence_compare).
    + apply (cmp_max_assoc presence_compare).
    + apply (cmp_max_idem presence_compare).
Qed.

Lemma replicas_converge_witness :
  let x := sample_state (str "a") 3 true 5 in
  let y := sample_state (str "b") 7 false 9 in
  exists m m', merge_all x [y; x] = Ok m /\ merge_all x [x; y; x; y] = Ok m' /\ m ≡ m'.
Proof.
  intros x y. apply (replicas_converge (str "o")); [done|..].
  - apply sample_state_ok. by apply in_u64_small.
  - repeat (apply Forall_cons_2; [apply sample_state_ok; by apply in_u64_small|]). apply Forall_nil_2.
  - intros r. rewrite !elem_of_cons. clear. tauto.
Defined.

Lemma choosePresence_removed g a b :
  Generation a <= g -> Generation b <= g ->
  (Generation a = g /\ Present a = false) \/ (Generation b = g /\ Present b = false) ->
  Generation (choosePresence a b) = g /\ Present (choosePresence a b) = false.
Proof.
  intros Ha Hb H. unfold choosePresence. rewrite Z.gtb_ltb.
  destruct (Z.ltb_spec (Generation a) (Generation b)); [naive_solver lia|].
  destruct (Z.ltb_spec (Generation b) (Generation a)); [naive_solver lia|].
  assert (Generation a = g /\ Generation b = g) as [??] by naive_solver lia.
  destruct (Present a) eqn:?, (Present b) eqn:?; simpl; try done;
    [destruct H as [[_ ?]|[_ ?]]; congruence | repeat case_match; done].
Qed.

Lemma fold_presence_removed g l : forall a,
  Generation a <= g -> Forall (fun p => Generation p <= g) l ->
  (exists p, p ∈ a :: l /\ Generation p = g /\ Present p = false) ->
  Generation (fold_left choosePresence l a) = g /\ Present (fold_left choosePresence l a) = false.
Proof.
  induction l as [|b l IH]; simpl; intros a Ha Hl (p & Hp & Hg & Hr).
  - apply list_elem_of_singleton in Hp as ->. done.
  - apply Forall_cons in Hl as [Hb Hl].
    assert (Hle : Generation (choosePresence a b) <= g).
    { rewrite choosePresence_max. unfold cmp_max. by case_match. }
    apply IH; [done..|]. apply elem_of_cons in Hp as [->|Hp].
    2: apply elem_of_cons in Hp as [->|Hp].
    + exists (choosePresence a b). split; [by left|]. apply choosePresence_removed; naive_solver.
    + exists (choosePresence a b). split; [by left|]. apply choosePresence_removed; naive_solver.
    + exists p. split; [by right|done].
Qed.

(** Remove wins.  When a replica has, or receives, a removal of generation
    [g] and nothing of a later generation, the merged object is removed at
    generation [g]: no counter, pin or clock of the other states resurrects it. *)
Theorem removal_dominates oid s received r :
  oid <> [] -> same_object oid s -> Forall (same_object oid) received ->
  r ∈ s :: received -> Present (presence r) = false ->
  Forall (fun x => Generation (presence x) <= Generation (presence r)) (s :: received) ->
  exists m, merge_all s received = Ok m /\ Present (presence m) = false /\
    Generation (presence m) = Generation (presence r).
Proof.
  intros Hne Hs Hall Hr Hrm Hgen.
  destruct (merge_all_total oid received s) as (m & Hm & _ & _ & _ & Rm); auto.
  apply Forall_cons in Hgen as [Hgs Hgen].
  destruct (fold_presence_removed (Generation (presence r)) (map presence received) (presence s)) as [??].
  - done.
  - change (map presence) with (fmap (M := list) presence). by rewrite Forall_fmap.
  - exists (presence r). split; [|done].
    apply (list_elem_of_fmap_2 presence (s :: received) r Hr).
  - exists m. by rewrite Rm.
Qed.

Lemma removal_dominates_witness :
  let x := sample_state (str "a") 300 true 50 in
  let y := sample_state (str "b") 7 false 9 in
  exists m, merge_all x [y; x] = Ok m /\ Present (presence m) = false /\ Generation (presence m) = 1.
Proof.
  intros x y. apply (removal_dominates (str "o") x [y; x] y); [done|..].
  - apply sample_state_ok. by apply in_u64_small.
  - repeat (apply Forall_cons_2; [apply sample_state_ok; by apply in_u64_small|]). apply Forall_nil_2.
  - right. left.
  - done.
  - repeat (apply Forall_cons_2; [done|]). apply Forall_nil_2.
Defined.

(** An explicit re-add wins.  A presence of a strictly later generation
    than everything else decides the merged presence, clock included. *)
Theorem readd_wins a b :
  Generation a < Generation b ->
  choosePresence a b = b /\ choosePresence b a = b.
Proof.
  intros H. unfold choosePresence. rewrite !Z.gtb_ltb.
  destruct (Z.ltb_spec (Generation a) (Generation b)); [|lia].
  destruct (Z.ltb_spec (Generation b) (Generation a)); [lia|done].
Qed.

(** [MergeSetting] is exactly commutative, associative and idempotent on
    the settings of one key, so setting replicas converge as well. *)
Theorem MergeSetting_semilattice k a b c :
  k <> [] -> Key a = k -> Key b = k -> Key c = k ->
  MergeSetting a b = MergeSetting b a /\
  (let! ab := MergeSetting a b in MergeSetting ab c) = (let! bc := MergeSetting b c in MergeSetting a bc) /\
  MergeSetting a a = Ok a.
Proof.
  intros Hne Ha Hb Hc.
  assert (Hk : forall x y, Key x = k -> Key y = k -> Key (cmp_max setting_compare x y) = k).
  { intros x y Hx Hy. unfold cmp_max. by case_match. }
  rewrite !MergeSetting_max by congruence. split_and!.
  - by rewrite (cmp_max_comm setting_compare).
  - simpl. rewrite !MergeSetting_max by (rewrite ?Hk; congruence).
    by rewrite (cmp_max_assoc setting_compare).
  - by rewrite (cmp_max_idem setting_compare).
Qed.

Lemma MergeSetting_semilattice_witness :
  let a := mkSettingState (str "k") (str "x") (mkHLC 4 0 (str "n")) in
  let b := mkSettingState (str "k") (str "y") (mkHLC 4 0 (str "n")) in
  let c := mkSettingState (str "k") (str "z") (mkHLC 3 9 (str "m")) in
  MergeSetting a b = MergeSetting b a /\
  (let! ab := MergeSetting a b in MergeSetting ab c) = (let! bc := MergeSetting b c in MergeSetting a bc) /\
  MergeSetting a a = Ok a.
Proof. intros a b c. apply (MergeSetting_semilattice (str "k")); done. Defined.

(** As Go values the two merge orders can differ: a counter that is
    present with the value zero survives on the left and is dropped on the
    right.  The results are still equivalent. *)
Theorem MergePhrase_zero_counter_asymmetric :
  exists a b m m', state_ok a /\ state_ok b /\
    MergePhrase a b = Ok m /\ MergePhrase b a = Ok m' /\ m <> m' /\ m ≡ m'.
Proof.
  set (p := mkLWWBool false zeroHLC). set (r := mkPresence true zeroHLC 1).
  set (a := mkPhraseState (str "o") (Some (<[str "d" := 0]> ∅)) p r).
  set (b := mkPhraseState (str "o") (Some ∅) p r).
  assert (Ha : state_ok a) by (apply counts_ok_insert; [done | apply counts_ok_empty]).
  assert (Hb : state_ok b) by apply counts_ok_empty.
  exists a, b.
  destruct (MergePhrase_total (str "o") a b) as (m & Hm & Om & Cm & Pm & Rm); try done.
  destruct (MergePhrase_total (str "o") b a) as (m' & Hm' & Om' & Cm' & Pm' & Rm'); try done.
  exists m, m'. split_and!; try done.
  - assert (Hne : match MergePhrase a b, MergePhrase b a with
                  | Ok x, Ok y => bool_decide (x = y) | _, _ => true end = false) by by vm_compute.
    rewrite Hm, Hm' in Hne. by bools.
  - split_and!; [by rewrite (proj1 Om), (proj1 Om')| |by rewrite Pm, Pm'|by rewrite Rm, Rm'].
    intros d. rewrite Cm, Cm'. apply Z.max_comm.
Qed.
