(* ===== verification/Encoding.v ===== *)
(** * Text and integer encodings of Go's standard library

    What the sources use of [encoding/hex], [encoding/base64]
    ([RawURLEncoding]), [encoding/binary] ([BigEndian]) and of the ASCII part
    of [strings.ToLower] / [strings.ToUpper], with their round trips. *)

From S2P Require Import Prelude.

Module Hex.

(** [hex.EncodeToString] writes two lowercase digits per byte. *)
Definition digit (n : Z) : byte :=
  byte_of_Z (if n <? 10 then 48 + n else 87 + n).

Definition EncodeToString (src : bytes) : bytes :=
  flat_map (fun b => [digit (u8 b / 16); digit (u8 b mod 16)]) src.

Definition value (c : byte) : option Z :=
  let n := u8 c in
  if (48 <=? n) && (n <=? 57) then Some (n - 48)
  else if (97 <=? n) && (n <=? 102) then Some (n - 87)
  else if (65 <=? n) && (n <=? 70) then Some (n - 55)
  else None.

(** [hex.DecodeString]: an invalid digit or an odd length is an error. *)
Fixpoint DecodeString (s : bytes) : option bytes :=
  match s with
  | [] => Some []
  | h :: l :: rest =>
      match value h, value l with
      | Some a, Some b =>
          match DecodeString rest with
          | Some out => Some (byte_of_Z (16 * a + b) :: out)
          | None => None
          end
      | _, _ => None
      end
  | [_] => None
  end.

End Hex.

Module Ascii.

Definition is_ascii (s : bytes) : bool := forallb (fun b => u8 b <? 128) s.

Definition lower (b : byte) : byte :=
  if (65 <=? u8 b) && (u8 b <=? 90) then byte_of_Z (u8 b + 32) else b.

Definition upper (b : byte) : byte :=
  if (97 <=? u8 b) && (u8 b <=? 122) then byte_of_Z (u8 b - 32) else b.

(** [strings.ToLower] and [strings.ToUpper]: the fast path for ASCII strings;
    the case mapping of other strings comes from the Unicode tables, which are
    an argument. *)
Definition ToLower (unicode_lower : bytes -> bytes) (s : bytes) : bytes :=
  if is_ascii s then map lower s else unicode_lower s.

Definition ToUpper (unicode_upper : bytes -> bytes) (s : bytes) : bytes :=
  if is_ascii s then map upper s else unicode_upper s.

(** [value == strings.ToLower(value)] for an ASCII value. *)
Definition is_lower (s : bytes) : bool := bool_decide (map lower s = s).

End Ascii.

Module Base64.

(** The URL-safe alphabet, without padding. *)
Definition char (n : Z) : byte :=
  byte_of_Z (if n <? 26 then 65 + n
             else if n <? 52 then 71 + n
             else if n <? 62 then n - 4
             else if n =? 62 then 45 else 95).

Definition sextet (c : byte) : option Z :=
  let n := u8 c in
  if (65 <=? n) && (n <=? 90) then Some (n - 65)
  else if (97 <=? n) && (n <=? 122) then Some (n - 71)
  else if (48 <=? n) && (n <=? 57) then Some (n + 4)
  else if n =? 45 then Some 62
  else if n =? 95 then Some 63
  else None.

Fixpoint EncodeToString (src : bytes) : bytes :=
  match src with
  | a :: b :: c :: rest =>
      let v := u8 a * 65536 + u8 b * 256 + u8 c in
      char (v / 262144) :: char (v / 4096 mod 64) :: char (v / 64 mod 64) :: char (v mod 64)
        :: EncodeToString rest
  | [a; b] =>
      let v := u8 a * 65536 + u8 b * 256 in
      [char (v / 262144); char (v / 4096 mod 64); char (v / 64 mod 64)]
  | [a] =>
      let v := u8 a * 65536 in [char (v / 262144); char (v / 4096 mod 64)]
  | [] => []
  end.

(** The decoder skips carriage returns and line feeds wherever they are. *)
Definition is_newline (c : byte) : bool := (u8 c =? 10) || (u8 c =? 13).

Fixpoint sextets (s : bytes) : option (list Z) :=
  match s with
  | [] => Some []
  | c :: rest =>
      if is_newline c then sextets rest
      else match sextet c, sextets rest with
           | Some v, Some vs => Some (v :: vs)
           | _, _ => None
           end
  end.

(** Quanta of four sextets; a last quantum of two or three gives one or two
    bytes, and its unused low bits are not looked at (the encoding is not
    [Strict]); a last quantum of one is an error. *)
Fixpoint quanta (vs : list Z) : option bytes :=
  match vs with
  | a :: b :: c :: d :: rest =>
      match quanta rest with
      | Some out =>
          let v := a * 262144 + b * 4096 + c * 64 + d in
          Some (byte_of_Z (v / 65536) :: byte_of_Z (v / 256) :: byte_of_Z v :: out)
      | None => None
      end
  | [a; b; c] =>
      let v := a * 262144 + b * 4096 + c * 64 in
      Some [byte_of_Z (v / 65536); byte_of_Z (v / 256)]
  | [a; b] =>
      let v := a * 262144 + b * 4096 in Some [byte_of_Z (v / 65536)]
  | [_] => None
  | [] => Some []
  end.

Definition DecodeString (s : bytes) : option bytes :=
  match sextets s with Some vs => quanta vs | None => None end.

Definition EncodedLen (n : Z) : Z := n / 3 * 4 + (n mod 3 * 8 + 5) / 6.

End Base64.

Module BigEndian.

(** [PutUint16] / [PutUint32] / [PutUint64] on a buffer of [n] bytes. *)
Fixpoint put (n : nat) (z : Z) : bytes :=
  match n with
  | O => []
  | S n' => byte_of_Z (z / 2 ^ (8 * Z.of_nat n')) :: put n' z
  end.

(** [Uint16] / [Uint32] / [Uint64]. *)
Fixpoint get (l : bytes) : Z :=
  match l with
  | [] => 0
  | b :: rest => u8 b * 2 ^ (8 * len rest) + get rest
  end.

End BigEndian.

(** ** Hexadecimal *)

Lemma hex_value_digit n : 0 <= n < 16 -> Hex.value (Hex.digit n) = Some n.
Proof.
  intros. unfold Hex.value, Hex.digit.
  destruct (Z.ltb_spec n 10); rewrite u8_of_small by lia;
    repeat match goal with |- context [?a <=? ?b] => destruct (Z.leb_spec a b); try lia end;
    simpl; f_equal; lia.
Qed.

Lemma hex_decode_encode l : Hex.DecodeString (Hex.EncodeToString l) = Some l.
Proof.
  induction l as [|b l IH]; simpl; [done|].
  pose proof (u8_range b). rewrite !hex_value_digit by (Z.div_mod_to_equations; lia).
  fold (Hex.EncodeToString l). rewrite IH.
  do 2 f_equal. rewrite <- (byte_of_Z_u8 b) at 3. f_equal. Z.div_mod_to_equations; lia.
Qed.

Lemma hex_encode_inj : Inj (=) (=) Hex.EncodeToString.
Proof.
  intros a b H. apply (f_equal Hex.DecodeString) in H.
  rewrite !hex_decode_encode in H. by injection H.
Qed.

Lemma len_hex_encode l : len (Hex.EncodeToString l) = 2 * len l.
Proof.
  induction l as [|b l IH]; [done|]. change (Hex.EncodeToString (b :: l)) with
    (Hex.digit (u8 b / 16) :: Hex.digit (u8 b mod 16) :: Hex.EncodeToString l).
  autorewrite with len. lia.
Qed.

Lemma digit_lower n : 0 <= n < 16 -> Ascii.lower (Hex.digit n) = Hex.digit n.
Proof.
  intros. unfold Ascii.lower, Hex.digit.
  destruct (Z.ltb_spec n 10); rewrite u8_of_small by lia;
    repeat match goal with |- context [?a <=? ?b] => destruct (Z.leb_spec a b); try lia end; done.
Qed.

Lemma hex_encode_lower l : Ascii.is_lower (Hex.EncodeToString l) = true.
Proof.
  apply bool_decide_eq_true. induction l as [|b l IH]; [done|]. simpl.
  pose proof (u8_range b). rewrite !digit_lower by (Z.div_mod_to_equations; lia).
  do 2 f_equal. exact IH.
Qed.

Lemma list_ind2 {A} (P : list A -> Prop) :
  P [] -> (forall a, P [a]) -> (forall a b l, P l -> P (a :: b :: l)) -> forall l, P l.
Proof.
  intros H0 H1 H2 l. assert (P l /\ forall a, P (a :: l)) as [H _]; [|done].
  induction l as [|x l [IH1 IH2]]; [auto|]. split; [auto|]. intros a. by apply H2.
Qed.

Lemma hex_decode_len s l : Hex.DecodeString s = Some l -> len s = 2 * len l.
Proof.
  revert l. induction s as [|a|a b s IH] using list_ind2; simpl; intros l H; simplify_eq; try done.
  repeat case_match; simplify_eq. autorewrite with len. rewrite (IH _ eq_refl). lia.
Qed.

Lemma hex_value_lower c v :
  Hex.value c = Some v -> Ascii.lower c = c -> 0 <= v < 16 /\ Hex.digit v = c.
Proof.
  unfold Hex.value, Ascii.lower, Hex.digit. pose proof (u8_range c). intros Hv Hl.
  repeat case_match; bools; simplify_eq; try lia;
    try (split; [lia|]; apply u8_inj; rewrite u8_of_small by lia; lia).
  apply (f_equal u8) in Hl. rewrite u8_of_small in Hl by lia. lia.
Qed.

(** A lowercase hexadecimal string is the encoding of what it decodes to. *)
Lemma hex_encode_decode s l :
  Hex.DecodeString s = Some l -> Ascii.is_lower s = true -> Hex.EncodeToString l = s.
Proof.
  intros H Hlow. apply bool_decide_eq_true in Hlow. revert l H Hlow.
  induction s as [|a|a b s IH] using list_ind2; simpl; intros l H Hlow; [by simplify_eq|done|].
  destruct (Hex.value a) as [x|] eqn:Ea, (Hex.value b) as [y|] eqn:Eb; try done.
  destruct (Hex.DecodeString s) as [out|]; [|done]. injection H as <-. injection Hlow as Hla Hlb Hls.
  apply hex_value_lower in Ea as [? Ha]; [|done]. apply hex_value_lower in Eb as [? Hb]; [|done].
  simpl. rewrite u8_of_small by lia. fold (Hex.EncodeToString out). rewrite (IH _ eq_refl Hls).
  replace ((16 * x + y) / 16) with x by (Z.div_mod_to_equations; lia).
  replace ((16 * x + y) mod 16) with y by (Z.div_mod_to_equations; lia).
  congruence.
Qed.

Lemma hex_value_ascii c v : Hex.value c = Some v -> u8 c < 128.
Proof. unfold Hex.value. repeat case_match; bools; intros; simplify_eq; lia. Qed.

Lemma hex_decode_ascii s l : Hex.DecodeString s = Some l -> Ascii.is_ascii s = true.
Proof.
  revert l. induction s as [|a|a b s IH] using list_ind2; simpl; intros l H; [done..|].
  destruct (Hex.value a) as [x|] eqn:Ea, (Hex.value b) as [y|] eqn:Eb; try done.
  destruct (Hex.DecodeString s) as [out|]; [|done].
  apply hex_value_ascii in Ea, Eb. unfold Ascii.is_ascii in *; simpl.
  rewrite (IH _ eq_refl). by do 2 (rewrite (proj2 (Z.ltb_lt _ _)) by done).
Qed.

(** For a value that decodes, the Unicode-aware test for lower case is the
    ASCII one. *)
Lemma hex_lower_unicode unicode_lower s :
  is_Some (Hex.DecodeString s) -> bool_decide (s = Ascii.ToLower unicode_lower s) = Ascii.is_lower s.
Proof.
  intros [l H]. unfold Ascii.ToLower, Ascii.is_lower. rewrite (hex_decode_ascii s l H).
  apply bool_decide_ext. naive_solver.
Qed.

(** ** Base64 *)

Lemma sextet_char n : 0 <= n < 64 -> Base64.sextet (Base64.char n) = Some n.
Proof.
  intros. unfold Base64.sextet, Base64.char.
  repeat match goal with
         | |- context [?a <? ?b] => destruct (Z.ltb_spec a b); try lia
         | |- context [n =? 62] => destruct (Z.eqb_spec n 62); try lia
         end; rewrite u8_of_small by lia;
    repeat match goal with
           | |- context [?a <=? ?b] => destruct (Z.leb_spec a b); try lia
           | |- context [?a =? ?b] => destruct (Z.eqb_spec a b); try lia
           end; simpl; f_equal; lia.
Qed.

Lemma char_not_newline n : 0 <= n < 64 -> Base64.is_newline (Base64.char n) = false.
Proof.
  intros. unfold Base64.is_newline, Base64.char.
  repeat match goal with
         | |- context [?a <? ?b] => destruct (Z.ltb_spec a b); try lia
         | |- context [n =? 62] => destruct (Z.eqb_spec n 62); try lia
         end; rewrite u8_of_small by lia;
    repeat match goal with
           | |- context [?a =? ?b] => destruct (Z.eqb_spec a b); try lia
           end; done.
Qed.

Lemma sextets_char n s :
  0 <= n < 64 -> Base64.sextets (Base64.char n :: s) =
    match Base64.sextets s with Some vs => Some (n :: vs) | None => None end.
Proof. intros. simpl. by rewrite char_not_newline, sextet_char by done. Qed.

Lemma list_ind3 {A} (P : list A -> Prop) :
  P [] -> (forall a, P [a]) -> (forall a b, P [a; b]) ->
  (forall a b c l, P l -> P (a :: b :: c :: l)) -> forall l, P l.
Proof.
  intros H0 H1 H2 H3 l.
  assert (P l /\ (forall a, P (a :: l)) /\ forall a b, P (a :: b :: l)) as [H _]; [|done].
  induction l as [|x l (IH1 & IH2 & IH3)]; [auto|]. split_and!; auto.
Qed.

Lemma base64_decode_encode l : Base64.DecodeString (Base64.EncodeToString l) = Some l.
Proof.
  unfold Base64.DecodeString.
  induction l as [|a|a b|a b c l IH] using list_ind3; [done|..];
    cbn [Base64.EncodeToString]; cbv zeta;
    repeat match goal with x : byte |- _ => learn_hyp (u8_range x) end;
    rewrite !sextets_char by (Z.div_mod_to_equations; lia); simpl.
  - do 2 f_equal. apply u8_inj. rewrite u8_byte_of_Z. Z.div_mod_to_equations; lia.
  - do 2 f_equal; [|f_equal]; apply u8_inj; rewrite u8_byte_of_Z; Z.div_mod_to_equations; lia.
  - destruct (Base64.sextets (Base64.EncodeToString l)) as [vs|]; [|done]. simpl. rewrite IH.
    do 2 f_equal; [|f_equal; [|f_equal]]; apply u8_inj; rewrite u8_byte_of_Z; Z.div_mod_to_equations; lia.
Qed.

Lemma base64_encode_inj : Inj (=) (=) Base64.EncodeToString.
Proof.
  intros a b H. apply (f_equal Base64.DecodeString) in H.
  rewrite !base64_decode_encode in H. by injection H.
Qed.

Lemma len_base64_encode l : len (Base64.EncodeToString l) = Base64.EncodedLen (len l).
Proof.
  unfold Base64.EncodedLen.
  induction l as [|a|a b|a b c l IH] using list_ind3; [done..|].
  cbn [Base64.EncodeToString]; cbv zeta. autorewrite with len. rewrite IH.
  pose proof (len_nonneg l).
  replace (1 + (1 + (1 + len l))) with (len l + 1 * 3) by lia.
  rewrite Z.div_add, Z.mod_add by lia. lia.
Qed.

Lemma base64_encode_nonempty l : l <> [] -> Base64.EncodeToString l <> [].
Proof. destruct l as [|a [|b [|c l]]]; done. Qed.

(** ** Big-endian integers *)

Lemma length_put n z : length (BigEndian.put n z) = n.
Proof. induction n; simpl; auto. Qed.

Lemma len_put n z : len (BigEndian.put n z) = Z.of_nat n.
Proof. unfold len. by rewrite length_put. Qed.

Lemma get_put n z : BigEndian.get (BigEndian.put n z) = z mod 2 ^ (8 * Z.of_nat n).
Proof.
  induction n as [|n IH]; simpl BigEndian.put; simpl BigEndian.get.
  - by rewrite Z.mod_1_r.
  - rewrite IH, len_put, u8_byte_of_Z, (Nat2Z.inj_succ n).
    replace (8 * Z.succ (Z.of_nat n)) with (8 * Z.of_nat n + 8) by lia.
    rewrite Z.pow_add_r by lia. change (2 ^ 8) with 256.
    rewrite Z.rem_mul_r by lia. lia.
Qed.

Lemma get_range l : 0 <= BigEndian.get l < 2 ^ (8 * len l).
Proof.
  induction l as [|b l IH]; [done|]. simpl BigEndian.get. rewrite len_cons.
  replace (8 * (1 + len l)) with (8 + 8 * len l) by lia.
  rewrite Z.pow_add_r by (pose proof (len_nonneg l); lia).
  pose proof (u8_range b). change (2 ^ 8) with 256. nia.
Qed.

(** High digits beyond the buffer are not written. *)
Lemma put_high n m a g :
  (n <= m)%nat -> BigEndian.put n (a * 2 ^ (8 * Z.of_nat m) + g) = BigEndian.put n g.
Proof.
  induction n as [|n IHn]; intros Hm; [done|]. simpl. rewrite IHn by lia. f_equal.
  apply u8_inj. rewrite !u8_byte_of_Z.
  replace (8 * Z.of_nat m) with (8 * Z.of_nat n + (8 + 8 * (Z.of_nat m - Z.of_nat n - 1))) by lia.
  rewrite !Z.pow_add_r by lia.
  replace (a * (2 ^ (8 * Z.of_nat n) * (2 ^ 8 * 2 ^ (8 * (Z.of_nat m - Z.of_nat n - 1)))))
    with ((a * 2 ^ (8 * (Z.of_nat m - Z.of_nat n - 1)) * 256) * 2 ^ (8 * Z.of_nat n)) by ring.
  rewrite Z.div_add_l by lia. rewrite Z.add_comm. apply Z.mod_add. lia.
Qed.

Lemma put_get l : BigEndian.put (length l) (BigEndian.get l) = l.
Proof.
  induction l as [|b l IH]; [done|]. simpl length. simpl BigEndian.get. simpl BigEndian.put.
  pose proof (get_range l) as Hr. pose proof (u8_range b). unfold len in *.
  f_equal.
  - rewrite Z.div_add_l, Z.div_small by lia. rewrite Z.add_0_r. apply byte_of_Z_u8.
  - rewrite put_high by lia. exact IH.
Qed.

Lemma put_get_len n l : len l = Z.of_nat n -> BigEndian.put n (BigEndian.get l) = l.
Proof. unfold len. intros H. assert (n = length l) as -> by lia. apply put_get. Qed.

#[export] Hint Rewrite len_hex_encode len_base64_encode len_put : len.

Arguments BigEndian.put : simpl never.
Arguments BigEndian.get : simpl never.
