(* ===== verification/Sha256.v ===== *)
(** * SHA-256 and HMAC-SHA-256

    [crypto/sha256] and [crypto/hmac] as the sources use them: one digest of
    the concatenation of everything written.  Words are 32-bit integers kept
    in [Z] and reduced after every addition (FIPS 180-4, RFC 2104). *)

From S2P Require Import Prelude Encoding.

Definition Size : Z := 32.
Definition BlockSize : Z := 64.

Definition add32 (a b : Z) : Z := (a + b) mod 4294967296.

Definition rotr (n x : Z) : Z :=
  Z.lor (Z.shiftr x n) (Z.shiftl x (32 - n) mod 4294967296).

Definition Ch (x y z : Z) : Z := Z.lxor (Z.land x y) (Z.land (Z.lxor x 4294967295) z).
Definition Maj (x y z : Z) : Z := Z.lxor (Z.lxor (Z.land x y) (Z.land x z)) (Z.land y z).
Definition Sigma0 (x : Z) : Z := Z.lxor (Z.lxor (rotr 2 x) (rotr 13 x)) (rotr 22 x).
Definition Sigma1 (x : Z) : Z := Z.lxor (Z.lxor (rotr 6 x) (rotr 11 x)) (rotr 25 x).
Definition sigma0 (x : Z) : Z := Z.lxor (Z.lxor (rotr 7 x) (rotr 18 x)) (Z.shiftr x 3).
Definition sigma1 (x : Z) : Z := Z.lxor (Z.lxor (rotr 17 x) (rotr 19 x)) (Z.shiftr x 10).

(** The constants are the first 32 bits of the fractional parts of the square
    and cube roots of the first primes (FIPS 180-4, 4.2.2 and 5.3.3). *)
Definition primes : list Z :=
  [2; 3; 5; 7; 11; 13; 17; 19; 23; 29; 31; 37; 41; 43; 47; 53; 59; 61; 67; 71; 73; 79; 83; 89; 97; 101; 103; 107; 109;
   113; 127; 131; 137; 139; 149; 151; 157; 163; 167; 173; 179; 181; 191; 193; 197; 199; 211; 223; 227; 229; 233; 239;
   241; 251; 257; 263; 269; 271; 277; 281; 283; 293; 307; 311].

(** The integer cube root, one bit at a time from the top. *)
Fixpoint cube_root (bits : nat) (n r : Z) : Z :=
  match bits with
  | O => r
  | S b => let r' := r + 2 ^ Z.of_nat b in cube_root b n (if r' ^ 3 <=? n then r' else r)
  end.

Definition initial : list Z :=
  Eval vm_compute in map (fun p => Z.sqrt (p * 2 ^ 64) mod 2 ^ 32) (take 8 primes).

Definition round_constants : list Z :=
  Eval vm_compute in map (fun p => cube_root 40 (p * 2 ^ 96) 0 mod 2 ^ 32) primes.

(** The message padded to whole blocks: a one bit, zeros, the bit length. *)
Definition pad (message : bytes) : bytes :=
  let zeros := (55 - len message) mod 64 in
  message ++ [Byte.x80] ++ replicate (Z.to_nat zeros) Byte.x00
    ++ BigEndian.put 8 (8 * len message).

(** The sixteen words of a block. *)
Fixpoint words (n : nat) (block : bytes) : list Z :=
  match n with
  | O => []
  | S n' => BigEndian.get (take 4 block) :: words n' (drop 4 block)
  end.

(** The schedule, as a sliding window of the last sixteen words. *)
Fixpoint schedule (n : nat) (w : list Z) : list Z :=
  match n with
  | O => w
  | S n' =>
      match w with
      | [] => []
      | x :: rest =>
          let next := add32 (add32 (sigma1 (nth 14 w 0)) (nth 9 w 0)) (add32 (sigma0 (nth 1 w 0)) x) in
          x :: schedule n' (rest ++ [next])
      end
  end.

Definition compress_round (st : list Z) (kw : Z * Z) : list Z :=
  match st with
  | [a; b; c; d; e; f; g; h] =>
      let t1 := add32 (add32 (add32 h (Sigma1 e)) (add32 (Ch e f g) (fst kw))) (snd kw) in
      let t2 := add32 (Sigma0 a) (Maj a b c) in
      [add32 t1 t2; a; b; c; add32 d t1; e; f; g]
  | _ => st
  end.

Definition compress (st : list Z) (block : bytes) : list Z :=
  zip_with add32 st
    (fold_left compress_round (combine round_constants (schedule 48 (words 16 block))) st).

Fixpoint blocks (n : nat) (message : bytes) (st : list Z) : list Z :=
  match n with
  | O => st
  | S n' => blocks n' (drop 64 message) (compress st (take 64 message))
  end.

Definition Sum256 (message : bytes) : bytes :=
  let padded := pad message in
  flat_map (BigEndian.put 4) (blocks (Nat.div (length padded) 64) padded initial).

(** [hmac.New(sha256.New, key)] with [message] written to it. *)
Definition hmac_key (key : bytes) : bytes :=
  let k := if len key >? BlockSize then Sum256 key else key in
  k ++ replicate (Z.to_nat (BlockSize - len k)) Byte.x00.

Definition xor_bytes (c : Z) (l : bytes) : bytes := map (fun b => byte_of_Z (Z.lxor (u8 b) c)) l.

Definition HMAC (key message : bytes) : bytes :=
  let k := hmac_key key in
  Sum256 (xor_bytes 92 k ++ Sum256 (xor_bytes 54 k ++ message)).

(** The published test vectors of the two functions. *)
Example Sum256_empty :
  Hex.EncodeToString (Sum256 []) =
  str "e3b0c44298fc1c149afbf4c8996fb92427ae41e4649b934ca495991b7852b855".
Proof. vm_compute. reflexivity. Qed.

Example Sum256_two_blocks :
  Hex.EncodeToString (Sum256 (str "abcdbcdecdefdefgefghfghighijhijkijkljklmklmnlmnomnopnopq")) =
  str "248d6a61d20638b8e5c026930c3e6039a33ce45964ff2167f6ecedd419db06c1".
Proof. vm_compute. reflexivity. Qed.

Example HMAC_rfc4231_2 :
  Hex.EncodeToString (HMAC (str "Jefe") (str "what do ya want for nothing?")) =
  str "5bdcc146bf60754e6a042426089575c75a003f089d2739839dec58b964ec3843".
Proof. vm_compute. reflexivity. Qed.

(** A digest has 32 bytes. *)
Lemma compress_round_length st kw : length st = 8%nat -> length (compress_round st kw) = 8%nat.
Proof. intros. do 9 (destruct st as [|? st]; try done). Qed.

Lemma compress_length st block : length st = 8%nat -> length (compress st block) = 8%nat.
Proof.
  intros H. unfold compress. rewrite length_zip_with.
  assert (forall l s, length s = 8%nat -> length (fold_left compress_round l s) = 8%nat) as Hf.
  { induction l as [|x l IH]; intros s Hs; [done|]. simpl. by apply IH, compress_round_length. }
  by rewrite Hf, H.
Qed.

Lemma blocks_length n : forall m st, length st = 8%nat -> length (blocks n m st) = 8%nat.
Proof. induction n; intros; [done|]. simpl. by apply IHn, compress_length. Qed.

Lemma len_Sum256 m : len (Sum256 m) = 32.
Proof.
  unfold Sum256. pose proof (blocks_length (length (pad m) / 64) (pad m) initial eq_refl) as H.
  destruct (blocks _ _ _) as [|? l]; [done|].
  do 8 (destruct l as [|? l]; try done).
Qed.

Lemma len_HMAC k m : len (HMAC k m) = 32.
Proof. apply len_Sum256. Qed.

#[export] Hint Rewrite len_Sum256 len_HMAC : len.

Arguments Sum256 : simpl never.
Arguments HMAC : simpl never.
