(* ===== verification/Bech32m.v ===== *)
(** * Recovery key text ([protocol/bech32m.go])

    The checksummed [yprec1...] text of a 32-byte recovery key: the bit
    regrouping, the BCH checksum over GF(32) on 32-bit words, the encoder and
    the decoder.  The decoder takes the Unicode case mappings of
    [strings.ToLower] / [strings.ToUpper] on non-ASCII strings as arguments;
    every theorem holds whatever they are. *)

From Stdlib Require Import Btauto.
From S2P Require Import Prelude Encoding.

(** ** Data and operations *)

Definition recoveryHRP : bytes := str "yprec".
Definition bech32mConstant : Z := 0x2bc830a3.
Definition bech32Charset : bytes := str "qpzry9x8gf2tvdw0s3jn54khce6mua7l".

Definition generators : list Z :=
  [0x3b6a57b2; 0x26508e6d; 0x1ea119fa; 0x3d4233dd; 0x2a1462b3].

(** The inner loop: [index] runs over the generators. *)
Fixpoint add_generators (top index : Z) (gens : list Z) (checksum : Z) : Z :=
  match gens with
  | [] => checksum
  | generator :: rest =>
      add_generators top (index + 1) rest
        (if Z.land (Z.shiftr top index) 1 =? 1 then Z.lxor checksum generator else checksum)
  end.

Definition polymod_step (checksum : Z) (value : byte) : Z :=
  let top := Z.shiftr checksum 25 in
  let checksum := Z.lxor (wrap_u32 (Z.shiftl (Z.land checksum 0x1ffffff) 5)) (u8 value) in
  add_generators top 0 generators checksum.

Definition bech32Polymod (values : bytes) : Z := fold_left polymod_step values 1.

Definition expandHRP (hrp : bytes) : bytes :=
  map (fun value => byte_of_Z (Z.shiftr (u8 value) 5)) hrp ++ [byte_of_Z 0] ++
  map (fun value => byte_of_Z (Z.land (u8 value) 31)) hrp.

(** The loop [for bitCount >= toBits]; [fuel] bounds its iterations and
    [bitCount] of them are enough. *)
Fixpoint emit (fuel : nat) (toBits maxValue accumulator bitCount : Z) (output : bytes) : Z * bytes :=
  match fuel with
  | O => (bitCount, output)
  | S fuel =>
      if toBits <=? bitCount then
        let bitCount := bitCount - toBits in
        emit fuel toBits maxValue accumulator bitCount
          (output ++ [byte_of_Z (Z.land (Z.shiftr accumulator bitCount) maxValue)])
      else (bitCount, output)
  end.

Fixpoint convert_loop (fromBits toBits : Z) (input : bytes) (accumulator bitCount : Z)
    (output : bytes) : result (Z * Z * bytes) :=
  let maxValue := wrap_u32 (Z.shiftl 1 toBits) - 1 in
  let maxAccumulator := wrap_u32 (Z.shiftl 1 (fromBits + toBits - 1)) - 1 in
  match input with
  | [] => Ok (accumulator, bitCount, output)
  | value :: rest =>
      if negb (Z.shiftr (u8 value) fromBits =? 0) then fail "input value exceeds source bit width"
      else
        let accumulator :=
          Z.land (Z.lor (wrap_u32 (Z.shiftl accumulator fromBits)) (u8 value)) maxAccumulator in
        let bitCount := bitCount + fromBits in
        let '(bitCount, output) :=
          emit (Z.to_nat bitCount) toBits maxValue accumulator bitCount output in
        convert_loop fromBits toBits rest accumulator bitCount output
  end.

Definition convertBits (input : bytes) (fromBits toBits : Z) (pad : bool) : result bytes :=
  let maxValue := wrap_u32 (Z.shiftl 1 toBits) - 1 in
  let! (accumulator, bitCount, output) := convert_loop fromBits toBits input 0 0 [] in
  let last := Z.land (wrap_u32 (Z.shiftl accumulator (toBits - bitCount))) maxValue in
  if pad then
    Ok (if 0 <? bitCount then output ++ [byte_of_Z last] else output)
  else if (fromBits <=? bitCount) || negb (last =? 0) then fail "invalid zero padding"
  else Ok output.

(** [checksum\[index\] = byte((polymod >> (5 * (5 - index))) & 31)]. *)
Definition checksum_bytes (polymod : Z) : bytes :=
  map (fun index => byte_of_Z (Z.land (Z.shiftr polymod (5 * (5 - index))) 31)) [0; 1; 2; 3; 4; 5].

(** [bech32Charset\[value\]]. *)
Definition charset_at (value : byte) : byte :=
  nth (Z.to_nat (u8 value)) bech32Charset inhabitant.

Definition EncodeRecoveryKey (key : bytes) : result bytes :=
  if negb (len key =? 32) then fail "recovery key must be 32 bytes"
  else
    let! data := convertBits key 8 5 true in
    let values := expandHRP recoveryHRP ++ data ++ replicate 6 (byte_of_Z 0) in
    let polymod := Z.lxor (bech32Polymod values) bech32mConstant in
    let encoded := map charset_at (data ++ checksum_bytes polymod) in
    Ok (recoveryHRP ++ str "1" ++ encoded).

(** [strings.LastIndexByte] and [strings.IndexByte]; -1 when absent. *)
Fixpoint LastIndexByte (s : bytes) (c : byte) : Z :=
  match s with
  | [] => -1
  | b :: rest =>
      let i := LastIndexByte rest c in
      if 0 <=? i then i + 1 else if bool_decide (b = c) then 0 else -1
  end.

Fixpoint IndexByte (s : bytes) (c : byte) : Z :=
  match s with
  | [] => -1
  | b :: rest =>
      if bool_decide (b = c) then 0
      else let i := IndexByte rest c in if i <? 0 then -1 else i + 1
  end.

Arguments IndexByte : simpl never.
Arguments charset_at : simpl never.

Fixpoint charset_values (s : bytes) : result bytes :=
  match s with
  | [] => Ok []
  | character :: rest =>
      let index := IndexByte bech32Charset character in
      if index <? 0 then fail "invalid recovery key character"
      else let! values := charset_values rest in Ok (byte_of_Z index :: values)
  end.

Section decoder.
Context (unicode_lower unicode_upper : bytes -> bytes).

Definition DecodeRecoveryKey (encoded : bytes) : result bytes :=
  if negb (bool_decide (encoded = Ascii.ToLower unicode_lower encoded)) &&
     negb (bool_decide (encoded = Ascii.ToUpper unicode_upper encoded)) then
    fail "mixed-case recovery key"
  else
    let encoded := Ascii.ToLower unicode_lower encoded in
    let separator := LastIndexByte encoded (byte_of_Z 49) in
    if (separator <=? 0) || (len encoded <? separator + 7) then fail "invalid recovery key format"
    else if negb (bool_decide (slice encoded 0 separator = recoveryHRP)) then
      Err (Errorf_s "unexpected recovery key prefix %q" (slice encoded 0 separator))
    else
      let! values := charset_values (slice encoded (separator + 1) (len encoded)) in
      if negb (bech32Polymod (expandHRP recoveryHRP ++ values) =? bech32mConstant) then
        fail "recovery key checksum mismatch"
      else
        let! decoded := convertBits (slice values 0 (len values - 6)) 5 8 false in
        if negb (len decoded =? 32) then fail "recovery key payload must be 32 bytes"
        else Ok decoded.

End decoder.

(** ** Regrouping bits

    The number a sequence of [w]-bit digits stands for, most significant
    digit first. *)

Definition digits_value (w : Z) (l : bytes) : Z := fold_left (fun v b => v * 2 ^ w + u8 b) l 0.

Definition digits_ok (w : Z) (l : bytes) : Prop := Forall (fun b => u8 b < 2 ^ w) l.

Lemma digits_ok_snoc w l b : digits_ok w (l ++ [b]) <-> digits_ok w l /\ u8 b < 2 ^ w.
Proof. unfold digits_ok. by rewrite Forall_app, Forall_singleton. Qed.

Lemma digits_value_snoc w l b : digits_value w (l ++ [b]) = digits_value w l * 2 ^ w + u8 b.
Proof. unfold digits_value. by rewrite fold_left_app. Qed.

Lemma digits_value_shift w l v :
  0 <= w -> fold_left (fun v b => v * 2 ^ w + u8 b) l v = v * 2 ^ (w * len l) + digits_value w l.
Proof.
  intros Hw. unfold digits_value. induction l as [|b l IH] using rev_ind.
  - simpl. change (len []) with 0. rewrite Z.mul_0_r. lia.
  - rewrite !fold_left_app. simpl. rewrite IH. autorewrite with len. change (len []) with 0.
    pose proof (len_nonneg l).
    replace (w * (len l + (1 + 0))) with (w * len l + w) by lia.
    rewrite Z.pow_add_r by (try apply Z.mul_nonneg_nonneg; lia). ring.
Qed.

Lemma digits_value_cons w b l :
  0 <= w -> digits_value w (b :: l) = u8 b * 2 ^ (w * len l) + digits_value w l.
Proof. intros. unfold digits_value at 1. simpl. by rewrite digits_value_shift. Qed.

Lemma digits_value_range w l : 0 <= w -> digits_ok w l -> 0 <= digits_value w l < 2 ^ (w * len l).
Proof.
  intros Hw. induction l as [|b l IH] using rev_ind; intros Hok.
  - change (len []) with 0. by rewrite Z.mul_0_r.
  - apply digits_ok_snoc in Hok as [Hok Hb].
    rewrite digits_value_snoc. autorewrite with len. change (len []) with 0.
    replace (w * (len l + (1 + 0))) with (w * len l + w) by lia.
    pose proof (len_nonneg l). rewrite Z.pow_add_r by (try apply Z.mul_nonneg_nonneg; lia).
    specialize (IH Hok). pose proof (u8_range b).
    assert (digits_value w l * 2 ^ w <= (2 ^ (w * len l) - 1) * 2 ^ w) by (apply Z.mul_le_mono_nonneg_r; lia).
    assert (0 <= digits_value w l * 2 ^ w) by (apply Z.mul_nonneg_nonneg; lia). lia.
Qed.

Lemma digits_value_inj w l l' :
  0 <= w -> digits_ok w l -> digits_ok w l' -> len l = len l' ->
  digits_value w l = digits_value w l' -> l = l'.
Proof.
  intros Hw. revert l'. induction l as [|b l IH] using rev_ind; intros l' Hok Hok' Hlen Hv.
  - destruct l'; [done|]. unfold len in Hlen. simpl in Hlen. lia.
  - destruct l' as [|b' l' _] using rev_ind; [unfold len in Hlen; rewrite length_app in Hlen; simpl in Hlen; lia|].
    apply digits_ok_snoc in Hok as [Hok Hb], Hok' as [Hok' Hb']. autorewrite with len in Hlen.
    rewrite !digits_value_snoc in Hv.
    pose proof (u8_range b). pose proof (u8_range b').
    assert (0 < 2 ^ w) by (apply Z.pow_pos_nonneg; lia).
    assert (Hbb : u8 b = u8 b').
    { apply (f_equal (fun x => x mod 2 ^ w)) in Hv.
      by rewrite !(Z.add_comm (_ * _)), !Z.mod_add, !Z.mod_small in Hv by lia. }
    rewrite (IH l'); [by rewrite (u8_inj b b')|done..|lia|nia].
Qed.

Lemma land_ones_mod z n : 0 <= n < 32 -> Z.land z (wrap_u32 (Z.shiftl 1 n) - 1) = z mod 2 ^ n.
Proof.
  intros. rewrite Z.shiftl_1_l. unfold wrap_u32. rewrite Z.mod_small.
  - rewrite <- Z.land_ones by lia. by rewrite Z.ones_equiv, Z.sub_1_r.
  - split; [lia|]. apply Z.pow_lt_mono_r; lia.
Qed.

Lemma wrap_mod z n : 0 <= n <= 32 -> wrap_u32 z mod 2 ^ n = z mod 2 ^ n.
Proof.
  intros. unfold wrap_u32. replace (2 ^ 32) with (2 ^ n * 2 ^ (32 - n)).
  - rewrite Z.rem_mul_r by lia. rewrite Z.mul_comm, Z.mod_add by lia. apply Z.mod_mod. lia.
  - rewrite <- Z.pow_add_r by lia. f_equal. lia.
Qed.

(** Taking a window of bits out of the low bits of a number. *)
Lemma window_mod v n k t :
  0 <= k -> 0 <= t -> k + t <= n -> (v mod 2 ^ n) / 2 ^ k mod 2 ^ t = v / 2 ^ k mod 2 ^ t.
Proof.
  intros. replace n with (k + (t + (n - k - t))) by lia.
  rewrite (Z.pow_add_r 2 k), Z.pow_add_r by lia.
  rewrite Z.rem_mul_r by lia. rewrite Z.mul_comm, Z.div_add by lia.
  rewrite Z.div_small by (apply Z.mod_pos_bound; lia). rewrite Z.add_0_l.
  rewrite Z.rem_mul_r by lia. rewrite Z.mul_comm, Z.mod_add by lia. apply Z.mod_mod. lia.
Qed.

Lemma land_low x b f : 0 <= f -> 0 <= b < 2 ^ f -> Z.land (x * 2 ^ f) b = 0.
Proof.
  intros Hf Hb. apply Z.bits_inj'; intros n Hn; rewrite Z.land_spec, Z.bits_0.
  rewrite <- (Z.mod_small b (2 ^ f)) by done.
  destruct (Z.ltb_spec n f); [by rewrite Z.mul_pow2_bits_low by done|].
  by rewrite Z.mod_pow2_bits_high, andb_false_r by lia.
Qed.

Lemma lxor_low x b f : 0 <= f -> 0 <= b < 2 ^ f -> Z.lxor (x * 2 ^ f) b = x * 2 ^ f + b.
Proof. intros. symmetry. by apply Z.add_nocarry_lxor, land_low. Qed.

Lemma lor_low x b f : 0 <= f -> 0 <= b < 2 ^ f -> Z.lor (x * 2 ^ f) b = x * 2 ^ f + b.
Proof. intros. by rewrite <- lxor_low, Z.lxor_lor by (done || by apply land_low). Qed.

(** One accumulation step, computed modulo the accumulator's width. *)
Lemma accumulate v b f n :
  0 < f <= 8 -> 0 <= n <= 32 -> f <= n -> 0 <= b < 2 ^ f ->
  Z.lor (wrap_u32 (Z.shiftl (v mod 2 ^ n) f)) b mod 2 ^ n = (v * 2 ^ f + b) mod 2 ^ n.
Proof.
  intros Hf Hn Hfn Hb. rewrite Z.shiftl_mul_pow2 by lia.
  assert (Hw : wrap_u32 (v mod 2 ^ n * 2 ^ f) = (v mod 2 ^ n mod 2 ^ (32 - f)) * 2 ^ f).
  { unfold wrap_u32. replace (2 ^ 32) with (2 ^ (32 - f) * 2 ^ f) by (rewrite <- Z.pow_add_r by lia; f_equal; lia).
    by rewrite Z.mul_mod_distr_r by lia. }
  rewrite Hw, lor_low by lia. rewrite <- Hw.
  rewrite <- Z.add_mod_idemp_l, wrap_mod, Z.mul_mod_idemp_l, Z.add_mod_idemp_l by lia. done.
Qed.

Section regroup.
Context (fromBits toBits : Z).
Hypothesis widths : 0 < fromBits <= 8 /\ 0 < toBits <= 8.

Let maxValue := wrap_u32 (Z.shiftl 1 toBits) - 1.

(** After some input worth [v] in [n] digits: the accumulator keeps the low
    bits of [v], the output holds all of [v] but the last [bitCount] bits. *)
Definition regrouped (v n accumulator bitCount : Z) (output : bytes) : Prop :=
  accumulator = v mod 2 ^ (fromBits + toBits - 1) /\ 0 <= bitCount /\
  digits_ok toBits output /\ digits_value toBits output = v / 2 ^ bitCount /\
  toBits * len output + bitCount = fromBits * n.

Lemma emit_regrouped fuel : forall v n acc bitCount output bitCount' output',
  (Z.to_nat bitCount <= fuel)%nat -> bitCount <= fromBits + toBits - 1 ->
  regrouped v n acc bitCount output ->
  emit fuel toBits maxValue acc bitCount output = (bitCount', output') ->
  regrouped v n acc bitCount' output' /\ bitCount' < toBits.
Proof.
  induction fuel as [|fuel IH]; simpl; intros v n acc bc out bc' out' Hf Hb Hr He.
  - injection He as <- <-. destruct Hr as (?&?&?). split; [done|lia].
  - destruct (Z.leb_spec toBits bc); [|injection He as <- <-; split; [done|lia]].
    eapply IH in He; [done|lia|lia|].
    destruct Hr as (Ha & H0 & Hok & Hv & Hlen).
    unfold maxValue. rewrite land_ones_mod, Z.shiftr_div_pow2 by lia.
    subst acc. rewrite window_mod by lia.
    assert (0 < 2 ^ toBits <= 256) by (split; [lia|]; change 256 with (2 ^ 8); apply Z.pow_le_mono_r; lia).
    pose proof (Z.mod_pos_bound (v / 2 ^ (bc - toBits)) (2 ^ toBits)).
    split_and!; [done|lia| | |].
    + apply digits_ok_snoc; split; [done|]. rewrite u8_of_small; lia.
    + rewrite digits_value_snoc, u8_of_small, Hv by lia.
      replace bc with ((bc - toBits) + toBits) at 1 by lia.
      rewrite Z.pow_add_r, <- Z.div_div by lia.
      rewrite (Z.div_mod (v / 2 ^ (bc - toBits)) (2 ^ toBits)) at 3 by lia. lia.
    + autorewrite with len. change (len []) with 0. lia.
Qed.

Lemma convert_loop_regrouped input : forall v n acc bitCount output acc' bitCount' output',
  bitCount < toBits -> regrouped v n acc bitCount output ->
  convert_loop fromBits toBits input acc bitCount output = Ok (acc', bitCount', output') ->
  digits_ok fromBits input /\ bitCount' < toBits /\
  regrouped (v * 2 ^ (fromBits * len input) + digits_value fromBits input) (n + len input) acc' bitCount' output'.
Proof.
  induction input as [|b input IH]; intros v n acc bc out acc' bc' out' Hbc Hr H.
  - simpl in H. invert_ok. simplify_eq. split; [constructor|]. split; [done|].
    change (len []) with 0. by rewrite Z.mul_0_r, Z.mul_1_r, !Z.add_0_r.
  - cbn [convert_loop] in H. cbv zeta in H.
    destruct (negb _) eqn:Eb; [done|]. bools. rewrite Z.shiftr_div_pow2 in Eb by lia.
    pose proof (u8_range b). assert (0 < 2 ^ fromBits) by lia.
    assert (Hb : u8 b < 2 ^ fromBits) by (apply Z.div_small_iff in Eb; lia).
    destruct (emit _ _ _ _ _ _) as [bc1 out1] eqn:Ee.
    set (acc1 := Z.land _ _) in *.
    assert (Hacc : acc1 = (v * 2 ^ fromBits + u8 b) mod 2 ^ (fromBits + toBits - 1)).
    { unfold acc1. destruct Hr as (-> & _). rewrite land_ones_mod by lia. apply accumulate; lia. }
    apply (emit_regrouped _ (v * 2 ^ fromBits + u8 b) (n + 1)) in Ee as [Hr1 Hbc1]; [|lia..|].
    + apply (IH (v * 2 ^ fromBits + u8 b) (n + 1)) in H as (Hok & Hlt & Hfin); [|done..].
      split; [by constructor|]. split; [done|].
      autorewrite with len. rewrite digits_value_cons by lia.
      replace (n + (1 + len input)) with (n + 1 + len input) by lia.
      replace (fromBits * (1 + len input)) with (fromBits + fromBits * len input) by lia.
      pose proof (len_nonneg input). rewrite Z.pow_add_r by (try apply Z.mul_nonneg_nonneg; lia).
      replace (v * (2 ^ fromBits * 2 ^ (fromBits * len input)) +
               (u8 b * 2 ^ (fromBits * len input) + digits_value fromBits input))
        with ((v * 2 ^ fromBits + u8 b) * 2 ^ (fromBits * len input) + digits_value fromBits input) by ring.
      done.
    + destruct Hr as (_ & Hn0 & Hok & Hv & Hlen). split_and!; [done|lia|done| |lia].
      rewrite Hv, (Z.add_comm bc), Z.pow_add_r, <- Z.div_div, Z.div_add_l, (Z.div_small (u8 b)) by lia.
      f_equal. lia.
Qed.

Lemma convert_loop_total input : forall acc bc out,
  digits_ok fromBits input -> exists r, convert_loop fromBits toBits input acc bc out = Ok r.
Proof.
  induction input as [|b input IH]; intros acc bc out Hok; cbn [convert_loop]; cbv zeta; [eauto|].
  apply Forall_cons in Hok as [Hb Hok]. pose proof (u8_range b).
  rewrite Z.shiftr_div_pow2, Z.div_small by lia. simpl.
  destruct (emit _ _ _ _ _ _). by apply IH.
Qed.

(** The state the loop ends in, and the bits left over. *)
Lemma convert_loop_final input acc bc out :
  convert_loop fromBits toBits input 0 0 [] = Ok (acc, bc, out) ->
  let v := digits_value fromBits input in
  digits_ok fromBits input /\ 0 <= bc < toBits /\ digits_ok toBits out /\
  v = digits_value toBits out * 2 ^ bc + v mod 2 ^ bc /\
  toBits * len out + bc = fromBits * len input /\
  Z.land (wrap_u32 (Z.shiftl acc (toBits - bc))) maxValue = v mod 2 ^ bc * 2 ^ (toBits - bc).
Proof.
  intros Hloop v.
  apply (convert_loop_regrouped input 0 0) in Hloop as (Hin & Hbc & Hacc & H0 & Hok & Hv & Hlen); [|lia|].
  2: { split_and!; [by rewrite Z.mod_0_l by lia | lia | constructor | done | change (len []) with 0; lia]. }
  rewrite Z.mul_0_l, Z.add_0_l in *. fold v in Hacc, Hv.
  split_and!; try done; [|].
  - rewrite Hv. rewrite (Z.div_mod v (2 ^ bc)) at 1 by lia. lia.
  - unfold maxValue. rewrite land_ones_mod, Z.shiftl_mul_pow2, wrap_mod by lia. subst acc.
    replace (2 ^ toBits) with (2 ^ bc * 2 ^ (toBits - bc)) by (rewrite <- Z.pow_add_r by lia; f_equal; lia).
    rewrite Z.mul_mod_distr_r by lia. f_equal.
    pose proof (window_mod v (fromBits + toBits - 1) 0 bc) as Hwin.
    rewrite !Z.div_1_r in Hwin. apply Hwin; lia.
Qed.

(** With padding the result is the same number, shifted to a whole number of
    digits. *)
Lemma convertBits_pad input :
  digits_ok fromBits input ->
  exists output rest, convertBits input fromBits toBits true = Ok output /\ digits_ok toBits output /\
    0 <= rest < toBits /\ toBits * len output = fromBits * len input + rest /\
    digits_value toBits output = digits_value fromBits input * 2 ^ rest.
Proof.
  intros Hin. unfold convertBits.
  destruct (convert_loop_total input 0 0 [] Hin) as [[[acc bc] out] Hloop]. rewrite Hloop. simpl.
  apply convert_loop_final in Hloop as (_ & Hbc & Hok & Hv & Hlen & Hlast).
  unfold maxValue in Hlast. rewrite Hlast. set (v := digits_value fromBits input) in *.
  pose proof (Z.mod_pos_bound v (2 ^ bc) ltac:(lia)) as Hm.
  destruct (Z.ltb_spec 0 bc).
  - assert (Hp : 2 ^ toBits = 2 ^ bc * 2 ^ (toBits - bc)) by (rewrite <- Z.pow_add_r by lia; f_equal; lia).
    assert (2 ^ toBits <= 256) by (change 256 with (2 ^ 8); apply Z.pow_le_mono_r; lia).
    assert (0 <= v mod 2 ^ bc * 2 ^ (toBits - bc) < 2 ^ toBits) by nia.
    eexists _, (toBits - bc). split; [done|]. split_and!; [|lia|lia| |].
    + apply digits_ok_snoc; split; [done|]. rewrite u8_of_small; lia.
    + autorewrite with len. change (len []) with 0. lia.
    + rewrite digits_value_snoc, u8_of_small, Hp by lia. rewrite Hv at 2. ring.
  - assert (bc = 0) as -> by lia. eexists _, 0. split; [done|]. split_and!; [done|lia|lia|lia|].
    rewrite Hv at 1. rewrite Z.mod_1_r. lia.
Qed.

(** Without padding it is the same number, and the conversion succeeds exactly
    when the bits left over are fewer than a source digit and zero. *)
Lemma convertBits_nopad input output :
  convertBits input fromBits toBits false = Ok output <->
  exists rest, digits_ok fromBits input /\ digits_ok toBits output /\
    0 <= rest < toBits /\ rest < fromBits /\ toBits * len output + rest = fromBits * len input /\
    digits_value fromBits input = digits_value toBits output * 2 ^ rest.
Proof.
  split.
  - unfold convertBits. intros H. invert_ok. destruct a as [[acc bc] out].
    apply convert_loop_final in Hok as (Hin & Hbc & Hok & Hv & Hlen & Hlast).
    unfold maxValue in Hlast. rewrite Hlast in H. set (v := digits_value fromBits input) in *.
    destruct (_ || _) eqn:E; invert_ok. bools.
    assert (v mod 2 ^ bc = 0) as Hz
      by (match goal with E : _ * _ = 0 |- _ => apply Z.mul_eq_0 in E; lia end).
    exists bc. split_and!; [done|done|lia..].
  - intros (rest & Hin & Hok & Hr & Hrf & Hlen & Hv). unfold convertBits.
    destruct (convert_loop_total input 0 0 [] Hin) as [[[acc bc] out] Hloop]. rewrite Hloop. simpl.
    apply convert_loop_final in Hloop as (_ & Hbc & Hok' & Hv' & Hlen' & Hlast).
    unfold maxValue in Hlast. rewrite Hlast. set (v := digits_value fromBits input) in *.
    assert (Hlo : len out = len output) by nia. assert (bc = rest) as -> by nia.
    assert (Hz : v mod 2 ^ rest = 0) by (rewrite Hv; apply Z.mod_mul; lia).
    rewrite Hz. destruct (Z.leb_spec fromBits rest); [lia|]. simpl.
    f_equal. apply (digits_value_inj toBits); [lia|done|done|done|]. nia.
Qed.

End regroup.

(** Identities of exclusive or, bit by bit. *)
Ltac lxor_ring :=
  apply Z.bits_inj; intros ?n; rewrite ?Z.lxor_spec, ?Z.bits_0; btauto.

(** ** The checksum is linear

    The generators a 5-bit value selects, as one function of that value. *)

Definition feedback (top : Z) : Z := add_generators top 0 generators 0.

Lemma add_generators_xor top gens : forall index c,
  add_generators top index gens c = Z.lxor c (add_generators top index gens 0).
Proof.
  induction gens as [|g gens IH]; intros index c; simpl; [by rewrite Z.lxor_0_r|].
  destruct (_ =? 1); [rewrite (IH _ (Z.lxor c g)), (IH _ (Z.lxor 0 g))|rewrite (IH _ c); done].
  lxor_ring.
Qed.

Lemma land_1_testbit z i : 0 <= i -> (Z.land (Z.shiftr z i) 1 =? 1) = Z.testbit z i.
Proof.
  intros. rewrite <- (Z.add_0_l i) at 2. rewrite <- Z.shiftr_spec by lia.
  change 1 with (Z.ones 1). rewrite Z.land_ones by lia. rewrite Z.bit0_odd.
  change (2 ^ 1) with 2. rewrite Zmod_odd. by destruct (Z.odd _).
Qed.

Lemma add_generators_linear a b gens : forall index,
  0 <= index ->
  add_generators (Z.lxor a b) index gens 0 =
  Z.lxor (add_generators a index gens 0) (add_generators b index gens 0).
Proof.
  induction gens as [|g gens IH]; intros index Hi; simpl; [done|].
  rewrite !land_1_testbit, Z.lxor_spec by done.
  destruct (Z.testbit a index), (Z.testbit b index); simpl;
    rewrite ?(add_generators_xor _ _ _ (Z.lxor 0 g)), ?IH by lia; lxor_ring.
Qed.

(** One step on numbers. *)
Definition step (c v : Z) : Z :=
  Z.lxor (Z.lxor (Z.shiftl (Z.land c 0x1ffffff) 5) v) (feedback (Z.shiftr c 25)).

Lemma polymod_step_step c b : polymod_step c b = step c (u8 b).
Proof.
  unfold polymod_step, step, feedback. rewrite add_generators_xor. f_equal.
  change 0x1ffffff with (Z.ones 25). rewrite Z.land_ones, Z.shiftl_mul_pow2 by lia.
  unfold wrap_u32. rewrite Z.mod_small; [done|].
  pose proof (Z.mod_pos_bound c (2 ^ 25) eq_refl). lia.
Qed.

Lemma step_linear c d v w : step (Z.lxor c d) (Z.lxor v w) = Z.lxor (step c v) (step d w).
Proof.
  unfold step. rewrite Z.shiftr_lxor. unfold feedback. rewrite add_generators_linear by done.
  replace (Z.land (Z.lxor c d) 0x1ffffff) with (Z.lxor (Z.land c 0x1ffffff) (Z.land d 0x1ffffff)).
  2: { apply Z.bits_inj. intros n. rewrite !Z.lxor_spec, !Z.land_spec, Z.lxor_spec.
       by destruct (Z.testbit c n), (Z.testbit d n), (Z.testbit 0x1ffffff n). }
  rewrite Z.shiftl_lxor. lxor_ring.
Qed.

Definition steps (l : list Z) (c : Z) : Z := fold_left step l c.

Lemma steps_linear l : forall l' c d, length l = length l' ->
  steps (zip_with Z.lxor l l') (Z.lxor c d) = Z.lxor (steps l c) (steps l' d).
Proof.
  unfold steps. induction l as [|v l IH]; intros [|w l'] c d Hl; simpl in *; try done.
  rewrite step_linear. apply IH. lia.
Qed.

Lemma bech32Polymod_steps l : bech32Polymod l = steps (map u8 l) 1.
Proof.
  unfold bech32Polymod, steps. generalize 1 as c.
  induction l as [|b l IH]; intros c; simpl; [done|]. by rewrite polymod_step_step, IH.
Qed.

Lemma steps_app l l' c : steps (l ++ l') c = steps l' (steps l c).
Proof. apply fold_left_app. Qed.

Lemma feedback_range t : 0 <= t < 32 -> 0 <= feedback t < 2 ^ 30.
Proof.
  intros. assert (Hall : forallb (fun i => (0 <=? feedback i) && (feedback i <? 2 ^ 30)) (seqZ 0 32) = true) by by vm_compute.
  rewrite forallb_forall in Hall. specialize (Hall t). rewrite <- list_elem_of_In, elem_of_seqZ in Hall.
  specialize (Hall ltac:(lia)). bools. done.
Qed.

Lemma lxor_bound a b n : 0 <= n -> 0 <= a < 2 ^ n -> 0 <= b < 2 ^ n -> 0 <= Z.lxor a b < 2 ^ n.
Proof.
  intros Hn Ha Hb. assert (H : Z.lxor a b = Z.lxor a b mod 2 ^ n).
  { apply Z.bits_inj'. intros k Hk. destruct (Z.ltb_spec k n); [by rewrite Z.mod_pow2_bits_low|].
    rewrite Z.mod_pow2_bits_high, Z.lxor_spec by lia.
    rewrite <- (Z.mod_small a (2 ^ n)), <- (Z.mod_small b (2 ^ n)) by lia.
    by rewrite !Z.mod_pow2_bits_high by lia. }
  rewrite H. apply Z.mod_pos_bound. lia.
Qed.

Lemma shiftr25_range c : 0 <= c < 2 ^ 30 -> 0 <= Z.shiftr c 25 < 32.
Proof. intros. rewrite Z.shiftr_div_pow2 by lia. Z.div_mod_to_equations; lia. Qed.

Lemma step_range c v : 0 <= c < 2 ^ 30 -> 0 <= v < 2 ^ 30 -> 0 <= step c v < 2 ^ 30.
Proof.
  intros. unfold step. repeat apply lxor_bound; try lia.
  - change 0x1ffffff with (Z.ones 25). rewrite Z.land_ones, Z.shiftl_mul_pow2 by lia.
    pose proof (Z.mod_pos_bound c (2 ^ 25) eq_refl). lia.
  - by apply feedback_range, shiftr25_range.
Qed.

Lemma steps_range l c :
  Forall (fun v => 0 <= v < 2 ^ 30) l -> 0 <= c < 2 ^ 30 -> 0 <= steps l c < 2 ^ 30.
Proof.
  unfold steps. revert c. induction l as [|v l IH]; simpl; intros c Hl Hc; [done|].
  apply Forall_cons in Hl as [Hv Hl]. apply IH; [done|]. by apply step_range.
Qed.

(** Without feedback a step appends a digit. *)
Lemma step_small c v : 0 <= c < 2 ^ 25 -> 0 <= v < 32 -> step c v = c * 32 + v.
Proof.
  intros Hc Hv. unfold step. rewrite Z.shiftr_div_pow2, Z.div_small by lia.
  change (feedback 0) with 0. rewrite Z.lxor_0_r.
  change 0x1ffffff with (Z.ones 25). rewrite Z.land_ones, Z.mod_small, Z.shiftl_mul_pow2 by lia.
  apply (lxor_low c v 5); lia.
Qed.

(** The number six 5-bit digits stand for. *)
Lemma steps_from_zero c : length c = 6%nat -> digits_ok 5 c ->
  steps (map u8 c) 0 = digits_value 5 c.
Proof.
  intros Hlen Hok.
  assert (Hgen : forall l d, (length l <= 6)%nat -> digits_ok 5 l ->
            0 <= d < 2 ^ (30 - 5 * len l) -> steps (map u8 l) d = d * 2 ^ (5 * len l) + digits_value 5 l).
  { induction l as [|b l IH]; intros d Hl Hokl Hd.
    - unfold digits_value, steps. simpl. change (len []) with 0. rewrite Z.mul_0_r. lia.
    - apply Forall_cons in Hokl as [Hb Hokl]. pose proof (u8_range b). simpl in Hl.
      autorewrite with len in *. simpl map. change (steps (u8 b :: map u8 l) d) with (steps (map u8 l) (step d (u8 b))).
      assert (d < 2 ^ 25).
      { eapply Z.lt_le_trans; [apply Hd|]. apply Z.pow_le_mono_r; unfold len in *; lia. }
      rewrite step_small, digits_value_cons by lia. rewrite IH; [|lia|done|].
      + replace (5 * (1 + len l)) with (5 + 5 * len l) by lia.
        pose proof (len_nonneg l). rewrite Z.pow_add_r by lia. ring.
      + replace (30 - 5 * len l) with (30 - 5 * (1 + len l) + 5) by lia.
        unfold len in *. rewrite Z.pow_add_r by lia. change (2 ^ 5) with 32. lia. }
  rewrite Hgen; [lia|lia|done|]. unfold len. rewrite Hlen. simpl. lia.
Qed.

(** Appending a six-digit checksum to the checked values shifts the result of
    six zero digits by the number the checksum stands for. *)
Lemma polymod_checksum values c : length c = 6%nat -> digits_ok 5 c ->
  bech32Polymod (values ++ c) =
  Z.lxor (bech32Polymod (values ++ replicate 6 (byte_of_Z 0))) (digits_value 5 c).
Proof.
  intros Hlen Hok. rewrite !bech32Polymod_steps, !map_app, !steps_app, <- steps_from_zero by done.
  set (s := steps (map u8 values) 1).
  assert (Hz : map u8 (replicate 6 (byte_of_Z 0)) = replicate 6 0) by done. rewrite Hz.
  rewrite <- steps_linear by (by rewrite length_map, Hlen). rewrite Z.lxor_0_r. f_equal.
  assert (Hzip : forall l n, length l = n -> zip_with Z.lxor (replicate n 0) l = l).
  { induction l as [|x l IH]; intros [|n] Hn; simpl in *; try done. f_equal. apply IH. lia. }
  symmetry. apply Hzip. by rewrite length_map.
Qed.

Lemma bech32Polymod_range values : 0 <= bech32Polymod values < 2 ^ 30.
Proof.
  rewrite bech32Polymod_steps. apply steps_range; [|lia].
  induction values as [|b l IH]; simpl; constructor; [|done]. pose proof (u8_range b). lia.
Qed.

(** The six digits written for a 30-bit number stand for that number. *)
Lemma checksum_bytes_spec p : 0 <= p < 2 ^ 30 ->
  length (checksum_bytes p) = 6%nat /\ digits_ok 5 (checksum_bytes p) /\ digits_value 5 (checksum_bytes p) = p.
Proof.
  intros Hp. unfold checksum_bytes.
  assert (Hd : forall i, 0 <= i <= 5 -> Z.land (Z.shiftr p (5 * (5 - i))) 31 = p / 2 ^ (5 * (5 - i)) mod 32).
  { intros. change 31 with (Z.ones 5). rewrite Z.land_ones, Z.shiftr_div_pow2 by lia. done. }
  simpl map. rewrite !Hd by lia. clear Hd. split; [done|].
  assert (Hm : forall z, 0 <= z mod 32 < 32) by (intros; by apply Z.mod_pos_bound).
  assert (Hu : forall z, u8 (byte_of_Z (z mod 32)) = z mod 32).
  { intros z. apply u8_of_small. specialize (Hm z). lia. }
  split.
  - unfold digits_ok. rewrite !Forall_cons, !Hu. split_and!; try apply Hm. apply Forall_nil. done.
  - unfold digits_value. simpl fold_left. rewrite !Hu. Z.div_mod_to_equations; lia.
Qed.

(** A single changed value changes the result: a step is injective. *)
Lemma step_zero_inj d : 0 <= d < 2 ^ 30 -> step d 0 = 0 -> d = 0.
Proof.
  intros Hd Hz. unfold step in Hz. rewrite Z.lxor_0_r in Hz. apply Z.lxor_eq in Hz.
  change 0x1ffffff with (Z.ones 25) in Hz. rewrite Z.land_ones, Z.shiftl_mul_pow2 in Hz by lia.
  pose proof (shiftr25_range d Hd) as Ht.
  assert (Hlow : feedback (Z.shiftr d 25) mod 32 = 0).
  { rewrite <- Hz. change (2 ^ 5) with 32. by rewrite Z.mod_mul. }
  assert (Hall : forallb (fun t => implb (feedback t mod 32 =? 0) (t =? 0)) (seqZ 0 32) = true) by by vm_compute.
  rewrite forallb_forall in Hall. specialize (Hall (Z.shiftr d 25)).
  rewrite <- list_elem_of_In, elem_of_seqZ, Hlow in Hall. specialize (Hall ltac:(lia)). rewrite Z.eqb_refl in Hall. cbn [implb] in Hall. bools.
  rewrite Hall in Hz. change (feedback 0) with 0 in Hz.
  rewrite Z.shiftr_div_pow2 in Hall by lia.
  pose proof (Z.div_mod d (2 ^ 25)). lia.
Qed.

Lemma steps_zero_inj n : forall d, 0 <= d < 2 ^ 30 -> steps (replicate n 0) d = 0 -> d = 0.
Proof.
  unfold steps. induction n as [|n IH]; simpl; intros d Hd H; [done|].
  apply step_zero_inj; [done|]. apply IH; [|done]. apply step_range; lia.
Qed.

Lemma zip_lxor_self l : zip_with Z.lxor l l = replicate (length l) 0.
Proof. induction l as [|v l IH]; simpl; [done|]. by rewrite Z.lxor_nilpotent, IH. Qed.

Lemma step_diff s a b : Z.lxor (step s a) (step s b) = Z.lxor a b.
Proof.
  unfold step. generalize (Z.shiftl (Z.land s 0x1ffffff) 5) (feedback (Z.shiftr s 25)).
  intros x y. lxor_ring.
Qed.

Lemma polymod_single x y a b :
  bech32Polymod (x ++ a :: y) = bech32Polymod (x ++ b :: y) -> a = b.
Proof.
  rewrite !bech32Polymod_steps, !map_app, !steps_app. simpl map. set (s := steps (map u8 x) 1).
  intros H. apply u8_inj. apply Z.lxor_eq.
  pose proof (u8_range a). pose proof (u8_range b).
  apply (steps_zero_inj (length (map u8 y))); [apply lxor_bound; lia|].
  rewrite <- (zip_lxor_self (map u8 y)).
  rewrite <- (step_diff s (u8 a) (u8 b)), steps_linear by done. change (steps (map u8 y) (step s ?v)) with (steps (v :: map u8 y) s).
  rewrite H. apply Z.lxor_nilpotent.
Qed.

(** ** Characters *)

Lemma charset_char v : u8 v < 32 ->
  IndexByte bech32Charset (charset_at v) = u8 v /\ u8 (charset_at v) < 128 /\
  Ascii.lower (charset_at v) = charset_at v /\ charset_at v <> byte_of_Z 49.
Proof.
  intros Hv. assert (Hall : forallb (fun z => let c := charset_at (byte_of_Z z) in
      (IndexByte bech32Charset c =? z) && (u8 c <? 128) && bool_decide (Ascii.lower c = c)
        && bool_decide (c <> byte_of_Z 49)) (seqZ 0 32) = true) by by vm_compute.
  rewrite forallb_forall in Hall. specialize (Hall (u8 v)). pose proof (u8_range v).
  rewrite <- list_elem_of_In, elem_of_seqZ, byte_of_Z_u8 in Hall.
  specialize (Hall ltac:(lia)). cbv zeta in Hall. bools. split_and!; (done || lia).
Qed.

Lemma IndexByte_charset c : 0 <= IndexByte bech32Charset c ->
  IndexByte bech32Charset c < 32 /\ charset_at (byte_of_Z (IndexByte bech32Charset c)) = c.
Proof. intros H. destruct c; vm_compute in H; first [by destruct H | done | split; by vm_compute]. Qed.

Lemma charset_values_encode vs : digits_ok 5 vs -> charset_values (map charset_at vs) = Ok vs.
Proof.
  induction vs as [|v vs IH]; intros H; simpl; [done|].
  apply Forall_cons in H as [Hv H]. destruct (charset_char v Hv) as (-> & _).
  pose proof (u8_range v). destruct (Z.ltb_spec (u8 v) 0); [lia|].
  rewrite IH by done. simpl. by rewrite byte_of_Z_u8.
Qed.

Lemma charset_values_decode s : forall vs, charset_values s = Ok vs -> digits_ok 5 vs /\ s = map charset_at vs.
Proof.
  induction s as [|c s IH]; simpl; intros vs H; [invert_ok; split; [apply Forall_nil; done | done]|].
  destruct (Z.ltb_spec (IndexByte bech32Charset c) 0); [done|]. invert_ok.
  destruct (IH _ Hok) as [Hd ->]. destruct (IndexByte_charset c) as [Hi Hc]; [done|].
  split; [|simpl; by rewrite Hc]. apply Forall_cons. split; [|done]. rewrite u8_of_small; lia.
Qed.

Lemma charset_text vs : digits_ok 5 vs ->
  Ascii.is_ascii (map charset_at vs) = true /\ map Ascii.lower (map charset_at vs) = map charset_at vs /\
  byte_of_Z 49 ∉ map charset_at vs.
Proof.
  induction vs as [|v vs IH]; intros H; [split_and!; [done..|apply not_elem_of_nil]|].
  apply Forall_cons in H as [Hv H]. destruct (IH H) as (Ha & Hl & Hn).
  destruct (charset_char v Hv) as (_ & Ha' & Hl' & Hn'). simpl. split_and!.
  - apply andb_true_intro. split; [by apply Z.ltb_lt | done].
  - by rewrite Hl', Hl.
  - by apply not_elem_of_cons.
Qed.

Lemma LastIndexByte_absent s c : c ∉ s -> LastIndexByte s c = -1.
Proof.
  induction s as [|b s IH]; simpl; intros H; [done|]. apply not_elem_of_cons in H as [Hb H].
  by rewrite IH, bool_decide_eq_false_2 by congruence.
Qed.

Lemma LastIndexByte_app p c s : c ∉ s -> LastIndexByte (p ++ c :: s) c = len p.
Proof.
  intros H. induction p as [|b p IH]; simpl.
  - by rewrite LastIndexByte_absent, bool_decide_eq_true_2.
  - rewrite IH, len_cons. pose proof (len_nonneg p). destruct (Z.leb_spec 0 (len p)); lia.
Qed.

Lemma LastIndexByte_split s c : 0 <= LastIndexByte s c ->
  exists p t, s = p ++ c :: t /\ len p = LastIndexByte s c.
Proof.
  induction s as [|b s IH]; simpl; intros H; [lia|].
  destruct (Z.leb_spec 0 (LastIndexByte s c)).
  - destruct IH as (p & t & Hs & Hp); [done|]. exists (b :: p), t. split; [by rewrite Hs at 1|].
    rewrite len_cons. lia.
  - case_bool_decide; [|lia]. subst. by exists [], s.
Qed.

(** ** Codewords: what the encoder writes and the decoder accepts *)

Definition codeword (vs : bytes) : Prop :=
  digits_ok 5 vs /\ bech32Polymod (expandHRP recoveryHRP ++ vs) = bech32mConstant.

Definition text_of (vs : bytes) : bytes := recoveryHRP ++ str "1" ++ map charset_at vs.

Lemma text_of_ascii vs : digits_ok 5 vs ->
  Ascii.is_ascii (text_of vs) = true /\ map Ascii.lower (text_of vs) = text_of vs.
Proof.
  intros H. destruct (charset_text vs H) as (Ha & Hl & _). unfold text_of, Ascii.is_ascii in *.
  rewrite !map_app, Hl, !forallb_app, Ha. split; [by vm_compute | f_equal; by vm_compute].
Qed.

Lemma bytes_digits l : digits_ok 8 l.
Proof. apply Forall_forall. intros b _. apply u8_range. Qed.

(** Every byte string has data digits. *)
Lemma key_digits key :
  exists data rest, convertBits key 8 5 true = Ok data /\ digits_ok 5 data /\
    0 <= rest < 5 /\ 5 * len data = 8 * len key + rest /\
    digits_value 5 data = digits_value 8 key * 2 ^ rest.
Proof. apply (convertBits_pad 8 5); [lia|]. apply bytes_digits. Qed.

(** The data digits of a key, and the checksum digits that complete them. *)
Lemma data_checksum key data :
  convertBits key 8 5 true = Ok data ->
  let c := checksum_bytes (Z.lxor (bech32Polymod (expandHRP recoveryHRP ++ data ++ replicate 6 (byte_of_Z 0))) bech32mConstant) in
  codeword (data ++ c) /\ length c = 6%nat /\ digits_ok 5 c.
Proof.
  intros Hd c. destruct (key_digits key) as (d & rest & Hd' & Hok & _).
  assert (d = data) as -> by congruence.
  destruct (checksum_bytes_spec (Z.lxor (bech32Polymod (expandHRP recoveryHRP ++ data ++ replicate 6 (byte_of_Z 0))) bech32mConstant))
    as (Hlen & Hokc & Hv).
  { apply lxor_bound; [lia|apply bech32Polymod_range|]. unfold bech32mConstant. lia. }
  fold c in Hlen, Hokc, Hv. split_and!; [|done..]. split; [by apply Forall_app|].
  rewrite app_assoc, polymod_checksum, Hv, <- app_assoc by done. lxor_ring.
Qed.

Lemma EncodeRecoveryKey_spec key text :
  EncodeRecoveryKey key = Ok text ->
  len key = 32 /\ exists data c, convertBits key 8 5 true = Ok data /\ length c = 6%nat /\
    codeword (data ++ c) /\ text = text_of (data ++ c).
Proof.
  unfold EncodeRecoveryKey. destruct (negb _) eqn:E; [done|]. bools. intros H. invert_ok.
  split; [done|]. destruct (data_checksum key a Hok) as (Hc & Hl & _). eauto 10.
Qed.

(** The two conversions are inverse to each other. *)
Lemma convertBits_back key data :
  convertBits key 8 5 true = Ok data <-> convertBits data 5 8 false = Ok key.
Proof.
  destruct (key_digits key) as (d & rest & Hd & Hok & Hr & Hlen & Hv).
  rewrite (convertBits_nopad 5 8) by lia. split.
  - intros Heq. assert (d = data) as -> by congruence. exists rest.
    split_and!; [done|apply bytes_digits|lia..|done].
  - intros (r & Hin & _ & Hr8 & Hr5 & Hlen' & Hv'). rewrite Hd. f_equal.
    assert (rest = r) as -> by lia.
    apply (digits_value_inj 5); [lia|done|done|lia|congruence].
Qed.

(** The six checksum digits of a codeword are determined by its data. *)
Lemma codeword_checksum data c :
  length c = 6%nat -> codeword (data ++ c) ->
  c = checksum_bytes (Z.lxor (bech32Polymod (expandHRP recoveryHRP ++ data ++ replicate 6 (byte_of_Z 0))) bech32mConstant).
Proof.
  intros Hlen [Hok Hp]. apply Forall_app in Hok as [_ Hok].
  rewrite app_assoc, polymod_checksum, <- app_assoc in Hp by done.
  set (m := bech32Polymod _) in *.
  assert (Hv : digits_value 5 c = Z.lxor m bech32mConstant) by (rewrite <- Hp; lxor_ring).
  destruct (checksum_bytes_spec (Z.lxor m bech32mConstant)) as (Hl & Ho & Hv').
  { apply lxor_bound; [lia|apply bech32Polymod_range|]. unfold bech32mConstant. lia. }
  apply (digits_value_inj 5); [lia|done|done|unfold len; congruence|congruence].
Qed.

Section recovery_text.
Context (unicode_lower unicode_upper : bytes -> bytes).

Lemma Decode_text_of data c key :
  length c = 6%nat -> codeword (data ++ c) -> convertBits data 5 8 false = Ok key -> len key = 32 ->
  DecodeRecoveryKey unicode_lower unicode_upper (text_of (data ++ c)) = Ok key.
Proof.
  intros Hc [Hok Hp] Hconv Hlen. unfold DecodeRecoveryKey.
  assert (Hc6 : len c = 6) by (unfold len; by rewrite Hc).
  destruct (text_of_ascii _ Hok) as [Ha Hl].
  assert (Htl : Ascii.ToLower unicode_lower (text_of (data ++ c)) = text_of (data ++ c)).
  { unfold Ascii.ToLower. by rewrite Ha. }
  rewrite Htl, bool_decide_eq_true_2 by done. cbn [negb andb].
  destruct (charset_text _ Hok) as (_ & _ & Hno).
  assert (Hsep : LastIndexByte (text_of (data ++ c)) (byte_of_Z 49) = 5).
  { unfold text_of. change (str "1" ++ ?t) with (byte_of_Z 49 :: t). by rewrite LastIndexByte_app. }
  rewrite Hsep.
  assert (Hlt : len (text_of (data ++ c)) = 6 + (len data + 6)).
  { unfold text_of. rewrite !len_app, len_map, len_app, Hc6.
    change (len recoveryHRP) with 5. change (len (str "1")) with 1. lia. }
  pose proof (len_nonneg data).
  replace (len (text_of (data ++ c)) <? 5 + 7) with false by (symmetry; apply Z.ltb_ge; lia).
  assert (Hpre : slice (text_of (data ++ c)) 0 5 = recoveryHRP) by apply (slice_app_l recoveryHRP).
  rewrite Hpre, bool_decide_eq_true_2 by done. cbn [orb negb].
  assert (Hrest : slice (text_of (data ++ c)) (5 + 1) (len (text_of (data ++ c))) = map charset_at (data ++ c)).
  { unfold text_of. rewrite app_assoc. apply (slice_app_r (recoveryHRP ++ str "1")). }
  rewrite Hrest, charset_values_encode by done. cbn [rbind]. rewrite Hp, Z.eqb_refl. cbn [negb].
  replace (slice (data ++ c) 0 (len (data ++ c) - 6)) with data.
  - rewrite Hconv. cbn [rbind]. by rewrite Hlen.
  - rewrite len_app, Hc6. replace (len data + 6 - 6) with (len data) by lia.
    symmetry. apply slice_app_l.
Qed.

(** What a successful decoding establishes about the lowered text. *)
Lemma Decode_inv s key :
  DecodeRecoveryKey unicode_lower unicode_upper s = Ok key ->
  (s = Ascii.ToLower unicode_lower s \/ s = Ascii.ToUpper unicode_upper s) /\ len key = 32 /\
  exists data c, length c = 6%nat /\ codeword (data ++ c) /\ convertBits data 5 8 false = Ok key /\
    Ascii.ToLower unicode_lower s = text_of (data ++ c).
Proof.
  unfold DecodeRecoveryKey. intros H. set (e := Ascii.ToLower unicode_lower s) in *.
  destruct (_ && _) eqn:Ecase in H; [done|]. invert_ok. bools.
  destruct (LastIndexByte_split e (byte_of_Z 49)) as (p & t & He & Hp); [lia|].
  rewrite <- Hp in *. clear Hp.
  assert (slice e 0 (len p) = p) as Hpp by (rewrite He; apply slice_app_l).
  assert (Ht : slice e (len p + 1) (len e) = t).
  { rewrite He. change (byte_of_Z 49 :: t) with ([byte_of_Z 49] ++ t). rewrite app_assoc.
    replace (len p + 1) with (len (p ++ [byte_of_Z 49])) by (by rewrite len_app). apply slice_app_r. }
  rewrite Ht in Hok. apply charset_values_decode in Hok as [Hd Htv].
  assert (Hla : 6 <= len a).
  { rewrite He, len_app, len_cons, Htv, len_map in *. lia. }
  split; [apply andb_false_iff in Ecase as [E|E]; bools; auto|]. split; [done|].
  exists (slice a 0 (len a - 6)), (slice a (len a - 6) (len a)).
  assert (Hsplit : slice a 0 (len a - 6) ++ slice a (len a - 6) (len a) = a) by (apply take_slice_drop; lia).
  rewrite Hsplit. split_and!; [|by split|done|].
  - apply Nat2Z.inj. change (len (slice a (len a - 6) (len a)) = 6). rewrite len_slice; lia.
  - fold e. rewrite He at 1. rewrite Htv. unfold text_of. f_equal. congruence.
Qed.

End recovery_text.

(** ** Properties *)

(** A concrete key and its text. *)
Definition sample_key : bytes := replicate 32 (byte_of_Z 1).

Definition sample_text : bytes :=
  Eval vm_compute in match EncodeRecoveryKey sample_key with Ok t => t | Err _ => [] end.

(** The text of a key decodes to it. *)
Lemma DecodeRecoveryKey_encoded key text unicode_lower unicode_upper :
  EncodeRecoveryKey key = Ok text -> DecodeRecoveryKey unicode_lower unicode_upper text = Ok key.
Proof.
  unfold EncodeRecoveryKey. intros H. invert_ok. bools. rename a into data.
  destruct (data_checksum key data Hok) as (Hc & Hl & _).
  apply (Decode_text_of _ _ data); [done..|by apply convertBits_back|done].
Qed.

(** Round trip.  Every 32-byte recovery key has a text, and decoding that
    text gives the key back, whatever the Unicode case tables are. *)
Theorem recovery_key_roundtrip key unicode_lower unicode_upper :
  len key = 32 ->
  exists text, EncodeRecoveryKey key = Ok text /\
    DecodeRecoveryKey unicode_lower unicode_upper text = Ok key.
Proof.
  intros Hlen. destruct (key_digits key) as (data & rest & Hd & _).
  eexists. split; [unfold EncodeRecoveryKey; rewrite Hlen, Hd; simpl; done|].
  apply DecodeRecoveryKey_encoded. unfold EncodeRecoveryKey. by rewrite Hlen, Hd.
Qed.

Lemma recovery_key_roundtrip_witness :
  len sample_key = 32 /\
  exists text, EncodeRecoveryKey sample_key = Ok text /\ DecodeRecoveryKey id id text = Ok sample_key.
Proof. split; [reflexivity | apply (recovery_key_roundtrip sample_key id id); reflexivity]. Defined.

(** Canonical text.  Whatever the decoder accepts is, once lowered, the
    text the encoder writes for the key it returns: a key has one text. *)
Theorem recovery_text_canonical s key unicode_lower unicode_upper :
  DecodeRecoveryKey unicode_lower unicode_upper s = Ok key ->
  EncodeRecoveryKey key = Ok (Ascii.ToLower unicode_lower s).
Proof.
  intros H. apply Decode_inv in H as (_ & Hlen & data & c & Hc & Hcw & Hconv & ->).
  unfold EncodeRecoveryKey. rewrite Hlen. cbn [negb].
  rewrite (proj2 (convertBits_back key data) Hconv). cbn [rbind].
  by rewrite <- (codeword_checksum data c).
Qed.

Lemma recovery_text_canonical_witness :
  EncodeRecoveryKey sample_key = Ok (Ascii.ToLower id (map Ascii.upper sample_text)).
Proof. apply (recovery_text_canonical _ _ id id). vm_compute. reflexivity. Defined.

Lemma is_ascii_insert s i b :
  Ascii.is_ascii s = true -> u8 b < 128 -> Ascii.is_ascii (<[i := b]> s) = true.
Proof.
  unfold Ascii.is_ascii. intros Hs Hb. apply Z.ltb_lt in Hb. revert i.
  induction s as [|x s IH]; intros [|i]; simpl in *; try done;
    apply andb_prop in Hs as [Hx Hs]; apply andb_true_intro; auto.
Qed.

(** Changing one value of a codeword gives no codeword. *)
Lemma codeword_insert vs j v v' :
  codeword vs -> codeword (<[j := v']> vs) -> vs !! j = Some v -> v = v'.
Proof.
  intros [_ H] [_ H'] Hj. rewrite <- H' in H.
  rewrite (insert_take_drop vs j v') in H by (by eapply lookup_lt_Some).
  rewrite <- (take_drop_middle vs j v Hj) in H at 1.
  rewrite !app_assoc in H. by apply polymod_single in H.
Qed.

(** Changing one character of the text of a codeword gives no text of a codeword. *)
Lemma text_of_insert vs vs' i b b' :
  codeword vs -> codeword vs' -> text_of vs !! i = Some b -> <[i := b']> (text_of vs) = text_of vs' -> b' = b.
Proof.
  intros Hcw Hcw' Hb Hin. unfold text_of in Hin, Hb. rewrite app_assoc in Hin, Hb.
  destruct (decide (i < 6)%nat) as [Hi|Hi].
  { apply (f_equal (lookup i)) in Hin. rewrite list_lookup_insert_eq in Hin by (by eapply lookup_lt_Some).
    rewrite app_assoc in Hin. rewrite lookup_app_l in Hb, Hin by (cbn; lia). congruence. }
  replace i with (length (recoveryHRP ++ str "1") + (i - 6))%nat in Hin, Hb by (simpl; lia).
  rewrite insert_app_r in Hin. rewrite lookup_app_r in Hb by lia.
  replace (length (recoveryHRP ++ str "1") + (i - 6) - length (recoveryHRP ++ str "1"))%nat with (i - 6)%nat in Hb by lia.
  rewrite app_assoc in Hin. apply app_inv_head in Hin.
  change (map charset_at) with (fmap (M := list) charset_at) in Hin, Hb.
  rewrite list_lookup_fmap in Hb. destruct (vs !! (i - 6)%nat) as [v|] eqn:Hv; [|done].
  injection Hb as Hvb.
  destruct (vs' !! (i - 6)%nat) as [v'|] eqn:Hv'.
  2: { apply (f_equal length) in Hin. rewrite length_insert, !length_fmap in Hin. apply lookup_lt_Some in Hv.
       apply lookup_ge_None in Hv'. lia. }
  assert (Hvb' : charset_at v' = b').
  { apply (f_equal (lookup (i - 6)%nat)) in Hin. rewrite list_lookup_fmap, Hv' in Hin.
    rewrite list_lookup_insert_eq in Hin; [by injection Hin|].
    rewrite length_fmap. by eapply lookup_lt_Some. }
  assert (Hd' : digits_ok 5 (<[(i - 6)%nat := v']> vs)).
  { apply Forall_insert; [apply Hcw|]. destruct Hcw' as [Hok' _].
    unfold digits_ok in Hok'. rewrite Forall_lookup in Hok'. by apply (Hok' (i - 6)%nat). }
  rewrite <- Hvb', <- list_fmap_insert in Hin. apply (f_equal charset_values) in Hin.
  change (fmap (M := list) charset_at) with (map charset_at) in Hin.
  rewrite !charset_values_encode in Hin by (done || apply Hcw'). injection Hin as Hin.
  rewrite <- Hvb, <- Hvb'. f_equal. symmetry.
  apply (codeword_insert vs (i - 6)%nat); [done| |done]. by rewrite Hin.
Qed.

(** The case of single characters. *)
Lemma lower_upper b : Ascii.lower b = b -> Ascii.lower (Ascii.upper b) = b.
Proof. destruct b; vm_compute; congruence. Qed.

Lemma upper_lower b : Ascii.upper b = b -> Ascii.upper (Ascii.lower b) = b.
Proof. destruct b; vm_compute; congruence. Qed.

Lemma upper_ascii b : u8 b < 128 -> u8 (Ascii.upper b) < 128.
Proof. destruct b; vm_compute; congruence. Qed.

(** One substitution leaves a letter of the prefix as it was. *)
Lemma prefix_letter vs i : exists j c, i <> j /\ text_of vs !! j = Some c /\ Ascii.upper c <> c.
Proof.
  destruct i as [|i]; [exists 1%nat, (byte_of_Z 112)|exists 0%nat, (byte_of_Z 121)]; (split; [done|]; split; [done|by vm_compute]).
Qed.

(** A text of one case with one character replaced is of that case, if of any. *)
Lemma one_case vs (up : bool) i b' :
  let case := if up then Ascii.upper else id in
  map (if up then Ascii.lower else Ascii.upper) (<[i := b']> (map case (text_of vs))) <> <[i := b']> (map case (text_of vs)).
Proof.
  intros case E. destruct (prefix_letter vs i) as (j & c & Hij & Hj & Hc). apply (f_equal (lookup j)) in E.
  change (map ?f ?l) with (fmap (M := list) f l) in E. rewrite list_lookup_fmap, !list_lookup_insert_ne, !list_lookup_fmap, Hj in E by done.
  subst case. destruct up; cbn in E; injection E as E; [|done]. apply Hc. clear - E. revert E. destruct c; vm_compute; congruence.
Qed.

(** C39: Error detection.  In a recovery text as the encoder writes it, or in the
    same text in capitals, replacing any one character by any other ASCII
    character makes the text undecodable, also in the prefix and at the
    separator.  (A character that is not ASCII goes through the Unicode case
    tables, of which nothing is assumed, and is not covered.) *)
Theorem recovery_text_detects_substitution key text shown i b b' unicode_lower unicode_upper :
  EncodeRecoveryKey key = Ok text -> shown = text \/ shown = map Ascii.upper text ->
  shown !! i = Some b -> u8 b' < 128 -> b <> b' ->
  is_Ok (DecodeRecoveryKey unicode_lower unicode_upper (<[i := b']> shown)) = false.
Proof.
  intros Henc Hshown Hb Hb' Hne.
  destruct (DecodeRecoveryKey _ _ _) as [key'|] eqn:Hdec; [exfalso|done].
  apply EncodeRecoveryKey_spec in Henc as (_ & data & c & _ & _ & Hcw & ->).
  apply Decode_inv in Hdec as (Hcase & _ & data' & c' & _ & Hcw' & _ & Htxt).
  set (vs := data ++ c) in *. set (vs' := data' ++ c') in *.
  destruct (text_of_ascii vs) as [Hasc Hlow]; [apply Hcw|].
  assert (exists up : bool, shown = map (if up then Ascii.upper else id) (text_of vs)) as [up Hup]
    by (destruct Hshown as [-> | ->]; [exists false; by rewrite map_id|by exists true]).
  assert (Hasc' : Ascii.is_ascii (<[i := b']> shown) = true).
  { apply is_ascii_insert; [|done]. rewrite Hup. destruct up; [|by rewrite map_id]. unfold Ascii.is_ascii in *. rewrite forallb_forall in *.
    intros x (y & <- & Hy)%in_map_iff. apply Z.ltb_lt, upper_ascii, Z.ltb_lt. by apply Hasc. }
  unfold Ascii.ToLower, Ascii.ToUpper in *. rewrite Hasc' in *. clear Hasc' Hasc.
  pose proof (one_case vs up i b') as Hone. cbv zeta in Hone. rewrite <- Hup in Hone.
  assert (exists x, text_of vs !! i = Some x /\ b = (if up then Ascii.upper else id) x /\ Ascii.lower x = x) as (x & Hx & -> & Hlx).
  { rewrite Hup in Hb. change (map ?f ?l) with (fmap (M := list) f l) in Hb, Hlow. rewrite list_lookup_fmap in Hb.
    destruct (text_of vs !! i) as [x|] eqn:Ex; [|done]. exists x. split_and!; [done|by injection Hb|].
    apply (f_equal (lookup i)) in Hlow. rewrite list_lookup_fmap, Ex in Hlow. by injection Hlow. }
  assert (map Ascii.lower shown = text_of vs) as Hls.
  { rewrite Hup. destruct up; [|by rewrite map_id]. rewrite map_map. rewrite <- (map_id (text_of vs)) at 2.
    apply map_ext_in. intros y Hy. apply lower_upper. rewrite <- (map_id (text_of vs)) in Hlow at 2. by apply (ext_in_map Hlow). }
  change (map ?f ?l) with (fmap (M := list) f l) in Htxt. rewrite list_fmap_insert in Htxt.
  change (fmap (M := list) Ascii.lower shown) with (map Ascii.lower shown) in Htxt. rewrite Hls in Htxt.
  pose proof (text_of_insert vs vs' i x (Ascii.lower b') Hcw Hcw' Hx Htxt) as Hbx.
  assert (map (if up then Ascii.upper else Ascii.lower) (<[i := b']> shown) = <[i := b']> shown) as Hkeep by (destruct up, Hcase; congruence).
  apply (f_equal (lookup i)) in Hkeep. change (map ?f ?l) with (fmap (M := list) f l) in Hkeep.
  rewrite list_lookup_fmap, list_lookup_insert_eq in Hkeep by (by eapply lookup_lt_Some). cbn in Hkeep. injection Hkeep as Hkeep.
  apply Hne. destruct up; cbn in *; [|congruence]. rewrite <- Hbx. by apply upper_lower.
Qed.

Lemma recovery_text_detects_substitution_witness :
  is_Ok (DecodeRecoveryKey id id (<[20%nat := byte_of_Z 49]> sample_text)) = false /\
  is_Ok (DecodeRecoveryKey id id (<[2%nat := byte_of_Z 49]> (map Ascii.upper sample_text))) = false.
Proof.
  split.
  - apply (recovery_text_detects_substitution sample_key sample_text sample_text 20 (nth 20 sample_text inhabitant) (byte_of_Z 49) id id);
      [vm_compute; reflexivity|left; reflexivity|vm_compute; reflexivity|vm_compute; reflexivity|vm_compute; discriminate].
  - apply (recovery_text_detects_substitution sample_key sample_text (map Ascii.upper sample_text) 2 (byte_of_Z 82) (byte_of_Z 49) id id);
      [vm_compute; reflexivity|right; reflexivity|vm_compute; reflexivity|vm_compute; reflexivity|vm_compute; discriminate].
Defined.
