(* ===== verification/Unicode.v ===== *)
(** * UTF-8, white space and the Unicode functions of the sources

    The runes a Go [for range] over a string yields, [unicode.IsSpace],
    [strings.TrimSpace] and [strings.Fields] are written out.  The normal
    forms of [golang.org/x/text/unicode/norm], the lower-case mapping of
    non-ASCII text and the category table [unicode.Mn] are data of those
    libraries: they are the parameters of the class [UnicodeTables], and
    [UnicodeLaws] states what is relied on, all of it about ASCII text. *)

From S2P Require Import Prelude Encoding.

Definition RuneError : Z := 65533.

(** A continuation byte whose value lies between two bounds. *)
Definition within (lo hi : Z) (b : byte) : bool := (lo <=? u8 b) && (u8 b <=? hi).

Definition cont (b : byte) : bool := within 128 191 b.

(** The bounds the first continuation byte has to respect, after a lead byte
    of a three or four byte sequence (no overlong forms, no surrogates,
    nothing above U+10FFFF). *)
Definition second_range (lead : Z) : Z * Z :=
  if lead =? 224 then (160, 191)
  else if lead =? 237 then (128, 159)
  else if lead =? 240 then (144, 191)
  else if lead =? 244 then (128, 143)
  else (128, 191).

(** [utf8.DecodeRuneInString] of a non-empty string: the rune and its width. *)
Definition decode_rune (s : bytes) : Z * nat :=
  match s with
  | [] => (RuneError, O)
  | b0 :: t =>
      let lead := u8 b0 in
      let '(lo, hi) := second_range lead in
      if lead <? 128 then (lead, 1%nat)
      else if (194 <=? lead) && (lead <=? 223) then
        match t with
        | b1 :: _ => if cont b1 then ((lead - 192) * 64 + (u8 b1 - 128), 2%nat) else (RuneError, 1%nat)
        | _ => (RuneError, 1%nat)
        end
      else if (224 <=? lead) && (lead <=? 239) then
        match t with
        | b1 :: b2 :: _ =>
            if within lo hi b1 && cont b2 then
              ((lead - 224) * 4096 + (u8 b1 - 128) * 64 + (u8 b2 - 128), 3%nat)
            else (RuneError, 1%nat)
        | _ => (RuneError, 1%nat)
        end
      else if (240 <=? lead) && (lead <=? 244) then
        match t with
        | b1 :: b2 :: b3 :: _ =>
            if within lo hi b1 && cont b2 && cont b3 then
              ((lead - 240) * 262144 + (u8 b1 - 128) * 4096 + (u8 b2 - 128) * 64 + (u8 b3 - 128), 4%nat)
            else (RuneError, 1%nat)
        | _ => (RuneError, 1%nat)
        end
      else (RuneError, 1%nat)
  end.

(** The runes of a string, each with the bytes it was read from.  A rune has
    at least one byte, so the length of the string is enough fuel. *)
Fixpoint runes_fuel (n : nat) (s : bytes) : list (Z * bytes) :=
  match n, s with
  | S n', _ :: _ =>
      let '(r, width) := decode_rune s in (r, take width s) :: runes_fuel n' (drop width s)
  | _, _ => []
  end.

Definition runes (s : bytes) : list (Z * bytes) := runes_fuel (length s) s.

(** [utf8.ValidString]. *)
Definition ValidString (s : bytes) : bool :=
  forallb (fun '(r, chunk) => negb ((r =? RuneError) && (len chunk =? 1))) (runes s).

(** [unicode.IsSpace]. *)
Definition IsSpace (r : Z) : bool :=
  ((9 <=? r) && (r <=? 13)) || (r =? 32) || (r =? 133) || (r =? 160) || (r =? 5760)
  || ((8192 <=? r) && (r <=? 8202)) || (r =? 8232) || (r =? 8233) || (r =? 8239)
  || (r =? 8287) || (r =? 12288).

Definition join_chunks (l : list (Z * bytes)) : bytes := concat (map snd l).

Fixpoint drop_spaces (l : list (Z * bytes)) : list (Z * bytes) :=
  match l with
  | (r, chunk) :: rest => if IsSpace r then drop_spaces rest else l
  | [] => []
  end.

(** [strings.TrimSpace].  UTF-8 is self-synchronising: the last runes read
    backwards are the last runes read forwards. *)
Definition TrimSpace (s : bytes) : bytes :=
  join_chunks (reverse (drop_spaces (reverse (drop_spaces (runes s))))).

(** [strings.Fields]: the maximal runs of non-space runes. *)
Fixpoint fields (field : bytes) (l : list (Z * bytes)) : list bytes :=
  let close := if bool_decide (field = []) then [] else [field] in
  match l with
  | [] => close
  | (r, chunk) :: rest =>
      if IsSpace r then close ++ fields [] rest else fields (field ++ chunk) rest
  end.

Definition Fields (s : bytes) : list bytes := fields [] (runes s).

(** [strings.ReplaceAll] and [strings.NewReplacer(...).Replace]: at each
    position the first of the old strings that matches is replaced, else one
    byte is copied.  The length of the string is enough fuel. *)
Fixpoint strip_prefix (p s : bytes) : option bytes :=
  match p, s with
  | [], _ => Some s
  | a :: p', b :: s' => if bool_decide (a = b) then strip_prefix p' s' else None
  | _ :: _, [] => None
  end.

Fixpoint first_match (rules : list (bytes * bytes)) (s : bytes) : option (bytes * bytes) :=
  match rules with
  | [] => None
  | (old, new) :: rest =>
      match strip_prefix old s with Some tail => Some (new, tail) | None => first_match rest s end
  end.

Fixpoint replace_fuel (rules : list (bytes * bytes)) (n : nat) (s : bytes) : bytes :=
  match n, s with
  | S n', b :: t =>
      match first_match rules s with
      | Some (new, tail) => new ++ replace_fuel rules n' tail
      | None => b :: replace_fuel rules n' t
      end
  | _, _ => []
  end.

Definition Replace (rules : list (bytes * bytes)) (s : bytes) : bytes :=
  replace_fuel rules (length s) s.

Class UnicodeTables := {
  NFKC : bytes -> bytes;
  NFD : bytes -> bytes;
  unicode_lower : bytes -> bytes;
  is_Mn : Z -> bool
}.

(** ASCII text is in every normal form, and no ASCII character is a
    non-spacing mark. *)
Class UnicodeLaws (U : UnicodeTables) : Prop := {
  NFKC_ascii : forall s, Ascii.is_ascii s = true -> NFKC s = s;
  NFD_ascii : forall s, Ascii.is_ascii s = true -> NFD s = s;
  Mn_ascii : forall r, 0 <= r < 128 -> is_Mn r = false
}.

(** Tables that know ASCII only and map nothing else. *)
Definition ascii_tables : UnicodeTables :=
  {| NFKC s := s; NFD s := s; unicode_lower s := s; is_Mn r := (768 <=? r) && (r <=? 879) |}.

Lemma ascii_tables_laws : UnicodeLaws ascii_tables.
Proof. split; simpl; [done..|]. intros r Hr. destruct (Z.leb_spec 768 r); [lia|done]. Qed.

(** [strings.Split(path, "/")], [HasPrefix], [HasSuffix] and [TrimSuffix]. *)
Definition slash : byte := Byte.x2f.

Fixpoint split_path (s : bytes) : list bytes :=
  match s with
  | [] => [[]]
  | c :: rest =>
      if bool_decide (c = slash) then [] :: split_path rest
      else match split_path rest with
           | part :: parts => (c :: part) :: parts
           | [] => [[c]]
           end
  end.

Definition HasPrefix (s prefix : bytes) : bool := bool_decide (is_Some (strip_prefix prefix s)).
Definition HasSuffix (s suffix : bytes) : bool := HasPrefix (rev s) (rev suffix).

Definition TrimSuffix (s suffix : bytes) : bytes :=
  match strip_prefix (rev suffix) (rev s) with Some rest => rev rest | None => s end.

(** ** Lemmas *)

Lemma decode_rune_width b t : (1 <= (decode_rune (b :: t)).2 <= S (length t))%nat.
Proof.
  unfold decode_rune.
  destruct (second_range (u8 b)) as [lo hi].
  repeat (case_match; simpl in *; try lia).
Qed.

Lemma runes_fuel_concat n s : (length s <= n)%nat -> join_chunks (runes_fuel n s) = s.
Proof.
  unfold join_chunks. revert s. induction n as [|n IH]; intros [|b t] Hn; simpl in Hn; try done; try lia.
  cbn [runes_fuel]. pose proof (decode_rune_width b t).
  destruct (decode_rune (b :: t)) as [r w]. cbn [map snd concat].
  rewrite IH; [apply take_drop|]. rewrite length_drop. simpl in *. lia.
Qed.

(** The runes of a string cover it. *)
Lemma runes_concat s : join_chunks (runes s) = s.
Proof. by apply runes_fuel_concat. Qed.

Lemma decode_rune_ascii b t : u8 b < 128 -> decode_rune (b :: t) = (u8 b, 1%nat).
Proof.
  intros. unfold decode_rune. destruct (second_range (u8 b)).
  by destruct (Z.ltb_spec (u8 b) 128); [|lia].
Qed.

Lemma is_ascii_cons b t : Ascii.is_ascii (b :: t) = true <-> u8 b < 128 /\ Ascii.is_ascii t = true.
Proof. unfold Ascii.is_ascii. simpl. rewrite andb_true_iff, Z.ltb_lt. done. Qed.

Lemma runes_cons_ascii b t : u8 b < 128 -> runes (b :: t) = (u8 b, [b]) :: runes t.
Proof.
  intros. unfold runes. cbn [length runes_fuel]. rewrite decode_rune_ascii by done.
  reflexivity.
Qed.

(** A low rune is a byte of its own. *)
Lemma decode_rune_low b t : (decode_rune (b :: t)).1 < 128 -> u8 b < 128.
Proof.
  unfold decode_rune. destruct (second_range (u8 b)) as [lo hi] eqn:Er. destruct (Z.ltb_spec (u8 b) 128); [done|].
  assert (128 <= lo /\ (u8 b = 224 -> lo = 160) /\ (u8 b = 240 -> lo = 144)) as (Hlo & H224 & H240).
  { unfold second_range in Er. repeat (case_match; bools; simplify_eq; [by (split_and!; try lia)|]). simplify_eq. split_and!; lia. }
  unfold RuneError, within, cont. repeat (case_match; cbn; try lia); bools; unfold within in *; bools; try lia.
Qed.

(** Text whose runes are all accepted, and only low ones are. *)
Lemma low_runes (f : Z -> bool) s : (forall r, f r = true -> r < 128) ->
  forallb (fun '(r, _) => f r) (runes s) = true -> Forall (fun b => f (u8 b) = true) s.
Proof.
  intros Hf. induction s as [|b t IH]; [constructor|]. intros H. assert (u8 b < 128) as Hb.
  { unfold runes in H. cbn [length runes_fuel] in H. destruct (decode_rune (b :: t)) as [r w] eqn:Ed. cbn [forallb] in H.
    apply andb_prop in H as [Hr _]. apply (decode_rune_low b t). rewrite Ed. by apply Hf. }
  rewrite runes_cons_ascii in H by done. cbn [forallb] in H. apply andb_prop in H as [Hr H]. constructor; [done|by apply IH].
Qed.

Lemma runes_ascii s : Ascii.is_ascii s = true -> runes s = map (fun b => (u8 b, [b])) s.
Proof.
  induction s as [|b t IH]; [done|]. intros [? ?]%is_ascii_cons.
  rewrite runes_cons_ascii by done. simpl. by rewrite IH.
Qed.

Lemma ascii_valid s : Ascii.is_ascii s = true -> ValidString s = true.
Proof.
  intros H. unfold ValidString. rewrite runes_ascii by done. revert H.
  induction s as [|b t IH]; [done|]. intros [Hb ?]%is_ascii_cons. cbn [map forallb].
  rewrite IH by done. destruct (Z.eqb_spec (u8 b) RuneError); [|done]. unfold RuneError in *. lia.
Qed.

(** Joining the fields deletes the white space. *)
Lemma fields_join field l :
  concat (fields field l) = field ++ join_chunks (List.filter (fun rc => negb (IsSpace rc.1)) l).
Proof.
  unfold join_chunks. revert field. induction l as [|[r c] l IH]; intros field; simpl.
  - case_bool_decide as H; subst; simpl; by rewrite ?app_nil_r.
  - destruct (IsSpace r); simpl.
    + rewrite concat_app, IH. case_bool_decide as H; subst; simpl; by rewrite ?app_nil_r.
    + by rewrite IH, app_assoc.
Qed.

Lemma Fields_join s :
  concat (Fields s) = join_chunks (List.filter (fun rc => negb (IsSpace rc.1)) (runes s)).
Proof. apply fields_join. Qed.

(** Trimming a string whose first and last runes are not white space. *)
Lemma drop_spaces_keep r c l : IsSpace r = false -> drop_spaces ((r, c) :: l) = (r, c) :: l.
Proof. intros H. simpl. by rewrite H. Qed.

Lemma TrimSpace_keep s r1 c1 l1 r2 c2 l2 :
  runes s = (r1, c1) :: l1 -> runes s = l2 ++ [(r2, c2)] ->
  IsSpace r1 = false -> IsSpace r2 = false -> TrimSpace s = s.
Proof.
  intros E1 E2 H1 H2. unfold TrimSpace. rewrite E1, drop_spaces_keep, <- E1, E2 by done.
  rewrite reverse_snoc, drop_spaces_keep, <- reverse_snoc, reverse_involutive, <- E2 by done.
  apply runes_concat.
Qed.

Lemma strip_prefix_self p s : strip_prefix p (p ++ s) = Some s.
Proof. induction p as [|c p IH]; [done|]. cbn. by rewrite bool_decide_true. Qed.

Lemma strip_prefix_inv p s t : strip_prefix p s = Some t -> s = p ++ t.
Proof.
  revert s. induction p as [|c p IH]; intros s H; [by injection H as ->|]. destruct s as [|d s]; [done|]. cbn in H.
  destruct (bool_decide (c = d)) eqn:E; [|done]. bools. subst. cbn. f_equal. by apply IH.
Qed.

Lemma strip_prefix_elem p s t b : strip_prefix p s = Some t -> b ∈ p -> b ∈ s.
Proof.
  revert s. induction p as [|a p IH]; intros [|c s] H Hb; simpl in H;
    try (by apply not_elem_of_nil in Hb); try discriminate H.
  case_bool_decide as Ha; [|done]. subst a. apply elem_of_cons in Hb as [->|Hb]; [by left|right; eauto].
Qed.

Lemma first_match_foreign rules (s t : bytes) :
  Forall (fun rule => exists b, b ∈ rule.1 /\ b ∉ s) rules -> (forall b, b ∈ t -> b ∈ s) ->
  first_match rules t = None.
Proof.
  intros H Ht. induction H as [|[old new] rules (x & Hx & Hs) _ IHr]; [done|]. simpl in Hx |- *.
  destruct (strip_prefix old t) eqn:E; [|done].
  exfalso. apply Hs, Ht. by eapply strip_prefix_elem.
Qed.

(** A replacement each of whose patterns has a byte the text has not. *)
Lemma Replace_foreign rules (s : bytes) :
  Forall (fun rule => exists b, b ∈ rule.1 /\ b ∉ s) rules -> Replace rules s = s.
Proof.
  intros H. unfold Replace.
  assert (forall t, (forall b, b ∈ t -> b ∈ s) -> replace_fuel rules (length t) t = t) as Hsub;
    [|by apply Hsub].
  induction t as [|b t IH]; [done|]. intros Ht. cbn [length replace_fuel].
  rewrite (first_match_foreign _ s) by done.
  f_equal. apply IH. intros. apply Ht. by right.
Qed.

Arguments ValidString : simpl never.
Arguments TrimSpace : simpl never.
