(* ===== verification/Endpoint.v ===== *)
(** * The address of the relay ([syncclient/endpoint.go])

    The endpoint the desktop agent reads from its configuration file.  The
    grammar of URLs ([net/url]) is the class [UrlParser] and the file system the
    class [Files]; address literals ([net.ParseIP]) and the policy are written
    out.  Plaintext HTTP is accepted only on request and only for the host
    [localhost] and for loopback or private address literals. *)

From S2P Require Import Prelude Encoding Unicode Bech32m.

(** ** [net/url] and [net/netip] *)

(** The parts of a parsed [url.URL] the program looks at.  [EscapedHost] is what
    [URL.String] writes for [Host]; [User] tells whether there are credentials. *)
Record URL := mkURL {
  Scheme : bytes; User : bool; Host : bytes; EscapedHost : bytes; Path : bytes; RawPath : bytes;
  ForceQuery : bool; RawQuery : bytes; Fragment : bytes
}.

Class UrlParser := url_Parse : bytes -> option URL.

Definition dot : byte := byte_of_Z 46.
Definition colon : byte := byte_of_Z 58.
Definition percent : byte := byte_of_Z 37.

Definition digit (c : byte) : bool := (48 <=? u8 c) && (u8 c <=? 57).

(** [URL.Hostname]: the host without a port and without the brackets of an IPv6
    literal. *)
Definition validOptionalPort (port : bytes) : bool :=
  match port with
  | [] => true
  | c :: rest => bool_decide (c = colon) && forallb digit rest
  end.

Definition unbracket (host : bytes) : bytes :=
  match host, last host with
  | c :: rest, Some c' =>
      if bool_decide (c = byte_of_Z 91) && bool_decide (c' = byte_of_Z 93)
      then take (length rest - 1) rest else host
  | _, _ => host
  end.

Definition Hostname (url : URL) : bytes :=
  let at_colon := LastIndexByte (Host url) colon in
  unbracket
    (if negb (at_colon =? -1) && validOptionalPort (drop (Z.to_nat at_colon) (Host url))
     then take (Z.to_nat at_colon) (Host url) else Host url).

Module NetIP.

(** Four decimal numbers below 256 without leading zeros, separated by dots;
    [fields] are the numbers read so far, [digLen] the digits of the current
    one. *)
Fixpoint ipv4_fields (fields : list Z) (val digLen : Z) (s : bytes) : option (list Z) :=
  match s with
  | [] => if len fields <? 3 then None else Some (fields ++ [val])
  | c :: rest =>
      if digit c then
        if (digLen =? 1) && (val =? 0) then None
        else
          let val := val * 10 + (u8 c - 48) in
          if val >? 255 then None else ipv4_fields fields val (digLen + 1) rest
      else if bool_decide (c = dot) then
        if (digLen =? 0) || bool_decide (rest = []) then None
        else if len fields =? 3 then None
        else ipv4_fields (fields ++ [val]) 0 0 rest
      else None
  end.

Definition hex_value (c : byte) : option Z :=
  if digit c then Some (u8 c - 48)
  else if (97 <=? u8 c) && (u8 c <=? 102) then Some (u8 c - 87)
  else if (65 <=? u8 c) && (u8 c <=? 70) then Some (u8 c - 55)
  else None.

(** At most four hexadecimal digits: their value, their number and the rest. *)
Fixpoint hex_group (s : bytes) (acc off : Z) : option (Z * Z * bytes) :=
  match s with
  | [] => Some (acc, off, [])
  | c :: rest =>
      match hex_value c with
      | None => Some (acc, off, s)
      | Some v => if off >? 3 then None else hex_group rest (acc * 16 + v) (off + 1)
      end
  end.

(** The loop of [parseIPv6]: eight groups fill the address.  [ip] are the bytes
    so far, [ellipsis] the place of the double colon; the rest of the string is
    returned. *)
Fixpoint ipv6_groups (room : nat) (ip : list Z) (ellipsis : option Z) (s : bytes)
    : option (list Z * option Z * bytes) :=
  match room with
  | O => Some (ip, ellipsis, s)
  | S room =>
      match hex_group s 0 0 with
      | None => None
      | Some (acc, off, rest) =>
          if off =? 0 then None
          else if bool_decide (head rest = Some dot) then
            if (bool_decide (ellipsis = None) && negb (len ip =? 12)) || (len ip + 4 >? 16) then None
            else match ipv4_fields [] 0 0 s with
                 | None => None
                 | Some fields => Some (ip ++ fields, ellipsis, [])
                 end
          else
            let ip := ip ++ [acc / 256; acc mod 256] in
            match rest with
            | [] => Some (ip, ellipsis, [])
            | c :: rest =>
                if negb (bool_decide (c = colon)) then None
                else match rest with
                | [] => None
                | c :: tail =>
                    if bool_decide (c = colon) then
                      match ellipsis with
                      | Some _ => None
                      | None => if bool_decide (tail = []) then Some (ip, Some (len ip), [])
                                else ipv6_groups room ip (Some (len ip)) tail
                      end
                    else ipv6_groups room ip ellipsis rest
                end
            end
      end
  end.

Definition parseIPv6 (s : bytes) : option (list Z) :=
  let '(ellipsis, s) :=
    if bool_decide (take 2 s = [colon; colon]) then (Some 0, drop 2 s) else (None, s) in
  if bool_decide (ellipsis = Some 0) && bool_decide (s = []) then Some (replicate 16 0)
  else match ipv6_groups 8 [] ellipsis s with
  | None => None
  | Some (ip, ellipsis, rest) =>
      if negb (bool_decide (rest = [])) then None
      else if len ip <? 16 then
        match ellipsis with
        | None => None
        | Some at_ => Some (take (Z.to_nat at_) ip ++ replicate (16 - length ip) 0 ++ drop (Z.to_nat at_) ip)
        end
      else if bool_decide (ellipsis = None) then Some ip else None
  end.

(** [net.ParseIP]: the sixteen bytes of an address literal; an address with a
    zone is none. *)
Definition is_separator (c : byte) : bool := bool_decide (c = dot) || bool_decide (c = colon).

Definition ParseIP (s : bytes) : option (list Z) :=
  if existsb (fun c => bool_decide (c = percent)) s then None
  else match List.find is_separator s with
  | None => None
  | Some c =>
      if bool_decide (c = dot) then
        match ipv4_fields [] 0 0 s with
        | Some fields => Some (replicate 10 0 ++ [255; 255] ++ fields)
        | None => None
        end
      else parseIPv6 s
  end.

Definition To4 (ip : list Z) : option (list Z) :=
  if bool_decide (take 12 ip = replicate 10 0 ++ [255; 255]) then Some (drop 12 ip) else None.

Definition IsLoopback (ip : list Z) : bool :=
  match To4 ip with
  | Some ip4 => nth 0 ip4 0 =? 127
  | None => bool_decide (ip = replicate 15 0 ++ [1])
  end.

Definition IsPrivate (ip : list Z) : bool :=
  match To4 ip with
  | Some ip4 =>
      (nth 0 ip4 0 =? 10) || ((nth 0 ip4 0 =? 172) && (Z.land (nth 1 ip4 0) 240 =? 16))
      || ((nth 0 ip4 0 =? 192) && (nth 1 ip4 0 =? 168))
  | None => (len ip =? 16) && (Z.land (nth 0 ip 0) 254 =? 252)
  end.

End NetIP.

(** ** Endpoints *)

Definition maxEndpointConfigBytes : Z := 4096.

Record EndpointPolicy := mkPolicy { AllowPrivateHTTP : bool }.

Record Endpoint := mkEndpoint { base : URL }.

(** [URL.String] of the base with the given path.  The paths of the client are
    empty or start with a slash and consist of characters that are not escaped. *)
Definition resolve (endpoint : Endpoint) (path : bytes) : bytes :=
  let url := base endpoint in
  Scheme url ++ str "://" ++ EscapedHost url ++ path
  ++ (if ForceQuery url || negb (bool_decide (RawQuery url = [])) then str "?" ++ RawQuery url else []).

Definition endpoint_String (endpoint : Endpoint) : bytes := resolve endpoint (Path (base endpoint)).

(** The host a plaintext connection may go to. *)
Definition private_host (unicode_lower : bytes -> bytes) (url : URL) : bool :=
  let host := Ascii.ToLower unicode_lower (Hostname url) in
  bool_decide (host = str "localhost")
  || match NetIP.ParseIP host with
     | None => false
     | Some ip => NetIP.IsLoopback ip || NetIP.IsPrivate ip
     end.

Section endpoint.
Context `{U : UnicodeTables} `{UP : UrlParser}.

Definition with_scheme (scheme : bytes) (url : URL) : URL :=
  mkURL scheme (User url) (Host url) (EscapedHost url) [] (RawPath url) (ForceQuery url) (RawQuery url)
    (Fragment url).

Definition ParseEndpoint (raw : bytes) (policy : EndpointPolicy) : result Endpoint :=
  match url_Parse (TrimSpace raw) with
  | None => fail "sync endpoint must be an absolute HTTP(S) URL"
  | Some parsed =>
      if bool_decide (Scheme parsed = []) || bool_decide (Host parsed = []) then
        fail "sync endpoint must be an absolute HTTP(S) URL"
      else if User parsed || negb (bool_decide (RawQuery parsed = [])) || negb (bool_decide (Fragment parsed = []))
              || negb (bool_decide (RawPath parsed = []))
              || (negb (bool_decide (Path parsed = [])) && negb (bool_decide (Path parsed = str "/"))) then
        fail "sync endpoint must not contain credentials, a path, query, or fragment"
      else
        let parsed := with_scheme (Ascii.ToLower unicode_lower (Scheme parsed)) parsed in
        if bool_decide (Scheme parsed = str "https") then Ok (mkEndpoint parsed)
        else if bool_decide (Scheme parsed = str "http") then
          if negb (AllowPrivateHTTP policy) then fail "plaintext HTTP requires allow_private_http"
          else if negb (private_host unicode_lower parsed) then
            fail "plaintext HTTP is restricted to localhost or a private IP literal"
          else Ok (mkEndpoint parsed)
        else fail "sync endpoint scheme must be HTTP or HTTPS"
  end.

End endpoint.

(** ** The configuration file *)

(** What [Lstat] and [Stat] tell about a file; two infos describe the same file
    ([os.SameFile]) when their [FileID]s agree. *)
Record FileInfo := mkFileInfo {
  IsRegular : bool; IsSymlink : bool; FSize : Z; Perm : Z; FileID : Z
}.

(** A file once it is open: its info, what reading it delivers, and the error
    reading ends with if it does not end with [io.EOF]. *)
Record File := mkFile { Stat : result FileInfo; Contents : bytes; ReadError : option error }.

Class Files := {
  windows : bool;
  Lstat : bytes -> result FileInfo;
  OpenFile : bytes -> result File;
  IsAbs : bytes -> bool
}.

Record EndpointConfig := mkEndpointConfig { ConfigEndpoint : bytes; ConfigPolicy : EndpointPolicy }.

(** The strict JSON decoder on the first value of a text, and whether only
    white space follows. *)
Class ConfigJson := decode_config : bytes -> option (EndpointConfig * bool).

(** [io.LimitReader]: the bytes read, and whether reading ended regularly. *)
Definition limited (limit : Z) (file : File) : bytes * bool :=
  if limit <=? len (Contents file) then (take (Z.to_nat limit) (Contents file), true)
  else (Contents file, bool_decide (ReadError file = None)).

Definition LoadEndpointConfig `{UnicodeTables} `{UrlParser} `{Files} `{ConfigJson} (path : bytes)
    : result Endpoint :=
  if bool_decide (TrimSpace path = []) then fail "sync endpoint configuration path is required"
  else match Lstat path with
  | Err e => Err (Errorf_w "read sync endpoint configuration metadata: %w" e)
  | Ok info =>
      if IsSymlink info || negb (IsRegular info) || (FSize info >? maxEndpointConfigBytes) then
        fail "sync endpoint configuration must be a small regular file, not a symlink"
      else if negb windows && negb (Z.land (Perm info) 18 =? 0) then
        fail "sync endpoint configuration must not be group- or world-writable"
      else match OpenFile path with
      | Err e => Err (Errorf_w "open sync endpoint configuration: %w" e)
      | Ok file =>
          match Stat file with
          | Err _ => fail "sync endpoint configuration changed while opening"
          | Ok openedInfo =>
              if negb (FileID info =? FileID openedInfo) then
                fail "sync endpoint configuration changed while opening"
              else
                let '(text, regular_end) := limited (maxEndpointConfigBytes + 1) file in
                match decode_config text with
                | Some (config, true) =>
                    if regular_end then ParseEndpoint (ConfigEndpoint config) (ConfigPolicy config)
                    else fail "invalid sync endpoint configuration"
                | _ => fail "invalid sync endpoint configuration"
                end
          end
      end
  end.

(** ** The policy *)

(** [strconv.Itoa] of a byte, and an IPv4 literal. *)
Definition digit_of (n : Z) : byte := byte_of_Z (48 + n).

Definition decimal (n : Z) : bytes :=
  if n <? 10 then [digit_of n]
  else if n <? 100 then [digit_of (n / 10); digit_of (n mod 10)]
  else [digit_of (n / 100); digit_of (n / 10 mod 10); digit_of (n mod 10)].

Definition dotted (a b c d : Z) : bytes :=
  decimal a ++ [dot] ++ decimal b ++ [dot] ++ decimal c ++ [dot] ++ decimal d.

Lemma digit_of_ok n : 0 <= n < 10 -> digit (digit_of n) = true /\ u8 (digit_of n) - 48 = n.
Proof. intros H. unfold digit, digit_of. rewrite !u8_of_small by lia. lia. Qed.

Lemma read_digit fields val digLen n rest :
  0 <= n < 10 -> ~ (digLen = 1 /\ val = 0) -> 0 <= val -> val * 10 + n <= 255 ->
  NetIP.ipv4_fields fields val digLen (digit_of n :: rest) = NetIP.ipv4_fields fields (val * 10 + n) (digLen + 1) rest.
Proof.
  intros Hn Hz Hv Hb. destruct (digit_of_ok n Hn) as [Hd Hu]. cbn [NetIP.ipv4_fields].
  rewrite Hd, Hu. replace ((digLen =? 1) && (val =? 0)) with false by lia. by rewrite Z.gtb_ltb, (proj2 (Z.ltb_ge _ _)).
Qed.

(** One number of a literal. *)
Lemma read_decimal fields n rest :
  0 <= n < 256 -> exists digits, 1 <= digits /\
  NetIP.ipv4_fields fields 0 0 (decimal n ++ rest) = NetIP.ipv4_fields fields n digits rest.
Proof.
  intros Hn. unfold decimal. destruct (n <? 10) eqn:E1; [|destruct (n <? 100) eqn:E2]; bools.
  - exists 1. split; [lia|]. cbn [app]. rewrite read_digit by lia. f_equal; lia.
  - exists 2. split; [lia|]. cbn [app]. rewrite !read_digit by mlia. f_equal; mlia.
  - exists 3. split; [lia|]. cbn [app]. rewrite !read_digit by mlia. f_equal; mlia.
Qed.

Lemma decimal_cons n : exists c rest, decimal n = c :: rest.
Proof. unfold decimal. destruct (n <? 10); [|destruct (n <? 100)]; eauto. Qed.

Lemma read_octet fields n m rest :
  0 <= n < 256 -> len fields <> 3 ->
  NetIP.ipv4_fields fields 0 0 (decimal n ++ [dot] ++ decimal m ++ rest) =
  NetIP.ipv4_fields (fields ++ [n]) 0 0 (decimal m ++ rest).
Proof.
  intros Hn Hf. destruct (read_decimal fields n ([dot] ++ decimal m ++ rest) Hn) as (digits & Hd & ->).
  destruct (decimal_cons m) as (c & t & ->). cbn [app NetIP.ipv4_fields].
  change (digit dot) with false. rewrite (bool_decide_true (dot = dot)) by done.
  rewrite (bool_decide_false (_ = [])) by done. replace (digits =? 0) with false by lia.
  by replace (len fields =? 3) with false by lia.
Qed.

Lemma decimal_chars n c : 0 <= n < 256 -> c ∈ decimal n -> 48 <= u8 c <= 57.
Proof.
  intros Hn Hc. assert (exists d, 0 <= d < 10 /\ c = digit_of d) as (d & Hd & ->).
  { unfold decimal in Hc. destruct (n <? 10) eqn:E1; [|destruct (n <? 100) eqn:E2]; bools;
    repeat (apply elem_of_cons in Hc as [->|Hc]); try (by apply elem_of_nil in Hc);
    eexists; (split; [|reflexivity]); mlia. }
  unfold digit_of. rewrite u8_of_small; lia.
Qed.

Lemma dotted_chars a b c d x :
  0 <= a < 256 -> 0 <= b < 256 -> 0 <= c < 256 -> 0 <= d < 256 ->
  x ∈ dotted a b c d -> x = dot \/ 48 <= u8 x <= 57.
Proof.
  intros Ha Hb Hc Hd. unfold dotted. rewrite !elem_of_app, !list_elem_of_singleton.
  intros [H|[->|[H|[->|[H|[->|H]]]]]]; eauto using decimal_chars.
Qed.

(** An IPv4 literal is read as its four numbers. *)
Lemma ParseIP_dotted a b c d :
  0 <= a < 256 -> 0 <= b < 256 -> 0 <= c < 256 -> 0 <= d < 256 ->
  NetIP.ParseIP (dotted a b c d) = Some (replicate 10 0 ++ [255; 255; a; b; c; d]).
Proof.
  intros Ha Hb Hc Hd. pose proof (dotted_chars a b c d) as Hx. unfold NetIP.ParseIP.
  destruct (existsb _ _) eqn:Ep.
  { apply existsb_exists in Ep as (x & Hin & Ex). bools. subst x. apply list_elem_of_In in Hin.
    destruct (Hx percent) as [Hp|[Hp _]]; [done..|discriminate Hp|by exfalso; apply Hp]. }
  destruct (find _ _) as [x|] eqn:Ef.
  2: { assert (NetIP.is_separator dot = false) as Hf by (eapply find_none; [exact Ef|]; apply list_elem_of_In;
         unfold dotted; rewrite !elem_of_app, list_elem_of_singleton; tauto). by vm_compute in Hf. }
  apply find_some in Ef as [Hin Hs]. apply list_elem_of_In in Hin.
  destruct (Hx x) as [->|Hr]; try done.
  2: { unfold NetIP.is_separator in Hs. apply orb_true_iff in Hs as [Hs|Hs]; bools; subst x;
         destruct Hr as [H1 H2]; exfalso; [by apply H1|by apply H2]. }
  rewrite bool_decide_true by done. unfold dotted.
  rewrite <- (app_nil_r (decimal d)), !read_octet by done.
  destruct (read_decimal ([] ++ [a] ++ [b] ++ [c]) d [] Hd) as (n & _ & Hr). cbn [app] in *. by rewrite Hr.
Qed.

Definition ipv4_private (a b : Z) : Prop :=
  a = 127 \/ a = 10 \/ a = 172 /\ 16 <= b <= 31 \/ a = 192 /\ b = 168.

Lemma private_bits b : 0 <= b < 256 -> (Z.land b 240 =? 16) = (16 <=? b) && (b <=? 31).
Proof.
  intros Hb. assert (forallb (fun n => Bool.eqb (Z.land (Z.of_nat n) 240 =? 16) ((16 <=? Z.of_nat n) && (Z.of_nat n <=? 31)))
    (List.seq 0 256) = true) as H by (vm_compute; reflexivity).
  rewrite forallb_forall in H. specialize (H (Z.to_nat b)). rewrite Z2Nat.id in H by lia.
  apply Bool.eqb_prop, H, in_seq. lia.
Qed.

Lemma ipv4_private_ok a b c d :
  0 <= a < 256 -> 0 <= b < 256 ->
  let ip := replicate 10 0 ++ [255; 255; a; b; c; d] in
  NetIP.IsLoopback ip || NetIP.IsPrivate ip = true <-> ipv4_private a b.
Proof.
  intros Ha Hb ip. unfold NetIP.IsLoopback, NetIP.IsPrivate. change (NetIP.To4 ip) with (Some [a; b; c; d]).
  cbn [nth]. rewrite private_bits by done. unfold ipv4_private. rewrite !orb_true_iff, !andb_true_iff. lia.
Qed.

(** The host of a URL with an IPv4 literal and an optional port. *)
Lemma Hostname_dotted url a b c d port :
  0 <= a < 256 -> 0 <= b < 256 -> 0 <= c < 256 -> 0 <= d < 256 ->
  (port = [] \/ exists digits, port = colon :: digits /\ forallb digit digits = true) ->
  Host url = dotted a b c d ++ port -> Hostname url = dotted a b c d.
Proof.
  intros Ha Hb Hc Hd Hp Hh. pose proof (dotted_chars a b c d) as Hx. unfold Hostname. rewrite Hh.
  assert (unbracket (dotted a b c d) = dotted a b c d) as Hu.
  { assert (forall x, head (dotted a b c d) = Some x -> x <> byte_of_Z 91) as Hhd.
    { intros x Hx' ->. assert (byte_of_Z 91 ∈ dotted a b c d) as Hin
        by (destruct (dotted a b c d); [done|injection Hx' as ->; by left]).
      destruct (Hx _ Ha Hb Hc Hd Hin) as [Hq|[_ Hq]]; [discriminate Hq|by apply Hq]. }
    destruct (dotted a b c d) as [|x t]; [done|]. unfold unbracket. destruct (last _); [|done].
    by rewrite (bool_decide_false (x = _)) by (by apply Hhd). }
  destruct Hp as [->|(digits & -> & Hdig)].
  - rewrite app_nil_r, LastIndexByte_absent; [done|]. intros Hin.
    destruct (Hx _ Ha Hb Hc Hd Hin) as [Hq|[_ Hq]]; [discriminate Hq|by apply Hq].
  - assert (colon ∉ digits) as Hn.
    { intros Hin%list_elem_of_In. rewrite forallb_forall in Hdig. specialize (Hdig _ Hin). discriminate Hdig. }
    rewrite LastIndexByte_app by done. unfold len. rewrite Nat2Z.id, drop_app_length, take_app_length.
    rewrite (proj2 (Z.eqb_neq (Z.of_nat (length (dotted a b c d))) (-1))) by lia. cbn [negb andb validOptionalPort].
    by rewrite bool_decide_true, Hdig.
Qed.

Lemma dotted_lower lower a b c d :
  0 <= a < 256 -> 0 <= b < 256 -> 0 <= c < 256 -> 0 <= d < 256 ->
  Ascii.ToLower lower (dotted a b c d) = dotted a b c d.
Proof.
  intros Ha Hb Hc Hd. pose proof (dotted_chars a b c d) as Hx.
  assert (Forall (fun x => u8 x <? 128 = true /\ Ascii.lower x = x) (dotted a b c d)) as Hf.
  { apply Forall_forall. intros x Hin. destruct (Hx _ Ha Hb Hc Hd Hin) as [->|Hr]; [done|].
    unfold Ascii.lower. replace (65 <=? u8 x) with false by lia. split; [lia|done]. }
  unfold Ascii.ToLower. replace (Ascii.is_ascii _) with true.
  - rewrite <- (map_id (dotted a b c d)) at 2. apply map_ext_Forall. eapply Forall_impl; [exact Hf|]. by intros ? [].
  - symmetry. apply forallb_forall. intros x Hin%list_elem_of_In. rewrite Forall_forall in Hf. by apply Hf.
Qed.

Lemma dotted_not_localhost a b c d :
  0 <= a < 256 -> 0 <= b < 256 -> 0 <= c < 256 -> 0 <= d < 256 -> dotted a b c d <> str "localhost".
Proof.
  intros Ha Hb Hc Hd He. destruct (dotted_chars a b c d (byte_of_Z 108) Ha Hb Hc Hd) as [Hq|[_ Hq]].
  - rewrite He. by left.
  - discriminate Hq.
  - by apply Hq.
Qed.

Section policy.
Context `{U : UnicodeTables} `{UP : UrlParser}.

Lemma ParseEndpoint_inv raw policy e :
  ParseEndpoint raw policy = Ok e ->
  Host (base e) <> [] /\ User (base e) = false /\ RawQuery (base e) = [] /\ Fragment (base e) = [] /\ Path (base e) = [] /\
  (Scheme (base e) = str "https" \/
   Scheme (base e) = str "http" /\ AllowPrivateHTTP policy = true /\ private_host unicode_lower (base e) = true).
Proof.
  unfold ParseEndpoint. intros H. destruct (url_Parse _) as [url|]; [|done].
  destruct (bool_decide (Scheme url = []) || _) eqn:E1; [done|]. destruct (User url || _ || _ || _ || _) eqn:E2; [done|].
  cbn zeta in H. bools.
  destruct (bool_decide (Scheme (with_scheme _ url) = str "https")) eqn:E3.
  - injection H as <-. bools. cbn. split_and!; try done. by left.
  - destruct (bool_decide (Scheme (with_scheme _ url) = str "http")) eqn:E4; [|done].
    invert_ok. bools. cbn [base with_scheme Host User RawQuery Fragment Path Scheme] in *. split_and!; try done. by right.
Qed.

(** C38: where a device token can travel.  An accepted endpoint carries no
    credentials, path or query, so every request goes to the configured host;
    it uses HTTPS, or plaintext HTTP that the policy allows and a private
    host.  On IPv4 literals, with or without a port, plaintext is accepted
    exactly for the loopback network and the three private ranges. *)
Theorem plaintext_stays_private (raw : bytes) (policy : EndpointPolicy) :
  (forall e path, ParseEndpoint raw policy = Ok e ->
     resolve e path = str "https://" ++ EscapedHost (base e) ++ path ++ (if ForceQuery (base e) then str "?" else []) \/
     resolve e path = str "http://" ++ EscapedHost (base e) ++ path ++ (if ForceQuery (base e) then str "?" else []) /\
     AllowPrivateHTTP policy = true /\ private_host unicode_lower (base e) = true) /\
  (forall a b c d port escaped query,
     0 <= a < 256 -> 0 <= b < 256 -> 0 <= c < 256 -> 0 <= d < 256 ->
     (port = [] \/ exists digits, port = colon :: digits /\ forallb digit digits = true) ->
     url_Parse (TrimSpace raw) = Some (mkURL (str "http") false (dotted a b c d ++ port) escaped [] [] query [] []) ->
     is_Ok (ParseEndpoint raw policy) = true <-> AllowPrivateHTTP policy = true /\ ipv4_private a b).
Proof.
  split.
  - intros e path H. apply ParseEndpoint_inv in H as (_ & _ & Hq & _ & _ & Hs). unfold resolve. rewrite Hq.
    replace (ForceQuery (base e) || negb (bool_decide ([] = []))) with (ForceQuery (base e)) by (by rewrite orb_false_r).
    rewrite app_nil_r. destruct Hs as [->|(-> & Ha & Hp)]; [by left|right; by split_and!].
  - intros a b c d port escaped query Ha Hb Hc Hd Hport Hurl. unfold ParseEndpoint. rewrite Hurl.
    assert (dotted a b c d ++ port <> []) as Hne
      by (unfold dotted; destruct (decimal_cons a) as (x & t & ->); done).
    cbn [Scheme Host User RawQuery Fragment RawPath Path with_scheme].
    rewrite (bool_decide_false (_ ++ port = [])) by done. cbn [orb negb andb].
    rewrite !(bool_decide_true ([] = [])) by done. cbn [orb negb andb].
    change (Ascii.ToLower unicode_lower (str "http")) with (str "http").
    rewrite (bool_decide_false (str "http" = [])), (bool_decide_false (str "http" = str "https")) by done.
    rewrite (bool_decide_true (str "http" = str "http")) by done. cbn [orb].
    unfold private_host. rewrite (Hostname_dotted (with_scheme _ _) a b c d port) by done.
    rewrite dotted_lower, ParseIP_dotted by done.
    rewrite (bool_decide_false (dotted a b c d = _)) by (by apply dotted_not_localhost).
    rewrite orb_false_l. rewrite <- (ipv4_private_ok a b c d) by done.
    destruct (AllowPrivateHTTP policy), (_ || _); cbn; intuition congruence.
Qed.

End policy.

(** ** An example *)

Section witnesses.
#[local] Existing Instance ascii_tables.

Definition sample_url : URL :=
  mkURL (str "http") false (dotted 192 168 1 20 ++ str ":8080") (str "192.168.1.20:8080") [] [] false [] [].
#[local] Instance sample_parser : UrlParser :=
  fun raw => if bool_decide (raw = str "http://192.168.1.20:8080") then Some sample_url else None.

Definition sample_raw : bytes := str " http://192.168.1.20:8080".

Lemma plaintext_stays_private_witness :
  ParseEndpoint sample_raw (mkPolicy true) = Ok (mkEndpoint sample_url) /\
  (resolve (mkEndpoint sample_url) (str "/v1/sync") = str "https://192.168.1.20:8080/v1/sync" \/
   resolve (mkEndpoint sample_url) (str "/v1/sync") = str "http://192.168.1.20:8080/v1/sync" /\
   AllowPrivateHTTP (mkPolicy true) = true /\ private_host unicode_lower sample_url = true) /\
  (is_Ok (ParseEndpoint sample_raw (mkPolicy true)) = true <-> AllowPrivateHTTP (mkPolicy true) = true /\ ipv4_private 192 168).
Proof.
  assert (ParseEndpoint sample_raw (mkPolicy true) = Ok (mkEndpoint sample_url)) as He by (vm_compute; reflexivity).
  destruct (plaintext_stays_private sample_raw (mkPolicy true)) as [H1 H2].
  split; [exact He|]. split; [exact (H1 (mkEndpoint sample_url) (str "/v1/sync") He)|].
  apply (H2 192 168 1 20 (str ":8080") (str "192.168.1.20:8080") false); try lia.
  - right. exists (str "8080"). split; reflexivity.
  - vm_compute. reflexivity.
Defined.

End witnesses.
