(* ===== verification/Crypto.v ===== *)
(** * Identity and key derivation ([protocol/crypto.go])

    The cryptographic functions the protocol calls (XChaCha20-Poly1305, HKDF
    and X25519 of [golang.org/x/crypto], Ed25519) are the parameters of the
    class [Primitives]; [PrimitiveLaws] states their documented behaviour.
    SHA-256 and HMAC are the definitions of [Sha256].  On top of them: device
    keys, the canonical phrase and Pinyin, the opaque object identifiers, the
    pairing key and the recovery keys. *)

From S2P Require Import Prelude Encoding Sha256 Unicode.

(** ** Random sources

    An [io.Reader] is the bytes it still delivers; [io.ReadFull] fails when
    there are not enough of them. *)
Definition ReadFull (n : Z) (source : bytes) : result (bytes * bytes) :=
  if len source <? n then fail "unexpected EOF"
  else Ok (take (Z.to_nat n) source, drop (Z.to_nat n) source).

Lemma ReadFull_ok n source :
  0 <= n <= len source ->
  exists out rest, ReadFull n source = Ok (out, rest) /\ len out = n /\ source = out ++ rest.
Proof.
  intros H. unfold ReadFull. destruct (Z.ltb_spec (len source) n); [lia|].
  eexists _, _. split_and!; [done| |by rewrite take_drop].
  unfold len in *. rewrite length_take. lia.
Qed.

Lemma ReadFull_len n source out rest :
  0 <= n -> ReadFull n source = Ok (out, rest) -> len out = n /\ source = out ++ rest.
Proof.
  unfold ReadFull. destruct (Z.ltb_spec (len source) n); [done|].
  intros ? [= <- <-]. split; [|by rewrite take_drop]. unfold len in *. rewrite length_take. lia.
Qed.

(** ** The parameters *)

Definition KeySize : Z := 32.
Definition NonceSizeX : Z := 24.
Definition Overhead : Z := 16.
Definition ScalarSize : Z := 32.
Definition PointSize : Z := 32.
Definition PublicKeySize : Z := 32.
Definition PrivateKeySize : Z := 64.
Definition SeedSize : Z := 32.

Class Primitives := {
  AEAD : Type;
  NewX : bytes -> result AEAD;
  aead_Seal : AEAD -> bytes -> bytes -> bytes -> bytes;         (* nonce, plaintext, data *)
  aead_Open : AEAD -> bytes -> bytes -> bytes -> option bytes;  (* nonce, ciphertext, data *)
  hkdf_New_read : bytes -> bytes -> bytes -> Z -> result bytes; (* secret, salt, info, length *)
  X25519 : bytes -> bytes -> result bytes;
  Basepoint : bytes;
  NewKeyFromSeed : bytes -> bytes;
  ed25519_Sign : bytes -> bytes -> bytes;
  ed25519_Verify : bytes -> bytes -> bytes -> bool
}.

(** An Ed25519 private key is its seed followed by the public key. *)
Definition ed25519_Public (private : bytes) : bytes := drop 32 private.

Class PrimitiveLaws (P : Primitives) : Prop := {
  NewX_ok : forall key, len key = KeySize -> exists a, NewX key = Ok a;
  open_seal : forall a nonce plain aad,
    len nonce = NonceSizeX -> aead_Open a nonce (aead_Seal a nonce plain aad) aad = Some plain;
  seal_len : forall a nonce plain aad, len (aead_Seal a nonce plain aad) = len plain + Overhead;
  hkdf_ok : forall secret salt info n,
    0 <= n <= 255 * Size -> exists key, hkdf_New_read secret salt info n = Ok key /\ len key = n;
  X25519_agree : forall a b pa pb,
    X25519 a Basepoint = Ok pa -> X25519 b Basepoint = Ok pb -> X25519 a pb = X25519 b pa;
  NewKeyFromSeed_len : forall seed, len seed = SeedSize -> len (NewKeyFromSeed seed) = PrivateKeySize;
  NewKeyFromSeed_seed : forall seed, len seed = SeedSize -> take 32 (NewKeyFromSeed seed) = seed;
  sign_len : forall private m, len (ed25519_Sign private m) = 64;
  verify_sign : forall seed m, len seed = SeedSize ->
    ed25519_Verify (ed25519_Public (NewKeyFromSeed seed)) m (ed25519_Sign (NewKeyFromSeed seed) m) = true
}.

(** Canonical CBOR ([github.com/fxamacker/cbor]) of one Go type.  [encodable]
    says which values survive the trip (the decoder refuses text strings that
    are not UTF-8). *)
Class Codec (T : Type) := {
  Marshal : T -> result bytes;
  Unmarshal : bytes -> result T;
  encodable : T -> bool
}.

Class CodecLaws (T : Type) (C : Codec T) : Prop := {
  marshal_ok : forall x, encodable x = true -> exists b, Marshal x = Ok b;
  unmarshal_marshal : forall x b, encodable x = true -> Marshal x = Ok b -> Unmarshal b = Ok x
}.

(** A type all of whose values can be encoded. *)
Class TotalCodec (T : Type) (C : Codec T) : Prop := always_encodable : forall x, encodable x = true.

(** ** Device keys *)

Record DeviceKeys := mkDeviceKeys {
  X25519Private : bytes; X25519Public : bytes; Ed25519Public : bytes; Ed25519Private : bytes
}.

Section crypto.
Context `{P : Primitives} `{U : UnicodeTables}.

Definition NewDeviceKeys (source : bytes) : result (DeviceKeys * bytes) :=
  let! (private, source) := ReadFull ScalarSize source in
  let! public := X25519 private Basepoint in
  let! (seed, source) := ReadFull SeedSize source in
  let edPrivate := NewKeyFromSeed seed in
  Ok (mkDeviceKeys private public (ed25519_Public edPrivate) edPrivate, source).

(** ** Canonical identity *)

Definition CanonicalPhrase (value : bytes) : bytes :=
  let value := NFKC (TrimSpace value) in
  concat (Fields value).

(** One iteration of the loop over the runes: the text written so far and
    [separatorPending]. *)
Definition pinyin_step (st : bytes * bool) (character : Z) : bytes * bool :=
  let '(canonical, separatorPending) := st in
  if is_Mn character then st
  else if (49 <=? character) && (character <=? 53) then st
  else if (97 <=? character) && (character <=? 122) then
    ((if separatorPending && negb (bool_decide (canonical = [])) then canonical ++ str " " else canonical)
       ++ [byte_of_Z character], false)
  else (canonical, negb (bool_decide (canonical = []))).

(** The spellings of u with diaeresis: the letter alone and with each tone mark. *)
Definition u_spellings : list (bytes * bytes) :=
  map (fun old => (old, str "v"))
    [[Byte.xc3; Byte.xbc]; [Byte.xc7; Byte.x96]; [Byte.xc7; Byte.x98];
     [Byte.xc7; Byte.x9a]; [Byte.xc7; Byte.x9c]].

Definition CanonicalPinyin (value : bytes) : bytes :=
  let value := Ascii.ToLower unicode_lower (NFKC (TrimSpace value)) in
  let value := Replace [(str "u:", str "v")] value in
  let value := Replace u_spellings value in
  let value := NFD value in
  (fold_left pinyin_step (map fst (runes value)) ([], false)).1.

Definition OpaqueObjectID (idKey phrase pinyin : bytes) : result bytes :=
  if negb (len idKey =? 32) then fail "object ID key must be 32 bytes"
  else
    let phrase := CanonicalPhrase phrase in
    let pinyin := CanonicalPinyin pinyin in
    if bool_decide (phrase = []) || bool_decide (pinyin = []) then
      fail "phrase and canonical Pinyin are required"
    else Ok (take 16 (HMAC idKey (phrase ++ [Byte.x00] ++ pinyin))).

(** ** Derived keys *)

Definition DerivePairingKey (private peerPublic sessionNonce : bytes) : result bytes :=
  if negb (len private =? ScalarSize) || negb (len peerPublic =? PointSize) then
    fail "X25519 keys must be 32 bytes"
  else if len sessionNonce <? 16 then fail "pairing nonce must be at least 16 bytes"
  else
    let! shared := X25519 private peerPublic in
    hkdf_New_read shared sessionNonce (str "yunpin-pairing-v1") KeySize.

Definition DeriveRecoveryKeys (recoveryKey : bytes) : result (bytes * bytes) :=
  if negb (len recoveryKey =? 32) then fail "recovery key must be 32 bytes"
  else
    let expand info := hkdf_New_read recoveryKey [] info 32 in
    let! encryption := expand (str "yunpin-recovery-encryption-v1") in
    let! authentication := expand (str "yunpin-recovery-authentication-v1") in
    Ok (encryption, authentication).

End crypto.

Arguments pinyin_step : simpl never.

(** ** Canonical Pinyin

    The canonical form: syllables of lower-case letters, one space between
    two of them. *)

Definition is_letter (b : byte) : bool := (97 <=? u8 b) && (u8 b <=? 122).

Fixpoint syllables_from (after_space : bool) (s : bytes) : bool :=
  match s with
  | [] => negb after_space
  | b :: t =>
      if is_letter b then syllables_from false t
      else (u8 b =? 32) && negb after_space && syllables_from true t
  end.

Definition canonical_pinyin (s : bytes) : bool :=
  bool_decide (s = []) || syllables_from true s.

Lemma is_letter_range b : is_letter b = true <-> 97 <= u8 b <= 122.
Proof. unfold is_letter. rewrite andb_true_iff, !Z.leb_le. done. Qed.

Lemma syllables_snoc p s b :
  is_letter b = true -> syllables_from p s = true \/ s = [] -> syllables_from p (s ++ [b]) = true.
Proof.
  intros Hb. revert p. induction s as [|c s IH]; intros p H; simpl; [by rewrite Hb|].
  destruct H as [H|H]; [|done]. simpl in H. destruct (is_letter c).
  - apply IH. by left.
  - apply andb_prop in H as [Hs Hr]. rewrite Hs. apply IH. by left.
Qed.

Lemma syllables_snoc_space p s b :
  is_letter b = true -> syllables_from p s = true -> syllables_from p (s ++ str " " ++ [b]) = true.
Proof.
  intros Hb. change (str " ") with [Byte.x20].
  revert p. induction s as [|c s IH]; intros p H; simpl in *; [by rewrite H, Hb|].
  destruct (is_letter c); [by apply IH|]. apply andb_prop in H as [Hs Hr]. rewrite Hs. by apply IH.
Qed.

Lemma syllables_nonempty s : syllables_from true s = true -> s <> [].
Proof. by intros H ->. Qed.

Section pinyin.
Context `{U : UnicodeTables} {UL : UnicodeLaws U}.

Lemma pinyin_step_letter c p z :
  97 <= z <= 122 -> pinyin_step (c, p) z =
    ((if p && negb (bool_decide (c = [])) then c ++ str " " else c) ++ [byte_of_Z z], false).
Proof.
  intros. unfold pinyin_step. rewrite Mn_ascii by lia.
  destruct (Z.leb_spec 49 z), (Z.leb_spec z 53), (Z.leb_spec 97 z), (Z.leb_spec z 122); done || lia.
Qed.

Lemma pinyin_step_canonical c p z :
  canonical_pinyin c = true -> canonical_pinyin (pinyin_step (c, p) z).1 = true.
Proof.
  intros Hc. destruct (decide (97 <= z <= 122)) as [Hz|Hz].
  - rewrite pinyin_step_letter by done. cbn [fst].
    assert (is_letter (byte_of_Z z) = true) as Hl.
    { apply is_letter_range. rewrite u8_of_small; lia. }
    unfold canonical_pinyin in *. apply orb_true_iff. right.
    destruct (p && negb (bool_decide (c = []))) eqn:E; apply orb_true_iff in Hc.
    + rewrite <- app_assoc. bools. apply syllables_snoc_space; [done|].
      destruct Hc; bools; done.
    + apply syllables_snoc; [done|]. destruct Hc; bools; auto.
  - unfold pinyin_step. destruct (is_Mn z); [done|].
    destruct (_ && _); [done|].
    destruct ((97 <=? z) && (z <=? 122)) eqn:E; [bools; lia|done].
Qed.

Lemma pinyin_fold_canonical l st :
  canonical_pinyin st.1 = true -> canonical_pinyin (fold_left pinyin_step l st).1 = true.
Proof.
  revert st. induction l as [|z l IH]; intros [c p] H; [done|]. simpl.
  by apply IH, pinyin_step_canonical.
Qed.

(** The loop copies text that is already in canonical form. *)
Lemma pinyin_fold_copy s : forall c p,
  c <> [] -> syllables_from p s = true ->
  fold_left pinyin_step (map u8 s) (c, p) = ((if p then c ++ str " " else c) ++ s, false).
Proof.
  induction s as [|b s IH]; intros c p Hc Hs; cbn [map fold_left].
  - destruct p; [done|]. by rewrite app_nil_r.
  - simpl in Hs. destruct (is_letter b) eqn:Hb.
    + apply is_letter_range in Hb. rewrite pinyin_step_letter by done.
      rewrite bool_decide_eq_false_2, byte_of_Z_u8 by done. rewrite andb_true_r.
      rewrite IH by (done || by destruct p, c). f_equal. by rewrite <- app_assoc.
    + bools. destruct p; [done|].
      assert (b = Byte.x20) as -> by (by apply u8_inj).
      unfold pinyin_step at 2. rewrite Mn_ascii by done. simpl.
      rewrite bool_decide_eq_false_2 by done. simpl.
      rewrite IH by done. f_equal. by rewrite <- app_assoc.
Qed.

Lemma syllables_ascii s : forall p, syllables_from p s = true ->
  forall b, b ∈ s -> is_letter b = true \/ u8 b = 32.
Proof.
  induction s as [|c s IH]; intros p H b Hb.
  { by apply not_elem_of_nil in Hb. }
  simpl in H. apply elem_of_cons in Hb as [->|Hb].
  - destruct (is_letter c); [auto|]. bools. auto.
  - destruct (is_letter c); [by eapply IH|]. bools. by eapply IH.
Qed.

Lemma canonical_ascii s : canonical_pinyin s = true ->
  forall b, b ∈ s -> is_letter b = true \/ u8 b = 32.
Proof.
  intros H%orb_true_iff. destruct H as [->%bool_decide_eq_true|H]; [|by eapply syllables_ascii].
  intros b Hb. by apply not_elem_of_nil in Hb.
Qed.

Lemma letters_ascii s : (forall b, b ∈ s -> is_letter b = true \/ u8 b = 32) -> Ascii.is_ascii s = true.
Proof.
  induction s as [|b s IH]; intros H; [done|]. apply is_ascii_cons. split.
  - destruct (H b ltac:(by left)) as [Hb|Hb]; [apply is_letter_range in Hb; lia|lia].
  - apply IH. intros. apply H. by right.
Qed.

Lemma letters_lower s :
  (forall b, b ∈ s -> is_letter b = true \/ u8 b = 32) -> map Ascii.lower s = s.
Proof.
  induction s as [|b s IH]; intros H; [done|]. simpl. f_equal; [|apply IH; intros; apply H; by right].
  unfold Ascii.lower. destruct (H b ltac:(by left)) as [Hb|Hb]; [apply is_letter_range in Hb|];
    destruct (Z.leb_spec 65 (u8 b)), (Z.leb_spec (u8 b) 90); done || lia.
Qed.

Lemma letter_not_space b : is_letter b = true -> IsSpace (u8 b) = false.
Proof.
  intros [? ?]%is_letter_range. unfold IsSpace.
  repeat match goal with
         | |- context [?x <=? ?y] => destruct (Z.leb_spec x y); try lia
         | |- context [?x =? ?y] => destruct (Z.eqb_spec x y); try lia
         end; done.
Qed.

Lemma syllables_last p s :
  syllables_from p s = true -> s <> [] -> exists t b, s = t ++ [b] /\ is_letter b = true.
Proof.
  revert p. induction s as [|c s IH]; intros p H Hne; [done|]. simpl in H.
  destruct (decide (s = [])) as [->|Hs].
  - exists [], c. split; [done|]. destruct (is_letter c); [done|]. by bools.
  - assert (exists q, syllables_from q s = true) as [q Hq].
    { destruct (is_letter c); [eauto|]. bools. eauto. }
    destruct (IH q Hq Hs) as (t & b & -> & Hb). by exists (c :: t), b.
Qed.

Lemma canonical_trim s : canonical_pinyin s = true -> TrimSpace s = s.
Proof.
  intros H. pose proof (letters_ascii s (canonical_ascii s H)) as Ha.
  apply orb_true_iff in H as [->%bool_decide_eq_true|H]; [done|].
  pose proof (syllables_nonempty s H) as Hne.
  destruct (syllables_last true s H Hne) as (t & b & E & Hb).
  destruct s as [|c s]; [done|]. simpl in H.
  destruct (is_letter c) eqn:Hc; [|by rewrite andb_false_r in H].
  eapply (TrimSpace_keep (c :: s) (u8 c) [c] _ (u8 b) [b] (map (fun b => (u8 b, [b])) t)).
  - rewrite runes_ascii by done. reflexivity.
  - rewrite runes_ascii, E, map_app by done. reflexivity.
  - by apply letter_not_space.
  - by apply letter_not_space.
Qed.

Lemma canonical_foreign s (b : byte) :
  canonical_pinyin s = true -> is_letter b = false -> u8 b <> 32 -> b ∉ s.
Proof. intros H Hb Hs Hin. destruct (canonical_ascii s H b Hin); congruence. Qed.

Lemma CanonicalPinyin_fixed s : canonical_pinyin s = true -> CanonicalPinyin s = s.
Proof.
  intros H. pose proof (canonical_ascii s H) as Hl. pose proof (letters_ascii s Hl) as Ha.
  unfold CanonicalPinyin. rewrite canonical_trim, NFKC_ascii by done.
  unfold Ascii.ToLower. rewrite Ha, letters_lower by done.
  rewrite (Replace_foreign [_]), (Replace_foreign u_spellings), NFD_ascii; [|done| |].
  - rewrite runes_ascii, map_map by done. simpl. rewrite map_ext with (g := u8) by done.
    apply orb_true_iff in H as [->%bool_decide_eq_true|H]; [done|].
    pose proof (syllables_nonempty s H). destruct s as [|b s]; [done|]. simpl in H |- *.
    destruct (is_letter b) eqn:Hb; [|by rewrite andb_false_r in H].
    apply is_letter_range in Hb. rewrite pinyin_step_letter, byte_of_Z_u8 by done.
    cbn [andb app]. by rewrite pinyin_fold_copy.
  - repeat (apply Forall_cons; split; [eexists; split; [by left|by apply (canonical_foreign s)]|]);
      by apply Forall_nil.
  - apply Forall_singleton. exists Byte.x3a.
    split; [by right; left|by apply (canonical_foreign s)].
Qed.

Lemma CanonicalPinyin_canonical value : canonical_pinyin (CanonicalPinyin value) = true.
Proof. by apply pinyin_fold_canonical. Qed.

(** [CanonicalPinyin] always returns syllables of lower-case ASCII letters
    separated by single spaces, and applying it to its own output changes
    nothing: it is a projection onto the canonical spellings. *)
Theorem CanonicalPinyin_projection (value : bytes) :
  canonical_pinyin (CanonicalPinyin value) = true /\
  CanonicalPinyin (CanonicalPinyin value) = CanonicalPinyin value.
Proof.
  split; [apply CanonicalPinyin_canonical|].
  apply CanonicalPinyin_fixed, CanonicalPinyin_canonical.
Qed.

End pinyin.

(** ** A concrete instance

    Functions with the documented laws, used to show that the hypotheses of
    the theorems hold together: derived keys and public keys that are a
    checksum of their inputs; an authenticated encryption that appends a keyed
    tag; a commutative combination for the key agreement; a keyed checksum as
    the signature; and a self-delimiting bit encoding of any countable type.  They are not secure. *)
Module Sample.

(** A polynomial checksum. *)
Definition checksum (l : bytes) : Z :=
  fold_left (fun acc b => Z.land (acc * 31 + u8 b) 65535) l 1.

Definition hkdf (secret salt info : bytes) (n : Z) : result bytes :=
  if n >? 255 * Size then fail "hkdf: entropy limit reached"
  else Ok (BigEndian.put (Z.to_nat n) (checksum (secret ++ salt ++ info))).

Definition seal (key nonce plain aad : bytes) : bytes :=
  plain ++ BigEndian.put 16 (checksum (key ++ nonce ++ aad ++ plain)).

Definition open (key nonce ciphertext aad : bytes) : option bytes :=
  let plain := take (length ciphertext - 16) ciphertext in
  if bool_decide (seal key nonce plain aad = ciphertext) then Some plain else None.

Definition xor_byte (a b : byte) : byte := byte_of_Z (Z.lxor (u8 a) (u8 b)).

Definition sign (private m : bytes) : bytes := BigEndian.put 64 (checksum (drop 32 private ++ m)).

Definition verify (public m signature : bytes) : bool :=
  bool_decide (signature = BigEndian.put 64 (checksum (public ++ m))).

#[export] Instance primitives : Primitives := {|
  AEAD := bytes;
  NewX key := if len key =? KeySize then Ok key else fail "chacha20poly1305: bad key length";
  aead_Seal := seal;
  aead_Open := open;
  hkdf_New_read := hkdf;
  X25519 a p := Ok (zip_with xor_byte a p);
  Basepoint := Byte.x09 :: replicate 31 Byte.x00;
  NewKeyFromSeed seed := seed ++ BigEndian.put 32 (checksum seed);
  ed25519_Sign := sign;
  ed25519_Verify := verify
|}.

Lemma len_seal k n p a : len (seal k n p a) = len p + 16.
Proof. unfold seal. by autorewrite with len. Qed.

Lemma xor_byte_swap a b c : xor_byte a (xor_byte b c) = xor_byte b (xor_byte a c).
Proof.
  assert (forall x y, 0 <= Z.lxor (u8 x) (u8 y) < 256) as Hr.
  { intros x y. pose proof (u8_range x). pose proof (u8_range y).
    split; [apply Z.lxor_nonneg; lia|].
    destruct (Z.eq_dec (Z.lxor (u8 x) (u8 y)) 0) as [->|]; [lia|].
    apply Z.log2_lt_cancel. change (Z.log2 256) with 8.
    eapply Z.le_lt_trans; [apply Z.log2_lxor; lia|].
    destruct (Z.max_spec (Z.log2 (u8 x)) (Z.log2 (u8 y))) as [[_ ->]|[_ ->]].
    - apply Z.le_lt_trans with (Z.log2 255); [apply Z.log2_le_mono; lia|done].
    - apply Z.le_lt_trans with (Z.log2 255); [apply Z.log2_le_mono; lia|done]. }
  unfold xor_byte. rewrite !u8_of_small by apply Hr.
  f_equal. by rewrite <- !Z.lxor_assoc, (Z.lxor_comm (u8 a)).
Qed.

Lemma xor_swap a : forall b c,
  zip_with xor_byte a (zip_with xor_byte b c) = zip_with xor_byte b (zip_with xor_byte a c).
Proof.
  induction a as [|x a IH]; intros [|y b] [|z c]; simpl; try done. by rewrite IH, xor_byte_swap.
Qed.

#[export] Instance primitive_laws : PrimitiveLaws primitives.
Proof.
  split; simpl.
  - intros key ->. eauto.
  - intros a nonce plain aad _. unfold open.
    assert (take (length (seal a nonce plain aad) - 16) (seal a nonce plain aad) = plain) as ->.
    { pose proof (len_seal a nonce plain aad). unfold len in *.
      replace (length (seal a nonce plain aad) - 16)%nat with (length plain) by lia.
      unfold seal. by rewrite take_app_length. }
    by rewrite bool_decide_eq_true_2.
  - apply len_seal.
  - intros secret salt info n Hn. unfold hkdf, Size in *.
    destruct (Z.gtb_spec n (255 * 32)); [lia|]. eexists. split; [done|]. rewrite len_put. lia.
  - intros a b pa pb [= <-] [= <-]. by rewrite xor_swap.
  - intros seed Hs. unfold SeedSize, PrivateKeySize in *. rewrite len_app, len_put. lia.
  - intros seed Hs. unfold SeedSize, len in Hs. by rewrite take_app_le, take_ge by lia.
  - intros. unfold sign. by rewrite len_put.
  - intros seed m _. unfold verify, sign, ed25519_Public. by apply bool_decide_eq_true_2.
Qed.

(** The bits of a positive number, least significant first. *)
Fixpoint put_bits (p : positive) : bytes :=
  match p with
  | xH => [Byte.x02]
  | xO q => Byte.x00 :: put_bits q
  | xI q => Byte.x01 :: put_bits q
  end.

Fixpoint get_bits (s : bytes) : option positive :=
  match s with
  | [] => None
  | [b] => if bool_decide (b = Byte.x02) then Some xH else None
  | b :: t => match get_bits t with
              | Some q => Some (if bool_decide (b = Byte.x00) then xO q else xI q)
              | None => None
              end
  end.

Lemma get_put_bits p : get_bits (put_bits p) = Some p.
Proof.
  induction p as [p IH|p IH|]; [..|done]; simpl; rewrite IH.
  - by destruct p.
  - by destruct p.
Qed.

Definition codec (T : Type) `{Countable T} : Codec T := {|
  Marshal x := Ok (put_bits (encode x));
  Unmarshal b := match get_bits b with
                 | Some p => match decode p with Some x => Ok x | None => fail "invalid encoding" end
                 | None => fail "unexpected EOF"
                 end;
  encodable _ := true
|}.

Lemma codec_laws (T : Type) `{Countable T} : CodecLaws T (codec T).
Proof.
  split; simpl; [eauto|]. intros x b _ [= <-]. by rewrite get_put_bits, decode_encode.
Qed.

Lemma codec_total (T : Type) `{Countable T} : TotalCodec T (codec T).
Proof. done. Qed.

End Sample.

Lemma CanonicalPinyin_projection_witness :
  @CanonicalPinyin ascii_tables (str " NI3'hao3 lu:e4 ") = str "ni hao lve" /\
  @CanonicalPinyin ascii_tables (@CanonicalPinyin ascii_tables (str " NI3'hao3 lu:e4 ")) = str "ni hao lve".
Proof.
  split; [vm_compute; reflexivity|].
  destruct (@CanonicalPinyin_projection ascii_tables ascii_tables_laws (str " NI3'hao3 lu:e4 ")) as [_ H].
  rewrite H. vm_compute. reflexivity.
Defined.
