(* ===== verification/Envelope.v ===== *)
(** * Sealed envelopes and their wire form ([protocol/crypto.go], [protocol/wire.go])

    One encrypted and signed object: header validation, padding, [Seal],
    [Open], the hash that links a device's envelopes into a chain, and the
    textual form exchanged with the relay. *)

From S2P Require Import Prelude Encoding Sha256 Unicode Crypto.

Definition ProtocolVersion : Z := 1.
Definition PaddingBucket : Z := 512.
Definition MaxEnvelopePayload : Z := 512 * 1024.
Definition MaxEnvelopeCiphertext : Z :=
  ((MaxEnvelopePayload + 4 + PaddingBucket - 1) / PaddingBucket * PaddingBucket) + Overhead.

Record Header := mkHeader {
  Version : Z;
  AccountID : bytes;
  HObjectID : bytes;
  KeyEpoch : Z;
  DeviceID : bytes;
  DeviceSeq : Z;
  PreviousHash : bytes;
  Nonce : bytes
}.

Record Envelope := mkEnvelope { EHeader : Header; Ciphertext : bytes; Signature : bytes }.

#[export] Instance Header_eq_dec : EqDecision Header.
Proof. solve_decision. Defined.
#[export] Instance Envelope_eq_dec : EqDecision Envelope.
Proof. solve_decision. Defined.

(** ** Validation *)

Definition validateHeader (header : Header) : result unit :=
  if negb (Version header =? ProtocolVersion) then
    Err (Errorf_d "unsupported protocol version %d" (Version header))
  else if negb (len (AccountID header) =? 16) || negb (len (HObjectID header) =? 16)
          || negb (len (DeviceID header) =? 16) then
    fail "account, object, and device identifiers must be 16 bytes"
  else if (KeyEpoch header <? 1) || (KeyEpoch header >? MaxInt64) then
    fail "key epoch must be between 1 and MaxInt64"
  else if (DeviceSeq header <? 1) || (DeviceSeq header >? MaxInt64) then
    fail "device sequence must be between 1 and MaxInt64"
  else if negb (len (PreviousHash header) =? 0) && negb (len (PreviousHash header) =? Size) then
    fail "previous hash must be empty or 32 bytes"
  else if negb (len (Nonce header) =? NonceSizeX) then
    fail "XChaCha20 nonce must be 24 bytes"
  else Ok tt.

Definition validateEnvelopeBody (ciphertext signature : bytes) : result unit :=
  if negb (len signature =? 64) then fail "invalid envelope signature length"
  else if (len ciphertext <? PaddingBucket + 16) || (len ciphertext >? MaxEnvelopeCiphertext)
          || negb ((len ciphertext - 16) mod PaddingBucket =? 0) then
    fail "invalid envelope ciphertext length"
  else Ok tt.

(** [header.Version = ProtocolVersion] and the fresh nonce. *)
Definition with_nonce (header : Header) (nonce : bytes) : Header :=
  mkHeader ProtocolVersion (AccountID header) (HObjectID header) (KeyEpoch header)
    (DeviceID header) (DeviceSeq header) (PreviousHash header) nonce.

Section envelope.
Context `{P : Primitives} `{CH : Codec Header}.

Definition deriveObjectKey (epochKey objectID : bytes) : result bytes :=
  if negb (len epochKey =? KeySize) then fail "epoch key must be 32 bytes"
  else hkdf_New_read epochKey objectID (str "yunpin-envelope-v1") KeySize.

Definition canonicalHeader (header : Header) : result bytes := Marshal header.

(** The length to which a payload of [n] encoded bytes is padded. *)
Definition padded_length (n : Z) : Z :=
  let needed := 4 + n in
  let target := (needed + PaddingBucket - 1) / PaddingBucket * PaddingBucket in
  if target <? PaddingBucket then PaddingBucket else target.

Definition paddedPayload `{Codec T} (payload : T) (source : bytes) : result (bytes * bytes) :=
  let! encoded := Marshal payload in
  if len encoded >? MaxEnvelopePayload then fail "payload too large"
  else
    let target := padded_length (len encoded) in
    let! (padding, source) := ReadFull (target - 4 - len encoded) source in
    Ok (BigEndian.put 4 (len encoded) ++ encoded ++ padding, source).

Definition Seal `{Codec T} (epochKey : bytes) (header : Header) (payload : T)
    (signingPrivate source : bytes) : result (Envelope * bytes) :=
  let! (nonce, source) := ReadFull NonceSizeX source in
  let header := with_nonce header nonce in
  let! _ := validateHeader header in
  if negb (len signingPrivate =? PrivateKeySize) then fail "invalid Ed25519 private key"
  else
    let! aad := canonicalHeader header in
    let! (plain, source) := paddedPayload payload source in
    let! key := deriveObjectKey epochKey (HObjectID header) in
    let! aead := NewX key in
    let ciphertext := aead_Seal aead (Nonce header) plain aad in
    let signed := aad ++ ciphertext in
    Ok (mkEnvelope header ciphertext (ed25519_Sign signingPrivate signed), source).

Definition Open `{Codec T} (epochKey : bytes) (envelope : Envelope) (signingPublic : bytes) : result T :=
  let! _ := validateHeader (EHeader envelope) in
  if negb (len signingPublic =? PublicKeySize) then fail "invalid Ed25519 public key"
  else
    let! _ := validateEnvelopeBody (Ciphertext envelope) (Signature envelope) in
    let! aad := canonicalHeader (EHeader envelope) in
    let signed := aad ++ Ciphertext envelope in
    if negb (ed25519_Verify signingPublic signed (Signature envelope)) then
      fail "invalid envelope signature"
    else
      let! key := deriveObjectKey epochKey (HObjectID (EHeader envelope)) in
      let! aead := NewX key in
      match aead_Open aead (Nonce (EHeader envelope)) (Ciphertext envelope) aad with
      | None => fail "unable to authenticate envelope"
      | Some plain =>
          if len plain <? 4 then fail "invalid padded payload"
          else
            let length := BigEndian.get (slice plain 0 4) in
            if (length <? 0) || (length >? len plain - 4) then fail "invalid padded payload length"
            else Unmarshal (slice plain 4 (4 + length))
      end.

Definition EnvelopeHash (envelope : Envelope) : result bytes :=
  let! _ := validateHeader (EHeader envelope) in
  let! _ := validateEnvelopeBody (Ciphertext envelope) (Signature envelope) in
  let! aad := canonicalHeader (EHeader envelope) in
  Ok (Sum256 (aad ++ Ciphertext envelope ++ Signature envelope)).

End envelope.

(** ** The wire form *)

Record WireEnvelope := mkWire {
  WVersion : Z;
  WDeviceID : bytes;
  WDeviceSeq : Z;
  WObjectID : bytes;
  WKeyEpoch : Z;
  WPreviousHash : bytes;
  WNonce : bytes;
  WCiphertext : bytes;
  WSignature : bytes;
  WCursor : Z
}.

#[export] Instance WireEnvelope_eq_dec : EqDecision WireEnvelope.
Proof. solve_decision. Defined.

Definition ToWire (envelope : Envelope) : result WireEnvelope :=
  let! _ := validateHeader (EHeader envelope) in
  let! _ := validateEnvelopeBody (Ciphertext envelope) (Signature envelope) in
  let header := EHeader envelope in
  Ok (mkWire (Version header) [] (DeviceSeq header) (Hex.EncodeToString (HObjectID header))
        (KeyEpoch header)
        (if negb (len (PreviousHash header) =? 0)
         then Base64.EncodeToString (PreviousHash header) else [])
        (Base64.EncodeToString (Nonce header))
        (Base64.EncodeToString (Ciphertext envelope))
        (Base64.EncodeToString (Signature envelope)) 0).

Section wire.
Context `{U : UnicodeTables}.

Definition decodeHexWireID (value : bytes) : result bytes :=
  if negb (len value =? 32) || negb (bool_decide (value = Ascii.ToLower unicode_lower value)) then
    fail "invalid hexadecimal ID"
  else match Hex.DecodeString value with
       | None => fail "invalid hexadecimal ID"
       | Some decoded => if negb (len decoded =? 16) then fail "invalid hexadecimal ID" else Ok decoded
       end.

(** A failed [decode], reported with a message of its own. *)
Definition or_fail {A} (decoded : option A) (message : string) : result A :=
  match decoded with Some a => Ok a | None => fail message end.

Definition EnvelopeFromWire (accountID deviceID : bytes) (wire : WireEnvelope) : result Envelope :=
  let! objectID :=
    match decodeHexWireID (WObjectID wire) with Ok id => Ok id | Err _ => fail "invalid wire object ID" end in
  let! _ :=
    if bool_decide (WDeviceID wire = []) then Ok tt
    else match decodeHexWireID (WDeviceID wire) with
         | Ok wireDeviceID => if bool_decide (wireDeviceID = deviceID) then Ok tt
             else fail "wire device ID does not match authenticated device"
         | Err _ => fail "wire device ID does not match authenticated device"
         end in
  let! nonce := or_fail (Base64.DecodeString (WNonce wire)) "invalid wire nonce" in
  let! ciphertext := or_fail (Base64.DecodeString (WCiphertext wire)) "invalid wire ciphertext" in
  let! signature := or_fail (Base64.DecodeString (WSignature wire)) "invalid wire signature" in
  let! previous :=
    if bool_decide (WPreviousHash wire = []) then Ok []
    else or_fail (Base64.DecodeString (WPreviousHash wire)) "invalid wire previous hash" in
  let envelope :=
    mkEnvelope (mkHeader (WVersion wire) accountID objectID (WKeyEpoch wire) deviceID
                  (WDeviceSeq wire) previous nonce) ciphertext signature in
  let! _ := validateHeader (EHeader envelope) in
  let! _ := validateEnvelopeBody ciphertext signature in
  Ok envelope.

Definition EnvelopeFromDownload (accountID : bytes) (wire : WireEnvelope) : result Envelope :=
  if bool_decide (WDeviceID wire = []) then fail "downloaded envelope is missing a device ID"
  else match decodeHexWireID (WDeviceID wire) with
       | Err _ => fail "invalid downloaded device ID"
       | Ok deviceID => EnvelopeFromWire accountID deviceID wire
       end.

End wire.

(** ** What the validations establish *)

Definition header_ok (h : Header) : Prop :=
  Version h = ProtocolVersion /\
  len (AccountID h) = 16 /\ len (HObjectID h) = 16 /\ len (DeviceID h) = 16 /\
  1 <= KeyEpoch h <= MaxInt64 /\ 1 <= DeviceSeq h <= MaxInt64 /\
  (PreviousHash h = [] \/ len (PreviousHash h) = 32) /\ len (Nonce h) = 24.

Definition body_ok (ciphertext signature : bytes) : Prop :=
  len signature = 64 /\ exists k, 1 <= k <= 1025 /\ len ciphertext = 512 * k + 16.

Lemma len_zero {A} (l : list A) : len l = 0 <-> l = [].
Proof. unfold len. destruct l; simpl; split; (done || lia). Qed.

Lemma validateHeader_Ok h : validateHeader h = Ok tt <-> header_ok h.
Proof.
  unfold validateHeader, header_ok, NonceSizeX, Size. rewrite !Z.gtb_ltb, <- len_zero. split.
  - intros H. repeat case_match; bools; try discriminate;
      split_and!; auto; lia.
  - intros (H1 & H2 & H3 & H4 & H5 & H6 & H7 & H8).
    rewrite H1, H2, H3, H4, H8, !Z.eqb_refl. cbn [negb orb].
    rewrite !(proj2 (Z.ltb_ge _ _)) by lia. cbn [orb].
    destruct H7 as [-> | ->]; done.
Qed.

Lemma MaxEnvelopeCiphertext_value : MaxEnvelopeCiphertext = 512 * 1025 + 16.
Proof. reflexivity. Qed.

Lemma validateEnvelopeBody_Ok c s : validateEnvelopeBody c s = Ok tt <-> body_ok c s.
Proof.
  unfold validateEnvelopeBody, body_ok.
  rewrite !Z.gtb_ltb, MaxEnvelopeCiphertext_value. unfold PaddingBucket. split.
  - intros H. destruct (negb _) eqn:E; [done|].
    destruct (_ || _ || _) eqn:E2; [done|]. bools.
    split; [done|]. exists ((len c - 16) / 512). Z.div_mod_to_equations; lia.
  - intros (-> & k & Hk & E). rewrite E. simpl.
    rewrite !(proj2 (Z.ltb_ge _ _)) by lia. replace (512 * k + 16 - 16) with (k * 512) by lia.
    by rewrite Z.mod_mul.
Qed.

(** ** Padding *)

Lemma padded_length_bucket n :
  0 <= n -> padded_length n = 512 * ((n + 515) / 512) /\ n + 4 <= padded_length n < n + 4 + 512.
Proof.
  intros H. unfold padded_length, PaddingBucket.
  replace (4 + n + 512 - 1) with (n + 515) by lia.
  destruct (Z.ltb_spec ((n + 515) / 512 * 512) 512); Z.div_mod_to_equations; lia.
Qed.

Section seal_facts.
Context `{P : Primitives} {PL : PrimitiveLaws P} `{CH : Codec Header} `{C : Codec T}.

Lemma paddedPayload_Ok payload source plain rest :
  paddedPayload payload source = Ok (plain, rest) ->
  exists encoded padding, Marshal payload = Ok encoded /\ len encoded <= MaxEnvelopePayload /\
    plain = BigEndian.put 4 (len encoded) ++ encoded ++ padding /\
    len plain = padded_length (len encoded).
Proof.
  unfold paddedPayload. intros H. invert_ok.
  destruct (Z.gtb_spec (len a) MaxEnvelopePayload); [done|]. invert_ok.
  destruct a0 as [padding src]. invert_ok.
  destruct (padded_length_bucket (len a)) as [_ Hb]; [apply len_nonneg|].
  apply ReadFull_len in Hok0 as [Hp _]; [|lia].
  exists a, padding. split_and!; try done.
  autorewrite with len. lia.
Qed.

(** Everything a successful [Seal] has established. *)
Lemma Seal_Ok epochKey header payload private source env rest :
  Seal epochKey header payload private source = Ok (env, rest) ->
  exists nonce aad plain source' key aead,
    header_ok (with_nonce header nonce) /\ len private = PrivateKeySize /\
    canonicalHeader (with_nonce header nonce) = Ok aad /\
    paddedPayload payload source' = Ok (plain, rest) /\
    deriveObjectKey epochKey (HObjectID header) = Ok key /\ NewX key = Ok aead /\
    env = mkEnvelope (with_nonce header nonce) (aead_Seal aead nonce plain aad)
            (ed25519_Sign private (aad ++ aead_Seal aead nonce plain aad)).
Proof.
  unfold Seal. intros H. invert_ok. destruct a as [nonce src]. invert_ok.
  destruct (negb (len private =? PrivateKeySize)) eqn:E; [done|]. invert_ok. bools.
  destruct a1 as [plain src']. invert_ok.
  destruct a. apply validateHeader_Ok in Hok0.
  by eexists nonce, a0, plain, src, a1, a2.
Qed.

Lemma sealed_body_ok aead nonce payload source plain rest aad private m :
  paddedPayload payload source = Ok (plain, rest) ->
  body_ok (aead_Seal aead nonce plain aad) (ed25519_Sign private m).
Proof.
  intros (encoded & padding & _ & Hmax & _ & Hlen)%paddedPayload_Ok.
  split; [apply sign_len|]. rewrite seal_len, Hlen.
  pose proof (len_nonneg encoded). destruct (padded_length_bucket (len encoded)) as [-> ?]; [done|].
  unfold MaxEnvelopePayload, Overhead in *.
  exists ((len encoded + 515) / 512). split; [|done]. Z.div_mod_to_equations; lia.
Qed.

(** Unpadding gives the encoded payload back. *)
Lemma unpad encoded padding :
  len encoded <= MaxEnvelopePayload ->
  let plain := BigEndian.put 4 (len encoded) ++ encoded ++ padding in
  BigEndian.get (slice plain 0 4) = len encoded /\
  slice plain 4 (4 + len encoded) = encoded /\ 4 <= len plain /\ len encoded <= len plain - 4.
Proof.
  intros Hmax plain. pose proof (len_nonneg encoded). pose proof (len_nonneg padding).
  assert (len (BigEndian.put 4 (len encoded)) = 4) as H4 by (by rewrite len_put).
  split_and!.
  - unfold plain. rewrite slice_prefix, get_put by done. apply Z.mod_small.
    unfold MaxEnvelopePayload in *. simpl. lia.
  - by apply slice_middle.
  - unfold plain. autorewrite with len. lia.
  - unfold plain. autorewrite with len. lia.
Qed.

End seal_facts.

(** ** Sealing and opening *)

Section seal_open.
Context `{P : Primitives} {PL : PrimitiveLaws P}.
Context `{CH : Codec Header} {CHL : CodecLaws Header CH} {CHT : TotalCodec Header CH}.
Context `{C : Codec T} {CL : CodecLaws T C}.

Lemma deriveObjectKey_len epochKey objectID key :
  deriveObjectKey epochKey objectID = Ok key -> len key = KeySize.
Proof.
  unfold deriveObjectKey. destruct (negb _); [done|].
  destruct (hkdf_ok epochKey objectID (str "yunpin-envelope-v1") KeySize) as (k & -> & Hk); [done|].
  by intros [= <-].
Qed.

Lemma Open_sealed epochKey header payload seed source env rest :
  len seed = SeedSize -> encodable payload = true ->
  Seal epochKey header payload (NewKeyFromSeed seed) source = Ok (env, rest) ->
  Open epochKey env (ed25519_Public (NewKeyFromSeed seed)) = Ok payload.
Proof.
  intros Hseed Henc (nonce & aad & plain & source' & key & aead & Hh & Hp & Haad & Hpad & Hkey & Ha & ->)%Seal_Ok.
  unfold Open. cbn [EHeader Ciphertext Signature HObjectID with_nonce Nonce].
  rewrite (proj2 (validateHeader_Ok _) Hh). cbn [rbind].
  assert (len (ed25519_Public (NewKeyFromSeed seed)) =? PublicKeySize = true) as ->.
  { apply Z.eqb_eq. pose proof (NewKeyFromSeed_len seed Hseed).
    unfold ed25519_Public, len, PublicKeySize, PrivateKeySize in *. rewrite length_drop. lia. }
  cbn [negb]. rewrite (proj2 (validateEnvelopeBody_Ok _ _)) by (by eapply sealed_body_ok).
  cbn [rbind]. rewrite Haad. cbn [rbind].
  rewrite verify_sign, Hkey by done. cbn [negb rbind]. rewrite Ha. cbn [rbind].
  rewrite open_seal by (apply Hh).
  destruct (paddedPayload_Ok _ _ _ _ Hpad) as (encoded & padding & Hm & Hmax & -> & _).
  destruct (unpad encoded padding Hmax) as (Hget & Hslice & H4 & Hle).
  rewrite Hget, Hslice, Z.gtb_ltb.
  rewrite !(proj2 (Z.ltb_ge _ _)); [|pose proof (len_nonneg encoded); lia..].
  cbn [orb]. by apply unmarshal_marshal.
Qed.

(** The conditions under which [Seal] is called: identifiers and numbers in
    range, a 32-byte key, a payload that fits, a source that delivers. *)
Record sealable (epochKey : bytes) (header : Header) (payload : T) (source : bytes) : Prop := {
  sealable_ids : len (AccountID header) = 16 /\ len (HObjectID header) = 16 /\ len (DeviceID header) = 16;
  sealable_epoch : 1 <= KeyEpoch header <= MaxInt64;
  sealable_seq : 1 <= DeviceSeq header <= MaxInt64;
  sealable_previous : PreviousHash header = [] \/ len (PreviousHash header) = 32;
  sealable_key : len epochKey = 32;
  sealable_source : 24 + 512 <= len source;
  sealable_payload : encodable payload = true /\
    forall encoded, Marshal payload = Ok encoded -> len encoded <= MaxEnvelopePayload
}.

Lemma paddedPayload_total payload source encoded :
  Marshal payload = Ok encoded -> len encoded <= MaxEnvelopePayload -> 512 <= len source ->
  exists plain rest, paddedPayload payload source = Ok (plain, rest).
Proof.
  intros Hm Hmax Hs. unfold paddedPayload. rewrite Hm. cbn [rbind].
  destruct (Z.gtb_spec (len encoded) MaxEnvelopePayload); [lia|].
  destruct (padded_length_bucket (len encoded)) as [_ Hb]; [apply len_nonneg|].
  destruct (ReadFull_ok (padded_length (len encoded) - 4 - len encoded) source) as (o & r & -> & _); [lia|].
  eauto.
Qed.

Lemma Seal_total epochKey header payload private source :
  sealable epochKey header payload source -> len private = PrivateKeySize ->
  exists env rest, Seal epochKey header payload private source = Ok (env, rest).
Proof.
  intros [Hids Hep Hseq Hprev Hkey Hsrc [Henc Hmax]] Hpriv. unfold Seal.
  destruct (ReadFull_ok NonceSizeX source) as (nonce & src & -> & Hn & ->);
    [unfold NonceSizeX; lia|]. cbn [rbind].
  rewrite (proj2 (validateHeader_Ok _)) by (unfold header_ok; simpl; tauto). cbn [rbind].
  rewrite Hpriv. cbn [Z.eqb negb]. rewrite Z.eqb_refl. cbn [negb].
  unfold canonicalHeader.
  destruct (marshal_ok (with_nonce header nonce) (always_encodable _)) as [aad ->]. cbn [rbind].
  destruct (marshal_ok payload Henc) as [encoded Hm].
  destruct (paddedPayload_total payload src encoded Hm) as (plain & rest & ->);
    [by apply Hmax|rewrite len_app, Hn in Hsrc; unfold NonceSizeX in *; lia|]. cbn [rbind].
  unfold deriveObjectKey. rewrite Hkey. change (negb (32 =? KeySize)) with false. cbn iota.
  destruct (hkdf_ok epochKey (HObjectID header) (str "yunpin-envelope-v1") KeySize)
    as (key & Hk & Hlen); [done|].
  cbn [HObjectID with_nonce]. rewrite Hk. cbn [rbind].
  destruct (NewX_ok key Hlen) as [aead ->]. cbn [rbind]. eauto.
Qed.

End seal_open.

(** ** Wire round trips *)

Section wire_facts.
Context `{U : UnicodeTables}.

Lemma decodeHexWireID_encode id : len id = 16 -> decodeHexWireID (Hex.EncodeToString id) = Ok id.
Proof.
  intros H. unfold decodeHexWireID.
  rewrite hex_lower_unicode, hex_encode_lower, len_hex_encode, hex_decode_encode, H;
    [done|]. rewrite hex_decode_encode. eauto.
Qed.

Lemma decodeHexWireID_Ok value id :
  decodeHexWireID value = Ok id -> value = Hex.EncodeToString id /\ len id = 16.
Proof.
  unfold decodeHexWireID. destruct (negb _ || negb _) eqn:E; [done|]. bools.
  destruct (Hex.DecodeString value) as [d|] eqn:Ed; [|done].
  destruct (negb (len d =? 16)) eqn:El; [done|]. bools. intros [= <-]. split; [|done].
  symmetry. apply hex_encode_decode; [done|].
  rewrite <- (hex_lower_unicode unicode_lower) by eauto. by apply bool_decide_eq_true_2.
Qed.

Lemma or_fail_encode l m : or_fail (Base64.DecodeString (Base64.EncodeToString l)) m = Ok l.
Proof. by rewrite base64_decode_encode. Qed.

Lemma ToWire_Ok env w :
  ToWire env = Ok w -> header_ok (EHeader env) /\ body_ok (Ciphertext env) (Signature env) /\
  w = mkWire (Version (EHeader env)) [] (DeviceSeq (EHeader env))
        (Hex.EncodeToString (HObjectID (EHeader env))) (KeyEpoch (EHeader env))
        (Base64.EncodeToString (PreviousHash (EHeader env)))
        (Base64.EncodeToString (Nonce (EHeader env)))
        (Base64.EncodeToString (Ciphertext env)) (Base64.EncodeToString (Signature env)) 0.
Proof.
  unfold ToWire. intros H. invert_ok. destruct a, a0.
  apply validateHeader_Ok in Hok. apply validateEnvelopeBody_Ok in Hok0.
  split_and!; [done..|]. f_equal.
  destruct (len (PreviousHash (EHeader env)) =? 0) eqn:E; simpl; [|done].
  bools. apply len_zero in E. by rewrite E.
Qed.

Lemma ToWire_total env :
  header_ok (EHeader env) -> body_ok (Ciphertext env) (Signature env) -> exists w, ToWire env = Ok w.
Proof.
  intros Hh Hb. unfold ToWire.
  rewrite (proj2 (validateHeader_Ok _) Hh), (proj2 (validateEnvelopeBody_Ok _ _) Hb). simpl. eauto.
Qed.

(** Decoding the wire form of a valid envelope, with the optional device
    identifier the relay adds and any cursor. *)
Lemma FromWire_encoded env deviceText cursor :
  header_ok (EHeader env) -> body_ok (Ciphertext env) (Signature env) ->
  (deviceText = [] \/ deviceText = Hex.EncodeToString (DeviceID (EHeader env))) ->
  EnvelopeFromWire (AccountID (EHeader env)) (DeviceID (EHeader env))
    (mkWire (Version (EHeader env)) deviceText (DeviceSeq (EHeader env))
       (Hex.EncodeToString (HObjectID (EHeader env))) (KeyEpoch (EHeader env))
       (Base64.EncodeToString (PreviousHash (EHeader env)))
       (Base64.EncodeToString (Nonce (EHeader env)))
       (Base64.EncodeToString (Ciphertext env)) (Base64.EncodeToString (Signature env)) cursor) = Ok env.
Proof.
  intros Hh Hb Hd. pose proof Hh as (_ & _ & Ho & Hdev & _).
  unfold EnvelopeFromWire. cbn [WObjectID WDeviceID WNonce WCiphertext WSignature WPreviousHash
    WVersion WKeyEpoch WDeviceSeq]. rewrite decodeHexWireID_encode by done. cbn [rbind].
  assert ((if bool_decide (deviceText = []) then Ok tt
           else match decodeHexWireID deviceText with
                | Ok wireDeviceID => if bool_decide (wireDeviceID = DeviceID (EHeader env)) then Ok tt
                    else fail "wire device ID does not match authenticated device"
                | Err _ => fail "wire device ID does not match authenticated device"
                end) = Ok tt) as ->.
  { case_bool_decide; [done|]. destruct Hd as [?| ->]; [done|].
    rewrite decodeHexWireID_encode by done. by rewrite bool_decide_eq_true_2. }
  cbn [rbind]. rewrite !or_fail_encode. cbn [rbind].
  assert ((if bool_decide (Base64.EncodeToString (PreviousHash (EHeader env)) = []) then Ok []
           else Ok (PreviousHash (EHeader env))) = Ok (PreviousHash (EHeader env))) as ->.
  { case_bool_decide as E; [|done]. destruct (decide (PreviousHash (EHeader env) = [])) as [->|Hne]; [done|].
    by apply base64_encode_nonempty in Hne. }
  destruct env as [[] c s]. cbn in *.
  rewrite (proj2 (validateHeader_Ok _) Hh). cbn [rbind].
  by rewrite (proj2 (validateEnvelopeBody_Ok _ _) Hb).
Qed.

(** What an accepted wire envelope is. *)
Lemma FromWire_Ok accountID deviceID w env :
  EnvelopeFromWire accountID deviceID w = Ok env ->
  header_ok (EHeader env) /\ body_ok (Ciphertext env) (Signature env) /\
  AccountID (EHeader env) = accountID /\ DeviceID (EHeader env) = deviceID /\
  WObjectID w = Hex.EncodeToString (HObjectID (EHeader env)) /\
  WVersion w = Version (EHeader env) /\ WDeviceSeq w = DeviceSeq (EHeader env) /\
  WKeyEpoch w = KeyEpoch (EHeader env) /\
  Base64.DecodeString (WNonce w) = Some (Nonce (EHeader env)) /\
  Base64.DecodeString (WCiphertext w) = Some (Ciphertext env) /\
  Base64.DecodeString (WSignature w) = Some (Signature env) /\
  (WDeviceID w = [] \/ WDeviceID w = Hex.EncodeToString deviceID).
Proof.
  unfold EnvelopeFromWire. intros H. invert_ok.
  destruct (decodeHexWireID (WObjectID w)) as [id|] eqn:Eo; [|done]. injection Hok as ->.
  apply decodeHexWireID_Ok in Eo as [Eo _].
  destruct (Base64.DecodeString (WNonce w)); [|done]. injection Hok1 as ->.
  destruct (Base64.DecodeString (WCiphertext w)); [|done]. injection Hok2 as ->.
  destruct (Base64.DecodeString (WSignature w)); [|done]. injection Hok3 as ->.
  destruct a5, a6. apply validateHeader_Ok in Hok5. apply validateEnvelopeBody_Ok in Hok6.
  cbn. split_and!; try done. destruct (bool_decide (WDeviceID w = [])) eqn:Hd; bools; [by left|right].
  destruct (decodeHexWireID (WDeviceID w)) as [d|] eqn:Ed; [|done].
  apply decodeHexWireID_Ok in Ed as [-> _].
  destruct (bool_decide (d = deviceID)) eqn:E; bools; [by subst|done].
Qed.

End wire_facts.

(** ** Properties *)

(** The form in which the relay hands an uploaded envelope to other devices:
    the uploader's identifier and a cursor are added. *)
Definition relayed (wire : WireEnvelope) (deviceID : bytes) (cursor : Z) : WireEnvelope :=
  mkWire (WVersion wire) (Hex.EncodeToString deviceID) (WDeviceSeq wire) (WObjectID wire)
    (WKeyEpoch wire) (WPreviousHash wire) (WNonce wire) (WCiphertext wire) (WSignature wire) cursor.

Section properties.
Context `{P : Primitives} {PL : PrimitiveLaws P} `{U : UnicodeTables}.
Context `{CH : Codec Header} {CHL : CodecLaws Header CH} {CHT : TotalCodec Header CH}.
Context `{C : Codec T} {CL : CodecLaws T C}.

(** C6: end to end, sealing a payload under valid parameters succeeds, the
    envelope has a wire form, and a device that receives that wire form through
    the relay (with the sender's identifier and a cursor added) and holds the
    epoch key and the sender's public key opens it to exactly the payload. *)
Theorem envelope_end_to_end (epochKey : bytes) (header : Header) (payload : T) (seed source : bytes) :
  sealable epochKey header payload source -> len seed = SeedSize ->
  exists env rest wire,
    Seal epochKey header payload (NewKeyFromSeed seed) source = Ok (env, rest) /\
    ToWire env = Ok wire /\
    forall cursor, exists received,
      EnvelopeFromDownload (AccountID header) (relayed wire (DeviceID header) cursor) = Ok received /\
      Open epochKey received (ed25519_Public (NewKeyFromSeed seed)) = Ok payload.
Proof.
  intros Hs Hseed. pose proof (NewKeyFromSeed_len seed Hseed) as Hpriv.
  destruct (Seal_total _ _ _ _ _ Hs Hpriv) as (env & rest & Hseal).
  assert (encodable payload = true) as Henc by apply Hs.
  pose proof (Open_sealed _ _ _ _ _ _ _ Hseed Henc Hseal) as Hopen.
  pose proof Hseal as (nonce & aad & plain & src & key & aead & Hh & _ & _ & Hpad & _ & _ & Eenv)%Seal_Ok.
  assert (header_ok (EHeader env)) as Hhe by (by rewrite Eenv).
  assert (body_ok (Ciphertext env) (Signature env)) as Hbe.
  { rewrite Eenv. by eapply sealed_body_ok. }
  destruct (ToWire_total env Hhe Hbe) as [wire Hwire].
  exists env, rest, wire. split_and!; [done..|]. intros cursor. exists env. split; [|done].
  apply ToWire_Ok in Hwire as (_ & _ & ->).
  assert (AccountID header = AccountID (EHeader env) /\ DeviceID header = DeviceID (EHeader env))
    as [-> ->] by (by rewrite Eenv).
  unfold EnvelopeFromDownload, relayed. cbn [WDeviceID].
  pose proof Hhe as (_ & _ & _ & Hdev & _).
  rewrite bool_decide_eq_false_2.
  - rewrite decodeHexWireID_encode by done. apply FromWire_encoded; auto.
  - intros E. apply (f_equal len) in E. rewrite len_hex_encode, Hdev in E. done.
Qed.

(** The wire form determines the envelope: decoding the text that [ToWire]
    writes, for the account and device of the header, gives the envelope back. *)
Theorem wire_roundtrip (env : Envelope) (wire : WireEnvelope) :
  ToWire env = Ok wire ->
  EnvelopeFromWire (AccountID (EHeader env)) (DeviceID (EHeader env)) wire = Ok env.
Proof. intros (Hh & Hb & ->)%ToWire_Ok. by apply FromWire_encoded; [..|left]. Qed.

(** An envelope that [EnvelopeFromWire] accepts can be written to the wire
    again, and reading that canonical text gives the same envelope. *)
Theorem wire_accepted_reencodes (accountID deviceID : bytes) (wire : WireEnvelope) (env : Envelope) :
  EnvelopeFromWire accountID deviceID wire = Ok env ->
  exists canonical, ToWire env = Ok canonical /\
    EnvelopeFromWire accountID deviceID canonical = Ok env /\
    WObjectID canonical = WObjectID wire /\ WDeviceSeq canonical = WDeviceSeq wire.
Proof.
  intros (Hh & Hb & Ha & Hd & Ho & _ & Hseq & _)%FromWire_Ok.
  destruct (ToWire_total env Hh Hb) as [c Hc]. exists c.
  pose proof Hc as (_ & _ & E)%ToWire_Ok. split; [done|]. rewrite E, <- Ha, <- Hd.
  split; [by apply FromWire_encoded; [..|left]|]. cbn. by rewrite Ho, Hseq.
Qed.

(** [Open] returns a payload only for an envelope with a valid header and
    body whose signature verifies, under the given public key, over the
    canonical header followed by the ciphertext. *)
Theorem Open_only_signed (epochKey : bytes) (env : Envelope) (public : bytes) (payload : T) :
  Open epochKey env public = Ok payload ->
  header_ok (EHeader env) /\ body_ok (Ciphertext env) (Signature env) /\
  exists aad, canonicalHeader (EHeader env) = Ok aad /\
    ed25519_Verify public (aad ++ Ciphertext env) (Signature env) = true.
Proof.
  unfold Open. intros H. invert_ok. destruct a, a0.
  apply validateHeader_Ok in Hok. apply validateEnvelopeBody_Ok in Hok0. bools. eauto.
Qed.

(** The length of a sealed ciphertext reveals only the 512-byte bucket of
    the payload: two payloads whose encodings fall into one bucket have
    ciphertexts of the same length, which both sides' length checks accept. *)
Theorem Seal_hides_length (key1 key2 : bytes) (h1 h2 : Header) (p1 p2 : T) (b1 b2 : bytes)
    (priv1 priv2 s1 s2 : bytes) (env1 env2 : Envelope) (r1 r2 : bytes) :
  Seal key1 h1 p1 priv1 s1 = Ok (env1, r1) -> Seal key2 h2 p2 priv2 s2 = Ok (env2, r2) ->
  Marshal p1 = Ok b1 -> Marshal p2 = Ok b2 -> (len b1 + 515) / 512 = (len b2 + 515) / 512 ->
  len (Ciphertext env1) = len (Ciphertext env2) /\ body_ok (Ciphertext env1) (Signature env1).
Proof.
  assert (forall key h p b priv s env r, Seal key h p priv s = Ok (env, r) -> Marshal p = Ok b ->
    len (Ciphertext env) = 512 * ((len b + 515) / 512) + 16 /\ body_ok (Ciphertext env) (Signature env)) as Hone.
  { intros key h p b priv s env r
      (nonce & aad & plain & src & k & aead & _ & _ & _ & Hpad & _ & _ & ->)%Seal_Ok Hm.
    split; [|by eapply sealed_body_ok]. cbn. rewrite seal_len.
    apply paddedPayload_Ok in Hpad as (encoded & padding & Hm' & _ & _ & Hlen).
    assert (encoded = b) as -> by congruence.
    by rewrite Hlen, (proj1 (padded_length_bucket _ (len_nonneg b))). }
  intros H1 H2 Hm1 Hm2 E. destruct (Hone _ _ _ _ _ _ _ _ H1 Hm1) as [L1 B1].
  destruct (Hone _ _ _ _ _ _ _ _ H2 Hm2) as [L2 _]. split; [congruence|done].
Qed.

End properties.

(** ** Witnesses *)

#[export] Instance Header_countable : Countable Header.
Proof.
  refine (inj_countable'
    (fun h => (Version h, AccountID h, HObjectID h, KeyEpoch h, DeviceID h, DeviceSeq h, PreviousHash h, Nonce h))
    (fun '(v, a, o, k, d, s, p, n) => mkHeader v a o k d s p n) _).
  by intros [].
Defined.

Definition sample_header : Header :=
  mkHeader 0 (replicate 16 Byte.x01) (replicate 16 Byte.x02) 1 (replicate 16 Byte.x03) 1 [] [].

Definition sample_source : bytes := replicate 536 Byte.x07.
Definition sample_seed : bytes := replicate 32 Byte.x05.
Definition sample_key : bytes := replicate 32 Byte.x06.

Lemma sample_sealable :
  @sealable bytes (Sample.codec bytes) sample_key sample_header (str "nihao") sample_source.
Proof.
  split; [by vm_compute..|by left|by vm_compute|by vm_compute|].
  split; [done|]. intros encoded [= <-]. vm_compute. discriminate.
Qed.

Section witnesses.
#[local] Existing Instance Sample.primitives.
#[local] Existing Instance Sample.primitive_laws.
#[local] Existing Instance ascii_tables.
#[local] Instance header_codec : Codec Header := Sample.codec Header.
#[local] Instance header_codec_laws : CodecLaws Header header_codec := Sample.codec_laws Header.
#[local] Instance header_codec_total : TotalCodec Header header_codec := Sample.codec_total Header.
#[local] Instance bytes_codec : Codec bytes := Sample.codec bytes.
#[local] Instance bytes_codec_laws : CodecLaws bytes bytes_codec := Sample.codec_laws bytes.

Definition sample_sealed : Envelope :=
  match Seal sample_key sample_header (str "nihao") (NewKeyFromSeed sample_seed) sample_source with
  | Ok (env, _) => env
  | Err _ => mkEnvelope sample_header [] []
  end.

Definition sample_wire : WireEnvelope :=
  match ToWire sample_sealed with Ok w => w | Err _ => mkWire 0 [] 0 [] 0 [] [] [] [] 0 end.

Lemma envelope_end_to_end_witness :
  exists env rest wire,
    Seal sample_key sample_header (str "nihao") (NewKeyFromSeed sample_seed) sample_source = Ok (env, rest) /\
    ToWire env = Ok wire /\
    forall cursor, exists received,
      EnvelopeFromDownload (AccountID sample_header) (relayed wire (DeviceID sample_header) cursor) = Ok received /\
      Open sample_key received (ed25519_Public (NewKeyFromSeed sample_seed)) = Ok (str "nihao").
Proof. apply envelope_end_to_end; [exact sample_sealable|reflexivity]. Defined.

Lemma Open_only_signed_witness :
  header_ok (EHeader sample_sealed) /\ body_ok (Ciphertext sample_sealed) (Signature sample_sealed) /\
  exists aad, canonicalHeader (EHeader sample_sealed) = Ok aad /\
    ed25519_Verify (ed25519_Public (NewKeyFromSeed sample_seed)) (aad ++ Ciphertext sample_sealed)
      (Signature sample_sealed) = true.
Proof.
  apply (Open_only_signed (T := bytes) sample_key sample_sealed
           (ed25519_Public (NewKeyFromSeed sample_seed)) (str "nihao")).
  vm_compute. reflexivity.
Defined.

Definition sample_short : Envelope :=
  match Seal sample_key sample_header (str "n") (NewKeyFromSeed sample_seed) sample_source with
  | Ok (env, _) => env
  | Err _ => mkEnvelope sample_header [] []
  end.

Lemma sample_short_sealed :
  Seal sample_key sample_header (str "n") (NewKeyFromSeed sample_seed) sample_source
  = Ok (sample_short, drop 517 sample_source).
Proof. vm_compute. reflexivity. Qed.

Lemma sample_sealed_ok :
  Seal sample_key sample_header (str "nihao") (NewKeyFromSeed sample_seed) sample_source
  = Ok (sample_sealed, drop 461 sample_source).
Proof. vm_compute. reflexivity. Qed.

Lemma Seal_hides_length_witness :
  len (Ciphertext sample_short) = len (Ciphertext sample_sealed) /\
  body_ok (Ciphertext sample_short) (Signature sample_short).
Proof.
  eapply Seal_hides_length; [exact sample_short_sealed|exact sample_sealed_ok|reflexivity|reflexivity|].
  vm_compute. reflexivity.
Defined.

End witnesses.
