(* ===== verification/Boxes.v ===== *)
(** * Sealed boxes ([protocol/boxes.go])

    The textual form of a sealed box, and the two packages that are exchanged
    in one: the pairing payload, sealed under a key that both devices derive
    from an X25519 exchange, and the recovery package, sealed under a key
    derived from the recovery key. *)

From S2P Require Import Prelude Encoding Sha256 Unicode Crypto.

Record SealedBox := mkSealedBox { BNonce : bytes; BCiphertext : bytes }.

#[export] Instance SealedBox_eq_dec : EqDecision SealedBox.
Proof. solve_decision. Defined.

Definition SealedBoxWireVersion : Z := 1.
Definition sealedBoxWireHeaderSize : Z := 4 + 1 + 4 + NonceSizeX.
Definition MaxSealedBoxWireSize : Z := 256 * 1024.
Definition MaxSealedBoxCiphertextSize : Z := MaxSealedBoxWireSize - sealedBoxWireHeaderSize.

Definition sealedBoxWireMagic : bytes := str "YPBX".

Definition EncodeSealedBox (box : SealedBox) : result bytes :=
  if negb (len (BNonce box) =? NonceSizeX) then fail "sealed box nonce must be 24 bytes"
  else if (len (BCiphertext box) <? Overhead) || (len (BCiphertext box) >? MaxSealedBoxCiphertextSize) then
    fail "sealed box ciphertext length is invalid"
  else
    let wire := sealedBoxWireMagic ++ [byte_of_Z SealedBoxWireVersion]
                  ++ BigEndian.put 4 (len (BCiphertext box)) ++ BNonce box ++ BCiphertext box in
    Ok (Base64.EncodeToString wire).

Definition DecodeSealedBox (encoded : bytes) : result SealedBox :=
  let maximumEncoded := Base64.EncodedLen MaxSealedBoxWireSize in
  if bool_decide (encoded = []) || (len encoded >? maximumEncoded) then
    fail "sealed box wire length is invalid"
  else
    match Base64.DecodeString encoded with
    | None => fail "sealed box wire is not unpadded base64url"
    | Some wire =>
        if len wire <? sealedBoxWireHeaderSize + Overhead then fail "sealed box wire is truncated"
        else if negb (bool_decide (slice wire 0 4 = sealedBoxWireMagic)) then
          fail "sealed box wire magic is invalid"
        else if negb (u8 (nth 4 wire Byte.x00) =? SealedBoxWireVersion) then
          Err (Errorf_d "unsupported sealed box wire version %d" (u8 (nth 4 wire Byte.x00)))
        else
          let ciphertextLength := BigEndian.get (slice wire 5 9) in
          if (ciphertextLength <? Overhead) || (ciphertextLength >? MaxSealedBoxCiphertextSize) then
            fail "sealed box ciphertext length is invalid"
          else
            let expectedLength := sealedBoxWireHeaderSize + ciphertextLength in
            if negb (len wire =? expectedLength) then
              fail "sealed box wire has a length mismatch or trailing bytes"
            else Ok (mkSealedBox (slice wire 9 sealedBoxWireHeaderSize)
                       (slice wire sealedBoxWireHeaderSize (len wire)))
    end.

Record RecoveryPackage := mkRecoveryPackage {
  RAccountID : bytes; CurrentEpoch : Z; EpochKey : bytes; ObjectIDKey : bytes
}.

Section boxes.
Context `{P : Primitives}.

Definition sealBox `{Codec T} (key aad : bytes) (payload : T) (source : bytes)
    : result (SealedBox * bytes) :=
  if negb (len key =? KeySize) then fail "sealed-box key must be 32 bytes"
  else
    let! plain := Marshal payload in
    let! aead := NewX key in
    let! (nonce, source) := ReadFull NonceSizeX source in
    Ok (mkSealedBox nonce (aead_Seal aead nonce plain aad), source).

Definition openBox `{Codec T} (key aad : bytes) (box : SealedBox) : result T :=
  if negb (len key =? KeySize) || negb (len (BNonce box) =? NonceSizeX) then fail "invalid sealed box"
  else
    let! aead := NewX key in
    match aead_Open aead (BNonce box) (BCiphertext box) aad with
    | None => fail "sealed box authentication failed"
    | Some plain => Unmarshal plain
    end.

Definition pairing_aad (sessionNonce : bytes) : bytes :=
  str "yunpin-pairing-package-v1" ++ [Byte.x00] ++ sessionNonce.

Definition SealPairingPayload `{Codec T} (private peerPublic sessionNonce : bytes) (payload : T)
    (source : bytes) : result (SealedBox * bytes) :=
  let! key := DerivePairingKey private peerPublic sessionNonce in
  sealBox key (pairing_aad sessionNonce) payload source.

Definition OpenPairingPayload `{Codec T} (private peerPublic sessionNonce : bytes) (box : SealedBox)
    : result T :=
  let! key := DerivePairingKey private peerPublic sessionNonce in
  openBox key (pairing_aad sessionNonce) box.

Definition valid_package (payload : RecoveryPackage) : bool :=
  negb (negb (len (RAccountID payload) =? 16) || negb (len (EpochKey payload) =? 32)
        || negb (len (ObjectIDKey payload) =? 32) || (CurrentEpoch payload =? 0)).

Definition SealRecoveryPackage `{Codec RecoveryPackage} (recoveryKey : bytes) (payload : RecoveryPackage)
    (source : bytes) : result (SealedBox * bytes) :=
  if negb (valid_package payload) then fail "invalid recovery package"
  else
    let! (encryption, _) := DeriveRecoveryKeys recoveryKey in
    sealBox encryption (str "yunpin-recovery-package-v1") payload source.

Definition OpenRecoveryPackage `{Codec RecoveryPackage} (recoveryKey : bytes) (box : SealedBox)
    : result RecoveryPackage :=
  let! (encryption, _) := DeriveRecoveryKeys recoveryKey in
  let! payload := openBox encryption (str "yunpin-recovery-package-v1") box in
  if negb (valid_package payload) then fail "invalid recovery package" else Ok payload.

Definition RecoveryAuthentication (recoveryKey : bytes) : result bytes :=
  let! (_, authentication) := DeriveRecoveryKeys recoveryKey in
  Ok (Base64.EncodeToString authentication).

End boxes.

(** ** The textual form *)

Definition box_ok (box : SealedBox) : Prop :=
  len (BNonce box) = 24 /\ 16 <= len (BCiphertext box) <= MaxSealedBoxCiphertextSize.

Definition box_wire (box : SealedBox) : bytes :=
  sealedBoxWireMagic ++ [byte_of_Z SealedBoxWireVersion]
    ++ BigEndian.put 4 (len (BCiphertext box)) ++ BNonce box ++ BCiphertext box.

Lemma EncodeSealedBox_Ok box text :
  EncodeSealedBox box = Ok text <-> box_ok box /\ text = Base64.EncodeToString (box_wire box).
Proof.
  unfold EncodeSealedBox, box_ok, NonceSizeX, Overhead. rewrite Z.gtb_ltb. split.
  - intros H. repeat case_match; bools; try discriminate. injection H as <-. auto.
  - intros [[-> [H1 H2]] ->]. simpl negb. rewrite !(proj2 (Z.ltb_ge _ _)) by lia. done.
Qed.

Lemma len_magic : len sealedBoxWireMagic = 4.
Proof. reflexivity. Qed.

Lemma len_box_wire box : box_ok box -> len (box_wire box) = 33 + len (BCiphertext box).
Proof. intros [H _]. unfold box_wire. autorewrite with len. rewrite H, len_magic. change (len []) with 0. lia. Qed.

Lemma box_wire_fields box :
  box_ok box ->
  slice (box_wire box) 0 4 = sealedBoxWireMagic /\ nth 4 (box_wire box) Byte.x00 = Byte.x01 /\
  slice (box_wire box) 5 9 = BigEndian.put 4 (len (BCiphertext box)) /\
  slice (box_wire box) 9 33 = BNonce box /\
  slice (box_wire box) 33 (len (box_wire box)) = BCiphertext box.
Proof.
  intros [Hn _]. unfold box_wire. split_and!.
  - by apply slice_prefix.
  - done.
  - rewrite app_assoc. apply slice_middle; [done|by rewrite len_put].
  - rewrite !app_assoc, <- app_assoc. apply slice_middle; [|lia].
    autorewrite with len. done.
  - rewrite !app_assoc. apply slice_suffix. autorewrite with len. rewrite Hn. done.
Qed.

Lemma MaxSealedBoxCiphertextSize_value : MaxSealedBoxCiphertextSize = 262111.
Proof. reflexivity. Qed.

Lemma box_length_range box :
  box_ok box -> BigEndian.get (BigEndian.put 4 (len (BCiphertext box))) = len (BCiphertext box).
Proof.
  intros [_ H]. rewrite get_put, MaxSealedBoxCiphertextSize_value in *.
  apply Z.mod_small. simpl. lia.
Qed.

(** Reading the decoded bytes of a box. *)
Lemma DecodeSealedBox_wire text box :
  box_ok box -> Base64.DecodeString text = Some (box_wire box) ->
  text <> [] -> len text <= Base64.EncodedLen MaxSealedBoxWireSize -> DecodeSealedBox text = Ok box.
Proof.
  intros Hb Hd Hne Hlen. unfold DecodeSealedBox.
  rewrite bool_decide_eq_false_2, Z.gtb_ltb, (proj2 (Z.ltb_ge _ _) Hlen), Hd by done. cbn [orb].
  destruct (box_wire_fields box Hb) as (-> & -> & -> & Hn & Hc).
  change sealedBoxWireHeaderSize with 33. rewrite Hn, Hc, box_length_range, len_box_wire by done.
  pose proof Hb as [_ [H1 H2]]. unfold Overhead.
  rewrite Z.gtb_ltb, !(proj2 (Z.ltb_ge _ _)) by lia.
  rewrite bool_decide_eq_true_2, !Z.eqb_refl by done. by destruct box.
Qed.

Lemma EncodedLen_mono a b : 0 <= a <= b -> Base64.EncodedLen a <= Base64.EncodedLen b.
Proof. intros. unfold Base64.EncodedLen. Z.div_mod_to_equations; lia. Qed.

Lemma box_text_length box :
  box_ok box -> len (Base64.EncodeToString (box_wire box)) <= Base64.EncodedLen MaxSealedBoxWireSize.
Proof.
  intros Hb. rewrite len_base64_encode. apply EncodedLen_mono. rewrite len_box_wire by done.
  destruct Hb as [_ Hb]. rewrite MaxSealedBoxCiphertextSize_value in Hb.
  unfold MaxSealedBoxWireSize. lia.
Qed.

Lemma DecodeSealedBox_encoded box :
  box_ok box -> DecodeSealedBox (Base64.EncodeToString (box_wire box)) = Ok box.
Proof.
  intros Hb. apply DecodeSealedBox_wire; [done|apply base64_decode_encode| |by apply box_text_length].
  apply base64_encode_nonempty. done.
Qed.

(** An accepted text decodes to the bytes of the box it yields. *)
Lemma DecodeSealedBox_Ok text box :
  DecodeSealedBox text = Ok box -> box_ok box /\ Base64.DecodeString text = Some (box_wire box).
Proof.
  unfold DecodeSealedBox. intros H. invert_ok.
  destruct (Base64.DecodeString text) as [wire|] eqn:E; [|done].
  change sealedBoxWireHeaderSize with 33 in *. unfold Overhead in *.
  invert_ok. bools. rewrite Z.gtb_ltb in *. bools.
  assert (len wire = 33 + BigEndian.get (slice wire 5 9)) as Hl by done.
  assert (box_ok (mkSealedBox (slice wire 9 33) (slice wire 33 (len wire)))) as Hb.
  { unfold box_ok. cbn. rewrite !len_slice by lia. lia. }
  split; [done|]. f_equal. unfold box_wire. cbn [BCiphertext BNonce].
  rewrite len_slice by lia. replace (len wire - 33) with (BigEndian.get (slice wire 5 9)) by lia.
  rewrite put_get_len by (rewrite len_slice; lia).
  assert (nth 4 wire Byte.x00 = byte_of_Z SealedBoxWireVersion) as H4
    by (apply u8_inj; rewrite u8_of_small by done; done).
  rewrite <- H4.
  assert (sealedBoxWireMagic = slice wire 0 4) as -> by done.
  rewrite <- (slice_one wire 4) by lia.
  rewrite <- (slice_split wire 9 33) by lia. rewrite <- (slice_split wire 5 9) by lia.
  rewrite <- (slice_split wire 4 (4 + 1)) by lia. rewrite <- (slice_split wire 0 4) by lia.
  by rewrite slice_all.
Qed.

Lemma sextets_newline s : Base64.sextets (s ++ [Byte.x0a]) = Base64.sextets s.
Proof. induction s as [|c s IH]; [done|]. simpl. by rewrite IH. Qed.

(** The text of a sealed box decodes to the box, and conversely a box that
    was read from some text has a canonical text, which reads as the same box. *)
Theorem sealed_box_text_roundtrip (box : SealedBox) :
  (forall text, EncodeSealedBox box = Ok text -> DecodeSealedBox text = Ok box) /\
  (forall text, DecodeSealedBox text = Ok box ->
     exists canonical, EncodeSealedBox box = Ok canonical /\ DecodeSealedBox canonical = Ok box).
Proof.
  split.
  - intros text [Hb ->]%EncodeSealedBox_Ok. by apply DecodeSealedBox_encoded.
  - intros text [Hb _]%DecodeSealedBox_Ok. eexists. split; [by apply EncodeSealedBox_Ok|].
    by apply DecodeSealedBox_encoded.
Qed.

(** A box has more than one accepted text: after the canonical text a line
    feed is accepted too, because the base64 decoder skips it. *)
Theorem sealed_box_text_not_unique (box : SealedBox) (text : bytes) :
  EncodeSealedBox box = Ok text -> len text < Base64.EncodedLen MaxSealedBoxWireSize ->
  DecodeSealedBox (text ++ [Byte.x0a]) = Ok box /\ DecodeSealedBox text = Ok box.
Proof.
  intros [Hb ->]%EncodeSealedBox_Ok Hlen. split; [|by apply DecodeSealedBox_encoded].
  apply DecodeSealedBox_wire; [done| | |].
  - unfold Base64.DecodeString. rewrite sextets_newline. apply base64_decode_encode.
  - by destruct (Base64.EncodeToString (box_wire box)).
  - rewrite len_app. change (len [Byte.x0a]) with 1. lia.
Qed.

(** ** Sealing and opening *)

Section box_facts.
Context `{P : Primitives} {PL : PrimitiveLaws P}.

Lemma openBox_sealed `{C : Codec T} {CL : CodecLaws T C} key aad payload source box rest :
  encodable payload = true -> sealBox key aad payload source = Ok (box, rest) ->
  openBox key aad box = Ok payload.
Proof.
  unfold sealBox. intros Henc H. invert_ok. destruct a1 as [nonce src]. invert_ok. bools.
  apply ReadFull_len in Hok1 as [Hn _]; [|done].
  unfold openBox. cbn [BNonce BCiphertext]. rewrite Heqb, Hn, !Z.eqb_refl. cbn [negb orb].
  rewrite Hok0. cbn [rbind]. rewrite open_seal by done. by apply unmarshal_marshal.
Qed.

Lemma sealBox_total `{C : Codec T} {CL : CodecLaws T C} key aad payload source :
  len key = KeySize -> encodable payload = true -> 24 <= len source ->
  exists box rest, sealBox key aad payload source = Ok (box, rest).
Proof.
  intros Hk Henc Hs. unfold sealBox. rewrite Hk, Z.eqb_refl. cbn [negb].
  destruct (marshal_ok payload Henc) as [b ->]. cbn [rbind].
  destruct (NewX_ok key Hk) as [a ->]. cbn [rbind].
  destruct (ReadFull_ok NonceSizeX source) as (n & r & -> & _); [unfold NonceSizeX; lia|]. simpl. eauto.
Qed.

Lemma DerivePairingKey_agree a b pa pb sessionNonce :
  X25519 a Basepoint = Ok pa -> X25519 b Basepoint = Ok pb ->
  len a = 32 -> len b = 32 -> len pa = 32 -> len pb = 32 ->
  DerivePairingKey a pb sessionNonce = DerivePairingKey b pa sessionNonce.
Proof.
  intros Ha Hb La Lb Lpa Lpb. unfold DerivePairingKey. rewrite La, Lb, Lpa, Lpb.
  by rewrite (X25519_agree a b pa pb).
Qed.

Lemma DeriveRecoveryKeys_ok recoveryKey :
  len recoveryKey = 32 ->
  exists e a, DeriveRecoveryKeys recoveryKey = Ok (e, a) /\ len e = 32 /\ len a = 32.
Proof.
  intros H. unfold DeriveRecoveryKeys. rewrite H. simpl negb. cbn iota.
  destruct (hkdf_ok recoveryKey [] (str "yunpin-recovery-encryption-v1") 32) as (e & -> & He); [done|].
  destruct (hkdf_ok recoveryKey [] (str "yunpin-recovery-authentication-v1") 32) as (a & -> & Ha); [done|].
  simpl. eauto.
Qed.

(** The two devices of a pairing derive the same key: what one seals with
    its private key and the other's public key, the other opens with its own
    private key and the first one's public key, and gets the payload. *)
Theorem pairing_payload_roundtrip `{C : Codec T} {CL : CodecLaws T C}
    (a b pa pb sessionNonce : bytes) (payload : T) (source : bytes) (box : SealedBox) (rest : bytes) :
  X25519 a Basepoint = Ok pa -> X25519 b Basepoint = Ok pb ->
  len b = 32 -> len pa = 32 -> encodable payload = true ->
  SealPairingPayload a pb sessionNonce payload source = Ok (box, rest) ->
  OpenPairingPayload b pa sessionNonce box = Ok payload.
Proof.
  unfold SealPairingPayload, OpenPairingPayload. intros Ha Hb Lb Lpa Henc H. invert_ok.
  assert (len a = 32 /\ len pb = 32) as [La Lpb].
  { unfold DerivePairingKey in Hok. invert_ok. bools. done. }
  rewrite <- (DerivePairingKey_agree a b pa pb) by done. rewrite Hok. cbn [rbind].
  by eapply openBox_sealed.
Qed.

(** A box that was sealed for recovery opens to the package. *)
Lemma OpenRecoveryPackage_sealed `{C : Codec RecoveryPackage} {CL : CodecLaws RecoveryPackage C}
    recoveryKey package source box rest :
  encodable package = true -> SealRecoveryPackage recoveryKey package source = Ok (box, rest) ->
  OpenRecoveryPackage recoveryKey box = Ok package.
Proof.
  unfold SealRecoveryPackage, OpenRecoveryPackage. intros Henc H.
  destruct (valid_package package) eqn:Hv; [|done]. cbn [negb] in H. invert_ok. destruct a as [e x].
  rewrite Hok. cbn [rbind]. rewrite (openBox_sealed _ _ _ _ _ _ Henc H). cbn [rbind]. by rewrite Hv.
Qed.

(** A valid recovery package can always be sealed under a 32-byte recovery
    key, and opening the box with that key returns exactly the package. *)
Theorem recovery_package_roundtrip `{C : Codec RecoveryPackage} {CL : CodecLaws RecoveryPackage C}
    (recoveryKey : bytes) (package : RecoveryPackage) (source : bytes) :
  len recoveryKey = 32 -> valid_package package = true -> encodable package = true -> 24 <= len source ->
  exists box rest, SealRecoveryPackage recoveryKey package source = Ok (box, rest) /\
    OpenRecoveryPackage recoveryKey box = Ok package.
Proof.
  intros Hk Hv Henc Hs. destruct (DeriveRecoveryKeys_ok recoveryKey Hk) as (e & a & Hd & He & _).
  destruct (sealBox_total e (str "yunpin-recovery-package-v1") package source He Henc Hs) as (box & rest & Hseal).
  assert (SealRecoveryPackage recoveryKey package source = Ok (box, rest)) as Hok
    by (unfold SealRecoveryPackage; by rewrite Hv, Hd).
  exists box, rest. split; [done|]. by eapply OpenRecoveryPackage_sealed.
Qed.

End box_facts.

(** ** Witnesses *)

#[export] Instance RecoveryPackage_eq_dec : EqDecision RecoveryPackage.
Proof. solve_decision. Defined.

#[export] Instance RecoveryPackage_countable : Countable RecoveryPackage.
Proof.
  refine (inj_countable' (fun p => (RAccountID p, CurrentEpoch p, EpochKey p, ObjectIDKey p))
    (fun '(a, c, e, o) => mkRecoveryPackage a c e o) _).
  by intros [].
Defined.

Definition sample_box : SealedBox := mkSealedBox (replicate 24 Byte.x01) (replicate 16 Byte.x02).

Definition sample_package : RecoveryPackage :=
  mkRecoveryPackage (replicate 16 Byte.x01) 1 (replicate 32 Byte.x02) (replicate 32 Byte.x03).

Section witnesses.
#[local] Existing Instance Sample.primitives.
#[local] Existing Instance Sample.primitive_laws.
#[local] Instance text_codec : Codec bytes := Sample.codec bytes.
#[local] Instance text_codec_laws : CodecLaws bytes text_codec := Sample.codec_laws bytes.
#[local] Instance package_codec : Codec RecoveryPackage := Sample.codec RecoveryPackage.
#[local] Instance package_codec_laws : CodecLaws RecoveryPackage package_codec :=
  Sample.codec_laws RecoveryPackage.

Definition paired : SealedBox :=
  match SealPairingPayload (replicate 32 Byte.x01) (Byte.x0b :: replicate 31 Byte.x02)
          (replicate 16 Byte.x09) (str "epoch key") (replicate 24 Byte.x07) with
  | Ok (box, _) => box | Err _ => sample_box end.

Lemma pairing_payload_roundtrip_witness :
  OpenPairingPayload (replicate 32 Byte.x02) (Byte.x08 :: replicate 31 Byte.x01)
    (replicate 16 Byte.x09) paired = Ok (str "epoch key").
Proof.
  apply (pairing_payload_roundtrip (replicate 32 Byte.x01) (replicate 32 Byte.x02)
    (Byte.x08 :: replicate 31 Byte.x01) (Byte.x0b :: replicate 31 Byte.x02)
    (replicate 16 Byte.x09) (str "epoch key") (replicate 24 Byte.x07) paired []);
    vm_compute; reflexivity.
Defined.

Lemma recovery_package_roundtrip_witness :
  exists box rest,
    SealRecoveryPackage (replicate 32 Byte.x04) sample_package (replicate 24 Byte.x07) = Ok (box, rest) /\
    OpenRecoveryPackage (replicate 32 Byte.x04) box = Ok sample_package.
Proof.
  apply recovery_package_roundtrip; [reflexivity|reflexivity|reflexivity|].
  vm_compute. discriminate.
Defined.

End witnesses.
