(* ===== verification/Credentials.v ===== *)
(** * The credential bundle of the desktop agent ([desktopagent/credentials.go])

    The device-local secret the background worker runs with, its validation,
    and the binary record in which the operating system's secret store keeps
    it: fixed-width fields, the epoch keys and the verification keys as tables
    in ascending order. *)

From S2P Require Import Prelude Encoding Crypto.

Definition CredentialBundleVersion : Z := 1.
Definition maxCredentialBlobBytes : Z := 64 * 1024.
Definition maxDeviceTokenBytes : Z := 512.
Definition maxEpochKeys : Z := 64.
Definition maxVerificationKeys : Z := 256.

Definition credentialMagic : bytes := str "YPCB".

Record CredentialBundleV1 := mkBundle {
  BVersion : Z;
  BAccountID : bytes;
  BDeviceID : bytes;
  BDeviceToken : bytes;
  BSigningSeed : bytes;
  BX25519Private : bytes;
  BLocalDataKey : bytes;
  BObjectIDKey : bytes;
  BCurrentEpoch : Z;
  BEpochKeys : gmap Z bytes;
  BVerificationKeys : gmap bytes bytes
}.

#[export] Instance CredentialBundleV1_eq_dec : EqDecision CredentialBundleV1.
Proof. solve_decision. Defined.

Definition allZero (value : bytes) : bool := forallb (fun item => u8 item =? 0) value.

Definition token_character (character : byte) : bool :=
  ((97 <=? u8 character) && (u8 character <=? 122))
  || ((65 <=? u8 character) && (u8 character <=? 90))
  || ((48 <=? u8 character) && (u8 character <=? 57))
  || (u8 character =? 45) || (u8 character =? 95).

Definition validDeviceToken (value : bytes) : bool :=
  if (len value <? 16) || (len value >? maxDeviceTokenBytes) then false
  else forallb token_character value.

(** The number of entries of a Go map. *)
Definition map_len {K V} `{Countable K} (m : gmap K V) : Z := Z.of_nat (size m).

(** A key of 32 zero bytes, the zero value of the array type. *)
Definition zero_key : bytes := replicate 32 Byte.x00.

(** The byte-wise order of identifiers, and the keys of a map in order. *)
Definition id_le (a b : bytes) : Prop := bytes_compare a b <> Gt.

Definition sorted_epochs (keys : gmap Z bytes) : list Z := merge_sort Z.le (map fst (map_to_list keys)).
Definition sorted_devices (keys : gmap bytes bytes) : list bytes :=
  merge_sort id_le (map fst (map_to_list keys)).

(** ** Reading a record *)

Module Reader.

Record credentialReader := mkReader { rvalue : bytes; offset : Z }.

Definition take (reader : credentialReader) (length : Z) : result (bytes * credentialReader) :=
  if (length <? 0) || (offset reader >? len (rvalue reader) - length) then
    fail "credential bundle is truncated"
  else Ok (slice (rvalue reader) (offset reader) (offset reader + length),
           mkReader (rvalue reader) (offset reader + length)).

Definition uint16 (reader : credentialReader) : result (Z * credentialReader) :=
  let! (value, reader) := take reader 2 in Ok (BigEndian.get value, reader).

Definition uint64 (reader : credentialReader) : result (Z * credentialReader) :=
  let! (value, reader) := take reader 8 in Ok (BigEndian.get value, reader).

End Reader.

Abbreviation mkReader := Reader.mkReader.
Abbreviation credentialReader := Reader.credentialReader.

Section credentials.
Context `{P : Primitives}.

Definition Validate (bundle : CredentialBundleV1) : result unit :=
  if negb (BVersion bundle =? CredentialBundleVersion) then
    Err (Errorf_d "unsupported credential bundle version %d" (BVersion bundle))
  else if allZero (BAccountID bundle) || allZero (BDeviceID bundle) then
    fail "account and device IDs must be nonzero random identifiers"
  else if negb (validDeviceToken (BDeviceToken bundle)) then
    fail "device token must be bounded unpadded base64url"
  else if allZero (BSigningSeed bundle) || allZero (BX25519Private bundle)
          || allZero (BLocalDataKey bundle) || allZero (BObjectIDKey bundle) then
    fail "credential bundle contains an empty private key"
  else if (BCurrentEpoch bundle <? 1) || (BCurrentEpoch bundle >? MaxInt64)
          || (map_len (BEpochKeys bundle) <? 1) || (map_len (BEpochKeys bundle) >? maxEpochKeys) then
    fail "credential bundle has an invalid epoch set"
  else if existsb (fun '(epoch, key) => (epoch <? 1) || (epoch >? MaxInt64) || allZero key)
            (map_to_list (BEpochKeys bundle)) then
    fail "credential bundle has an invalid epoch key"
  else if bool_decide (BEpochKeys bundle !! BCurrentEpoch bundle = None) then
    fail "current epoch key is missing"
  else if (map_len (BVerificationKeys bundle) <? 1)
          || (map_len (BVerificationKeys bundle) >? maxVerificationKeys) then
    fail "credential bundle has an invalid verification-key set"
  else if existsb (fun '(deviceID, key) => allZero deviceID || allZero key)
            (map_to_list (BVerificationKeys bundle)) then
    fail "credential bundle has an invalid verification key"
  else
    let wantSelf := ed25519_Public (NewKeyFromSeed (BSigningSeed bundle)) in
    let validSelf :=
      match BVerificationKeys bundle !! BDeviceID bundle with
      | Some self => bool_decide (self = wantSelf)
      | None => false
      end in
    if negb validSelf then fail "current device verification key does not match its signing seed"
    else Ok tt.

(** *** Encoding *)

Definition write_epoch (keys : gmap Z bytes) (epoch : Z) : bytes :=
  BigEndian.put 8 epoch ++ default zero_key (keys !! epoch).

Definition write_device (keys : gmap bytes bytes) (device : bytes) : bytes :=
  device ++ default zero_key (keys !! device).

Definition credential_record (bundle : CredentialBundleV1) : bytes :=
  let epochs := sorted_epochs (BEpochKeys bundle) in
  let devices := sorted_devices (BVerificationKeys bundle) in
  credentialMagic ++ [byte_of_Z (BVersion bundle)] ++ BAccountID bundle ++ BDeviceID bundle
  ++ BigEndian.put 2 (len (BDeviceToken bundle)) ++ BDeviceToken bundle
  ++ BSigningSeed bundle ++ BX25519Private bundle ++ BLocalDataKey bundle ++ BObjectIDKey bundle
  ++ BigEndian.put 8 (BCurrentEpoch bundle)
  ++ BigEndian.put 2 (len epochs) ++ concat (map (write_epoch (BEpochKeys bundle)) epochs)
  ++ BigEndian.put 2 (len devices) ++ concat (map (write_device (BVerificationKeys bundle)) devices).

Definition EncodeCredentialBundle (bundle : CredentialBundleV1) : result bytes :=
  let! _ := Validate bundle in
  let encoded := credential_record bundle in
  if len encoded >? maxCredentialBlobBytes then fail "credential bundle exceeds size limit"
  else Ok encoded.

(** *** Decoding *)

(** [copyFixed] into an array of the given size. *)
Definition copyFixed (size : Z) (reader : credentialReader) : result (bytes * credentialReader) :=
  Reader.take reader size.

(** A read whose error is replaced by another message, with the bounds the
    value has to respect. *)
Definition bounded16 (reader : credentialReader) (low high : Z) (message : string)
    : result (Z * credentialReader) :=
  match Reader.uint16 reader with
  | Err _ => fail message
  | Ok (value, reader) => if (value <? low) || (value >? high) then fail message else Ok (value, reader)
  end.

Fixpoint decode_epochs (count : nat) (previousEpoch : Z) (keys : gmap Z bytes) (reader : credentialReader)
    : result (gmap Z bytes * credentialReader) :=
  match count with
  | O => Ok (keys, reader)
  | S count =>
      let! (epoch, reader) := Reader.uint64 reader in
      if epoch <=? previousEpoch then fail "credential bundle epochs are duplicate or out of order"
      else
        let! (key, reader) := copyFixed 32 reader in
        decode_epochs count epoch (<[epoch := key]> keys) reader
  end.

(** [previousDevice] is present from the second entry on ([index > 0]). *)
Fixpoint decode_devices (count : nat) (previousDevice : option bytes) (keys : gmap bytes bytes)
    (reader : credentialReader) : result (gmap bytes bytes * credentialReader) :=
  match count with
  | O => Ok (keys, reader)
  | S count =>
      let! (device, reader) := copyFixed 16 reader in
      if match previousDevice with
         | Some previous => negb (str_lt previous device)
         | None => false
         end then fail "credential bundle device keys are duplicate or out of order"
      else
        let! (key, reader) := copyFixed PublicKeySize reader in
        decode_devices count (Some device) (<[device := key]> keys) reader
  end.

Definition DecodeCredentialBundle (encoded : bytes) : result CredentialBundleV1 :=
  if (len encoded <? 5) || (len encoded >? maxCredentialBlobBytes) then
    fail "credential bundle length is invalid"
  else
    let reader := mkReader encoded 0 in
    let '(magic, reader) :=
      match Reader.take reader (len credentialMagic) with Ok taken => taken | Err _ => ([], reader) end in
    if negb (bool_decide (magic = credentialMagic)) then fail "credential bundle magic is invalid"
    else
    let! (version, reader) :=
      match Reader.take reader 1 with
      | Err _ => fail "credential bundle version is unsupported"
      | Ok (version, reader) =>
          if negb (u8 (nth 0 version Byte.x00) =? CredentialBundleVersion)
          then fail "credential bundle version is unsupported"
          else Ok (u8 (nth 0 version Byte.x00), reader)
      end in
    let! (accountID, reader) := copyFixed 16 reader in
    let! (deviceID, reader) := copyFixed 16 reader in
    let! (tokenLength, reader) :=
      bounded16 reader 16 maxDeviceTokenBytes "credential bundle token length is invalid" in
    let! (token, reader) := Reader.take reader tokenLength in
    let! (signingSeed, reader) := copyFixed SeedSize reader in
    let! (x25519Private, reader) := copyFixed 32 reader in
    let! (localDataKey, reader) := copyFixed 32 reader in
    let! (objectIDKey, reader) := copyFixed 32 reader in
    let! (currentEpoch, reader) := Reader.uint64 reader in
    let! (epochCount, reader) :=
      bounded16 reader 1 maxEpochKeys "credential bundle epoch count is invalid" in
    let! (epochKeys, reader) := decode_epochs (Z.to_nat epochCount) 0 ∅ reader in
    let! (verificationCount, reader) :=
      bounded16 reader 1 maxVerificationKeys "credential bundle verification-key count is invalid" in
    let! (verificationKeys, reader) := decode_devices (Z.to_nat verificationCount) None ∅ reader in
    if negb (Reader.offset reader =? len encoded) then fail "credential bundle has trailing bytes"
    else
      let bundle := mkBundle version accountID deviceID token signingSeed x25519Private localDataKey
                      objectIDKey currentEpoch epochKeys verificationKeys in
      let! _ := Validate bundle in
      Ok bundle.

End credentials.

Definition DeviceIDHex (bundle : CredentialBundleV1) : bytes := Hex.EncodeToString (BDeviceID bundle).

(** [Zero] on the value a pointer refers to: the cleared bundle, and what is
    left in the buffer the token was kept in. *)
Definition Zero (bundle : CredentialBundleV1) : CredentialBundleV1 * bytes :=
  let clear (b : bytes) : bytes := replicate (length b) Byte.x00 in
  (mkBundle (BVersion bundle) (BAccountID bundle) (BDeviceID bundle) []
     (clear (BSigningSeed bundle)) (clear (BX25519Private bundle)) (clear (BLocalDataKey bundle))
     (clear (BObjectIDKey bundle)) 0
     (fold_left (fun keys epoch => delete epoch (<[epoch := zero_key]> keys))
        (map fst (map_to_list (BEpochKeys bundle))) (BEpochKeys bundle))
     (fold_left (fun keys device => delete device (<[device := zero_key]> keys))
        (map fst (map_to_list (BVerificationKeys bundle))) (BVerificationKeys bundle)),
   clear (BDeviceToken bundle)).

(** ** Tables in ascending order

    A map is written as its entries in the order of their keys, and read back
    by inserting them one by one. *)

Section tables.
Context {K V : Type} `{Countable K} (cmp : K -> K -> comparison) {Hcmp : TotalCompare cmp}.

Definition key_le (a b : K) : Prop := cmp a b <> Gt.
Definition key_lt (a b : K) : Prop := cmp a b = Lt.

Definition insert_all (entries : list (K * V)) (m : gmap K V) : gmap K V :=
  fold_left (fun m e => <[e.1 := e.2]> m) entries m.

#[local] Instance key_le_trans : Transitive key_le.
Proof.
  intros a b c. unfold key_le. intros H1 H2 H3. apply cmp_gt_lt in H3; [|done].
  destruct (cmp b c) eqn:E; [|pose proof (cmp_lt_trans cmp _ _ _ E H3) as E2; by apply cmp_gt_lt in E2|done].
  apply cmp_eq_iff in E as ->; [|done]. by apply cmp_gt_lt in H3.
Qed.

#[local] Instance key_le_antisym : AntiSymm (=) key_le.
Proof.
  intros a b. unfold key_le. rewrite (cmp_antisym cmp a b). intros.
  apply (cmp_eq_iff cmp). by destruct (cmp a b).
Qed.

Lemma key_lt_strong (ks : list K) : StronglySorted key_lt ks -> Sorted key_le ks /\ NoDup ks.
Proof.
  induction 1 as [|k ks Hs [IH1 IH2] Hf]; [split; constructor|]. split.
  - constructor; [done|]. destruct Hf as [|x l Hx]; constructor. unfold key_lt, key_le in *. by rewrite Hx.
  - constructor; [|done]. intros Hin. rewrite Forall_forall in Hf. apply (cmp_lt_irrefl cmp k), Hf, Hin.
Qed.

Lemma key_le_strict (ks : list K) : Sorted key_le ks -> NoDup ks -> StronglySorted key_lt ks.
Proof.
  intros Hs%Sorted_StronglySorted; [|apply _]. induction Hs as [|k ks Hs IH Hf]; intros Hn; constructor.
  - apply IH. by apply NoDup_cons in Hn as [_ ?].
  - apply NoDup_cons in Hn as [Hk _]. rewrite Forall_forall in Hf |- *. intros x Hx.
    specialize (Hf x Hx). unfold key_lt, key_le in *. destruct (cmp k x) eqn:E; [|done|done].
    by apply cmp_eq_iff in E as ->.
Qed.

Lemma insert_all_map (entries : list (K * V)) m :
  NoDup entries.*1 -> insert_all entries m = list_to_map entries ∪ m.
Proof.
  revert m. induction entries as [|[k v] l IH]; intros m Hn; cbn.
  - by rewrite map_empty_union.
  - apply NoDup_cons in Hn as [Hk Hn]. change (fold_left _ l ?m) with (insert_all l m). rewrite IH by done.
    rewrite <- insert_union_r by (by apply not_elem_of_list_to_map_1).
    by rewrite insert_union_l.
Qed.

Context (le : K -> K -> Prop) {Hdec : forall a b, Decision (le a b)} {Htot : Total le}.
Hypothesis le_key : forall a b, le a b <-> key_le a b.

Lemma sorted_keys_le (m : gmap K V) : Sorted key_le (merge_sort le (map fst (map_to_list m))).
Proof.
  assert (Hs := Sorted_merge_sort le (map fst (map_to_list m))).
  induction Hs as [|k l ? IH Hd]; constructor; [done|]. destruct Hd; constructor. by apply le_key.
Qed.

(** The entries of a map, written in order, give the map back. *)
Lemma table_written (m : gmap K V) (d : V) :
  let keys := merge_sort le (map fst (map_to_list m)) in
  let entries := map (fun k => (k, default d (m !! k))) keys in
  StronglySorted key_lt entries.*1 /\ insert_all entries ∅ = m /\ length keys = size m /\
  (forall k v, (k, v) ∈ entries -> m !! k = Some v).
Proof.
  intros keys entries.
  assert (keys ≡ₚ (map_to_list m).*1) as Hp by apply merge_sort_Permutation.
  assert (entries.*1 = keys) as Hk.
  { unfold entries. rewrite <- list_fmap_compose. by rewrite list_fmap_id. }
  assert (NoDup keys) as Hn by (rewrite Hp; apply NoDup_fst_map_to_list).
  assert (forall k v, (k, v) ∈ entries <-> m !! k = Some v) as Hin.
  { intros k v. unfold entries. rewrite list_elem_of_fmap. split.
    - intros (k' & [= <- ->] & Hk'). rewrite Hp in Hk'.
      apply list_elem_of_fmap in Hk' as ([k1 v1] & -> & Hk1%elem_of_map_to_list). cbn. by rewrite Hk1.
    - intros Hkv. exists k. rewrite Hkv. split; [done|]. rewrite Hp, list_elem_of_fmap.
      exists (k, v). split; [done|]. by apply elem_of_map_to_list. }
  split_and!.
  - rewrite Hk. apply key_le_strict; [apply sorted_keys_le|done].
  - rewrite insert_all_map, map_union_empty by (by rewrite Hk). apply map_eq. intros k.
    apply option_eq. intros v. rewrite <- Hin. symmetry. apply elem_of_list_to_map. by rewrite Hk.
  - by rewrite Hp, length_fmap, length_map_to_list.
  - intros k v. apply Hin.
Qed.

(** Entries read in strictly ascending order are those the map is written as. *)
Lemma table_read (entries : list (K * V)) (d : V) :
  StronglySorted key_lt entries.*1 ->
  let m := insert_all entries ∅ in
  let keys := merge_sort le (map fst (map_to_list m)) in
  map (fun k => (k, default d (m !! k))) keys = entries /\ size m = length entries /\
  (forall k v, m !! k = Some v -> (k, v) ∈ entries).
Proof.
  intros Hs m keys. destruct (key_lt_strong _ Hs) as [Hle Hn].
  assert (m = list_to_map entries) as Hm by (unfold m; by rewrite insert_all_map, map_union_empty).
  assert (map_to_list m ≡ₚ entries) as Hp by (rewrite Hm; by apply map_to_list_to_map).
  assert (keys = entries.*1) as ->.
  { apply (Sorted_unique key_le); [apply sorted_keys_le|done|].
    unfold keys. rewrite merge_sort_Permutation. by rewrite <- Hp. }
  split_and!.
  - rewrite <- list_fmap_compose. rewrite <- (list_fmap_id entries) at 2.
    apply list_fmap_ext. intros i [k v] Hi. cbn. f_equal.
    rewrite Hm, (elem_of_list_to_map_1 _ k v); [done|done|]. by apply list_elem_of_lookup_2 in Hi.
  - rewrite <- length_map_to_list. by rewrite Hp.
  - intros k v Hk. rewrite <- Hp. by apply elem_of_map_to_list.
Qed.

End tables.

(** ** The reader *)

(** The reader has consumed everything before [rest]. *)
Definition reads (reader : credentialReader) (rest : bytes) : Prop :=
  exists consumed, Reader.rvalue reader = consumed ++ rest /\ Reader.offset reader = len consumed.

Lemma take_run reader x rest n :
  reads reader (x ++ rest) -> len x = n ->
  exists reader', Reader.take reader n = Ok (x, reader') /\ reads reader' rest /\
    Reader.rvalue reader' = Reader.rvalue reader.
Proof.
  intros (pre & Hv & Ho) Hn. pose proof (len_nonneg x). pose proof (len_nonneg rest). unfold Reader.take.
  rewrite Z.gtb_ltb, Ho, (proj2 (Z.ltb_ge n 0)) by lia.
  rewrite Hv, !len_app, (proj2 (Z.ltb_ge _ _)) by lia. cbn [orb].
  eexists. split; [rewrite (slice_middle pre x rest) by lia; reflexivity|]. split; [|done].
  exists (pre ++ x). cbn. rewrite len_app, <- app_assoc. split; [done|lia].
Qed.

Lemma take_inv reader rest n x reader' :
  reads reader rest -> Reader.take reader n = Ok (x, reader') ->
  len x = n /\ Reader.rvalue reader' = Reader.rvalue reader /\
  exists rest', rest = x ++ rest' /\ reads reader' rest'.
Proof.
  intros (pre & Hv & Ho) H. unfold Reader.take in H.
  destruct (_ || _) eqn:E; [done|]. injection H as <- <-. rewrite Z.gtb_ltb in E. bools.
  pose proof (len_nonneg pre). rewrite Ho, Hv, len_app in *. cbn [Reader.rvalue].
  assert (slice (pre ++ rest) (len pre) (len pre + n) = slice rest 0 n) as Hs.
  { pose proof (slice_app_shift pre rest 0 n) as E0. rewrite Z.add_0_r in E0. apply E0. lia. }
  split; [rewrite Hs, len_slice; lia|]. split; [done|].
  exists (slice rest n (len rest)). rewrite Hs. split; [by rewrite take_slice_drop by lia|].
  exists (pre ++ slice rest 0 n). cbn. rewrite len_app, len_slice by lia. split; [|lia].
  by rewrite <- app_assoc, take_slice_drop by lia.
Qed.

Lemma uint_run reader m z rest :
  0 <= z < 2 ^ (8 * Z.of_nat m) -> reads reader (BigEndian.put m z ++ rest) ->
  exists reader', Reader.take reader (Z.of_nat m) = Ok (BigEndian.put m z, reader') /\
    BigEndian.get (BigEndian.put m z) = z /\ reads reader' rest /\
    Reader.rvalue reader' = Reader.rvalue reader.
Proof.
  intros Hz H. destruct (take_run _ _ _ (Z.of_nat m) H (len_put m z)) as (r & -> & Hr & Hv).
  exists r. by rewrite get_put, Z.mod_small.
Qed.

Lemma uint64_run reader z rest :
  in_u64 z -> reads reader (BigEndian.put 8 z ++ rest) ->
  exists reader', Reader.uint64 reader = Ok (z, reader') /\ reads reader' rest /\
    Reader.rvalue reader' = Reader.rvalue reader.
Proof.
  unfold in_u64, MaxUint64. intros Hz H. destruct (uint_run reader 8 z rest) as (r & E & Hg & Hr); [lia|done|].
  exists r. unfold Reader.uint64. change 8 with (Z.of_nat 8). rewrite E. cbn [rbind]. by rewrite Hg.
Qed.

Lemma uint64_inv reader rest z reader' :
  reads reader rest -> Reader.uint64 reader = Ok (z, reader') ->
  in_u64 z /\ Reader.rvalue reader' = Reader.rvalue reader /\
  exists rest', rest = BigEndian.put 8 z ++ rest' /\ reads reader' rest'.
Proof.
  intros Hr H. unfold Reader.uint64 in H. invert_ok. destruct a as [v r]. invert_ok.
  destruct (take_inv _ _ _ _ _ Hr Hok) as (Hl & Hv & rest' & -> & Hr').
  pose proof (get_range v) as Hg. rewrite Hl in Hg. unfold in_u64, MaxUint64. split; [lia|].
  split; [done|]. exists rest'. by rewrite (put_get_len 8) by done.
Qed.

Lemma bounded16_run reader z low high message rest :
  low <= z <= high -> 0 <= low -> high < 65536 -> reads reader (BigEndian.put 2 z ++ rest) ->
  exists reader', bounded16 reader low high message = Ok (z, reader') /\ reads reader' rest /\
    Reader.rvalue reader' = Reader.rvalue reader.
Proof.
  intros Hz Hl Hh H. destruct (uint_run reader 2 z rest) as (r & E & Hg & Hr); [lia|done|].
  exists r. unfold bounded16, Reader.uint16. change 2 with (Z.of_nat 2). rewrite E. cbn [rbind]. rewrite Hg.
  by rewrite Z.gtb_ltb, !(proj2 (Z.ltb_ge _ _)) by lia.
Qed.

Lemma bounded16_inv reader rest low high message z reader' :
  reads reader rest -> bounded16 reader low high message = Ok (z, reader') ->
  low <= z <= high /\ Reader.rvalue reader' = Reader.rvalue reader /\
  exists rest', rest = BigEndian.put 2 z ++ rest' /\ reads reader' rest'.
Proof.
  intros Hr H. unfold bounded16, Reader.uint16 in H.
  destruct (Reader.take reader 2) as [[v r]|] eqn:E; cbn [rbind] in H; [|done].
  rewrite Z.gtb_ltb in H. destruct (_ || _) eqn:Eb; [done|]. injection H as <- <-. bools.
  destruct (take_inv _ _ _ _ _ Hr E) as (Hl & Hv & rest' & -> & Hr'). split; [lia|]. split; [done|].
  exists rest'. by rewrite (put_get_len 2) by done.
Qed.

Definition put_epoch (entry : Z * bytes) : bytes := BigEndian.put 8 entry.1 ++ entry.2.
Definition put_device (entry : bytes * bytes) : bytes := entry.1 ++ entry.2.

Definition epoch_typed (entry : Z * bytes) : Prop := in_u64 entry.1 /\ len entry.2 = 32.
Definition device_typed (entry : bytes * bytes) : Prop := len entry.1 = 16 /\ len entry.2 = 32.

Lemma decode_epochs_run entries : forall previous keys reader rest,
  StronglySorted (key_lt Z.compare) (previous :: entries.*1) -> Forall epoch_typed entries ->
  reads reader (concat (map put_epoch entries) ++ rest) ->
  exists reader', decode_epochs (length entries) previous keys reader = Ok (insert_all entries keys, reader') /\
    reads reader' rest /\ Reader.rvalue reader' = Reader.rvalue reader.
Proof.
  induction entries as [|[e k] l IH]; intros previous keys reader rest Hs Ht Hr; cbn in Hr |- *; [by eexists|].
  apply Forall_cons in Ht as [[He Hk] Ht]. cbn in He, Hk.
  apply StronglySorted_inv in Hs as [Hs Hp]. apply Forall_cons in Hp as [Hp _].
  unfold put_epoch at 1 in Hr. cbn in Hr. rewrite <- !app_assoc in Hr.
  destruct (uint64_run _ _ _ He Hr) as (r1 & -> & Hr1 & Hv1). cbn [rbind].
  destruct (Z.leb_spec e previous) as [Hle|Hlt]; [unfold key_lt in Hp; cbn in Hp; rewrite Z.compare_lt_iff in Hp; lia|].
  destruct (take_run _ _ _ _ Hr1 Hk) as (r2 & E2 & Hr2 & Hv2). unfold copyFixed. rewrite E2. cbn [rbind].
  destruct (IH e (<[e:=k]> keys) r2 rest Hs Ht Hr2) as (r3 & -> & Hr3 & Hv3).
  eexists. split; [done|]. split; [done|congruence].
Qed.

Lemma decode_epochs_inv n : forall previous keys reader rest m reader',
  reads reader rest -> decode_epochs n previous keys reader = Ok (m, reader') ->
  Reader.rvalue reader' = Reader.rvalue reader /\
  exists entries rest', length entries = n /\ m = insert_all entries keys /\
    StronglySorted (key_lt Z.compare) (previous :: entries.*1) /\ Forall epoch_typed entries /\
    rest = concat (map put_epoch entries) ++ rest' /\ reads reader' rest'.
Proof.
  induction n as [|n IH]; intros previous keys reader rest m reader' Hr H; cbn [decode_epochs] in H.
  { invert_ok. split; [done|]. exists [], rest. cbn. split_and!; try done; repeat constructor. }
  invert_ok. destruct a as [e r1]. destruct (Z.leb_spec e previous) as [?|Hlt]; [done|].
  invert_ok. destruct a as [k r2].
  destruct (uint64_inv _ _ _ _ Hr Hok) as (He & Hv1 & rest1 & -> & Hr1).
  destruct (take_inv _ _ _ _ _ Hr1 Hok0) as (Hk & Hv2 & rest2 & -> & Hr2).
  destruct (IH _ _ _ _ _ _ Hr2 H) as (Hv3 & es & rest3 & <- & -> & Hs & Ht & -> & Hr3).
  split; [congruence|]. exists ((e, k) :: es), rest3. cbn. split_and!; try done.
  - constructor; [done|]. assert (key_lt Z.compare previous e) as Hpe by (unfold key_lt; by rewrite Z.compare_lt_iff).
    apply StronglySorted_inv in Hs as [_ Hs]. constructor; [done|].
    eapply Forall_impl; [exact Hs|]. intros x Hx. by eapply (cmp_lt_trans Z.compare).
  - by constructor.
  - unfold put_epoch at 2. cbn. by rewrite <- !app_assoc.
Qed.

(** The devices come in strictly ascending order, after the previous one if
    there is one. *)
Definition ascending (previous : option bytes) (devices : list bytes) : Prop :=
  match previous with
  | Some p => StronglySorted (key_lt bytes_compare) (p :: devices)
  | None => StronglySorted (key_lt bytes_compare) devices
  end.

Lemma ascending_cons previous d devices :
  ascending previous (d :: devices) <->
  ascending (Some d) devices /\ match previous with Some p => str_lt p d = true | None => True end.
Proof.
  assert (forall p, str_lt p d = true <-> key_lt bytes_compare p d) as Hlt.
  { intros p. unfold str_lt, key_lt. by destruct (bytes_compare p d). }
  unfold ascending. destruct previous as [p|]; [|tauto]. rewrite Hlt. split.
  - intros [Hs Hp]%StronglySorted_inv. split; [done|]. by apply Forall_cons in Hp as [? _].
  - intros [Hs Hp]. constructor; [done|]. constructor; [done|].
    apply StronglySorted_inv in Hs as [_ Hs]. eapply Forall_impl; [exact Hs|].
    intros x Hx. by eapply (cmp_lt_trans bytes_compare).
Qed.

Lemma decode_devices_run entries : forall previous keys reader rest,
  ascending previous entries.*1 -> Forall device_typed entries ->
  reads reader (concat (map put_device entries) ++ rest) ->
  exists reader', decode_devices (length entries) previous keys reader = Ok (insert_all entries keys, reader') /\
    reads reader' rest /\ Reader.rvalue reader' = Reader.rvalue reader.
Proof.
  induction entries as [|[d k] l IH]; intros previous keys reader rest Hs Ht Hr; cbn in Hr |- *; [by eexists|].
  apply Forall_cons in Ht as [[Hd Hk] Ht]. cbn in Hd, Hk. apply ascending_cons in Hs as [Hs Hp].
  unfold put_device at 1 in Hr. cbn in Hr. rewrite <- !app_assoc in Hr.
  destruct (take_run _ _ _ _ Hr Hd) as (r1 & E1 & Hr1 & Hv1). unfold copyFixed. rewrite E1. cbn [rbind].
  assert (match previous with Some p => negb (str_lt p d) | None => false end = false) as ->.
  { destruct previous; [cbn in Hp; by rewrite Hp|done]. }
  destruct (take_run _ _ _ _ Hr1 Hk) as (r2 & E2 & Hr2 & Hv2). unfold PublicKeySize. rewrite E2. cbn [rbind].
  destruct (IH (Some d) (<[d:=k]> keys) r2 rest Hs Ht Hr2) as (r3 & -> & Hr3 & Hv3).
  eexists. split; [done|]. split; [done|congruence].
Qed.

Lemma decode_devices_inv n : forall previous keys reader rest m reader',
  reads reader rest -> decode_devices n previous keys reader = Ok (m, reader') ->
  Reader.rvalue reader' = Reader.rvalue reader /\
  exists entries rest', length entries = n /\ m = insert_all entries keys /\
    ascending previous entries.*1 /\ Forall device_typed entries /\
    rest = concat (map put_device entries) ++ rest' /\ reads reader' rest'.
Proof.
  induction n as [|n IH]; intros previous keys reader rest m reader' Hr H; cbn [decode_devices] in H.
  { invert_ok. split; [done|]. exists [], rest. cbn. split_and!; try done.
    unfold ascending. destruct previous; repeat constructor. }
  invert_ok. destruct a as [d r1]. destruct (match previous with Some _ => _ | None => _ end) eqn:Ep; [done|].
  invert_ok. destruct a as [k r2].
  destruct (take_inv _ _ _ _ _ Hr Hok) as (Hd & Hv1 & rest1 & -> & Hr1).
  destruct (take_inv _ _ _ _ _ Hr1 Hok0) as (Hk & Hv2 & rest2 & -> & Hr2).
  destruct (IH _ _ _ _ _ _ Hr2 H) as (Hv3 & es & rest3 & <- & -> & Hs & Ht & -> & Hr3).
  split; [congruence|]. exists ((d, k) :: es), rest3. cbn. split_and!; try done.
  - apply ascending_cons. split; [done|]. destruct previous; [|done]. by apply negb_false_iff in Ep.
  - by constructor.
  - unfold put_device at 2. cbn. by rewrite <- !app_assoc.
Qed.

(** ** The record as a whole *)

(** The ranges and array lengths the Go types of the fields guarantee. *)
Record bundle_typed (bundle : CredentialBundleV1) : Prop := {
  typed_account : len (BAccountID bundle) = 16;
  typed_device : len (BDeviceID bundle) = 16;
  typed_seed : len (BSigningSeed bundle) = 32;
  typed_x25519 : len (BX25519Private bundle) = 32;
  typed_data : len (BLocalDataKey bundle) = 32;
  typed_object : len (BObjectIDKey bundle) = 32;
  typed_current : in_u64 (BCurrentEpoch bundle);
  typed_epochs : forall e k, BEpochKeys bundle !! e = Some k -> epoch_typed (e, k);
  typed_devices : forall d k, BVerificationKeys bundle !! d = Some k -> device_typed (d, k)
}.

#[local] Instance id_le_total : Total id_le.
Proof.
  intros a b. unfold id_le. rewrite (cmp_antisym bytes_compare a b).
  destruct (bytes_compare a b); [left|left|right]; done.
Qed.

(** The two tables of a record, as lists of entries. *)
Definition epoch_entries (keys : gmap Z bytes) : list (Z * bytes) :=
  map (fun e => (e, default zero_key (keys !! e))) (sorted_epochs keys).
Definition device_entries (keys : gmap bytes bytes) : list (bytes * bytes) :=
  map (fun d => (d, default zero_key (keys !! d))) (sorted_devices keys).

Lemma epoch_entries_written keys :
  StronglySorted (key_lt Z.compare) (epoch_entries keys).*1 /\ insert_all (epoch_entries keys) ∅ = keys /\
  length (sorted_epochs keys) = size keys /\
  (forall e k, (e, k) ∈ epoch_entries keys -> keys !! e = Some k).
Proof. by apply (table_written Z.compare Z.le). Qed.

Lemma device_entries_written keys :
  StronglySorted (key_lt bytes_compare) (device_entries keys).*1 /\ insert_all (device_entries keys) ∅ = keys /\
  length (sorted_devices keys) = size keys /\
  (forall d k, (d, k) ∈ device_entries keys -> keys !! d = Some k).
Proof. by apply (table_written bytes_compare id_le). Qed.

Lemma epoch_entries_read entries :
  StronglySorted (key_lt Z.compare) entries.*1 ->
  epoch_entries (insert_all entries ∅) = entries /\
  len (sorted_epochs (insert_all entries ∅)) = len entries /\
  (forall e k, insert_all entries ∅ !! e = Some k -> (e, k) ∈ entries).
Proof.
  intros Hs. destruct (table_read Z.compare Z.le (fun a b => conj (fun x => x) (fun x => x)) entries zero_key Hs)
    as (We & Ce & Ie). split; [exact We|]. split; [|exact Ie].
  unfold len. by rewrite (proj1 (proj2 (proj2 (epoch_entries_written _)))), Ce.
Qed.

Lemma device_entries_read entries :
  StronglySorted (key_lt bytes_compare) entries.*1 ->
  device_entries (insert_all entries ∅) = entries /\
  len (sorted_devices (insert_all entries ∅)) = len entries /\
  (forall d k, insert_all entries ∅ !! d = Some k -> (d, k) ∈ entries).
Proof.
  intros Hs. destruct (table_read bytes_compare id_le (fun a b => conj (fun x => x) (fun x => x)) entries zero_key Hs)
    as (We & Ce & Ie). split; [exact We|]. split; [|exact Ie].
  unfold len. by rewrite (proj1 (proj2 (proj2 (device_entries_written _)))), Ce.
Qed.

Lemma concat_epochs keys :
  concat (map (write_epoch keys) (sorted_epochs keys)) = concat (map put_epoch (epoch_entries keys)).
Proof. unfold epoch_entries. by rewrite map_map. Qed.

Lemma concat_devices keys :
  concat (map (write_device keys) (sorted_devices keys)) = concat (map put_device (device_entries keys)).
Proof. unfold device_entries. by rewrite map_map. Qed.

Lemma len_concat_const {A} (f : A -> bytes) n l :
  Forall (fun x => len (f x) = n) l -> len (concat (map f l)) = n * len l.
Proof. induction 1 as [|x l Hx _ IH]; cbn; [by rewrite Z.mul_0_r|]. rewrite len_app, len_cons, Hx, IH. lia. Qed.

Section facts.
Context `{P : Primitives}.

(** What a bundle that passes validation looks like. *)
Record bundle_valid (bundle : CredentialBundleV1) : Prop := {
  valid_version : BVersion bundle = 1;
  valid_token : 16 <= len (BDeviceToken bundle) <= 512;
  valid_characters : forallb token_character (BDeviceToken bundle) = true;
  valid_current : 1 <= BCurrentEpoch bundle <= MaxInt64;
  valid_current_key : is_Some (BEpochKeys bundle !! BCurrentEpoch bundle);
  valid_epochs : 1 <= map_len (BEpochKeys bundle) <= 64;
  valid_epoch : forall e k, BEpochKeys bundle !! e = Some k -> 1 <= e <= MaxInt64;
  valid_devices : 1 <= map_len (BVerificationKeys bundle) <= 256;
  valid_self : BVerificationKeys bundle !! BDeviceID bundle
    = Some (ed25519_Public (NewKeyFromSeed (BSigningSeed bundle)))
}.

Lemma existsb_entries {K V} `{Countable K} (f : K * V -> bool) (m : gmap K V) k v :
  existsb f (map_to_list m) = false -> m !! k = Some v -> f (k, v) = false.
Proof.
  intros H1 H2. apply not_true_iff_false. intros Hf. apply not_true_iff_false in H1. apply H1.
  apply existsb_exists. exists (k, v). split; [|done]. by apply list_elem_of_In, elem_of_map_to_list.
Qed.

Lemma Validate_inv bundle u : Validate bundle = Ok u -> bundle_valid bundle.
Proof.
  unfold Validate. intros H.
  repeat match type of H with (if ?c then _ else _) = _ => destruct c eqn:?; [discriminate H|] end.
  rewrite ?Z.gtb_ltb in *. bools.
  unfold validDeviceToken, CredentialBundleVersion, maxEpochKeys, maxVerificationKeys in *.
  destruct ((len (BDeviceToken bundle) <? 16) || _) eqn:Et; [done|].
  rewrite Z.gtb_ltb in Et. unfold maxDeviceTokenBytes in Et. bools.
  split; try done; try lia.
  - by apply not_eq_None_Some.
  - intros e k Hk. eapply existsb_entries in Hk; [|done]. cbn in Hk. rewrite Z.gtb_ltb in Hk. bools. lia.
  - destruct (_ !! BDeviceID bundle) as [self|]; [|done]. by bools; subst.
Qed.

Lemma typed_entries bundle :
  bundle_typed bundle ->
  Forall epoch_typed (epoch_entries (BEpochKeys bundle)) /\
  Forall device_typed (device_entries (BVerificationKeys bundle)).
Proof.
  intros Ht. split; apply Forall_forall.
  - intros [e k] Hin. apply (typed_epochs _ Ht). by apply epoch_entries_written.
  - intros [d k] Hin. apply (typed_devices _ Ht). by apply device_entries_written.
Qed.

(** The record never reaches the size limit. *)
Lemma credential_record_len bundle :
  bundle_typed bundle -> bundle_valid bundle ->
  len (credential_record bundle) =
    179 + len (BDeviceToken bundle) + 40 * map_len (BEpochKeys bundle) + 48 * map_len (BVerificationKeys bundle).
Proof.
  intros Ht Hv. unfold credential_record. rewrite concat_epochs, concat_devices.
  destruct (typed_entries _ Ht) as [He Hd].
  autorewrite with len. rewrite (len_concat_const put_epoch 40), (len_concat_const put_device 48).
  - destruct Ht as [-> -> -> -> -> -> _ _ _]. change (len credentialMagic) with 4.
    unfold epoch_entries, device_entries. rewrite !len_map. change (len (@nil byte)) with 0.
    unfold len, map_len. rewrite (proj1 (proj2 (proj2 (epoch_entries_written _)))).
    rewrite (proj1 (proj2 (proj2 (device_entries_written _)))). lia.
  - eapply Forall_impl; [exact Hd|]. intros [d k] [H1 H2]. unfold put_device. cbn in *. rewrite len_app. lia.
  - eapply Forall_impl; [exact He|]. intros [e k] [H1 H2]. unfold put_epoch. cbn [fst snd] in *. rewrite len_app, len_put. lia.
Qed.

Lemma reads_start encoded : reads (mkReader encoded 0) encoded.
Proof. by exists []. Qed.

Lemma len_of_nat {A} (l : list A) : Z.to_nat (len l) = length l.
Proof. unfold len. lia. Qed.

Lemma reads_end reader : reads reader [] -> Reader.offset reader = len (Reader.rvalue reader).
Proof. intros (pre & -> & ->). by rewrite app_nil_r. Qed.

Lemma reads_exhausted reader rest :
  reads reader rest -> Reader.offset reader = len (Reader.rvalue reader) -> rest = [].
Proof.
  intros (pre & -> & ->). rewrite len_app. destruct rest as [|b rest]; [done|].
  rewrite len_cons. pose proof (len_nonneg rest). lia.
Qed.

Lemma EncodeCredentialBundle_total bundle :
  bundle_typed bundle -> Validate bundle = Ok tt ->
  EncodeCredentialBundle bundle = Ok (credential_record bundle) /\
  5 <= len (credential_record bundle) <= maxCredentialBlobBytes.
Proof.
  intros Ht Hok. pose proof (Validate_inv _ _ Hok) as Hv. unfold EncodeCredentialBundle. rewrite Hok. cbn [rbind].
  rewrite Z.gtb_ltb, (credential_record_len _ Ht Hv). destruct Hv as [_ Htok _ _ _ He _ Hd _].
  unfold maxCredentialBlobBytes. rewrite (proj2 (Z.ltb_ge _ _)) by lia. split; [done|lia].
Qed.

End facts.

(** One step back from a decoder that succeeded: what the field it read was. *)
Ltac unread :=
  match goal with
  | R : reads ?r _, E : Reader.take ?r _ = Ok (_, _) |- _ =>
      let L := fresh "L" in let V := fresh "V" in
      destruct (take_inv _ _ _ _ _ R E) as (L & V & ? & -> & ?); clear R E
  | R : reads ?r _, E : Reader.uint64 ?r = Ok (_, _) |- _ =>
      let L := fresh "L" in let V := fresh "V" in
      destruct (uint64_inv _ _ _ _ R E) as (L & V & ? & -> & ?); clear R E
  | R : reads ?r _, E : bounded16 ?r _ _ _ = Ok (_, _) |- _ =>
      let L := fresh "L" in let V := fresh "V" in
      destruct (bounded16_inv _ _ _ _ _ _ _ R E) as (L & V & ? & -> & ?); clear R E
  | R : reads ?r _, E : decode_epochs _ _ _ ?r = Ok (_, _) |- _ =>
      let V := fresh "V" in let N := fresh "Ne" in let S := fresh "Se" in let T := fresh "Te" in
      destruct (decode_epochs_inv _ _ _ _ _ _ _ R E) as (V & ? & ? & N & -> & S & T & -> & ?); clear R E
  | R : reads ?r _, E : decode_devices _ _ _ ?r = Ok (_, _) |- _ =>
      let V := fresh "V" in let N := fresh "Nd" in let S := fresh "Sd" in let T := fresh "Td" in
      destruct (decode_devices_inv _ _ _ _ _ _ _ R E) as (V & ? & ? & N & -> & S & T & -> & ?); clear R E
  end.

(** One step of the decoder on a record that is known. *)
Ltac read_field H :=
  rewrite <- ?app_assoc in H;
  match type of H with
  | reads ?r (?x ++ _) =>
      let r' := fresh "r" in let E := fresh "E" in let Hr := fresh "Hr" in let Hv := fresh "Hv" in
      first
        [ destruct (uint64_run _ _ _ ltac:(eassumption) H) as (r' & E & Hr & Hv)
        | destruct (take_run _ _ _ _ H ltac:(eassumption)) as (r' & E & Hr & Hv) ];
      unfold copyFixed, SeedSize; rewrite E; cbn [rbind]; clear H; rename Hr into H
  end.

Section roundtrip.
Context `{P : Primitives}.

(** The record of a valid bundle decodes to it. *)
Lemma DecodeCredentialBundle_encoded bundle :
  bundle_typed bundle -> Validate bundle = Ok tt -> DecodeCredentialBundle (credential_record bundle) = Ok bundle.
Proof.
  intros Ht Hok. destruct (EncodeCredentialBundle_total _ Ht Hok) as [Henc Hlen].
  pose proof (Validate_inv _ _ Hok) as Hv.
  pose proof (reads_start (credential_record bundle)) as H.
  unfold DecodeCredentialBundle. rewrite Z.gtb_ltb, !(proj2 (Z.ltb_ge _ _)) by lia. cbn [orb].
  unfold credential_record at 2 in H. rewrite concat_epochs, concat_devices in H.
  destruct (typed_entries _ Ht) as [Hte Htd]. destruct Ht as [T1 T2 T3 T4 T5 T6 T7 T8 T9].
  destruct (take_run _ _ _ (len credentialMagic) H eq_refl) as (r0 & -> & H0 & V0). clear H. rename H0 into H.
  rewrite bool_decide_eq_true_2 by done. cbn [negb].
  destruct (take_run _ _ _ 1 H eq_refl) as (r1 & -> & H1 & V1). clear H. rename H1 into H. cbn [nth].
  rewrite (valid_version _ Hv), u8_of_small by lia. change (negb (1 =? CredentialBundleVersion)) with false.
  cbn [rbind].
  read_field H. read_field H.
  assert (Htok := valid_token _ Hv).
  eapply bounded16_run in H as (r3 & -> & H3 & V3); [|unfold maxDeviceTokenBytes; lia..].
  cbn [rbind]. rename H3 into H. destruct (take_run _ _ _ _ H eq_refl) as (r4 & -> & H4 & V4). cbn [rbind].
  clear H. rename H4 into H. read_field H. read_field H. read_field H. read_field H. read_field H.
  destruct (epoch_entries_written (BEpochKeys bundle)) as (Se & Ie & Le & Ee).
  destruct (device_entries_written (BVerificationKeys bundle)) as (Sd & Id & Ld & Ed).
  assert (Hce := valid_epochs _ Hv). assert (Hcd := valid_devices _ Hv). unfold map_len in Hce, Hcd.
  eapply bounded16_run in H as (r10 & -> & H10 & V10);
    [|unfold maxEpochKeys, len; rewrite ?Le; lia..]. cbn [rbind]. rewrite len_of_nat.
  rewrite <- (length_map (fun e => (e, default zero_key (BEpochKeys bundle !! e))) (sorted_epochs _)).
  fold (epoch_entries (BEpochKeys bundle)).
  eapply decode_epochs_run in H10 as (r11 & -> & H & V11); [|constructor; [done|]|done].
  2: { apply Forall_fmap, Forall_forall. intros [e k] Hin%Ee%(valid_epoch _ Hv). change (0 < e). lia. }
  cbn [rbind].
  eapply bounded16_run in H as (r12 & -> & H12 & V12);
    [|unfold maxVerificationKeys, len; rewrite ?Ld; lia..]. cbn [rbind]. rewrite len_of_nat.
  rewrite <- (length_map (fun e => (e, default zero_key (BVerificationKeys bundle !! e))) (sorted_devices _)).
  fold (device_entries (BVerificationKeys bundle)). rewrite <- (app_nil_r (concat _)) in H12.
  eapply decode_devices_run in H12 as (r13 & -> & H & V13); [|done..]. cbn [rbind].
  apply reads_end in H. rewrite Ie, Id. replace (Reader.offset r13) with (len (credential_record bundle)) by (rewrite H; f_equal; cbn in *; congruence).
  rewrite Z.eqb_refl. cbn [negb].
  replace (mkBundle 1 _ _ _ _ _ _ _ _ _ _) with bundle by (rewrite <- (valid_version _ Hv); by destruct bundle).
  by rewrite Hok.
Qed.

(** The magic and version bytes of a record that was decoded. *)
Lemma record_prefix encoded rest v r0 r1 :
  Reader.take (mkReader encoded 0) (len credentialMagic) = Ok (credentialMagic, r0) ->
  Reader.take r0 1 = Ok (v, r1) -> u8 (nth 0 v Byte.x00) = CredentialBundleVersion ->
  reads r1 rest -> Reader.rvalue r1 = encoded /\ encoded = credentialMagic ++ [byte_of_Z 1] ++ rest.
Proof.
  intros E0 E1 Hv (pre & Hpre & Hoff).
  destruct (take_inv _ _ _ _ _ (reads_start encoded) E0) as (_ & V0 & rest0 & -> & R0).
  destruct (take_inv _ _ _ _ _ R0 E1) as (Lv & V1 & rest1 & -> & (pre1 & Hpre1 & Hoff1)). cbn [Reader.rvalue] in V0.
  split; [congruence|]. do 2 f_equal.
  - destruct v as [|b [|? ?]]; [done| |unfold len in Lv; cbn in Lv; lia]. f_equal. cbn in Hv.
    unfold CredentialBundleVersion in Hv. by rewrite <- Hv, byte_of_Z_u8.
  - rewrite Hpre in Hpre1. apply app_inj_1 in Hpre1 as [_ ->]; [done|]. unfold len in *. lia.
Qed.

(** A successful decoder has read every field of the record it was given. *)
Lemma DecodeCredentialBundle_inv encoded bundle :
  DecodeCredentialBundle encoded = Ok bundle ->
  bundle_typed bundle /\ Validate bundle = Ok tt /\ encoded = credential_record bundle.
Proof.
  unfold DecodeCredentialBundle. intros H. destruct (_ || _); [done|].
  destruct (Reader.take (mkReader encoded 0) (len credentialMagic)) as [[magic r0]|] eqn:E0; [|done].
  destruct (bool_decide (magic = credentialMagic)) eqn:Em; [|done]. cbn [negb] in H. bools. subst magic.
  destruct (Reader.take r0 1) as [[v r1]|] eqn:E1; [|done]. cbn [rbind] in H.
  destruct (negb _) eqn:Ev in H; [done|]. cbn [rbind] in H. bools.
  destruct (take_inv _ _ _ _ _ (reads_start encoded) E0) as (_ & _ & rest0 & _ & R0).
  destruct (take_inv _ _ _ _ _ R0 E1) as (_ & _ & rest & _ & R1). clear R0.
  unfold copyFixed, SeedSize in *.
  repeat match type of H with
  | rbind ?m _ = Ok _ => let E := fresh "E" in destruct m as [[? ?]|] eqn:E; cbn [rbind] in H; [|discriminate H]
  end.
  destruct (negb (_ =? len encoded)) eqn:Eo in H; [done|]. invert_ok. bools. destruct a.
  destruct (record_prefix _ _ _ _ _ E0 E1 Ev R1) as (V1 & Henc). clear E0 E1.
  repeat unread. apply StronglySorted_inv in Se as [Se _]. cbn [ascending] in Sd.
  destruct (epoch_entries_read _ Se) as (We & Ce & Ie). destruct (device_entries_read _ Sd) as (Wd & Cd & Id).
  split; [|split; [done|]].
  - split; cbn; try done.
    + intros e k Hk%Ie. rewrite Forall_forall in Te. by apply Te.
    + intros d k Hk%Id. rewrite Forall_forall in Td. by apply Td.
  - match goal with R : reads _ ?l |- _ => assert (l = []) as -> by (eapply reads_exhausted; [exact R|congruence]) end.
    rewrite Henc, Ev. unfold credential_record. cbn [BVersion BAccountID BDeviceID BDeviceToken BSigningSeed
      BX25519Private BLocalDataKey BObjectIDKey BCurrentEpoch BEpochKeys BVerificationKeys].
    rewrite concat_epochs, concat_devices, We, Wd, Ce, Cd, app_nil_r.
    replace (len l1) with z by done. unfold len. rewrite Ne, Nd, !Z2Nat.id by lia. done.
Qed.

(** C31: the records the decoder accepts are exactly the encodings of the valid
    bundles: a text decodes to a bundle if and only if the bundle is well-typed
    and valid and the text is what the encoder writes for it.  So nothing but a
    canonical record is accepted, and two records of one bundle are equal; and
    no valid bundle is left out, for the encoder refuses none of them and stays
    within the size limit of the decoder. *)
Theorem credential_canonical (bundle : CredentialBundleV1) :
  (forall encoded, DecodeCredentialBundle encoded = Ok bundle <->
     bundle_typed bundle /\ Validate bundle = Ok tt /\ EncodeCredentialBundle bundle = Ok encoded) /\
  (bundle_typed bundle -> Validate bundle = Ok tt ->
     exists encoded, EncodeCredentialBundle bundle = Ok encoded /\ len encoded <= maxCredentialBlobBytes /\
       DecodeCredentialBundle encoded = Ok bundle).
Proof.
  split; [intros encoded; split|].
  - intros (Ht & Hv & ->)%DecodeCredentialBundle_inv. split; [done|]. split; [done|].
    by apply EncodeCredentialBundle_total.
  - intros (Ht & Hv & E). destruct (EncodeCredentialBundle_total _ Ht Hv) as [E' _].
    rewrite E in E'. injection E' as ->. by apply DecodeCredentialBundle_encoded.
  - intros Ht Hv. destruct (EncodeCredentialBundle_total _ Ht Hv) as [Henc Hlen].
    eexists. split; [done|]. split; [lia|]. by apply DecodeCredentialBundle_encoded.
Qed.

End roundtrip.

(** After [Zero] no secret is left, neither in the bundle nor in the buffer of
    the token; the public identifiers stay. *)
Lemma Zero_clears bundle :
  (Zero bundle).1 =
    mkBundle (BVersion bundle) (BAccountID bundle) (BDeviceID bundle) []
      (replicate (length (BSigningSeed bundle)) Byte.x00) (replicate (length (BX25519Private bundle)) Byte.x00)
      (replicate (length (BLocalDataKey bundle)) Byte.x00) (replicate (length (BObjectIDKey bundle)) Byte.x00)
      0 ∅ ∅ /\
  (Zero bundle).2 = replicate (length (BDeviceToken bundle)) Byte.x00.
Proof.
  assert (forall (K : Type) `(Countable K) (m : gmap K bytes),
    fold_left (fun keys k => delete k (<[k := zero_key]> keys)) (map fst (map_to_list m)) m = ∅) as Hempty.
  { intros K ? ? m. assert (forall ks (m' : gmap K bytes) k,
      fold_left (fun keys k => delete k (<[k := zero_key]> keys)) ks m' !! k =
        if decide (k ∈ ks) then None else m' !! k) as Hl.
    { induction ks as [|k0 ks IH]; intros m' k; cbn; [done|]. rewrite IH.
      destruct (decide (k ∈ ks)), (decide (k ∈ k0 :: ks)) as [Hin|Hin]; try done; [by destruct Hin; right| |].
      - apply elem_of_cons in Hin as [->|?]; [|done]. by rewrite lookup_delete_eq.
      - rewrite lookup_delete_ne, lookup_insert_ne; [done|..]; intros ->; apply Hin; by left. }
    apply map_eq. intros k. rewrite Hl, lookup_empty. case_decide as Hk; [done|].
    apply eq_None_not_Some. intros [v Hv]. apply Hk. apply list_elem_of_fmap. exists (k, v).
    split; [done|]. by apply elem_of_map_to_list. }
  unfold Zero. cbn [fst snd]. by rewrite !Hempty.
Qed.

(** ** An example *)

Section witnesses.
#[local] Existing Instance Sample.primitives.

Definition sample_bundle : CredentialBundleV1 :=
  let seed := replicate 32 Byte.x05 in
  let device := replicate 16 Byte.x02 in
  mkBundle 1 (replicate 16 Byte.x01) device (str "sample_device_token-0") seed
    (replicate 32 Byte.x06) (replicate 32 Byte.x07) (replicate 32 Byte.x08) 2
    {[ 2 := replicate 32 Byte.x0a; 1 := replicate 32 Byte.x09 ]}
    {[ replicate 16 Byte.x04 := replicate 32 Byte.x0b;
       device := ed25519_Public (NewKeyFromSeed seed) ]}.

Definition sample_record : bytes := Eval vm_compute in credential_record sample_bundle.

Lemma sample_bundle_typed : bundle_typed sample_bundle.
Proof.
  split; [reflexivity..| | |].
  - by split.
  - apply (map_Forall_insert_2 (fun e k => epoch_typed (e, k))); [by split; [split|]|].
    apply map_Forall_singleton. by split; [split|].
  - apply (map_Forall_insert_2 (fun d k => device_typed (d, k))); [split; reflexivity|].
    apply map_Forall_singleton. split; reflexivity.
Qed.

Lemma sample_bundle_valid : Validate sample_bundle = Ok tt.
Proof. vm_compute. reflexivity. Qed.

Lemma sample_record_decodes : DecodeCredentialBundle sample_record = Ok sample_bundle.
Proof. vm_compute. reflexivity. Qed.

Lemma credential_canonical_witness :
  EncodeCredentialBundle sample_bundle = Ok sample_record /\
  exists encoded, EncodeCredentialBundle sample_bundle = Ok encoded /\ len encoded <= maxCredentialBlobBytes /\
    DecodeCredentialBundle encoded = Ok sample_bundle.
Proof.
  destruct (credential_canonical sample_bundle) as [Hiff Hall]. split.
  - apply (Hiff sample_record), sample_record_decodes.
  - exact (Hall sample_bundle_typed sample_bundle_valid).
Defined.

End witnesses.
