(* ===== verification/Phrase.v ===== *)
(** * Phrases and their replicated state ([localstore/crdt_adapter.go])

    The conversions between the phrase record of the local store, the payload
    that is encrypted for other devices, and the CRDT state of the protocol:
    counter totals, migration of older records, payload validation, the merge
    of payloads and the sealing of an outbox event. *)

From S2P Require Import Prelude Encoding Unicode Crypto Envelope Crdt.

Record Phrase := mkPhrase {
  Text : bytes;
  Pinyin : bytes;
  Source : bytes;
  UseCount : Z;
  PPinned : bool;
  Deleted : bool;
  LastUsedDay : Z;
  CRDT : PhraseState
}.

Record PhrasePayload := mkPayload {
  PText : bytes; PPinyin : bytes; PSource : bytes; PLastUsedDay : Z; State : PhraseState
}.

#[export] Instance Phrase_eq_dec : EqDecision Phrase.
Proof. solve_decision. Defined.
#[export] Instance PhrasePayload_eq_dec : EqDecision PhrasePayload.
Proof. solve_decision. Defined.

(** The zero values of the types. *)
Definition zeroState : PhraseState :=
  mkPhraseState [] None (mkLWWBool false zeroHLC) (mkPresence false zeroHLC 0).

Definition zeroPhrase : Phrase := mkPhrase [] [] [] 0 false false 0 zeroState.

Definition set_crdt (phrase : Phrase) (state : PhraseState) : Phrase :=
  mkPhrase (Text phrase) (Pinyin phrase) (Source phrase) (UseCount phrase) (PPinned phrase)
    (Deleted phrase) (LastUsedDay phrase) state.

Definition set_counts (state : PhraseState) (counts : gmap bytes Z) : PhraseState :=
  mkPhraseState (ObjectID state) (Some counts) (Pinned state) (presence state).

Definition set_pinned (state : PhraseState) (pinned : LWWBool) : PhraseState :=
  mkPhraseState (ObjectID state) (Counts state) pinned (presence state).

Definition set_presence (state : PhraseState) (p : Presence) : PhraseState :=
  mkPhraseState (ObjectID state) (Counts state) (Pinned state) p.

Definition isZeroClock (clock : HLC) : bool :=
  (WallMillis clock =? 0) && (Counter clock =? 0) && bool_decide (Node clock = []).

(** A copy with a map of its own (an empty one when there was none). *)
Definition clonePhraseState (state : PhraseState) : PhraseState :=
  mkPhraseState (ObjectID state) (Some (default ∅ (Counts state))) (Pinned state) (presence state).

(** The loop over the counters, in some order. *)
Fixpoint totalCounts_loop (counts : list Z) (total : Z) : Z :=
  match counts with
  | [] => total
  | count :: rest =>
      if MaxUint64 - total <? count then MaxUint64 else totalCounts_loop rest (total + count)
  end.

Definition totalCounts (counts : counter_map) : Z :=
  totalCounts_loop (map snd (map_to_list (default ∅ counts))) 0.

Definition materializePhrase (phrase : Phrase) : Phrase :=
  mkPhrase (Text phrase) (Pinyin phrase) (Source phrase)
    (totalCounts (Counts (CRDT phrase))) (Value (Pinned (CRDT phrase)))
    (negb (Present (presence (CRDT phrase)))) (LastUsedDay phrase) (CRDT phrase).

Definition ensurePhraseState (phrase : Phrase) (objectID deviceID : bytes) (eventClock : HLC)
    : result Phrase :=
  let opaqueID := Hex.EncodeToString objectID in
  let! state :=
    if bool_decide (ObjectID (CRDT phrase) = []) then
      Ok (mkPhraseState opaqueID (Some ∅) (mkLWWBool (PPinned phrase) eventClock)
            (mkPresence (negb (Deleted phrase)) eventClock 1))
    else if negb (bool_decide (ObjectID (CRDT phrase) = opaqueID)) then
      fail "phrase CRDT object ID does not match encrypted record"
    else Ok (CRDT phrase) in
  let counts := default ∅ (Counts state) in
  let aggregate := totalCounts (Some counts) in
  let counts :=
    if aggregate <? UseCount phrase then
      <[deviceID := wrap_u64 (map_get counts deviceID + (UseCount phrase - aggregate))]> counts
    else counts in
  let p := presence state in
  let p := if Generation p =? 0 then mkPresence (negb (Deleted phrase)) (PClock p) 1 else p in
  let pinned :=
    if isZeroClock (Clock (Pinned state)) then mkLWWBool (PPinned phrase) eventClock else Pinned state in
  let p := if isZeroClock (PClock p) then mkPresence (Present p) eventClock (Generation p) else p in
  Ok (materializePhrase (set_crdt phrase (mkPhraseState (ObjectID state) (Some counts) pinned p))).

Definition chooseStableString (left right : bytes) : bytes :=
  if bool_decide (left = []) then right
  else if bool_decide (right = []) || negb (str_lt right left) then left
  else right.

Definition MergePhrasePayload (left right : PhrasePayload) : result PhrasePayload :=
  let! state := MergePhrase (State left) (State right) in
  let lastUsedDay :=
    if PLastUsedDay right >? PLastUsedDay left then PLastUsedDay right else PLastUsedDay left in
  Ok (mkPayload (chooseStableString (PText left) (PText right))
        (chooseStableString (PPinyin left) (PPinyin right))
        (chooseStableString (PSource left) (PSource right)) lastUsedDay state).

(** [hex.DecodeString] without its error: what it decodes up to the first pair
    that is not hexadecimal. *)
Fixpoint mustDecodeObjectID (encoded : bytes) : bytes :=
  match encoded with
  | h :: l :: rest =>
      match Hex.value h, Hex.value l with
      | Some a, Some b => byte_of_Z (16 * a + b) :: mustDecodeObjectID rest
      | _, _ => []
      end
  | _ => []
  end.

Record EnvelopeOptions := mkOptions {
  OAccountID : bytes; ODeviceID : bytes; OKeyEpoch : Z; ODeviceSeq : Z; OPreviousHash : bytes;
  OEpochKey : bytes; OSigningPrivate : bytes
}.

Record PendingEvent := mkPending {
  EID : Z; EVersion : Z; EObjectID : bytes; EPhrase : Phrase; EdeviceID : bytes; Esyncable : bool
}.

Definition ProtocolState (event : PendingEvent) : result PhraseState :=
  let wantID := Hex.EncodeToString (EObjectID event) in
  let state := CRDT (EPhrase event) in
  if negb (bool_decide (ObjectID state = wantID)) || (Generation (presence state) =? 0)
     || bool_decide (Counts state = None) then
    fail "outbox phrase has invalid CRDT metadata"
  else Ok (clonePhraseState state).

Definition ProtocolPayload (event : PendingEvent) : result PhrasePayload :=
  let! state := ProtocolState event in
  Ok (mkPayload (Text (EPhrase event)) (Pinyin (EPhrase event)) (Source (EPhrase event))
        (LastUsedDay (EPhrase event)) state).

Section payload.
Context `{P : Primitives} `{U : UnicodeTables} `{CH : Codec Header} `{CP : Codec PhrasePayload}.

Definition validSyncDeviceID (deviceID : bytes) : bool :=
  if negb (len deviceID =? 32) || negb (bool_decide (deviceID = Ascii.ToLower unicode_lower deviceID))
  then false
  else match Hex.DecodeString deviceID with Some decoded => len decoded =? 16 | None => false end.

Definition validatePayloadObject (payload : PhrasePayload) (idKey : bytes) : result bytes :=
  if bool_decide (TrimSpace (PText payload) = []) || bool_decide (TrimSpace (PPinyin payload) = []) then
    fail "phrase payload text and Pinyin are required"
  else
    let! objectID := OpaqueObjectID idKey (PText payload) (PPinyin payload) in
    if negb (bool_decide (ObjectID (State payload) = Hex.EncodeToString objectID))
       || (Generation (presence (State payload)) =? 0) then
      fail "phrase payload object ID or generation is invalid"
    else match Counts (State payload) with
    | None => fail "phrase payload counter is missing"
    | Some counts =>
        if negb (forallb (fun entry => validSyncDeviceID entry.1) (map_to_list counts)) then
          fail "phrase payload contains an invalid counter component"
        else if negb (validSyncDeviceID (Node (Clock (Pinned (State payload)))))
                || negb (validSyncDeviceID (Node (PClock (presence (State payload))))) then
          fail "phrase payload contains an invalid HLC node"
        else Ok objectID
    end.

Definition SealEnvelope (event : PendingEvent) (options : EnvelopeOptions) (random : bytes)
    : result (Envelope * bytes) :=
  if negb (Esyncable event) || negb (validSyncDeviceID (EdeviceID event)) then
    fail "store was not opened with OpenForDevice"
  else if negb (len (ODeviceID options) =? 16)
          || negb (bool_decide (Hex.EncodeToString (ODeviceID options) = EdeviceID event)) then
    fail "envelope device ID does not match the local CRDT component"
  else
    let! payload := ProtocolPayload event in
    if negb (bool_decide (EObjectID event = mustDecodeObjectID (ObjectID (State payload)))) then
      fail "outbox object ID changed during adaptation"
    else
      let header := mkHeader 0 (OAccountID options) (EObjectID event) (OKeyEpoch options)
                      (ODeviceID options) (ODeviceSeq options) (OPreviousHash options) [] in
      Seal (OEpochKey options) header payload (OSigningPrivate options) random.

End payload.

(** ** Counter totals *)

Definition zsum (l : list Z) : Z := fold_right Z.add 0 l.

Lemma zsum_app l l' : zsum (l ++ l') = zsum l + zsum l'.
Proof. induction l; simpl; lia. Qed.

#[export] Instance zsum_perm : Proper ((≡ₚ) ==> (=)) zsum.
Proof. induction 1; simpl; lia. Qed.

Lemma zsum_nonneg l : Forall in_u64 l -> 0 <= zsum l.
Proof. induction 1 as [|x l [H _]]; simpl; lia. Qed.

(** The loop saturates; what it returns does not depend on the order. *)
Lemma totalCounts_loop_spec l : forall total,
  Forall in_u64 l -> 0 <= total <= MaxUint64 ->
  totalCounts_loop l total = Z.min MaxUint64 (total + zsum l).
Proof.
  induction l as [|c l IH]; intros total Hl Ht; simpl; [lia|].
  apply Forall_cons in Hl as [Hc Hl]. pose proof (zsum_nonneg l Hl). unfold in_u64 in Hc.
  destruct (Z.ltb_spec (MaxUint64 - total) c); [lia|]. rewrite IH by (done || lia). lia.
Qed.

(** The sum of the counters of a map. *)
Definition counts_sum (counts : gmap bytes Z) : Z := zsum (map snd (map_to_list counts)).

Lemma counts_ok_list counts : counts_ok counts -> Forall in_u64 (map snd (map_to_list (default ∅ counts))).
Proof.
  intros H. rewrite Forall_map. apply Forall_forall. intros [d c] Hin.
  apply elem_of_map_to_list in Hin. by apply (H d).
Qed.

Lemma totalCounts_spec counts :
  counts_ok counts -> totalCounts counts = Z.min MaxUint64 (counts_sum (default ∅ counts)).
Proof.
  intros H. unfold totalCounts. rewrite totalCounts_loop_spec; [done|by apply counts_ok_list|].
  unfold MaxUint64. lia.
Qed.

Lemma counts_sum_insert_new d c m :
  m !! d = None -> counts_sum (<[d := c]> m) = c + counts_sum m.
Proof. intros H. unfold counts_sum. by rewrite map_to_list_insert. Qed.

Lemma counts_sum_insert d c m : counts_sum (<[d := c]> m) = c - map_get m d + counts_sum m.
Proof.
  unfold map_get. destruct (m !! d) as [v|] eqn:E; simpl.
  - rewrite <- insert_delete_eq, counts_sum_insert_new by apply lookup_delete_eq.
    assert (counts_sum m = v + counts_sum (delete d m)); [|lia].
    rewrite <- (insert_delete_id m d v) at 1 by done.
    by rewrite counts_sum_insert_new by apply lookup_delete_eq.
  - rewrite counts_sum_insert_new by done. lia.
Qed.

Lemma counts_sum_nonneg m : counts_ok (Some m) -> 0 <= counts_sum m.
Proof. intros H. by apply zsum_nonneg, (counts_ok_list (Some m)). Qed.

Lemma map_get_range m d : counts_ok (Some m) -> in_u64 (map_get m d).
Proof. apply (counts_ok_get (Some m)). Qed.

Lemma map_get_le_sum m d : counts_ok (Some m) -> map_get m d <= counts_sum m.
Proof.
  intros H. destruct (m !! d) as [v|] eqn:E.
  - unfold map_get. rewrite E. simpl.
    rewrite <- (insert_delete_id m d v) by done. rewrite counts_sum_insert_new by apply lookup_delete_eq.
    assert (0 <= counts_sum (delete d m)); [|lia].
    apply counts_sum_nonneg. intros k c Hk. simpl in Hk.
    apply lookup_delete_Some in Hk as [_ Hk]. by apply (H k).
  - unfold map_get. rewrite E. by apply counts_sum_nonneg.
Qed.

(** Raising one counter by the missing difference reaches the wanted total
    without leaving the range of the counter. *)
Lemma raise_counter m d want :
  counts_ok (Some m) -> in_u64 want -> totalCounts (Some m) < want ->
  let c := map_get m d + (want - totalCounts (Some m)) in
  in_u64 c /\ MaxUint64 - map_get m d >= want - totalCounts (Some m) /\
  totalCounts (Some (<[d := c]> m)) = want.
Proof.
  intros Hm. rewrite (totalCounts_spec (Some m)) by done. simpl default. intros Hw Hlt c.
  pose proof (counts_sum_nonneg m Hm). pose proof (map_get_le_sum m d Hm).
  pose proof (map_get_range m d Hm). unfold in_u64 in *.
  assert (in_u64 c) as Hc by (unfold in_u64, c; lia).
  split; [done|]. split; [lia|].
  rewrite totalCounts_spec by (by apply counts_ok_insert). simpl default.
  rewrite counts_sum_insert. unfold c. lia.
Qed.

Lemma totalCounts_range counts : counts_ok counts -> in_u64 (totalCounts counts).
Proof.
  intros H. rewrite totalCounts_spec by done.
  pose proof (zsum_nonneg _ (counts_ok_list counts H)). unfold in_u64, counts_sum, MaxUint64 in *. lia.
Qed.

(** ** Well-formed phrases

    What a record of the store looks like: its ranges, and the fields that are
    derived from the replicated state. *)

Record phrase_ok (objectID : bytes) (phrase : Phrase) : Prop := {
  ok_object : ObjectID (CRDT phrase) = Hex.EncodeToString objectID;
  ok_counts : exists m, Counts (CRDT phrase) = Some m /\ counts_ok (Some m);
  ok_generation : 1 <= Generation (presence (CRDT phrase)) <= MaxUint64;
  ok_use_count : UseCount phrase = totalCounts (Counts (CRDT phrase));
  ok_pinned : PPinned phrase = Value (Pinned (CRDT phrase));
  ok_deleted : Deleted phrase = negb (Present (presence (CRDT phrase)))
}.

(** The ranges of the Go types of an arbitrary phrase record. *)
Record phrase_ranges (phrase : Phrase) : Prop := {
  range_use_count : in_u64 (UseCount phrase);
  range_counts : counts_ok (Counts (CRDT phrase));
  range_generation : 0 <= Generation (presence (CRDT phrase)) <= MaxUint64
}.

Lemma phrase_ok_ranges oid phrase : phrase_ok oid phrase -> phrase_ranges phrase.
Proof.
  intros [Ho (m & Hc & Hm) Hg Hu _ _]. split.
  - rewrite Hu, Hc. by apply totalCounts_range.
  - by rewrite Hc.
  - lia.
Qed.

(** The counters a record starts from: none when it has no replicated state. *)
Definition base_counts (phrase : Phrase) : gmap bytes Z :=
  if bool_decide (ObjectID (CRDT phrase) = []) then ∅ else default ∅ (Counts (CRDT phrase)).

Lemma base_counts_ok phrase : phrase_ranges phrase -> counts_ok (Some (base_counts phrase)).
Proof.
  intros [_ H _]. unfold base_counts. case_bool_decide; [apply counts_ok_empty|exact H].
Qed.

Lemma ensurePhraseState_counts phrase objectID deviceID clock p' :
  phrase_ranges phrase -> ensurePhraseState phrase objectID deviceID clock = Ok p' ->
  exists m, Counts (CRDT p') = Some m /\ counts_ok (Some m) /\
    totalCounts (Some m) = Z.max (totalCounts (Some (base_counts phrase))) (UseCount phrase) /\
    (forall d, map_get (base_counts phrase) d <= map_get m d) /\
    (forall d, d <> deviceID -> map_get m d = map_get (base_counts phrase) d).
Proof.
  intros Hr H. pose proof (base_counts_ok phrase Hr) as Hb.
  unfold ensurePhraseState in H. invert_ok. rename a into state.
  assert (default ∅ (Counts state) = base_counts phrase) as Hd.
  { unfold base_counts. case_bool_decide; [by injection Hok as <-|].
    destruct (negb _); [done|]. by injection Hok as <-. }
  rewrite Hd. cbn [materializePhrase set_crdt CRDT Counts].
  destruct (Z.ltb_spec (totalCounts (Some (base_counts phrase))) (UseCount phrase)) as [Hlt|Hge].
  - destruct (raise_counter _ deviceID _ Hb (range_use_count _ Hr) Hlt) as (Hc & _ & Ht).
    rewrite wrap_u64_id by done. eexists. split; [done|].
    split_and!; [by apply counts_ok_insert|rewrite Ht; lia| |].
    + intros d. rewrite map_get_insert. destruct (decide (deviceID = d)) as [<-|]; lia.
    + intros d Hne. rewrite map_get_insert. by rewrite decide_False.
  - exists (base_counts phrase). split_and!; try done; intros; lia.
Qed.

Lemma ensurePhraseState_ok phrase objectID deviceID clock p' :
  phrase_ranges phrase -> ensurePhraseState phrase objectID deviceID clock = Ok p' ->
  phrase_ok objectID p'.
Proof.
  intros Hr H. destruct (ensurePhraseState_counts _ _ _ _ _ Hr H) as (m & Hm & Hok' & _).
  unfold ensurePhraseState in H. invert_ok. rename a into state.
  assert (ObjectID state = Hex.EncodeToString objectID) as Ho.
  { destruct (bool_decide (ObjectID (CRDT phrase) = [])); [by injection Hok as <-|].
    destruct (negb _) eqn:E; [done|]. bools. injection Hok as <-. done. }
  assert (0 <= Generation (presence state) <= MaxUint64) as Hg.
  { destruct (bool_decide (ObjectID (CRDT phrase) = [])); [injection Hok as <-; unfold MaxUint64; simpl; lia|].
    destruct (negb _) eqn:E; [done|]. injection Hok as <-. apply Hr. }
  split; [done|by exists m| |done..].
  cbn [materializePhrase set_crdt CRDT presence].
  assert (MaxUint64 = 18446744073709551615) by done.
  repeat case_match; cbn [Generation]; bools; lia.
Qed.

Lemma ensurePhraseState_total phrase objectID deviceID clock :
  (ObjectID (CRDT phrase) = [] \/ ObjectID (CRDT phrase) = Hex.EncodeToString objectID) ->
  exists p', ensurePhraseState phrase objectID deviceID clock = Ok p'.
Proof.
  intros H. unfold ensurePhraseState. case_bool_decide as E; simpl; [eauto|].
  destruct H as [?|H]; [done|]. rewrite bool_decide_eq_true_2 by done. simpl. eauto.
Qed.

(** ** Merging payloads *)

(** The order in which [chooseStableString] takes the greater value: the empty
    string is least, otherwise the smaller string is greater. *)
Definition stable_compare (a b : bytes) : comparison :=
  match a, b with
  | [], [] => Eq
  | [], _ :: _ => Lt
  | _ :: _, [] => Gt
  | _, _ => bytes_compare b a
  end.

#[export] Instance stable_compare_total : TotalCompare stable_compare.
Proof.
  split.
  - intros [|x a] [|y b]; unfold stable_compare; try done.
    rewrite (cmp_eq_iff bytes_compare (y :: b) (x :: a)). done.
  - intros [|x a] [|y b]; unfold stable_compare; try done. apply (cmp_antisym bytes_compare).
  - intros [|x a] [|y b] [|z c]; unfold stable_compare; try done. intros H1 H2.
    by eapply (cmp_lt_trans bytes_compare).
Qed.

Lemma chooseStableString_max left right :
  chooseStableString left right = cmp_max stable_compare left right.
Proof.
  unfold chooseStableString, cmp_max, str_lt. destruct left as [|x l]; [by destruct right|].
  destruct right as [|y r]; [done|]. unfold stable_compare.
  rewrite !bool_decide_eq_false_2 by done. by destruct (bytes_compare (y :: r) (x :: l)).
Qed.

Lemma chooseStableString_either left right :
  chooseStableString left right = left \/ chooseStableString left right = right.
Proof. unfold chooseStableString. repeat case_match; auto. Qed.

#[export] Instance payload_equiv : Equiv PhrasePayload := fun a b =>
  PText a = PText b /\ PPinyin a = PPinyin b /\ PSource a = PSource b /\
  PLastUsedDay a = PLastUsedDay b /\ State a ≡ State b.

Lemma MergePhrasePayload_total oid a b :
  oid <> [] -> same_object oid (State a) -> same_object oid (State b) ->
  exists m, MergePhrasePayload a b = Ok m /\ MergePhrase (State a) (State b) = Ok (State m) /\
    same_object oid (State m) /\
    PText m = cmp_max stable_compare (PText a) (PText b) /\
    PPinyin m = cmp_max stable_compare (PPinyin a) (PPinyin b) /\
    PSource m = cmp_max stable_compare (PSource a) (PSource b) /\
    PLastUsedDay m = Z.max (PLastUsedDay a) (PLastUsedDay b).
Proof.
  intros Hne Ha Hb. unfold MergePhrasePayload.
  destruct (MergePhrase_total oid _ _ Hne Ha Hb) as (s & -> & Hs & _). simpl.
  rewrite <- !chooseStableString_max. eexists. split; [done|]. split_and!; try done; [apply Hs..|].
  cbn. destruct (Z.gtb_spec (PLastUsedDay b) (PLastUsedDay a)); lia.
Qed.

Lemma MergePhrase_state oid a b m :
  oid <> [] -> same_object oid a -> same_object oid b -> MergePhrase a b = Ok m ->
  same_object oid m /\
  (forall d, counts_get (Counts m) d = Z.max (counts_get (Counts a) d) (counts_get (Counts b) d)) /\
  Pinned m = cmp_max lww_compare (Pinned a) (Pinned b) /\
  presence m = cmp_max presence_compare (presence a) (presence b).
Proof.
  intros Hne Ha Hb Hm. destruct (MergePhrase_total oid a b Hne Ha Hb) as (m' & Hm' & Ho & Hc & Hp & Hr).
  assert (m' = m) as -> by congruence.
  by rewrite Hp, Hr, chooseBool_max, choosePresence_max.
Qed.

(** C11: merging phrase payloads (content metadata and replicated state) is
    commutative, associative and idempotent on the payloads of one object, and
    never fails there: devices agree whatever the order of their merges. *)
Theorem MergePhrasePayload_semilattice (oid : bytes) (a b c : PhrasePayload) :
  oid <> [] -> same_object oid (State a) -> same_object oid (State b) -> same_object oid (State c) ->
  MergePhrasePayload a b ≡ MergePhrasePayload b a /\
  (let! ab := MergePhrasePayload a b in MergePhrasePayload ab c)
    ≡ (let! bc := MergePhrasePayload b c in MergePhrasePayload a bc) /\
  MergePhrasePayload a a ≡ Ok a.
Proof.
  intros Hne Ha Hb Hc.
  assert (forall x y, same_object oid (State x) -> same_object oid (State y) ->
    exists m, MergePhrasePayload x y = Ok m /\ same_object oid (State m) /\
      PText m = cmp_max stable_compare (PText x) (PText y) /\
      PPinyin m = cmp_max stable_compare (PPinyin x) (PPinyin y) /\
      PSource m = cmp_max stable_compare (PSource x) (PSource y) /\
      PLastUsedDay m = Z.max (PLastUsedDay x) (PLastUsedDay y) /\
      (forall d, counts_get (Counts (State m)) d =
         Z.max (counts_get (Counts (State x)) d) (counts_get (Counts (State y)) d)) /\
      Pinned (State m) = cmp_max lww_compare (Pinned (State x)) (Pinned (State y)) /\
      presence (State m) = cmp_max presence_compare (presence (State x)) (presence (State y))) as Htot.
  { intros x y Hx Hy. destruct (MergePhrasePayload_total oid x y Hne Hx Hy) as (m & Hm & Hs & Ho & ?).
    destruct (MergePhrase_state oid _ _ _ Hne Hx Hy Hs) as (_ & ?). exists m. tauto. }
  destruct (Htot a b Ha Hb) as (ab & -> & Oab & T1 & P1 & S1 & D1 & C1 & B1 & R1).
  destruct (Htot b a Hb Ha) as (ba & -> & Oba & T2 & P2 & S2 & D2 & C2 & B2 & R2).
  destruct (Htot b c Hb Hc) as (bc & -> & Obc & T3 & P3 & S3 & D3 & C3 & B3 & R3). cbn [rbind].
  destruct (Htot ab c Oab Hc) as (x & -> & Ox & T4 & P4 & S4 & D4 & C4 & B4 & R4).
  destruct (Htot a bc Ha Obc) as (y & -> & Oy & T5 & P5 & S5 & D5 & C5 & B5 & R5).
  destruct (Htot a a Ha Ha) as (z & -> & Oz & T6 & P6 & S6 & D6 & C6 & B6 & R6).
  split; [|split].
  - split_and!; [rewrite T1, T2|rewrite P1, P2|rewrite S1, S2|rewrite D1, D2; lia|];
      [apply cmp_max_comm; apply _..|].
    split_and!; [by rewrite (proj1 Oab), (proj1 Oba)|intros d; rewrite C1, C2; lia|rewrite B1, B2|rewrite R1, R2];
      apply cmp_max_comm; apply _.
  - split_and!; [rewrite T4, T5, T1, T3|rewrite P4, P5, P1, P3|rewrite S4, S5, S1, S3|rewrite D4, D5, D1, D3; lia|];
      [symmetry; apply cmp_max_assoc; apply _..|].
    split_and!; [by rewrite (proj1 Ox), (proj1 Oy)|intros d; rewrite C4, C5, C1, C3; lia
      |rewrite B4, B5, B1, B3|rewrite R4, R5, R1, R3]; symmetry; apply cmp_max_assoc; apply _.
  - split_and!; [rewrite T6|rewrite P6|rewrite S6|rewrite D6; lia|]; [apply cmp_max_idem; apply _..|].
    split_and!; [by rewrite (proj1 Oz), (proj1 Ha)|intros d; rewrite C6; lia|rewrite B6|rewrite R6];
      apply cmp_max_idem; apply _.
Qed.

(** ** Payload validation *)

Section validation.
Context `{U : UnicodeTables}.

Lemma validSyncDeviceID_spec d :
  validSyncDeviceID d = true <-> exists id, len id = 16 /\ d = Hex.EncodeToString id.
Proof.
  unfold validSyncDeviceID. split.
  - intros H. destruct (negb _ || negb _) eqn:E; [done|]. bools.
    destruct (Hex.DecodeString d) as [id|] eqn:Ed; [|done]. bools. exists id. split; [done|].
    symmetry. apply hex_encode_decode; [done|].
    rewrite <- (hex_lower_unicode unicode_lower) by eauto. by apply bool_decide_eq_true_2.
  - intros (id & Hl & ->). rewrite hex_lower_unicode by (rewrite hex_decode_encode; eauto).
    rewrite hex_encode_lower, len_hex_encode, hex_decode_encode, Hl. done.
Qed.

(** The identifiers a payload must carry. *)
Definition devices_valid (s : PhraseState) : Prop :=
  (exists counts, Counts s = Some counts /\
     forall d, is_Some (counts !! d) -> validSyncDeviceID d = true) /\
  validSyncDeviceID (Node (Clock (Pinned s))) = true /\
  validSyncDeviceID (Node (PClock (presence s))) = true.

Lemma validatePayloadObject_Ok payload idKey oid :
  validatePayloadObject payload idKey = Ok oid <->
  TrimSpace (PText payload) <> [] /\ TrimSpace (PPinyin payload) <> [] /\
  OpaqueObjectID idKey (PText payload) (PPinyin payload) = Ok oid /\
  ObjectID (State payload) = Hex.EncodeToString oid /\
  Generation (presence (State payload)) <> 0 /\ devices_valid (State payload).
Proof.
  unfold validatePayloadObject, devices_valid. split.
  - intros H. invert_ok. bools. destruct (Counts (State payload)) as [counts|]; [|done].
    invert_ok. bools. split_and!; try done.
    exists counts. split; [done|]. intros d [c Hd].
    match goal with H : forallb _ _ = true |- _ => rewrite forallb_forall in H; apply (H (d, c)) end.
    apply list_elem_of_In. by apply elem_of_map_to_list.
  - intros (Ht & Hp & Ho & Hid & Hg & (counts & Hc & Hd) & Hn1 & Hn2).
    rewrite !bool_decide_eq_false_2, Ho, Hc by done. cbn [orb rbind].
    rewrite bool_decide_eq_true_2, (proj2 (Z.eqb_neq _ _)) by done. cbn [negb orb].
    rewrite Hn1, Hn2, (proj2 (forallb_forall _ _)); [done|].
    intros [d c] Hin. apply list_elem_of_In, elem_of_map_to_list in Hin. apply Hd. eauto.
Qed.

Lemma OpaqueObjectID_Ok idKey phrase pinyin oid :
  OpaqueObjectID idKey phrase pinyin = Ok oid <->
  len idKey = 32 /\ CanonicalPhrase phrase <> [] /\ CanonicalPinyin pinyin <> [] /\
  oid = take 16 (Sha256.HMAC idKey (CanonicalPhrase phrase ++ [Byte.x00] ++ CanonicalPinyin pinyin)).
Proof.
  unfold OpaqueObjectID. split.
  - intros H. invert_ok. bools. done.
  - intros (Hk & Hp & Hy & ->). rewrite Hk. cbn [Z.eqb negb].
    by rewrite !bool_decide_eq_false_2 by done.
Qed.

Lemma OpaqueObjectID_len idKey phrase pinyin oid :
  OpaqueObjectID idKey phrase pinyin = Ok oid -> len oid = 16.
Proof.
  intros (_ & _ & _ & ->)%OpaqueObjectID_Ok.
  match goal with |- len (take 16 ?h) = _ => assert (len h = 32) as Hh by apply Sha256.len_HMAC end.
  unfold len in *. rewrite length_take. lia.
Qed.

(** A merged counter map has no device that neither side has. *)
Lemma merge_counts_dom left right d :
  is_Some (merge_counts left right !! d) ->
  is_Some (default ∅ left !! d) \/ is_Some (default ∅ right !! d).
Proof.
  unfold merge_counts, merge_counts_loop. intros H.
  assert (forall entries acc, is_Some (fold_left merge_count entries acc !! d) ->
    is_Some (acc !! d) \/ d ∈ entries.*1) as Hf.
  { induction entries as [|[e c] entries IH]; intros acc Hs; [by left|]. simpl in Hs |- *.
    destruct (IH _ Hs) as [Ha|Ha]; [|right; by right].
    unfold merge_count in Ha. destruct (c >? map_get acc e); [|by left].
    rewrite lookup_insert in Ha. case_decide; [subst; right; by left|by left]. }
  destruct (Hf _ _ H) as [Ha|Ha]; [by left|right].
  apply list_elem_of_fmap in Ha as ([d' c] & -> & Hin). apply elem_of_map_to_list in Hin. eauto.
Qed.

Lemma chooseBool_either left right : chooseBool left right = left \/ chooseBool left right = right.
Proof. unfold chooseBool. repeat case_match; auto. Qed.

Lemma choosePresence_either left right :
  choosePresence left right = left \/ choosePresence left right = right.
Proof. unfold choosePresence. repeat case_match; auto. Qed.

Lemma merge_devices_valid a b m :
  devices_valid a -> devices_valid b -> MergePhrase a b = Ok m -> devices_valid m.
Proof.
  intros ((ca & Ea & Ha) & Hpa & Hra) ((cb & Eb & Hb) & Hpb & Hrb) H.
  unfold MergePhrase in H. invert_ok. unfold devices_valid. cbn. split_and!.
  - eexists. split; [done|]. intros d Hd%merge_counts_dom. rewrite Ea, Eb in Hd. simpl in Hd.
    destruct Hd; auto.
  - by destruct (chooseBool_either (Pinned a) (Pinned b)) as [-> | ->].
  - by destruct (choosePresence_either (presence a) (presence b)) as [-> | ->].
Qed.

(** Merging two accepted payloads that spell the same phrase gives a
    payload that validation accepts again under the same object identifier, so
    the second check of [MergeRemotePayload] cannot fail after the first one. *)
Theorem merged_payload_valid (idKey oid : bytes) (a b m : PhrasePayload) :
  validatePayloadObject a idKey = Ok oid -> validatePayloadObject b idKey = Ok oid ->
  CanonicalPhrase (PText a) = CanonicalPhrase (PText b) ->
  CanonicalPinyin (PPinyin a) = CanonicalPinyin (PPinyin b) ->
  MergePhrasePayload a b = Ok m -> validatePayloadObject m idKey = Ok oid.
Proof.
  intros (Ta & Pa & Oa & Ia & Ga & Da)%validatePayloadObject_Ok
    (Tb & Pb & Ob & Ib & Gb & Db)%validatePayloadObject_Ok Ht Hp H.
  apply validatePayloadObject_Ok. unfold MergePhrasePayload in H. invert_ok. cbn.
  pose proof (merge_devices_valid _ _ _ Da Db Hok) as Dm.
  assert (CanonicalPhrase (chooseStableString (PText a) (PText b)) = CanonicalPhrase (PText a)) as Et
    by (destruct (chooseStableString_either (PText a) (PText b)) as [-> | ->]; done).
  assert (CanonicalPinyin (chooseStableString (PPinyin a) (PPinyin b)) = CanonicalPinyin (PPinyin a)) as Ep
    by (destruct (chooseStableString_either (PPinyin a) (PPinyin b)) as [-> | ->]; done).
  split_and!; [..|done].
  - destruct (chooseStableString_either (PText a) (PText b)) as [-> | ->]; done.
  - destruct (chooseStableString_either (PPinyin a) (PPinyin b)) as [-> | ->]; done.
  - apply OpaqueObjectID_Ok. apply OpaqueObjectID_Ok in Oa. by rewrite Et, Ep.
  - by apply MergePhrase_Ok in Hok as (_ & _ & ->).
  - unfold MergePhrase in Hok. invert_ok. cbn.
    by destruct (choosePresence_either (presence (State a)) (presence (State b))) as [-> | ->].
Qed.

End validation.

(** ** From an outbox event to another device *)

Section delivery.
Context `{P : Primitives} {PL : PrimitiveLaws P} `{U : UnicodeTables}.
Context `{CH : Codec Header} {CHL : CodecLaws Header CH} {CHT : TotalCodec Header CH}.
Context `{CP : Codec PhrasePayload} {CPL : CodecLaws PhrasePayload CP}.

(** The payload an event carries. *)
Definition event_payload (event : PendingEvent) : PhrasePayload :=
  mkPayload (Text (EPhrase event)) (Pinyin (EPhrase event)) (Source (EPhrase event))
    (LastUsedDay (EPhrase event)) (clonePhraseState (CRDT (EPhrase event))).

Lemma SealEnvelope_Ok event options random env rest :
  SealEnvelope event options random = Ok (env, rest) ->
  Hex.EncodeToString (ODeviceID options) = EdeviceID event /\
  Counts (CRDT (EPhrase event)) <> None /\
  Seal (OEpochKey options)
    (mkHeader 0 (OAccountID options) (EObjectID event) (OKeyEpoch options) (ODeviceID options)
       (ODeviceSeq options) (OPreviousHash options) [])
    (event_payload event) (OSigningPrivate options) random = Ok (env, rest).
Proof.
  unfold SealEnvelope, ProtocolPayload, ProtocolState. intros H. invert_ok. bools. done.
Qed.

Lemma delivered_payload event options seed random env rest :
  len seed = SeedSize -> OSigningPrivate options = NewKeyFromSeed seed ->
  encodable (event_payload event) = true -> SealEnvelope event options random = Ok (env, rest) ->
  Open (OEpochKey options) env (ed25519_Public (NewKeyFromSeed seed)) = Ok (event_payload event).
Proof.
  intros Hs Hk He (_ & _ & H)%SealEnvelope_Ok. rewrite Hk in H. by eapply Open_sealed.
Qed.

(** An event whose phrase has its own object identifier and only valid
    device identifiers reaches another device intact: the envelope it is sealed
    into opens to the event's content and state, and that payload is accepted
    by the receiver's validation under the event's object identifier. *)
Theorem sealed_event_accepted (event : PendingEvent) (options : EnvelopeOptions)
    (seed random idKey : bytes) (env : Envelope) (rest : bytes) :
  len seed = SeedSize -> OSigningPrivate options = NewKeyFromSeed seed ->
  encodable (event_payload event) = true ->
  OpaqueObjectID idKey (Text (EPhrase event)) (Pinyin (EPhrase event)) = Ok (EObjectID event) ->
  TrimSpace (Text (EPhrase event)) <> [] -> TrimSpace (Pinyin (EPhrase event)) <> [] ->
  phrase_ok (EObjectID event) (EPhrase event) -> devices_valid (CRDT (EPhrase event)) ->
  SealEnvelope event options random = Ok (env, rest) ->
  exists payload,
    Open (OEpochKey options) env (ed25519_Public (NewKeyFromSeed seed)) = Ok payload /\
    validatePayloadObject payload idKey = Ok (EObjectID event) /\ payload = event_payload event.
Proof.
  intros Hs Hk He Ho Ht Hp [Hob (m & Hm & _) Hg _ _ _] ((counts & Hc & Hd) & Hn) H.
  exists (event_payload event). split; [by eapply delivered_payload|]. split; [|done].
  apply validatePayloadObject_Ok. unfold devices_valid. cbn. rewrite Hc in *. cbn.
  split_and!; try done; [lia|eauto|apply Hn|apply Hn].
Qed.

(** An event that has a counter under the name a store without a device
    identifier uses ("local-only") is still sealed, but no device accepts the
    payload it carries, whatever its key. *)
Theorem local_only_event_rejected (event : PendingEvent) (options : EnvelopeOptions)
    (seed random : bytes) (env : Envelope) (rest : bytes) (counts : gmap bytes Z) :
  len seed = SeedSize -> OSigningPrivate options = NewKeyFromSeed seed ->
  encodable (event_payload event) = true ->
  Counts (CRDT (EPhrase event)) = Some counts -> is_Some (counts !! str "local-only") ->
  SealEnvelope event options random = Ok (env, rest) ->
  exists payload,
    Open (OEpochKey options) env (ed25519_Public (NewKeyFromSeed seed)) = Ok payload /\
    forall idKey, is_Ok (validatePayloadObject payload idKey) = false.
Proof.
  intros Hs Hk He Hc Hl H. exists (event_payload event). split; [by eapply delivered_payload|].
  intros idKey. destruct (validatePayloadObject _ idKey) as [oid|] eqn:E; [|done].
  apply validatePayloadObject_Ok in E as (_ & _ & _ & _ & _ & (c & Ec & Hd) & _).
  cbn in Ec. rewrite Hc in Ec. injection Ec as <-.
  apply Hd, validSyncDeviceID_spec in Hl as (id & Hlen & E).
  apply (f_equal len) in E. rewrite len_hex_encode, Hlen in E. done.
Qed.

End delivery.

(** The aggregate use count of a phrase is the sum of the devices' counters,
    cut off at the largest 64-bit value, whatever the order in which the map is
    enumerated. *)
Theorem totalCounts_any_order (counts : gmap bytes Z) (entries : list (bytes * Z)) :
  counts_ok (Some counts) -> entries ≡ₚ map_to_list counts ->
  totalCounts_loop (map snd entries) 0 = totalCounts (Some counts) /\
  totalCounts (Some counts) = Z.min MaxUint64 (counts_sum counts).
Proof.
  intros Hm Hp. pose proof (totalCounts_spec (Some counts) Hm) as Ht. split; [|done].
  rewrite Ht. pose proof (counts_ok_list _ Hm) as Hf. simpl default in *.
  assert (map snd entries ≡ₚ map snd (map_to_list counts)) as Hp2 by (by rewrite Hp).
  rewrite totalCounts_loop_spec; [|by rewrite Hp2|unfold MaxUint64; lia].
  unfold counts_sum. by rewrite Hp2.
Qed.

(** Migrating a phrase record loses no count and overflows nothing: the
    result is well formed for its object, its use count is the greater of the
    recorded aggregate and the sum of its counters, no device's counter
    decreases, and only the counter of the migrating device can change. *)
Theorem ensurePhraseState_preserves_count (phrase : Phrase) (objectID deviceID : bytes) (clock : HLC)
    (p' : Phrase) :
  phrase_ranges phrase -> ensurePhraseState phrase objectID deviceID clock = Ok p' ->
  phrase_ok objectID p' /\
  UseCount p' = Z.max (totalCounts (Some (base_counts phrase))) (UseCount phrase) /\
  exists m, Counts (CRDT p') = Some m /\
    (forall d, map_get (base_counts phrase) d <= map_get m d) /\
    (forall d, d <> deviceID -> map_get m d = map_get (base_counts phrase) d).
Proof.
  intros Hr H. pose proof (ensurePhraseState_ok _ _ _ _ _ Hr H) as Hok.
  destruct (ensurePhraseState_counts _ _ _ _ _ Hr H) as (m & Hm & _ & Ht & Hle & Heq).
  split; [done|]. split; [|eauto]. rewrite (ok_use_count _ _ Hok), Hm. done.
Qed.

(** ** Witnesses *)

#[export] Instance HLC_countable : Countable HLC.
Proof.
  refine (inj_countable' (fun c => (WallMillis c, Counter c, Node c)) (fun '(w, c, n) => mkHLC w c n) _).
  by intros [].
Defined.

#[export] Instance PhraseState_countable : Countable PhraseState.
Proof.
  refine (inj_countable'
    (fun s => (ObjectID s, Counts s, Value (Pinned s), Clock (Pinned s),
               Present (presence s), PClock (presence s), Generation (presence s)))
    (fun '(o, c, v, k, p, q, g) => mkPhraseState o c (mkLWWBool v k) (mkPresence p q g)) _).
  by intros [? ? [] []].
Defined.

#[export] Instance PhrasePayload_countable : Countable PhrasePayload.
Proof.
  refine (inj_countable' (fun p => (PText p, PPinyin p, PSource p, PLastUsedDay p, State p))
    (fun '(t, y, s, d, st) => mkPayload t y s d st) _).
  by intros [].
Defined.

#[export] Instance Phrase_countable : Countable Phrase.
Proof.
  refine (inj_countable'
    (fun p => (Text p, Pinyin p, Source p, UseCount p, PPinned p, Deleted p, LastUsedDay p, CRDT p))
    (fun '(t, y, s, u, p, d, l, c) => mkPhrase t y s u p d l c) _).
  by intros [].
Defined.

Lemma MergePhrasePayload_semilattice_witness :
  let a := mkPayload (str "x") (str "ni") (str "manual") 3 (sample_state (str "a") 3 true 5) in
  let b := mkPayload (str "y") (str "Ni") [] 4 (sample_state (str "b") 7 false 9) in
  MergePhrasePayload a b ≡ MergePhrasePayload b a /\
  (let! ab := MergePhrasePayload a b in MergePhrasePayload ab a)
    ≡ (let! bc := MergePhrasePayload b a in MergePhrasePayload a bc) /\
  MergePhrasePayload a a ≡ Ok a.
Proof.
  intros a b. apply (MergePhrasePayload_semilattice (str "o")); [done|..];
    apply sample_state_ok; by apply in_u64_small.
Defined.

Lemma ensurePhraseState_preserves_count_witness :
  exists p', ensurePhraseState (mkPhrase (str "x") (str "ni") (str "old") 7 true false 3 zeroState)
               (replicate 16 Byte.x01) (str "d") (mkHLC 9 0 (str "d")) = Ok p' /\
    phrase_ok (replicate 16 Byte.x01) p' /\ UseCount p' = 7.
Proof.
  eexists. split; [reflexivity|].
  destruct (ensurePhraseState_preserves_count
    (mkPhrase (str "x") (str "ni") (str "old") 7 true false 3 zeroState)
    (replicate 16 Byte.x01) (str "d") (mkHLC 9 0 (str "d")) _
    (Build_phrase_ranges (mkPhrase (str "x") (str "ni") (str "old") 7 true false 3 zeroState)
       (in_u64_small 7 eq_refl) counts_ok_empty (in_u64_small 0 eq_refl)) eq_refl) as (H1 & H2 & _).
  split; [exact H1|]. exact H2.
Defined.

Section witnesses.
#[local] Existing Instance Sample.primitives.
#[local] Existing Instance Sample.primitive_laws.
#[local] Existing Instance ascii_tables.
#[local] Existing Instance header_codec.
#[local] Existing Instance header_codec_laws.
#[local] Existing Instance header_codec_total.
#[local] Instance payload_codec : Codec PhrasePayload := Sample.codec PhrasePayload.
#[local] Instance payload_codec_laws : CodecLaws PhrasePayload payload_codec :=
  Sample.codec_laws PhrasePayload.

Definition sample_id_key : bytes := replicate 32 Byte.x0a.
Definition sample_device : bytes := replicate 16 Byte.x03.

(** The identifier of the phrase "x" spelled "ni" under the sample key. *)
Definition sample_oid : bytes :=
  Eval vm_compute in
    match OpaqueObjectID sample_id_key (str "x") (str "ni") with Ok oid => oid | Err _ => [] end.

Lemma sample_oid_ok : OpaqueObjectID sample_id_key (str "x") (str "ni") = Ok sample_oid.
Proof. vm_compute. reflexivity. Qed.

(** A phrase counted once by a device of the given name. *)
Definition counted_phrase (device : bytes) : Phrase :=
  mkPhrase (str "x") (str "ni") (str "manual") 1 false false 0
    (mkPhraseState (Hex.EncodeToString sample_oid) (Some (<[device := 1]> ∅))
       (mkLWWBool false (mkHLC 5 0 device)) (mkPresence true (mkHLC 5 0 device) 1)).

Definition counted_event (device : bytes) : PendingEvent :=
  mkPending 1 1 sample_oid (counted_phrase device) (Hex.EncodeToString sample_device) true.

Definition sample_options : EnvelopeOptions :=
  mkOptions (replicate 16 Byte.x01) sample_device 1 1 [] sample_key (NewKeyFromSeed sample_seed).

Definition event_env (event : PendingEvent) : Envelope :=
  match SealEnvelope event sample_options sample_source with
  | Ok (env, _) => env | Err _ => mkEnvelope sample_header [] [] end.

Definition event_rest (event : PendingEvent) : bytes :=
  match SealEnvelope event sample_options sample_source with Ok (_, rest) => rest | Err _ => [] end.

Lemma counted_sealed device :
  is_Ok (SealEnvelope (counted_event device) sample_options sample_source) = true ->
  SealEnvelope (counted_event device) sample_options sample_source =
    Ok (event_env (counted_event device), event_rest (counted_event device)).
Proof. unfold event_env, event_rest. by destruct (SealEnvelope _ _ _) as [[]|]. Qed.

Lemma counted_phrase_ok device : phrase_ok sample_oid (counted_phrase device).
Proof.
  assert (counts_ok (Some (<[device := 1]> ∅))) as Hc
    by (apply counts_ok_insert; [by apply in_u64_small|apply counts_ok_empty]).
  split; [done|by eexists|done| |done|done].
  change (1 = totalCounts (Some (<[device := 1]> ∅))).
  rewrite totalCounts_spec by done. simpl default. by rewrite counts_sum_insert.
Qed.

Lemma counted_devices_valid device :
  validSyncDeviceID device = true -> devices_valid (CRDT (counted_phrase device)).
Proof.
  intros H. unfold devices_valid. cbn. split_and!; [|done..]. eexists. split; [done|].
  intros d [c Hd]. apply lookup_insert_Some in Hd as [[<- _]|[_ Hd]]; [done|].
  by rewrite lookup_empty in Hd.
Qed.

Lemma sealed_event_accepted_witness :
  exists payload,
    Open sample_key (event_env (counted_event (Hex.EncodeToString sample_device)))
      (ed25519_Public (NewKeyFromSeed sample_seed)) = Ok payload /\
    validatePayloadObject payload sample_id_key = Ok sample_oid /\
    payload = event_payload (counted_event (Hex.EncodeToString sample_device)).
Proof.
  apply (sealed_event_accepted (counted_event (Hex.EncodeToString sample_device)) sample_options
           sample_seed sample_source sample_id_key _
           (event_rest (counted_event (Hex.EncodeToString sample_device)))).
  - reflexivity.
  - reflexivity.
  - reflexivity.
  - exact sample_oid_ok.
  - vm_compute. discriminate.
  - vm_compute. discriminate.
  - apply counted_phrase_ok.
  - apply counted_devices_valid. vm_compute. reflexivity.
  - apply counted_sealed. vm_compute. reflexivity.
Defined.

Lemma local_only_event_rejected_witness :
  exists payload,
    Open sample_key (event_env (counted_event (str "local-only")))
      (ed25519_Public (NewKeyFromSeed sample_seed)) = Ok payload /\
    forall idKey, is_Ok (validatePayloadObject payload idKey) = false.
Proof.
  apply (local_only_event_rejected (counted_event (str "local-only")) sample_options sample_seed
           sample_source _ (event_rest (counted_event (str "local-only"))) (<[str "local-only" := 1]> ∅)).
  - reflexivity.
  - reflexivity.
  - reflexivity.
  - reflexivity.
  - rewrite lookup_insert_eq. eauto.
  - apply counted_sealed. vm_compute. reflexivity.
Defined.

Definition sample_payload (text pinyin device : bytes) : PhrasePayload :=
  mkPayload text pinyin (str "manual") 0 (CRDT (counted_phrase device)).

Lemma merged_payload_valid_witness :
  let a := sample_payload (str "x") (str "NI3") (Hex.EncodeToString sample_device) in
  let b := sample_payload (str " x") (str "ni") (Hex.EncodeToString (replicate 16 Byte.x04)) in
  exists m, MergePhrasePayload a b = Ok m /\ validatePayloadObject m sample_id_key = Ok sample_oid.
Proof.
  intros a b. eexists. split; [reflexivity|].
  apply (merged_payload_valid sample_id_key sample_oid a b); vm_compute; reflexivity.
Defined.

End witnesses.
