(* ===== verification/LocalStore.v ===== *)
(** * The encrypted local store ([localstore/store.go], [crdt_adapter.go])

    The SQLite database is a record of its tables; a store operation is a
    computation that threads the database, the random source and the number of
    steps taken, and that may fail at every statement: the environment decides
    which statements fail and what the clock shows at each step.  Statements
    between [BeginTx] and [Commit] form a transaction, which is undone when one
    of them, or the commit, fails. *)

From S2P Require Import Prelude Encoding Unicode Crypto Envelope Crdt Phrase.

(** ** The database *)

Record PhraseRow := mkPhraseRow { row_nonce : bytes; row_ciphertext : bytes; updated_at : Z }.

Record OutboxRow := mkOutboxRow {
  event_id : Z; out_object_id : bytes; out_nonce : bytes; out_ciphertext : bytes;
  version : Z; created_at : Z
}.

Record SyncRow := mkSyncRow {
  sync_device_id : bytes;
  sync_cursor : Z;
  next_device_sequence : Z;
  previous_hash : option bytes;
  prepared_event_id : option Z;
  prepared_event_version : option Z;
  prepared_device_sequence : option Z;
  prepared_wire : option bytes;
  prepared_hash : option bytes
}.

(** [outbox] is kept in the order of [event_id]; [outbox_seq] is the greatest
    identifier given out so far (the table is AUTOINCREMENT). *)
Record Database := mkDatabase {
  encrypted_phrases : gmap bytes PhraseRow;
  outbox : list OutboxRow;
  outbox_seq : Z;
  generation : Z;
  hlc_wall_ms : Z;
  hlc_counter : Z;
  sync_state : option SyncRow
}.

Record World := mkWorld { db : Database; random : bytes; steps : nat }.

(** What the outside world does at each step.  Whether a conflicting insert
    into an AUTOINCREMENT table uses up an identifier is left open. *)
Class Environment := {
  now_at : nat -> Z;
  fault_at : nat -> bool;
  conflict_uses_id : bool
}.

(** ** Computations *)

Definition M (A : Type) : Type := World -> result A * World.

Definition ret {A} (a : A) : M A := fun w => (Ok a, w).
Definition raise {A} (e : error) : M A := fun w => (Err e, w).
Definition lift {A} (r : result A) : M A := fun w => (r, w).
Definition bind {A B} (m : M A) (f : A -> M B) : M B := fun w =>
  match m w with (Ok a, w') => f a w' | (Err e, w') => (Err e, w') end.

(** [fmt.Errorf(format, err)] around a failing call. *)
Definition wrap_error {A} (format : string) (m : M A) : M A := fun w =>
  match m w with (Err e, w') => (Err (Errorf_w format e), w') | done => done end.

Declare Scope store_scope.
Delimit Scope store_scope with store.
Notation "'do!' x := m 'in' k" := (bind m (fun x => k))
  (at level 10, x pattern, m at level 100, k at level 200) : store_scope.
#[global] Open Scope store_scope.

Definition set_db (w : World) (d : Database) : World := mkWorld d (random w) (steps w).
Definition tick (w : World) : World := mkWorld (db w) (random w) (S (steps w)).

Definition sql_error : error := errors_New "database error".

Section computations.
Context `{E : Environment}.

Definition read_clock : M Z := fun w => (Ok (now_at (steps w)), tick w).

(** [io.ReadFull] from the random source of the store. *)
Definition draw (n : Z) : M bytes := fun w =>
  match ReadFull n (random w) with
  | Ok (out, rest) => (Ok out, mkWorld (db w) rest (steps w))
  | Err e => (Err e, w)
  end.

(** One SQL statement: it fails when the environment says so or when it
    violates a constraint, and then changes nothing. *)
Definition statement {A} (f : Database -> result (A * Database)) : M A := fun w =>
  if fault_at (steps w) then (Err sql_error, tick w)
  else match f (db w) with
       | Ok (a, d) => (Ok a, tick (set_db w d))
       | Err e => (Err e, tick w)
       end.

Definition query {A} (f : Database -> A) : M A := statement (fun d => Ok (f d, d)).

(** [BeginTx], the statements, [Commit]; the deferred [Rollback] otherwise. *)
Definition transaction {A} (m : M A) : M A := fun w =>
  if fault_at (steps w) then (Err sql_error, tick w)
  else match m (tick w) with
       | (Ok a, w') =>
           if fault_at (steps w') then (Err sql_error, tick (set_db w' (db w)))
           else (Ok a, tick w')
       | (Err e, w') => (Err e, set_db w' (db w))
       end.

End computations.

(** ** Statements *)

Definition with_phrases (d : Database) (p : gmap bytes PhraseRow) : Database :=
  mkDatabase p (outbox d) (outbox_seq d) (generation d) (hlc_wall_ms d) (hlc_counter d) (sync_state d).
Definition with_outbox (d : Database) (o : list OutboxRow) (seq : Z) : Database :=
  mkDatabase (encrypted_phrases d) o seq (generation d) (hlc_wall_ms d) (hlc_counter d) (sync_state d).
Definition with_generation (d : Database) (g : Z) : Database :=
  mkDatabase (encrypted_phrases d) (outbox d) (outbox_seq d) g (hlc_wall_ms d) (hlc_counter d) (sync_state d).
Definition with_wall (d : Database) (w : Z) : Database :=
  mkDatabase (encrypted_phrases d) (outbox d) (outbox_seq d) (generation d) w (hlc_counter d) (sync_state d).
Definition with_counter (d : Database) (c : Z) : Database :=
  mkDatabase (encrypted_phrases d) (outbox d) (outbox_seq d) (generation d) (hlc_wall_ms d) c (sync_state d).
Definition with_sync (d : Database) (s : option SyncRow) : Database :=
  mkDatabase (encrypted_phrases d) (outbox d) (outbox_seq d) (generation d) (hlc_wall_ms d) (hlc_counter d) s.

Definition constraint_error : error := errors_New "CHECK constraint failed".

(** INSERT INTO encrypted_phrases ... ON CONFLICT(object_id) DO UPDATE *)
Definition insert_phrase (objectID nonce ciphertext : bytes) (at_ms : Z) (d : Database)
    : result (unit * Database) :=
  if negb (len objectID =? 16) || negb (len nonce =? 24) then Err constraint_error
  else Ok (tt, with_phrases d (<[objectID := mkPhraseRow nonce ciphertext at_ms]> (encrypted_phrases d))).

Definition coalesce (objectID nonce ciphertext : bytes) (at_ms : Z) (row : OutboxRow) : OutboxRow :=
  if bool_decide (out_object_id row = objectID)
  then mkOutboxRow (event_id row) objectID nonce ciphertext (version row + 1) at_ms
  else row.

(** INSERT INTO encrypted_outbox ... ON CONFLICT(object_id) DO UPDATE SET
    ..., version = encrypted_outbox.version + 1 *)
Definition insert_outbox `{Environment} (objectID nonce ciphertext : bytes) (at_ms : Z) (d : Database)
    : result (unit * Database) :=
  if negb (len objectID =? 16) || negb (len nonce =? 24) then Err constraint_error
  else if existsb (fun row => bool_decide (out_object_id row = objectID)) (outbox d) then
    Ok (tt, with_outbox d (map (coalesce objectID nonce ciphertext at_ms) (outbox d))
              (if conflict_uses_id then outbox_seq d + 1 else outbox_seq d))
  else
    Ok (tt, with_outbox d
              (outbox d ++ [mkOutboxRow (outbox_seq d + 1) objectID nonce ciphertext 1 at_ms])
              (outbox_seq d + 1)).

(** DELETE FROM encrypted_outbox WHERE event_id = ? AND version = ?; the
    number of rows affected. *)
Definition delete_outbox (eventID eventVersion : Z) (d : Database) : result (Z * Database) :=
  let hit row := (event_id row =? eventID) && (version row =? eventVersion) in
  Ok (len (List.filter hit (outbox d)),
      with_outbox d (List.filter (fun row => negb (hit row)) (outbox d)) (outbox_seq d)).

(** ** The store *)

Record Store := mkStore { dataKey : bytes; idKey : bytes; deviceID : bytes; syncEnabled : bool }.

Definition learningThreshold : Z := 2.

Record LearningContext := mkLearning { PasswordField : bool; PrivateMode : bool; OneTimeInput : bool }.

Definition Disabled (learning : LearningContext) : bool :=
  PasswordField learning || PrivateMode learning || OneTimeInput learning.

Record LearnResult := mkLearn { Recorded : bool; LUseCount : Z; SyncEligible : bool }.

Record SnapshotT := mkSnapshot { SGeneration : Z; SPhrases : list Phrase }.

Section store.
Context `{E : Environment} `{P : Primitives} `{U : UnicodeTables} `{J : Codec Phrase}.
Variable store : Store.

Definition objectID (phrase : Phrase) : result bytes :=
  if bool_decide (TrimSpace (Text phrase) = []) || bool_decide (TrimSpace (Pinyin phrase) = []) then
    fail "phrase text and Pinyin are required"
  else OpaqueObjectID (idKey store) (Text phrase) (Pinyin phrase).

Definition recordKey (objectID : bytes) : result bytes :=
  hkdf_New_read (dataKey store) objectID (str "yunpin-local-record-v1") KeySize.

Definition seal (objectID : bytes) (phrase : Phrase) : M (bytes * bytes) :=
  do! plain := lift (Marshal phrase) in
  do! key := lift (recordKey objectID) in
  do! aead := lift (NewX key) in
  do! nonce := draw NonceSizeX in
  ret (nonce, aead_Seal aead nonce plain objectID).

Definition open (objectID nonce ciphertext : bytes) : result Phrase :=
  let! key := recordKey objectID in
  let! aead := NewX key in
  match aead_Open aead nonce ciphertext objectID with
  | None => fail "local phrase authentication failed"
  | Some plain =>
      match Unmarshal plain with
      | Err _ => fail "invalid encrypted phrase record"
      | Ok phrase => Ok phrase
      end
  end.

Definition bumpGeneration : M unit :=
  statement (fun d => Ok (tt, with_generation d (generation d + 1))).

Definition upsert (phrase : Phrase) (enqueue : bool) : M unit :=
  do! oid := lift (objectID phrase) in
  do! (nonce, ciphertext) := seal oid phrase in
  do! event := if enqueue then do! e := seal oid phrase in ret (Some e) else ret None in
  transaction (
    do! now := read_clock in
    do! _ := statement (insert_phrase oid nonce ciphertext now) in
    do! _ := bumpGeneration in
    match event with
    | Some (eventNonce, eventCiphertext) =>
        do! now := read_clock in
        statement (insert_outbox oid eventNonce eventCiphertext now)
    | None => ret tt
    end).

Definition loadByID (oid : bytes) : M (option Phrase) :=
  do! row := query (fun d => encrypted_phrases d !! oid) in
  match row with
  | None => ret None
  | Some r => do! phrase := lift (open oid (row_nonce r) (row_ciphertext r)) in ret (Some phrase)
  end.

(** The hybrid logical clock: what the next local event is stamped with, from
    the persisted clock and the physical one. *)
Definition next_clock (wallMillis counter physical : Z) : Z * Z :=
  if physical >? wallMillis then (physical, 0)
  else if counter >=? MaxUint32 then (wrap_i64 (wallMillis + 1), 0)
  else (wallMillis, counter + 1).

Definition set_wall (wallMillis : Z) : M unit := statement (fun d => Ok (tt, with_wall d wallMillis)).
Definition set_counter (counter : Z) : M unit := statement (fun d => Ok (tt, with_counter d counter)).

Definition nextHLC : M HLC :=
  transaction (
    do! wallMillis := query hlc_wall_ms in
    do! counter := query hlc_counter in
    do! physical := read_clock in
    let '(wallMillis, counter) := next_clock wallMillis counter physical in
    do! _ := set_wall wallMillis in
    do! _ := set_counter counter in
    ret (mkHLC wallMillis (wrap_u32 counter) (deviceID store))).

Definition observeHLC (observed : HLC) : M unit :=
  transaction (
    do! wallMillis := query hlc_wall_ms in
    do! counter := query hlc_counter in
    if (WallMillis observed >? wallMillis)
       || ((WallMillis observed =? wallMillis) && (Counter observed >? counter)) then
      do! _ := set_wall (WallMillis observed) in
      set_counter (Counter observed)
    else ret tt).

(** *** Operations *)

(** What [SaveExplicit] makes of the given phrase and the stored one. *)
Definition explicit_base (existing : option Phrase) (phrase : Phrase) (source : bytes) : Phrase :=
  match existing with
  | Some e =>
      mkPhrase (Text phrase) (Pinyin phrase) source (UseCount e) (PPinned e) (Deleted e)
        (if LastUsedDay phrase >? LastUsedDay e then LastUsedDay phrase else LastUsedDay e) (CRDT e)
  | None =>
      mkPhrase (Text phrase) (Pinyin phrase) source (UseCount phrase) (PPinned phrase) false
        (LastUsedDay phrase) zeroState
  end.

Definition explicit_state (wantedPinned : bool) (wantedCount : Z) (clock : HLC) (state : PhraseState)
    : result PhraseState :=
  let! state :=
    if negb (Present (presence state)) then
      if Generation (presence state) =? MaxUint64 then fail "phrase generation exhausted"
      else Ok (set_presence state (mkPresence true clock (wrap_u64 (Generation (presence state) + 1))))
    else Ok state in
  let state :=
    if negb (eqb (Value (Pinned state)) wantedPinned)
    then set_pinned state (mkLWWBool wantedPinned clock) else state in
  let currentCount := totalCounts (Counts state) in
  if wantedCount >? currentCount then
    let delta := wantedCount - currentCount in
    let mine := counts_get (Counts state) (deviceID store) in
    if MaxUint64 - mine <? delta then fail "phrase use counter exhausted"
    else Ok (set_counts state (<[deviceID store := wrap_u64 (mine + delta)]> (default ∅ (Counts state))))
  else Ok state.

Definition SaveExplicit (phrase : Phrase) : M unit :=
  do! oid := lift (objectID phrase) in
  let source := TrimSpace (Source phrase) in
  let source := if bool_decide (source = []) then str "manual" else source in
  do! existing := loadByID oid in
  do! clock := nextHLC in
  do! ensured := lift (ensurePhraseState (explicit_base existing phrase source) oid (deviceID store) clock) in
  do! state := lift (explicit_state (PPinned phrase) (UseCount phrase) clock (CRDT ensured)) in
  upsert (materializePhrase (set_crdt ensured state)) true.

Definition set_source (phrase : Phrase) (source : bytes) : Phrase :=
  mkPhrase (Text phrase) (Pinyin phrase) source (UseCount phrase) (PPinned phrase)
    (Deleted phrase) (LastUsedDay phrase) (CRDT phrase).

Definition set_last_used (phrase : Phrase) (day : Z) : Phrase :=
  mkPhrase (Text phrase) (Pinyin phrase) (Source phrase) (UseCount phrase) (PPinned phrase)
    (Deleted phrase) day (CRDT phrase).

(** [store.now().UTC().Unix() / 86400], from a reading in milliseconds. *)
Definition day_of (now : Z) : Z := Z.quot (now / 1000) 86400.

Definition RecordSelection (phrase : Phrase) (learning : LearningContext) : M LearnResult :=
  if Disabled learning then ret (mkLearn false 0 false)
  else
    do! oid := lift (objectID phrase) in
    do! existing := loadByID oid in
    let phrase := match existing with Some e => e | None => set_source phrase (str "learned") end in
    do! clock := nextHLC in
    do! phrase := lift (ensurePhraseState phrase oid (deviceID store) clock) in
    if negb (Present (presence (CRDT phrase))) then ret (mkLearn false (UseCount phrase) false)
    else
      let mine := counts_get (Counts (CRDT phrase)) (deviceID store) in
      if mine =? MaxUint64 then raise (errors_New "phrase use counter exhausted")
      else
        let state := set_counts (CRDT phrase)
                       (<[deviceID store := wrap_u64 (mine + 1)]> (default ∅ (Counts (CRDT phrase)))) in
        do! now := read_clock in
        let phrase := materializePhrase (set_crdt (set_last_used phrase (day_of now)) state) in
        let eligible := learningThreshold <=? UseCount phrase in
        do! _ := upsert phrase eligible in
        ret (mkLearn true (UseCount phrase) eligible).

Definition Delete (text pinyin : bytes) : M unit :=
  let probe := mkPhrase text pinyin [] 0 false false 0 zeroState in
  do! oid := lift (objectID probe) in
  do! existing := loadByID oid in
  let phrase := match existing with Some e => e | None => set_source probe (str "tombstone") end in
  do! clock := nextHLC in
  do! phrase := lift (ensurePhraseState phrase oid (deviceID store) clock) in
  let p := presence (CRDT phrase) in
  let state := set_presence (CRDT phrase) (mkPresence false clock (Generation p)) in
  upsert (materializePhrase (set_crdt phrase state)) true.

Definition PendingEventCount : M Z := query (fun d => len (outbox d)).

Fixpoint open_rows (rows : list OutboxRow) : result (list PendingEvent) :=
  match rows with
  | [] => Ok []
  | row :: rest =>
      if negb (len (out_object_id row) =? 16) then fail "invalid outbox object ID"
      else
        let! phrase := open (out_object_id row) (out_nonce row) (out_ciphertext row) in
        let! events := open_rows rest in
        Ok (mkPending (event_id row) (version row) (out_object_id row) phrase
              (deviceID store) (syncEnabled store) :: events)
  end.

Definition PendingEvents (limit : Z) : M (list PendingEvent) :=
  if (limit <? 1) || (limit >? 256) then raise (errors_New "outbox limit must be between 1 and 256")
  else
    do! rows := query (fun d => take (Z.to_nat limit) (outbox d)) in
    lift (open_rows rows).

Definition AckPending (eventID eventVersion : Z) : M bool :=
  do! affected := statement (delete_outbox eventID eventVersion) in
  ret (affected =? 1).

(** Rows of [encrypted_phrases] in the order of their identifiers. *)
Definition phrase_rows (d : Database) : list (bytes * PhraseRow) :=
  merge_sort (fun a b => bytes_compare a.1 b.1 <> Gt) (map_to_list (encrypted_phrases d)).

Fixpoint open_phrases (rows : list (bytes * PhraseRow)) : result (list Phrase) :=
  match rows with
  | [] => Ok []
  | (oid, row) :: rest =>
      let! phrase := open oid (row_nonce row) (row_ciphertext row) in
      let! phrases := open_phrases rest in
      Ok (phrase :: phrases)
  end.

Definition Snapshot : M SnapshotT :=
  do! g := query generation in
  do! rows := query phrase_rows in
  do! phrases := lift (open_phrases rows) in
  ret (mkSnapshot g phrases).

Definition latest_clock (state : PhraseState) : HLC :=
  if Compare (Clock (Pinned state)) (PClock (presence state)) <? 0
  then PClock (presence state) else Clock (Pinned state).

Definition MergeRemotePayload (payload : PhrasePayload) : M unit :=
  do! oid := lift (validatePayloadObject payload (idKey store)) in
  do! existing := loadByID oid in
  do! merged :=
    match existing with
    | None => ret payload
    | Some e =>
        do! e :=
          if bool_decide (ObjectID (CRDT e) = []) then
            do! clock := nextHLC in
            lift (ensurePhraseState e oid (deviceID store) clock)
          else ret e in
        lift (MergePhrasePayload
                (mkPayload (Text e) (Pinyin e) (Source e) (LastUsedDay e) (CRDT e)) payload)
    end in
  do! _ := lift (validatePayloadObject merged (idKey store)) in
  let phrase := materializePhrase
    (mkPhrase (PText merged) (PPinyin merged) (PSource merged) 0 false false (PLastUsedDay merged)
       (clonePhraseState (State merged))) in
  do! _ := observeHLC (latest_clock (CRDT phrase)) in
  upsert phrase false.

End store.

(** ** Opening *)

(** The tables as [initialize] leaves them in a new file. *)
Definition empty_database : Database := mkDatabase ∅ [] 0 0 0 0 None.

Definition new_sync_row (device : bytes) : SyncRow := mkSyncRow device 0 1 None None None None None None.

(** [initialize] on a database whose tables exist: the row that binds the
    database to one sync device. *)
Definition initialize `{Environment} (store : Store) : M unit :=
  do! _ := wrap_error "initialize local store: %w" (statement (fun d => Ok (tt, d))) in
  if syncEnabled store then
    do! _ := wrap_error "initialize sync state: %w" (statement (fun d =>
      match sync_state d with
      | Some _ => Ok (tt, d)
      | None => if negb (len (deviceID store) =? 32) then Ok (tt, d)
                else Ok (tt, with_sync d (Some (new_sync_row (deviceID store))))
      end)) in
    do! row := wrap_error "load sync device binding: %w" (query sync_state) in
    match row with
    | None => raise (Errorf_w "load sync device binding: %w" (errors_New "sql: no rows in result set"))
    | Some r => if negb (bool_decide (sync_device_id r = deviceID store))
                then raise (errors_New "local store is bound to a different sync device")
                else ret tt
    end
  else ret tt.

Definition openStore `{Environment} (path dataKey idKey deviceID : bytes) (syncEnabled : bool) : M Store :=
  if bool_decide (path = []) then raise (errors_New "database path is required")
  else if negb (len dataKey =? 32) || negb (len idKey =? 32) then
    raise (errors_New "data and object ID keys must be 32 bytes")
  else
    let store := mkStore dataKey idKey deviceID syncEnabled in
    do! _ := initialize store in
    ret store.

(** [Close] clears the keys in memory; closing the database may fail. *)
Definition closed (store : Store) : Store :=
  mkStore (replicate 32 Byte.x00) (replicate 32 Byte.x00) (deviceID store) (syncEnabled store).

Definition Close `{Environment} : M unit := query (fun _ => tt).

Definition OpenStore `{Environment} (path dataKey idKey : bytes) : M Store :=
  openStore path dataKey idKey (str "local-only") false.

Definition OpenForDevice `{Environment} `{UnicodeTables} (path dataKey idKey deviceID : bytes) : M Store :=
  if negb (validSyncDeviceID deviceID) then
    raise (errors_New "device ID must be 16 bytes encoded as lowercase hexadecimal")
  else openStore path dataKey idKey deviceID true.
