(* ===== verification/LocalStoreFacts.v ===== *)
(** * Properties of the local store

    What each operation does to the tables under every pattern of failing
    statements, the invariant of the database, and the view of the encrypted
    tables as plain maps. *)

From S2P Require Import Prelude Encoding Unicode Crypto Envelope Crdt Phrase LocalStore.

(** ** Reasoning about computations *)

Section computations.
Context `{E : Environment}.

Lemma bind_inv {A B} (m : M A) (f : A -> M B) w r w' :
  bind m f w = (r, w') ->
  (exists a w1, m w = (Ok a, w1) /\ f a w1 = (r, w')) \/
  (exists e, m w = (Err e, w') /\ r = Err e).
Proof.
  unfold bind. destruct (m w) as [[a|e] w1]; intros H; [left; eauto|right].
  injection H as <- <-. eauto.
Qed.

Lemma statement_inv {A} (f : Database -> result (A * Database)) w r w' :
  statement f w = (r, w') ->
  random w' = random w /\ (exists e, r = Err e /\ db w' = db w) \/
  random w' = random w /\ (exists a, r = Ok a /\ f (db w) = Ok (a, db w')).
Proof.
  unfold statement. destruct (fault_at (steps w)).
  - intros [= <- <-]. left. eauto.
  - destruct (f (db w)) as [[a d]|e] eqn:Ef; intros [= <- <-]; simpl; eauto 6.
Qed.

Lemma query_inv {A} (f : Database -> A) w r w' :
  query f w = (r, w') -> db w' = db w /\ random w' = random w /\
  ((exists e, r = Err e) \/ r = Ok (f (db w))).
Proof.
  intros [(Hr & e & -> & Hd)|(Hr & a & -> & Hd)]%statement_inv; [eauto|].
  injection Hd as <- <-. eauto.
Qed.

Lemma transaction_inv {A} (m : M A) w r w' :
  transaction m w = (r, w') ->
  (exists e, r = Err e /\ db w' = db w) \/
  (exists a w1, r = Ok a /\ m (tick w) = (Ok a, w1) /\ db w' = db w1).
Proof.
  unfold transaction. destruct (fault_at (steps w)); [intros [= <- <-]; eauto|].
  destruct (m (tick w)) as [[a|e] w1] eqn:Em.
  - destruct (fault_at (steps w1)); intros [= <- <-]; simpl; eauto 8.
  - intros [= <- <-]. simpl. eauto.
Qed.

Lemma draw_inv n w r w' :
  0 <= n -> draw n w = (r, w') -> db w' = db w /\
  ((exists e, r = Err e) \/ exists out, r = Ok out /\ len out = n).
Proof.
  intros Hn. unfold draw. destruct (ReadFull n (random w)) as [[out rest]|e] eqn:Er.
  - intros [= <- <-]. apply ReadFull_len in Er as [? _]; [|done]. split; [done|]. eauto.
  - intros [= <- <-]. eauto.
Qed.

End computations.

(** Take one run apart at its first computation. *)
Ltac step_run H :=
  lazymatch type of H with
  | bind _ _ _ = _ =>
      let a := fresh "a" in let w1 := fresh "w" in let H1 := fresh "Hrun" in
      let e := fresh "e" in
      apply bind_inv in H as [(a & w1 & H1 & H)|(e & H1 & H)]
  end.

(** The tables an operation on phrases is about; the clock is not one of them. *)
Definition same_data (d d' : Database) : Prop :=
  encrypted_phrases d' = encrypted_phrases d /\ outbox d' = outbox d /\
  outbox_seq d' = outbox_seq d /\ generation d' = generation d /\ sync_state d' = sync_state d.

Lemma same_data_refl d : same_data d d.
Proof. done. Qed.

Lemma same_data_trans d1 d2 d3 : same_data d1 d2 -> same_data d2 d3 -> same_data d1 d3.
Proof.
  intros (? & ? & ? & ? & ?) (? & ? & ? & ? & ?).
  unfold same_data. split_and!; etrans; eauto.
Qed.

#[export] Hint Resolve same_data_refl : yunpin.

(** ** The clock *)

Definition clock_range (d : Database) : Prop :=
  in_i64 (hlc_wall_ms d) /\ 0 <= hlc_counter d <= MaxUint32.

(** Clocks in the order of their time and counter. *)
Definition clock_lt (w c w' c' : Z) : Prop := w < w' \/ (w = w' /\ c < c').

Section clock.
Context `{E : Environment}.
Variable store : Store.

Lemma nextHLC_inv w r w' :
  nextHLC store w = (r, w') ->
  (exists e, r = Err e /\ db w' = db w) \/
  (exists physical, let '(wall, counter) := next_clock (hlc_wall_ms (db w)) (hlc_counter (db w)) physical in
     r = Ok (mkHLC wall (wrap_u32 counter) (deviceID store)) /\
     db w' = with_counter (with_wall (db w) wall) counter /\ exists n, physical = now_at n).
Proof.
  unfold nextHLC. intros [?|(clock & w1 & -> & H & Hdb)]%transaction_inv; [by left|right].
  step_run H; [|done]. apply query_inv in Hrun as (Hd & _ & [[? ?]|Ha]); [done|].
  step_run H; [|done]. apply query_inv in Hrun as (Hd0 & _ & [[? ?]|Ha0]); [done|].
  step_run H; [|done]. unfold read_clock in Hrun. injection Hrun as <- <-.
  injection Ha as ->. injection Ha0 as ->. rewrite Hd in *. cbn [db tick] in *.
  exists (now_at (steps w2)). destruct (next_clock _ _ _) as [wall counter].
  step_run H; [|done]. apply statement_inv in Hrun as [(_ & ? & ? & _)|(_ & u1 & _ & Ha)]; [done|].
  step_run H; [|done]. apply statement_inv in Hrun as [(_ & ? & ? & _)|(_ & u2 & _ & Ha1)]; [done|].
  injection H as <- <-. injection Ha as _ Ha. injection Ha1 as _ Ha1.
  split; [done|]. split; [|eauto]. rewrite Hdb, <- Ha1, <- Ha. cbn [db tick]. by rewrite Hd0.
Qed.

Lemma observeHLC_inv observed w r w' :
  observeHLC observed w = (r, w') ->
  (exists e, r = Err e /\ db w' = db w) \/
  (r = Ok tt /\
   (db w' = db w /\
      ~ clock_lt (hlc_wall_ms (db w)) (hlc_counter (db w)) (WallMillis observed) (Counter observed) \/
    db w' = with_counter (with_wall (db w) (WallMillis observed)) (Counter observed) /\
      clock_lt (hlc_wall_ms (db w)) (hlc_counter (db w)) (WallMillis observed) (Counter observed))).
Proof.
  unfold observeHLC, clock_lt. intros [?|([] & w1 & -> & H & Hdb)]%transaction_inv; [by left|right].
  split; [done|]. rewrite Hdb. clear Hdb.
  step_run H; [|done]. apply query_inv in Hrun as (Hd & _ & [[? ?]|Ha]); [done|].
  step_run H; [|done]. apply query_inv in Hrun as (Hd0 & _ & [[? ?]|Ha0]); [done|].
  injection Ha as ->. injection Ha0 as ->. rewrite Hd in *. cbn [db tick] in *.
  destruct (_ || _) eqn:Ec.
  - right. step_run H; [|done]. apply statement_inv in Hrun as [(_ & ? & ? & _)|(_ & u1 & _ & Ha)]; [done|].
    apply statement_inv in H as [(_ & ? & ? & _)|(_ & u2 & _ & Ha1)]; [done|].
    injection Ha as _ Ha. injection Ha1 as _ Ha1. split; [by rewrite <- Ha1, <- Ha, Hd0|].
    rewrite !Z.gtb_ltb in Ec. apply orb_true_iff in Ec as [Ec|Ec]; bools; lia.
  - left. injection H as <-. split; [by rewrite Hd0|]. rewrite !Z.gtb_ltb in Ec.
    apply orb_false_iff in Ec as [E1 E2%andb_false_iff]. bools. destruct E2; bools; lia.
Qed.

Lemma nextHLC_data w r w' : nextHLC store w = (r, w') -> same_data (db w) (db w').
Proof.
  intros [(e & _ & ->)|(p & H)]%nextHLC_inv; [done|].
  destruct (next_clock _ _ _) as [wall c]. by destruct H as (_ & -> & _).
Qed.

Lemma observeHLC_data observed w r w' : observeHLC observed w = (r, w') -> same_data (db w) (db w').
Proof. by intros [(e & _ & ->)|(_ & [[-> _]|[-> _]])]%observeHLC_inv. Qed.

End clock.

(** ** Encrypted rows *)

(** A stamp with the ranges of its Go types and a node that is valid text. *)
Definition hlc_ok (clock : HLC) : Prop :=
  ValidString (Node clock) = true /\ in_i64 (WallMillis clock) /\ in_u32 (Counter clock).

(** JSON text is UTF-8: the encoder keeps exactly the strings that are. *)
Definition state_utf8 (s : PhraseState) : Prop :=
  ValidString (ObjectID s) = true /\
  (forall d, is_Some (default ∅ (Counts s) !! d) -> ValidString d = true) /\
  hlc_ok (Clock (Pinned s)) /\ hlc_ok (PClock (presence s)).

Definition phrase_utf8 (p : Phrase) : Prop :=
  ValidString (Text p) = true /\ ValidString (Pinyin p) = true /\ ValidString (Source p) = true /\
  state_utf8 (CRDT p).

Class JsonLaws (J : Codec Phrase) : Prop := {
  json_codec :: CodecLaws Phrase J;
  json_utf8 : forall p, phrase_utf8 p -> encodable p = true
}.

Section rows.
Context `{E : Environment} `{P : Primitives} {PL : PrimitiveLaws P} `{U : UnicodeTables}.
Context `{J : Codec Phrase} {JL : JsonLaws J}.
Variable store : Store.

Lemma recordKey_ok oid : exists key aead, recordKey store oid = Ok key /\ NewX key = Ok aead.
Proof.
  unfold recordKey.
  destruct (hkdf_ok (dataKey store) oid (str "yunpin-local-record-v1") KeySize) as (k & -> & Hk); [done|].
  destruct (NewX_ok k Hk) as [a Ha]. eauto.
Qed.

Lemma seal_inv oid phrase w r w' :
  seal store oid phrase w = (r, w') -> db w' = db w /\
  ((exists e, r = Err e) \/
   exists nonce ciphertext, r = Ok (nonce, ciphertext) /\ len nonce = 24 /\
     (encodable phrase = true -> open store oid nonce ciphertext = Ok phrase)).
Proof.
  unfold seal. destruct (recordKey_ok oid) as (key & aead & Hkey & Haead). intros H.
  step_run H; [|injection Hrun as _ <-; subst; eauto]. injection Hrun as Hm <-.
  step_run H; [|injection Hrun as _ <-; subst; eauto]. injection Hrun as Hk <-.
  step_run H; [|injection Hrun as _ <-; subst; eauto]. injection Hrun as Ha <-.
  step_run H; apply draw_inv in Hrun as [Hd Hr]; try done; [|subst; eauto].
  destruct Hr as [[? ?]|(nonce & [= ->] & Hlen)]; [done|]. injection H as <- <-. split; [done|]. right.
  eexists _, _. split; [done|]. split; [done|]. intros Henc. unfold open. rewrite Hk. cbn [rbind].
  rewrite Ha. cbn [rbind]. rewrite open_seal by done. by rewrite (unmarshal_marshal phrase a).
Qed.

(** The phrase a row stands for. *)
Definition row_phrase (oid : bytes) (row : PhraseRow) : result Phrase :=
  open store oid (row_nonce row) (row_ciphertext row).

(** The plain table behind the encrypted one. *)
Definition abs (d : Database) : gmap bytes Phrase :=
  map_imap (fun oid row => match row_phrase oid row with Ok p => Some p | Err _ => None end)
    (encrypted_phrases d).

Lemma abs_lookup d oid p :
  abs d !! oid = Some p <->
  exists row, encrypted_phrases d !! oid = Some row /\ row_phrase oid row = Ok p.
Proof.
  unfold abs. rewrite map_lookup_imap. destruct (encrypted_phrases d !! oid) as [row|] eqn:El; simpl.
  - split; [|intros (row' & [= <-] & ->); done]. intros H. exists row.
    destruct (row_phrase oid row); [|done]. by injection H as ->.
  - split; [done|]. by intros (? & ? & _).
Qed.

Lemma loadByID_inv oid w r w' :
  loadByID store oid w = (r, w') -> db w' = db w /\
  ((exists e, r = Err e) \/
   (r = Ok None /\ encrypted_phrases (db w) !! oid = None) \/
   exists p, r = Ok (Some p) /\ abs (db w) !! oid = Some p).
Proof.
  unfold loadByID. intros H. step_run H.
  - apply query_inv in Hrun as (Hd & _ & [[? ?]|[= ->]]); [done|].
    destruct (encrypted_phrases (db w) !! oid) as [row|] eqn:El.
    + step_run H; injection Hrun as Hopen Hw; subst.
      * injection H as <- <-. split; [done|]. do 2 right. eexists. split; [done|]. apply abs_lookup. eauto.
      * split; [done|]. left. eauto.
    + injection H as <- <-. split; [done|]. right. left. done.
  - apply query_inv in Hrun as (Hd & _ & _). subst. eauto.
Qed.

(** The state of the tables after a successful [upsert]. *)
Definition upserted (d : Database) (oid nonce ciphertext : bytes) (at_ms : Z)
    (event : option (bytes * bytes * Z)) : Database :=
  let d := with_phrases d (<[oid := mkPhraseRow nonce ciphertext at_ms]> (encrypted_phrases d)) in
  let d := with_generation d (generation d + 1) in
  match event with
  | None => d
  | Some (n, c, t) =>
      match insert_outbox oid n c t d with Ok (_, d') => d' | Err _ => d end
  end.

Lemma OpaqueObjectID_len16 phrase oid : objectID store phrase = Ok oid -> len oid = 16.
Proof. unfold objectID. destruct (_ || _); [done|]. apply OpaqueObjectID_len. Qed.

Lemma insert_outbox_ok oid n c t d :
  len oid = 16 -> len n = 24 -> exists d', insert_outbox oid n c t d = Ok (tt, d').
Proof. intros H1 H2. unfold insert_outbox. rewrite H1, H2. simpl. case_match; eauto. Qed.

Lemma upsert_inv phrase enqueue w r w' :
  upsert store phrase enqueue w = (r, w') ->
  (exists e, r = Err e /\ db w' = db w) \/
  (r = Ok tt /\ exists oid nonce ciphertext at_ms event,
     objectID store phrase = Ok oid /\ len oid = 16 /\ len nonce = 24 /\
     (encodable phrase = true -> open store oid nonce ciphertext = Ok phrase) /\
     db w' = upserted (db w) oid nonce ciphertext at_ms event /\
     match event with
     | None => enqueue = false
     | Some (n, c, _) => enqueue = true /\ len n = 24 /\
         (encodable phrase = true -> open store oid n c = Ok phrase)
     end).
Proof.
  unfold upsert. intros H.
  step_run H; [|injection Hrun as _ <-; subst; eauto]. injection Hrun as Ho <-.
  pose proof (OpaqueObjectID_len16 _ _ Ho) as Hlen.
  step_run H; apply seal_inv in Hrun as [Hd0 Hs]; [|left; subst; eauto].
  destruct Hs as [[? ?]|(nonce & ct & [= ->] & Hn & Hopen)]; [done|].
  assert (exists event, (exists e, r = Err e /\ db w' = db w) \/
    match event with
    | None => enqueue = false
    | Some (n, c) => enqueue = true /\ len n = 24 /\ (encodable phrase = true -> open store a n c = Ok phrase)
    end /\ exists w2, db w2 = db w /\
    transaction (do! now := read_clock in
      do! _ := statement (insert_phrase a nonce ct now) in
      do! _ := bumpGeneration in
      match event with
      | Some (eventNonce, eventCiphertext) =>
          do! now := read_clock in statement (insert_outbox a eventNonce eventCiphertext now)
      | None => ret tt
      end) w2 = (r, w')) as (event & [?|(Hevent & w2 & Hw2 & Ht)]); [|by left|].
  { step_run H.
    - exists a0. right. destruct enqueue.
      + step_run Hrun; [|done]. apply seal_inv in Hrun0 as [Hd1 Hs].
        destruct Hs as [[? ?]|(n & c & [= ->] & ? & ?)]; [done|].
        injection Hrun as <- <-. split; [done|]. eexists. split; [|exact H]. congruence.
      + injection Hrun as <- <-. split; [done|]. eexists. split; [|exact H]. done.
    - exists None. left. destruct enqueue; [|done].
      step_run Hrun; [done|]. apply seal_inv in Hrun0 as [Hd1 _]. exists e. split; [done|]. congruence. }
  clear H. apply transaction_inv in Ht as [(e & -> & He)|(u & w3 & -> & Hm & Hw3)].
  { left. exists e. split; [done|]. congruence. }
  right. destruct u. split; [done|].
  step_run Hm; [|done]. injection Hrun as <- <-.
  step_run Hm; [|done]. apply statement_inv in Hrun as [(_ & ? & ? & _)|(_ & u & _ & Hi)]; [done|].
  step_run Hm; [|done]. apply statement_inv in Hrun as [(_ & ? & ? & _)|(_ & u' & _ & Hg)]; [done|].
  unfold insert_phrase in Hi. rewrite Hlen, Hn in Hi. simpl in Hi. injection Hi as _ Hi.
  injection Hg as _ Hg. rewrite <- Hi, Hw2 in Hg.
  exists a, nonce, ct, (now_at (S (steps w2))).
  destruct event as [[n c]|].
  - step_run Hm; [|done]. injection Hrun as <- <-.
    apply statement_inv in Hm as [(_ & ? & ? & _)|(_ & u0 & _ & Ho')]; [done|].
    exists (Some (n, c, now_at (steps w4))). split_and!; try done; try apply Hevent.
    unfold upserted. cbn [db tick] in Ho'. rewrite <- Hg in Ho'. cbn in Ho' |- *. by rewrite Ho', Hw3.
  - injection Hm as <-. exists None. split_and!; try done. by rewrite Hw3, <- Hg.
Qed.

End rows.

(** ** The invariant of the database *)

Section invariant.
Context `{E : Environment} `{P : Primitives} {PL : PrimitiveLaws P} `{U : UnicodeTables}.
Context `{J : Codec Phrase} {JL : JsonLaws J}.
Variable store : Store.

(** A phrase filed under an identifier: well formed, its own identifier, and
    made of text that survives its encoding. *)
Definition stored_ok (oid : bytes) (p : Phrase) : Prop :=
  phrase_ok oid p /\ objectID store p = Ok oid /\ phrase_utf8 p.

Definition event_ok (row : OutboxRow) : Prop :=
  1 <= version row /\
  exists p, open store (out_object_id row) (out_nonce row) (out_ciphertext row) = Ok p /\
    stored_ok (out_object_id row) p.

Record db_ok (d : Database) : Prop := {
  db_phrases : forall oid row, encrypted_phrases d !! oid = Some row ->
    exists p, row_phrase store oid row = Ok p /\ stored_ok oid p;
  db_events : Forall event_ok (outbox d);
  db_event_ids : StronglySorted Z.lt (map event_id (outbox d)) /\
    Forall (fun i => 1 <= i <= outbox_seq d) (map event_id (outbox d)) /\ 0 <= outbox_seq d;
  db_event_objects : NoDup (map out_object_id (outbox d));
  db_event_backed : forall row, row ∈ outbox d -> is_Some (encrypted_phrases d !! out_object_id row);
  db_clock : clock_range d
}.

Lemma stored_encodable oid p : stored_ok oid p -> encodable p = true.
Proof. intros (_ & _ & H). by apply json_utf8. Qed.

Lemma db_ok_abs d oid p : db_ok d -> abs store d !! oid = Some p -> stored_ok oid p.
Proof.
  intros Hd (row & Hl & Hr)%abs_lookup. destruct (db_phrases _ Hd _ _ Hl) as (p' & Hp & Hok).
  congruence.
Qed.

(** Every row of a sound database decrypts: the plain table has the same keys. *)
Lemma abs_dom d oid : db_ok d -> is_Some (abs store d !! oid) <-> is_Some (encrypted_phrases d !! oid).
Proof.
  intros Hd. split.
  - intros [p (row & Hl & _)%abs_lookup]. eauto.
  - intros [row Hl]. destruct (db_phrases _ Hd _ _ Hl) as (p & Hp & _). exists p. apply abs_lookup. eauto.
Qed.

(** *** The outbox after an insertion *)

Lemma coalesce_object oid n c t row : out_object_id (coalesce oid n c t row) = out_object_id row.
Proof. unfold coalesce. by case_bool_decide. Qed.

Lemma coalesce_id oid n c t row : event_id (coalesce oid n c t row) = event_id row.
Proof. unfold coalesce. by case_bool_decide. Qed.

Lemma StronglySorted_snoc l x :
  StronglySorted Z.lt l -> Forall (fun y => y < x) l -> StronglySorted Z.lt (l ++ [x]).
Proof.
  induction 1 as [|y l Hs IH Hy]; simpl; intros Hf; [repeat constructor|].
  apply Forall_cons in Hf as [Hyx Hf]. constructor; [by apply IH|].
  apply Forall_app. auto.
Qed.

(** The row of an object after its insertion, and the rows of other objects. *)
Lemma insert_outbox_rows oid n c t d d' :
  insert_outbox oid n c t d = Ok (tt, d') ->
  encrypted_phrases d' = encrypted_phrases d /\ hlc_wall_ms d' = hlc_wall_ms d /\
  hlc_counter d' = hlc_counter d /\ generation d' = generation d /\ sync_state d' = sync_state d /\
  (exists row, row ∈ outbox d' /\ out_object_id row = oid /\ out_nonce row = n /\ out_ciphertext row = c) /\
  (forall row, row ∈ outbox d' -> out_object_id row <> oid -> row ∈ outbox d) /\
  (forall row, row ∈ outbox d -> out_object_id row <> oid -> row ∈ outbox d') /\
  (forall row, row ∈ outbox d -> out_object_id row = oid ->
     exists row', row' ∈ outbox d' /\ event_id row' = event_id row /\ version row' = version row + 1).
Proof.
  unfold insert_outbox. destruct (negb _ || negb _); [done|].
  destruct (existsb _ _) eqn:Ex; intros [= <-]; cbn; split_and!; try done.
  - apply existsb_exists in Ex as (row & Hin & Hr%bool_decide_eq_true).
    exists (coalesce oid n c t row). split; [apply list_elem_of_In, in_map, Hin|].
    unfold coalesce. by rewrite bool_decide_eq_true_2.
  - intros row (row' & -> & Hin)%list_elem_of_fmap Hne. rewrite coalesce_object in Hne.
    unfold coalesce. by rewrite bool_decide_eq_false_2.
  - intros row Hin Hne. apply list_elem_of_fmap. exists row. split; [|done].
    unfold coalesce. by rewrite bool_decide_eq_false_2.
  - intros row Hin Heq. exists (coalesce oid n c t row).
    split; [apply list_elem_of_In, in_map, list_elem_of_In, Hin|]. unfold coalesce.
    by rewrite bool_decide_eq_true_2.
  - eexists. split; [apply elem_of_app; right; by left|]. done.
  - intros row [Hin| ->%list_elem_of_singleton]%elem_of_app Hne; [done|]. done.
  - intros row Hin _. apply elem_of_app. by left.
  - intros row Hin Heq. exfalso. assert (existsb (fun row => bool_decide (out_object_id row = oid)) (outbox d) = true);
      [|congruence]. apply existsb_exists. exists row. split; [by apply list_elem_of_In|].
    by apply bool_decide_eq_true_2.
Qed.

Lemma insert_outbox_sound oid n c t d d' :
  insert_outbox oid n c t d = Ok (tt, d') -> Forall event_ok (outbox d) ->
  (exists p, open store oid n c = Ok p /\ stored_ok oid p) ->
  StronglySorted Z.lt (map event_id (outbox d)) /\
    Forall (fun i => 1 <= i <= outbox_seq d) (map event_id (outbox d)) /\ 0 <= outbox_seq d ->
  NoDup (map out_object_id (outbox d)) ->
  Forall event_ok (outbox d') /\
  (StronglySorted Z.lt (map event_id (outbox d')) /\
    Forall (fun i => 1 <= i <= outbox_seq d') (map event_id (outbox d')) /\ 0 <= outbox_seq d') /\
  NoDup (map out_object_id (outbox d')).
Proof.
  unfold insert_outbox. destruct (negb _ || negb _); [done|].
  destruct (existsb _ _) eqn:Ex; intros [= <-] Hev Hp (Hs & Hr & H0) Hnd; cbn [outbox outbox_seq with_outbox].
  - rewrite !map_map. rewrite (map_ext _ event_id) by apply coalesce_id.
    rewrite (map_ext _ out_object_id) by apply coalesce_object. split_and!; try done.
    + rewrite Forall_map. eapply Forall_impl; [exact Hev|]. intros row (Hv & p & Hrow). unfold coalesce.
      case_bool_decide; [|unfold event_ok; eauto]. split; simpl; [lia|done].
    + eapply Forall_impl; [exact Hr|]. simpl. intros. case_match; lia.
    + case_match; lia.
  - rewrite !map_app. cbn [map event_id out_object_id]. split_and!.
    + apply Forall_app. split; [done|]. apply Forall_singleton. split; simpl; [lia|done].
    + apply StronglySorted_snoc; [done|]. eapply Forall_impl; [exact Hr|]. simpl. lia.
    + apply Forall_app. split; [|apply Forall_singleton; lia].
      eapply Forall_impl; [exact Hr|]. simpl. lia.
    + lia.
    + apply NoDup_app. split; [done|]. split; [|apply NoDup_singleton].
      intros x Hx ->%list_elem_of_singleton. apply list_elem_of_fmap in Hx as (row & -> & Hin).
      assert (existsb (fun r => bool_decide (out_object_id r = out_object_id row)) (outbox d) = true); [|congruence].
      apply existsb_exists. exists row. split; [by apply list_elem_of_In|]. by apply bool_decide_eq_true_2.
Qed.

(** *** A successful [upsert] *)

(** What the tables say after a phrase was written: the plain table has the
    phrase under its identifier, the generation moved by one, and the outbox
    holds the phrase when it was enqueued and is untouched otherwise. *)
Record written (d d' : Database) (oid : bytes) (p : Phrase) (enqueue : bool) : Prop := {
  written_abs : abs store d' = <[oid := p]> (abs store d);
  written_generation : generation d' = generation d + 1;
  written_clock : hlc_wall_ms d' = hlc_wall_ms d /\ hlc_counter d' = hlc_counter d;
  written_sync : sync_state d' = sync_state d;
  written_event : if enqueue then
      exists row, row ∈ outbox d' /\ out_object_id row = oid /\
        open store oid (out_nonce row) (out_ciphertext row) = Ok p
    else outbox d' = outbox d /\ outbox_seq d' = outbox_seq d;
  written_others : forall row, out_object_id row <> oid -> row ∈ outbox d <-> row ∈ outbox d';
  written_version : enqueue = true -> forall row, row ∈ outbox d -> out_object_id row = oid ->
    exists row', row' ∈ outbox d' /\ event_id row' = event_id row /\ version row' = version row + 1
}.

Lemma abs_insert d d' oid p nonce ct t :
  encrypted_phrases d' = <[oid := mkPhraseRow nonce ct t]> (encrypted_phrases d) ->
  open store oid nonce ct = Ok p -> abs store d' = <[oid := p]> (abs store d).
Proof.
  intros Hd Hp. apply map_eq. intros k. unfold abs. rewrite map_lookup_imap, Hd.
  destruct (decide (k = oid)) as [->|Hne].
  - rewrite !lookup_insert_eq. cbn. unfold row_phrase. cbn. by rewrite Hp.
  - rewrite !lookup_insert_ne by done. by rewrite map_lookup_imap.
Qed.

Lemma upsert_written phrase enqueue w r w' oid :
  stored_ok oid phrase -> upsert store phrase enqueue w = (r, w') ->
  (exists e, r = Err e /\ db w' = db w) \/
  (r = Ok tt /\ written (db w) (db w') oid phrase enqueue /\ (db_ok (db w) -> db_ok (db w'))).
Proof.
  intros Hok H. pose proof (stored_encodable _ _ Hok) as Henc. pose proof Hok as (_ & Ho & _).
  apply upsert_inv in H as [?|(-> & oid' & nonce & ct & t & event & Ho' & Hl & Hn & Hopen & Hdb & Hev)];
    [by left|right]. split; [done|]. assert (oid' = oid) as -> by congruence. specialize (Hopen Henc).
  destruct event as [[[n c] tv]|].
  - destruct Hev as (-> & Hln & Hopen'). specialize (Hopen' Henc). unfold upserted in Hdb.
    destruct (insert_outbox_ok oid n c tv
      (with_generation (with_phrases (db w) (<[oid:=mkPhraseRow nonce ct t]> (encrypted_phrases (db w))))
         (generation (with_phrases (db w) (<[oid:=mkPhraseRow nonce ct t]> (encrypted_phrases (db w)))) + 1)) Hl Hln)
      as [d' Hi]. rewrite Hi in Hdb.
    pose proof (insert_outbox_rows _ _ _ _ _ _ Hi) as (Hp & Hw & Hc & Hg & Hsy & (row & Hrow & Hro & Hrn & Hrc) & Hr1 & Hr2 & Hr3).
    cbn in Hp, Hw, Hc, Hg, Hsy, Hr1, Hr2, Hr3. split.
    + split; rewrite ?Hdb; try done.
      * by eapply abs_insert.
      * exists row. by rewrite Hrn, Hrc.
      * intros row' Hne. split; intros; [by apply Hr2|by apply Hr1].
    + intros [Hph Hevs Hids Hnd Hback Hck]. rewrite Hdb.
      destruct (insert_outbox_sound _ _ _ _ _ _ Hi Hevs) as (G1 & G2 & G3); [eauto|done|done|].
      split; try done.
      * rewrite Hp. intros k rw. rewrite lookup_insert. case_decide; [|apply Hph].
        subst. intros [= <-]. exists phrase. done.
      * rewrite Hp. intros rw Hrw. destruct (decide (out_object_id rw = oid)) as [Eq|Hne].
        -- rewrite Eq, lookup_insert_eq. eauto.
        -- rewrite lookup_insert_ne by done. by apply Hback, Hr1.
      * unfold clock_range in *. by rewrite Hw, Hc.
  - subst enqueue. unfold upserted in Hdb. split.
    + split; rewrite Hdb; try done. by eapply abs_insert.
    + intros [Hph Hevs Hids Hnd Hback Hck]. rewrite Hdb. split; try done; cbn.
      * intros k rw. rewrite lookup_insert. case_decide; [|apply Hph].
        subst. intros [= <-]. exists phrase. done.
      * intros rw Hrw. rewrite lookup_insert. case_decide; [eauto|by apply Hback].
Qed.

End invariant.

(** ** Text that survives its encoding *)

Lemma hex_valid l : ValidString (Hex.EncodeToString l) = true.
Proof. apply ascii_valid, (hex_decode_ascii _ l), hex_decode_encode. Qed.

Lemma zeroState_utf8 : state_utf8 zeroState.
Proof. split_and!; try done. intros d [c H]. cbn in H. by rewrite lookup_empty in H. Qed.

Lemma insert_utf8 (m : gmap bytes Z) d c :
  ValidString d = true -> (forall k, is_Some (m !! k) -> ValidString k = true) ->
  forall k, is_Some (<[d := c]> m !! k) -> ValidString k = true.
Proof. intros Hd Hm k [v [[<- _]|[_ ?]]%lookup_insert_Some]; eauto. Qed.

Lemma ensure_utf8 phrase oid device clock p' :
  phrase_utf8 phrase -> ValidString device = true -> hlc_ok clock ->
  ensurePhraseState phrase oid device clock = Ok p' ->
  phrase_utf8 p' /\ Text p' = Text phrase /\ Pinyin p' = Pinyin phrase /\ Source p' = Source phrase /\
  LastUsedDay p' = LastUsedDay phrase.
Proof.
  intros (Ht & Hp & Hs & Ho & Hc & Hn1 & Hn2) Hd Hk H. unfold ensurePhraseState in H. invert_ok.
  assert (state_utf8 a) as (Ao & Ac & An1 & An2).
  { destruct (bool_decide (ObjectID (CRDT phrase) = [])).
    - injection Hok as <-. split_and!; try done; [apply hex_valid|].
      intros d [c Hl]. cbn in Hl. by rewrite lookup_empty in Hl.
    - destruct (negb _); [done|]. injection Hok as <-. done. }
  split; [|done]. split; [done|]. split; [done|]. split; [done|]. cbn. split_and!.
  - done.
  - intros d Hl. destruct (_ <? _); [|by apply Ac]. eapply insert_utf8; [exact Hd|exact Ac|exact Hl].
  - by destruct (isZeroClock _).
  - repeat case_match; done.
Qed.

(** ** The decisions of the operations *)

Section decisions.
Variable store : Store.

(** What [explicit_state] makes of a sound state; the guard on the counter is
    never taken. *)
Lemma explicit_state_spec wantedPinned wantedCount clock s m :
  Counts s = Some m -> counts_ok (Some m) -> in_u64 wantedCount ->
  1 <= Generation (presence s) <= MaxUint64 ->
  (Present (presence s) = true \/ Generation (presence s) < MaxUint64) ->
  exists s' m', explicit_state store wantedPinned wantedCount clock s = Ok s' /\
    ObjectID s' = ObjectID s /\ Counts s' = Some m' /\ counts_ok (Some m') /\
    totalCounts (Some m') = Z.max (totalCounts (Some m)) wantedCount /\
    Present (presence s') = true /\
    Generation (presence s') = (if Present (presence s) then Generation (presence s) else Generation (presence s) + 1) /\
    Value (Pinned s') = wantedPinned /\
    (ValidString (deviceID store) = true -> hlc_ok clock -> state_utf8 s -> state_utf8 s').
Proof.
  intros Hm Hok Hw Hg Hex. unfold explicit_state.
  assert (exists s1, (if negb (Present (presence s)) then
        if Generation (presence s) =? MaxUint64 then fail "phrase generation exhausted"
        else Ok (set_presence s (mkPresence true clock (wrap_u64 (Generation (presence s) + 1))))
      else Ok s) = Ok s1 /\ Counts s1 = Some m /\ ObjectID s1 = ObjectID s /\ Pinned s1 = Pinned s /\
      Present (presence s1) = true /\
      Generation (presence s1) = (if Present (presence s) then Generation (presence s) else Generation (presence s) + 1) /\
      (hlc_ok clock -> state_utf8 s -> state_utf8 s1)) as (s1 & -> & C1 & O1 & P1 & R1 & G1 & V1).
  { destruct (Present (presence s)) eqn:Ep; cbn [negb]; [eauto 10|].
    destruct Hex as [?|Hex]; [done|]. rewrite (proj2 (Z.eqb_neq _ _)) by lia.
    eexists. split; [done|]. cbn. rewrite wrap_u64_id by (unfold in_u64; lia). split_and!; try done.
    unfold state_utf8. cbn. tauto. }
  cbn [rbind]. set (s2 := if negb _ then _ else s1).
  assert (Counts s2 = Some m /\ ObjectID s2 = ObjectID s /\ presence s2 = presence s1 /\
    Value (Pinned s2) = wantedPinned /\ (hlc_ok clock -> state_utf8 s1 -> state_utf8 s2))
    as (C2 & O2 & R2 & P2 & V2).
  { unfold s2. destruct (eqb (Value (Pinned s1)) wantedPinned) eqn:Eb; cbn [negb].
    - apply eqb_prop in Eb. done.
    - cbn. split_and!; try done. unfold state_utf8. cbn. tauto. }
  clearbody s2. rewrite C2, Z.gtb_ltb. destruct (Z.ltb_spec (totalCounts (Some m)) wantedCount) as [Hlt|Hge].
  - destruct (raise_counter m (deviceID store) wantedCount Hok Hw Hlt) as (Hc & Hroom & Ht).
    cbn [counts_get default]. rewrite (proj2 (Z.ltb_ge _ _)) by lia. rewrite wrap_u64_id by done.
    eexists _, _. split; [done|]. cbn. rewrite R2. split_and!; try done.
    + by apply counts_ok_insert.
    + rewrite Ht. lia.
    + intros Hdev Hn Hs. destruct (V2 Hn (V1 Hn Hs)) as (U1 & U2 & U3 & U4). rewrite C2 in U2.
      unfold state_utf8. cbn. rewrite R2 in U4. split_and!; try done. by apply insert_utf8.
      by rewrite R2.
  - exists s2, m. rewrite R2. split_and!; try done; [lia|auto].
Qed.

Lemma explicit_state_generation_exhausted wantedPinned wantedCount clock s :
  Present (presence s) = false -> Generation (presence s) = MaxUint64 ->
  explicit_state store wantedPinned wantedCount clock s = Err (errors_New "phrase generation exhausted").
Proof. intros Hp Hg. unfold explicit_state. by rewrite Hp, Hg, Z.eqb_refl. Qed.

End decisions.

(** Bringing a record up to date: one that is sound keeps its count, its
    presence and its pin; one without replicated state gets a new one. *)
Lemma ensure_of_ok x oid device clock p :
  len oid = 16 -> phrase_ok oid x -> ensurePhraseState x oid device clock = Ok p ->
  UseCount p = UseCount x /\ Present (presence (CRDT p)) = Present (presence (CRDT x)) /\
  Generation (presence (CRDT p)) = Generation (presence (CRDT x)) /\
  Value (Pinned (CRDT p)) = Value (Pinned (CRDT x)).
Proof.
  intros Hl Hx H. pose proof (phrase_ok_ranges _ _ Hx) as Hr.
  pose proof (ensurePhraseState_ok _ _ _ _ _ Hr H) as Hp.
  destruct (ensurePhraseState_counts _ _ _ _ _ Hr H) as (m & Hm & _ & Ht & _).
  destruct Hx as [Ho (c & Hc & Hcok) Hg Hu Hpin Hdel].
  assert (ObjectID (CRDT x) <> []) as Hne.
  { rewrite Ho. intros E. apply (f_equal len) in E. rewrite len_hex_encode, Hl in E. done. }
  split.
  - rewrite (ok_use_count _ _ Hp), Hm, Ht. unfold base_counts.
    rewrite bool_decide_eq_false_2, Hc by done. simpl default. rewrite Hu, Hc. lia.
  - unfold ensurePhraseState in H. rewrite bool_decide_eq_false_2, bool_decide_eq_true_2 in H by done.
    cbn [negb rbind] in H. injection H as <-. cbn. rewrite (proj2 (Z.eqb_neq _ _)) by lia.
    split_and!; match goal with |- context [isZeroClock ?c] => destruct (isZeroClock c) end; cbn; congruence.
Qed.

Lemma ensure_of_new x oid device clock p :
  phrase_ranges x -> ObjectID (CRDT x) = [] -> ensurePhraseState x oid device clock = Ok p ->
  UseCount p = UseCount x /\ Present (presence (CRDT p)) = negb (Deleted x) /\
  Generation (presence (CRDT p)) = 1 /\ Value (Pinned (CRDT p)) = PPinned x.
Proof.
  intros Hr Hx H. pose proof (ensurePhraseState_ok _ _ _ _ _ Hr H) as Hp.
  destruct (ensurePhraseState_counts _ _ _ _ _ Hr H) as (m & Hm & _ & Ht & _).
  split.
  - rewrite (ok_use_count _ _ Hp), Hm, Ht. unfold base_counts. rewrite bool_decide_eq_true_2 by done.
    destruct Hr as [[Hu _] _ _]. change (totalCounts (Some ∅)) with 0. lia.
  - unfold ensurePhraseState in H. rewrite bool_decide_eq_true_2 in H by done.
    cbn [rbind] in H. injection H as <-. cbn. split_and!; match goal with |- context [isZeroClock ?c] => destruct (isZeroClock c) end; cbn; congruence.
Qed.

(** ** What the operations do *)

(** The case of a step that failed and changed nothing. *)
Ltac failed :=
  subst; split; [assumption|left; split; [eexists; reflexivity|solve [assumption | apply same_data_refl]]].

Section operations.
Context `{E : Environment} `{P : Primitives} {PL : PrimitiveLaws P} `{U : UnicodeTables}.
Context `{J : Codec Phrase} {JL : JsonLaws J}.
Variable store : Store.
Hypothesis device_text : ValidString (deviceID store) = true.
Hypothesis clock_readings : forall n, in_i64 (now_at n).

Lemma same_data_abs d d' : same_data d d' -> abs store d' = abs store d.
Proof. intros (H & _). unfold abs. by rewrite H. Qed.

Lemma same_data_ok d d' : same_data d d' -> clock_range d' -> db_ok store d -> db_ok store d'.
Proof.
  intros (H1 & H2 & H3 & H4 & H5) Hc [A B C D F _].
  split; rewrite ?H1, ?H2, ?H3; done.
Qed.

Lemma next_clock_range wall counter physical :
  in_i64 physical -> in_i64 wall -> 0 <= counter <= MaxUint32 ->
  in_i64 (next_clock wall counter physical).1 /\ 0 <= (next_clock wall counter physical).2 <= MaxUint32.
Proof.
  intros Hp Hw Hc. unfold next_clock. rewrite Z.gtb_ltb, Z.geb_leb.
  destruct (Z.ltb_spec wall physical); [split; [done|unfold MaxUint32; cbn; lia]|].
  destruct (Z.leb_spec MaxUint32 counter); cbn [fst snd].
  - split; [apply wrap_i64_range|unfold MaxUint32; lia].
  - split; [done|lia].
Qed.

Lemma nextHLC_sound w clock w' :
  nextHLC store w = (Ok clock, w') -> db_ok store (db w) ->
  same_data (db w) (db w') /\ db_ok store (db w') /\ hlc_ok clock /\
  WallMillis clock = hlc_wall_ms (db w') /\ Counter clock = hlc_counter (db w').
Proof.
  intros H Hd. pose proof (nextHLC_data _ _ _ _ H) as Hsame.
  apply nextHLC_inv in H as [(? & ? & _)|(p & H)]; [done|].
  pose proof (db_clock _ _ Hd) as [Hw Hc].
  destruct (next_clock_range (hlc_wall_ms (db w)) (hlc_counter (db w)) p) as [R1 R2]; try done.
  { destruct (next_clock _ _ _). destruct H as (_ & _ & n & ->). apply clock_readings. }
  destruct (next_clock _ _ p) as [wall c]. cbn [fst snd] in *. destruct H as ([= ->] & Hdb & _).
  split; [done|]. split; [apply (same_data_ok (db w)); [done| |done]; rewrite Hdb; done|].
  assert (wrap_u32 c = c) as Hc' by (unfold wrap_u32; apply Z.mod_small; unfold MaxUint32 in *; lia).
  unfold hlc_ok. cbn. rewrite Hc', Hdb. done.
Qed.

Lemma load_sound oid w x w' :
  loadByID store oid w = (Ok x, w') -> db_ok store (db w) ->
  db w' = db w /\ x = abs store (db w) !! oid /\ (forall p, x = Some p -> stored_ok store oid p).
Proof.
  intros H Hd. apply loadByID_inv in H as [Hdb [[? ?]|[[[= ->] Hn]|(p & [= ->] & Hp)]]]; [done| |].
  - split; [done|]. split; [|done]. destruct (abs store (db w) !! oid) eqn:El; [|done].
    apply abs_lookup in El as (row & Hl & _). congruence.
  - split; [done|]. split; [done|]. intros q [= <-]. by eapply db_ok_abs.
Qed.

(** The phrase a mutation wrote, with everything but the clock and the tables
    of that phrase as before. *)
Definition wrote (d d' : Database) (oid : bytes) (p : Phrase) (enqueue : bool) : Prop :=
  exists d1, same_data d d1 /\ written store d1 d' oid p enqueue.

Lemma wrote_abs d d' oid p q : wrote d d' oid p q -> abs store d' = <[oid := p]> (abs store d).
Proof. intros (d1 & Hs & Hw). rewrite (written_abs _ _ _ _ _ _ Hw). by rewrite (same_data_abs d d1). Qed.

Lemma upsert_wrote w0 w r w' oid p enqueue :
  same_data (db w0) (db w) -> db_ok store (db w) -> stored_ok store oid p ->
  upsert store p enqueue w = (r, w') ->
  db_ok store (db w') /\
  ((exists e, r = Err e) /\ same_data (db w0) (db w') \/ r = Ok tt /\ wrote (db w0) (db w') oid p enqueue).
Proof.
  intros Hs Hd Hp H. destruct (upsert_written store _ _ _ _ _ _ Hp H) as [(e & -> & He)|(-> & Hw & Hok)].
  - rewrite He. eauto.
  - split; [by apply Hok|]. right. split; [done|]. by exists (db w).
Qed.

(** A record read from the table, or the given one. *)
Lemma stored_ranges oid p : stored_ok store oid p -> phrase_ranges p.
Proof. intros (H & _). by eapply phrase_ok_ranges. Qed.

(** The state before the write: the stored or new phrase, brought up to date. *)
Lemma ensure_sound phrase oid clock p :
  phrase_ranges phrase -> phrase_utf8 phrase -> hlc_ok clock ->
  objectID store phrase = Ok oid ->
  ensurePhraseState phrase oid (deviceID store) clock = Ok p ->
  stored_ok store oid p /\ Text p = Text phrase /\ Pinyin p = Pinyin phrase /\ Source p = Source phrase.
Proof.
  intros Hr Hu Hn Ho H. pose proof (ensurePhraseState_ok _ _ _ _ _ Hr H) as Hok.
  destruct (ensure_utf8 _ _ _ _ _ Hu device_text Hn H) as (Hu' & Ht & Hp & Hs & _).
  split; [|done]. split; [done|]. split; [|done]. unfold objectID in *. by rewrite Ht, Hp.
Qed.

(** Re-deriving the visible fields of a phrase from a new sound state. *)
Lemma materialize_stored oid p s m :
  stored_ok store oid p -> ObjectID s = ObjectID (CRDT p) -> Counts s = Some m -> counts_ok (Some m) ->
  1 <= Generation (presence s) <= MaxUint64 -> state_utf8 s ->
  stored_ok store oid (materializePhrase (set_crdt p s)).
Proof.
  intros (Hok & Ho & Ht & Hp & Hs & _) Hobj Hc Hm Hg Hu. split_and!; try done.
  split; cbn; try done; [|eauto]. by rewrite Hobj, (ok_object _ _ Hok).
Qed.

(** *** SaveExplicit *)

(** The phrases a caller may pass. *)
Definition input_ok (phrase : Phrase) : Prop :=
  in_u64 (UseCount phrase) /\ ValidString (Text phrase) = true /\ ValidString (Pinyin phrase) = true /\
  ValidString (TrimSpace (Source phrase)) = true.

(** The greater of the wanted count and the one already there. *)
Definition known_count (existing : option Phrase) : Z :=
  match existing with Some e => UseCount e | None => 0 end.

Definition next_generation (existing : option Phrase) : Z :=
  match existing with
  | None => 1
  | Some e => if Deleted e then Generation (presence (CRDT e)) + 1 else Generation (presence (CRDT e))
  end.

Lemma explicit_base_sound existing phrase oid source :
  input_ok phrase -> ValidString source = true -> objectID store phrase = Ok oid ->
  (forall e, existing = Some e -> stored_ok store oid e) ->
  phrase_ranges (explicit_base existing phrase source) /\ phrase_utf8 (explicit_base existing phrase source) /\
  objectID store (explicit_base existing phrase source) = Ok oid.
Proof.
  intros (Hc & Ht & Hp & _) Hs Ho He. destruct existing as [e|]; cbn.
  - destruct (He e eq_refl) as (Hok & _ & _ & _ & _ & Hu).
    destruct (phrase_ok_ranges _ _ Hok) as [R1 R2 R3]. split_and!; try done.
  - split; [split; cbn; [done|apply counts_ok_empty|unfold MaxUint64; lia]|].
    split; [|done]. split_and!; try done. apply zeroState_utf8.
Qed.

Lemma explicit_ensured existing phrase oid source clock p :
  input_ok phrase -> ValidString source = true -> objectID store phrase = Ok oid ->
  (forall e, existing = Some e -> stored_ok store oid e) -> hlc_ok clock ->
  ensurePhraseState (explicit_base existing phrase source) oid (deviceID store) clock = Ok p ->
  stored_ok store oid p /\ Text p = Text phrase /\ Pinyin p = Pinyin phrase /\
  UseCount p = (if existing then known_count existing else UseCount phrase) /\
  (if Present (presence (CRDT p)) then Generation (presence (CRDT p)) else Generation (presence (CRDT p)) + 1)
    = next_generation existing.
Proof.
  intros Hin Hs Ho He Hn H.
  destruct (explicit_base_sound existing phrase oid source Hin Hs Ho He) as (Hr & Hu & Hob).
  destruct (ensure_sound _ _ _ _ Hr Hu Hn Hob H) as (Hok & Ht & Hp & _).
  split; [done|]. split; [by rewrite Ht; destruct existing|]. split; [by rewrite Hp; destruct existing|].
  pose proof (OpaqueObjectID_len16 store _ _ Ho) as Hl.
  destruct existing as [e|].
  - destruct (He e eq_refl) as (Hek & _).
    assert (phrase_ok oid (explicit_base (Some e) phrase source)) as Hbk by (by destruct Hek).
    destruct (ensure_of_ok _ _ _ _ _ Hl Hbk H) as (-> & -> & -> & _). split; [done|]. cbn.
    rewrite (ok_deleted _ _ Hek). by destruct (Present _).
  - destruct (ensure_of_new _ _ _ _ _ Hr eq_refl H) as (-> & -> & -> & _). done.
Qed.

(** Every mutation begins by loading the stored phrase and taking a stamp. *)
Lemma begin_inv {A} oid (k : option Phrase -> HLC -> M A) w r w' :
  bind (loadByID store oid) (fun existing => bind (nextHLC store) (fun clock => k existing clock)) w = (r, w') ->
  db_ok store (db w) ->
  (exists e, r = Err e /\ db_ok store (db w') /\ same_data (db w) (db w')) \/
  exists clock w1, k (abs store (db w) !! oid) clock w1 = (r, w') /\
    same_data (db w) (db w1) /\ db_ok store (db w1) /\ hlc_ok clock /\
    (WallMillis clock = hlc_wall_ms (db w1) /\ Counter clock = hlc_counter (db w1)) /\
    (forall p, abs store (db w) !! oid = Some p -> stored_ok store oid p).
Proof.
  intros H Hd. step_run H.
  2: { apply loadByID_inv in Hrun as [Hdb _]. left. exists e. rewrite Hdb. auto with yunpin. }
  destruct (load_sound _ _ _ _ Hrun Hd) as (Hdb & -> & He). clear Hrun.
  step_run H.
  - rewrite <- Hdb in Hd. destruct (nextHLC_sound _ _ _ Hrun Hd) as (Hsame & Hd1 & Hn & Hc).
    rewrite Hdb in Hsame. right. by eexists _, _.
  - apply nextHLC_inv in Hrun as [(? & _ & Hw)|(ph & Hw)].
    + left. exists e. rewrite Hw, Hdb. auto with yunpin.
    + destruct (next_clock _ _ _). by destruct Hw.
Qed.

(** [SaveExplicit] either fails, leaving every table but the clock as it was,
    or writes and enqueues the phrase. *)
Lemma SaveExplicit_inv phrase w r w' :
  db_ok store (db w) -> input_ok phrase -> SaveExplicit store phrase w = (r, w') ->
  db_ok store (db w') /\
  ((exists e, r = Err e) /\ same_data (db w) (db w') \/
   r = Ok tt /\ exists oid p, objectID store phrase = Ok oid /\ wrote (db w) (db w') oid p true /\
     stored_ok store oid p /\ Text p = Text phrase /\ Pinyin p = Pinyin phrase /\
     Deleted p = false /\ PPinned p = PPinned phrase /\
     UseCount p = Z.max (known_count (abs store (db w) !! oid)) (UseCount phrase) /\
     Generation (presence (CRDT p)) = next_generation (abs store (db w) !! oid)).
Proof.
  intros Hd Hin H. unfold SaveExplicit in H.
  step_run H; injection Hrun as Ho <-; [|failed]. rename a into oid.
  apply begin_inv in H as [(? & -> & Hd' & Hs)|(clock & w1 & H & Hsame & Hd1 & Hn & _ & He)]; [failed| |done].
  remember (abs store (db w) !! oid) as existing eqn:Hx.
  set (source := if bool_decide _ then _ else _) in H.
  assert (ValidString source = true) as Hsrc.
  { unfold source. case_bool_decide; [done|apply Hin]. }
  step_run H; injection Hrun as He2 <-; [|failed]. rename a into p.
  destruct (explicit_ensured _ _ _ _ _ _ Hin Hsrc Ho He Hn He2) as (Hpk & Ht & Hp & Hu & Hg).
  pose proof Hpk as ([Pob (m & Hm & Hmk) Pg Pu _ _] & _ & _ & _ & _ & Putf).
  step_run H; injection Hrun as Hs2 <-; [|failed]. rename a into s.
  assert (Present (presence (CRDT p)) = true \/ Generation (presence (CRDT p)) < MaxUint64) as Hroom.
  { destruct (Present (presence (CRDT p))) eqn:Ep; [by left|right].
    destruct (Z.eq_dec (Generation (presence (CRDT p))) MaxUint64) as [Eg|]; [|lia].
    by rewrite (explicit_state_generation_exhausted store _ _ _ _ Ep Eg) in Hs2. }
  destruct (explicit_state_spec store (PPinned phrase) (UseCount phrase) clock _ m Hm Hmk (proj1 Hin) Pg Hroom)
    as (s' & m' & Hs' & Sob & Sc & Sk & St & Sp & Sg & Sv & Su).
  assert (s' = s) as -> by congruence.
  assert (state_utf8 s) as Hsu by (by apply Su).
  assert (1 <= Generation (presence s) <= MaxUint64) as Hsg
    by (rewrite Sg; destruct (Present (presence (CRDT p))); [lia|]; destruct Hroom; [done|lia]).
  pose proof (materialize_stored oid p s m' Hpk Sob Sc Sk Hsg Hsu) as Hfin.
  destruct (upsert_wrote w _ _ _ _ _ _ Hsame Hd1 Hfin H) as [Hd' Hres]. split; [done|].
  destruct Hres as [?|[-> Hw]]; [by left|right]. split; [done|].
  eexists oid, _. split; [done|]. split; [exact Hw|]. split; [done|]. cbn.
  rewrite Sp, Sv, Sc, St, Sg, Hg, <- Hx. split_and!; try done.
  rewrite <- Hm, <- Pu, Hu. destruct existing; cbn; [done|]. destruct Hin as [[? ?] _]. lia.
Qed.

(** *** RecordSelection *)

(** The record a selection is counted on: the stored one, or the given one. *)
Definition learned_base (existing : option Phrase) (phrase : Phrase) : Phrase :=
  match existing with Some e => e | None => set_source phrase (str "learned") end.

Definition learned_input_ok (phrase : Phrase) : Prop :=
  phrase_ranges phrase /\ phrase_utf8 (set_source phrase (str "learned")).

(** The count a record stands for. *)
Definition base_total (x : Phrase) : Z :=
  Z.max (totalCounts (Some (base_counts x))) (UseCount x).

Lemma base_total_stored oid e : stored_ok store oid e -> len oid = 16 -> base_total e = UseCount e.
Proof.
  intros ([Ho (c & Hc & _) _ Hu _ _] & _) Hl. unfold base_total, base_counts.
  rewrite bool_decide_eq_false_2.
  - rewrite Hu, Hc. simpl default. lia.
  - rewrite Ho. intros Eq. apply (f_equal len) in Eq. rewrite len_hex_encode, Hl in Eq. done.
Qed.

Lemma learned_base_sound existing phrase oid :
  learned_input_ok phrase -> objectID store phrase = Ok oid ->
  (forall e, existing = Some e -> stored_ok store oid e) ->
  phrase_ranges (learned_base existing phrase) /\ phrase_utf8 (learned_base existing phrase) /\
  objectID store (learned_base existing phrase) = Ok oid.
Proof.
  intros [Hr Hu] Ho He. destruct existing as [e|]; cbn.
  - pose proof (He e eq_refl) as Hok. split; [by eapply stored_ranges|]. destruct Hok as (_ & ? & ?). done.
  - split_and!; try done. by destruct Hr.
Qed.

Lemma totalCounts_increment m d :
  counts_ok (Some m) -> map_get m d < MaxUint64 ->
  totalCounts (Some (<[d := map_get m d + 1]> m)) = Z.min MaxUint64 (totalCounts (Some m) + 1) /\
  counts_ok (Some (<[d := map_get m d + 1]> m)).
Proof.
  intros Hm Hlt. pose proof (map_get_range m d Hm) as [Hg _].
  assert (in_u64 (map_get m d + 1)) as Hc by (unfold in_u64; lia).
  pose proof (counts_ok_insert d _ m Hc Hm) as Hok. split; [|done].
  rewrite !totalCounts_spec by done. simpl default. rewrite counts_sum_insert. lia.
Qed.

Lemma RecordSelection_inv phrase learning w r w' :
  db_ok store (db w) -> learned_input_ok phrase -> RecordSelection store phrase learning w = (r, w') ->
  db_ok store (db w') /\
  ((exists e, r = Err e) /\ same_data (db w) (db w') \/
   exists res, r = Ok res /\
   (Recorded res = false /\ SyncEligible res = false /\ same_data (db w) (db w') \/
    Recorded res = true /\ exists oid p m, objectID store phrase = Ok oid /\
      wrote (db w) (db w') oid p (SyncEligible res) /\ stored_ok store oid p /\ Deleted p = false /\
      (forall e, abs store (db w) !! oid = Some e -> Deleted e = false) /\
      UseCount p = Z.min MaxUint64 (base_total (learned_base (abs store (db w) !! oid) phrase) + 1) /\
      LUseCount res = UseCount p /\ SyncEligible res = (2 <=? UseCount p) /\
      Counts (CRDT p) = Some m /\
      map_get (base_counts (learned_base (abs store (db w) !! oid) phrase)) (deviceID store)
        < map_get m (deviceID store) /\
      (forall d, d <> deviceID store ->
         map_get m d = map_get (base_counts (learned_base (abs store (db w) !! oid) phrase)) d))).
Proof.
  intros Hd Hin H. unfold RecordSelection in H. destruct (Disabled learning).
  { injection H as <- <-. split; [done|]. right. eexists. split; [done|]. left. auto with yunpin. }
  step_run H; injection Hrun as Ho <-; [|failed]. rename a into oid.
  apply begin_inv in H as [(? & -> & Hd' & Hs)|(clock & w1 & H & Hsame & Hd1 & Hn & _ & He)]; [failed| |done].
  change (match abs store (db w) !! oid with Some e => e | None => set_source phrase (str "learned") end)
    with (learned_base (abs store (db w) !! oid) phrase) in H.
  destruct (learned_base_sound _ _ _ Hin Ho He) as (Br & Bu & Bo).
  step_run H; injection Hrun as He2 <-; [|failed]. rename a into p0.
  destruct (ensure_sound _ _ _ _ Br Bu Hn Bo He2) as (Hpk & _).
  destruct (ensurePhraseState_counts _ _ _ _ _ Br He2) as (m & Hm & Hmk & Ht & Hle & Hother).
  pose proof Hpk as ([_ _ Pg Pu _ _] & _ & _ & _ & _ & Putf).
  destruct (Present (presence (CRDT p0))) eqn:Ep; cbn [negb] in H.
  2: { injection H as <- <-. split; [done|]. right. eexists. split; [done|]. by left. }
  rewrite Hm in H. change (default ∅ (Some m)) with m in H. cbn [counts_get] in H.
  destruct (Z.eqb_spec (map_get m (deviceID store)) MaxUint64) as [Hfull|Hroom].
  { injection H as <- <-. failed. }
  assert (forall e, abs store (db w) !! oid = Some e -> Deleted e = false) as Hlive.
  { intros e Hx. rewrite Hx in He2. destruct (He e Hx) as (Hek & _).
    destruct (ensure_of_ok _ _ _ _ _ (OpaqueObjectID_len16 store _ _ Ho) Hek He2) as (_ & Hpr & _).
    by rewrite (ok_deleted _ _ Hek), <- Hpr, Ep. }
  pose proof (map_get_range m (deviceID store) Hmk) as [Hg0 Hg1].
  rewrite wrap_u64_id in H by (unfold in_u64; lia).
  step_run H; [|done]. injection Hrun as <- <-.
  destruct (totalCounts_increment m (deviceID store) Hmk ltac:(lia)) as [Htot Hmk'].
  set (s := set_counts (CRDT p0) (<[deviceID store := map_get m (deviceID store) + 1]> m)) in H.
  set (day := day_of (now_at (steps w1))) in H.
  assert (state_utf8 s) as Hsu.
  { destruct Putf as (U1 & U2 & U3 & U4). rewrite Hm in U2. split_and!; try done. by apply insert_utf8. }
  assert (stored_ok store oid (set_last_used p0 day)) as Hday.
  { destruct Hpk as ([A1 A2 A3 A4 A5 A6] & A & B). split; [by split|]. done. }
  pose proof (materialize_stored oid (set_last_used p0 day) s _ Hday eq_refl eq_refl Hmk' Pg Hsu) as Hfin.
  assert (Hsame2 : same_data (db w) (db (tick w1))) by done.
  remember (materializePhrase (set_crdt (set_last_used p0 day) s)) as p eqn:Hp in H, Hfin.
  step_run H.
  - destruct (upsert_wrote w _ _ _ _ _ _ Hsame2 Hd1 Hfin Hrun) as [Hd' Hres].
    injection H as <- <-. split; [done|]. destruct Hres as [[[? ?] _]|[_ Hw]]; [done|].
    right. eexists. split; [done|]. right. split; [done|]. exists oid, p. eexists. cbn [SyncEligible LUseCount].
    split; [done|]. split; [exact Hw|]. split; [done|]. rewrite Hp. cbn. rewrite Ep.
    split_and!; try done.
    + rewrite Htot, Ht. done.
    + rewrite map_get_insert, decide_True by done. pose proof (Hle (deviceID store)). lia.
    + intros d Hne. rewrite map_get_insert, decide_False by done. by apply Hother.
  - destruct (upsert_wrote w _ _ _ _ _ _ Hsame2 Hd1 Hfin Hrun) as [Hd' Hres].
    subst r. split; [done|]. left. destruct Hres as [[_ ?]|[? _]]; [eauto|done].
Qed.

(** *** Delete *)

Definition deleted_base (existing : option Phrase) (text pinyin : bytes) : Phrase :=
  match existing with
  | Some e => e
  | None => set_source (mkPhrase text pinyin [] 0 false false 0 zeroState) (str "tombstone")
  end.

Lemma deleted_base_sound existing text pinyin oid :
  ValidString text = true -> ValidString pinyin = true ->
  objectID store (mkPhrase text pinyin [] 0 false false 0 zeroState) = Ok oid ->
  (forall e, existing = Some e -> stored_ok store oid e) ->
  phrase_ranges (deleted_base existing text pinyin) /\ phrase_utf8 (deleted_base existing text pinyin) /\
  objectID store (deleted_base existing text pinyin) = Ok oid.
Proof.
  intros Ht Hp Ho He. destruct existing as [e|]; cbn.
  - pose proof (He e eq_refl) as Hok. split; [by eapply stored_ranges|]. destruct Hok as (_ & ? & ?). done.
  - split; [split; cbn; [by apply in_u64_small|apply counts_ok_empty|unfold MaxUint64; lia]|].
    split; [|done]. split_and!; try done. apply zeroState_utf8.
Qed.

Lemma Delete_inv text pinyin w r w' :
  db_ok store (db w) -> ValidString text = true -> ValidString pinyin = true ->
  Delete store text pinyin w = (r, w') ->
  db_ok store (db w') /\
  ((exists e, r = Err e) /\ same_data (db w) (db w') \/
   r = Ok tt /\ exists oid p, objectID store (mkPhrase text pinyin [] 0 false false 0 zeroState) = Ok oid /\
     wrote (db w) (db w') oid p true /\ stored_ok store oid p /\ Deleted p = true /\
     UseCount p = known_count (abs store (db w) !! oid) /\
     Generation (presence (CRDT p)) =
       match abs store (db w) !! oid with Some e => Generation (presence (CRDT e)) | None => 1 end).
Proof.
  intros Hd Ht Hy H. unfold Delete in H. cbv zeta in H.
  step_run H; injection Hrun as Ho <-; [|failed]. rename a into oid.
  pose proof (OpaqueObjectID_len16 store _ _ Ho) as Hl.
  apply begin_inv in H as [(? & -> & Hd' & Hs)|(clock & w1 & H & Hsame & Hd1 & Hn & _ & He)]; [failed| |done].
  change (match abs store (db w) !! oid with Some e => e
          | None => set_source (mkPhrase text pinyin [] 0 false false 0 zeroState) (str "tombstone") end)
    with (deleted_base (abs store (db w) !! oid) text pinyin) in H.
  destruct (deleted_base_sound _ _ _ _ Ht Hy Ho He) as (Br & Bu & Bo).
  step_run H; injection Hrun as He2 <-; [|failed]. rename a into p0.
  destruct (ensure_sound _ _ _ _ Br Bu Hn Bo He2) as (Hpk & _).
  pose proof Hpk as ([_ (m & Hm & Hmk) Pg Pu _ _] & _ & _ & _ & _ & Putf).
  set (s := set_presence _ _) in H.
  assert (state_utf8 s) as Hsu.
  { destruct Putf as (U1 & U2 & U3 & U4). split_and!; try done. }
  pose proof (materialize_stored oid p0 s m Hpk eq_refl Hm Hmk Pg Hsu) as Hfin.
  destruct (upsert_wrote w _ _ _ _ _ _ Hsame Hd1 Hfin H) as [Hd' Hres]. split; [done|].
  destruct Hres as [?|[-> Hw]]; [by left|right]. split; [done|].
  eexists oid, _. split; [done|]. split; [exact Hw|]. split; [done|]. cbn. rewrite <- Pu.
  destruct (abs store (db w) !! oid) as [e|] eqn:Ex.
  - destruct (He e eq_refl) as (Hek & _).
    destruct (ensure_of_ok _ _ _ _ _ Hl Hek He2) as (-> & _ & -> & _). done.
  - destruct (ensure_of_new _ _ _ _ _ Br eq_refl He2) as (-> & _ & -> & _). done.
Qed.

(** *** MergeRemotePayload *)

(** A decoded payload: the ranges of its Go types and valid text. *)
Definition payload_input_ok (payload : PhrasePayload) : Prop :=
  counts_ok (Counts (State payload)) /\ 0 <= Generation (presence (State payload)) <= MaxUint64 /\
  ValidString (PText payload) = true /\ ValidString (PPinyin payload) = true /\
  ValidString (PSource payload) = true /\ state_utf8 (State payload).

(** The content and state of a stored phrase, as a payload. *)
Definition phrase_payload (e : Phrase) : PhrasePayload :=
  mkPayload (Text e) (Pinyin e) (Source e) (LastUsedDay e) (CRDT e).

Lemma merge_payload_input_ok a b m :
  payload_input_ok a -> payload_input_ok b -> MergePhrasePayload a b = Ok m -> payload_input_ok m.
Proof.
  intros (Ca & Ga & Ta & Pa & Sa & Oa & Ka & Na & Ra) (Cb & Gb & Tb & Pb & Sb & Ob & Kb & Nb & Rb) H.
  unfold MergePhrasePayload in H. invert_ok. pose proof (MergePhrase_Ok _ _ _ Hok) as (_ & _ & Ho).
  unfold MergePhrase in Hok. invert_ok. unfold payload_input_ok, state_utf8. cbn. split_and!; try done.
  - by apply merge_counts_ok.
  - destruct (choosePresence_either (presence (State a)) (presence (State b))) as [-> | ->]; lia.
  - destruct (choosePresence_either (presence (State a)) (presence (State b))) as [-> | ->]; lia.
  - by destruct (chooseStableString_either (PText a) (PText b)) as [-> | ->].
  - by destruct (chooseStableString_either (PPinyin a) (PPinyin b)) as [-> | ->].
  - by destruct (chooseStableString_either (PSource a) (PSource b)) as [-> | ->].
  - intros d Hd%merge_counts_dom. destruct Hd; auto.
  - by destruct (chooseBool_either (Pinned (State a)) (Pinned (State b))) as [-> | ->].
  - by destruct (choosePresence_either (presence (State a)) (presence (State b))) as [-> | ->].
Qed.

Lemma stored_payload_input_ok oid e : stored_ok store oid e -> payload_input_ok (phrase_payload e).
Proof.
  intros ([_ (m & Hm & Hk) Hg _ _ _] & _ & Ht & Hp & Hs & Hu). unfold payload_input_ok. cbn.
  split_and!; try done; [by rewrite Hm|lia|lia|..]; apply Hu.
Qed.

(** The phrase that a merged payload is stored as. *)
Definition merged_phrase (merged : PhrasePayload) : Phrase :=
  materializePhrase
    (mkPhrase (PText merged) (PPinyin merged) (PSource merged) 0 false false (PLastUsedDay merged)
       (clonePhraseState (State merged))).

Lemma merged_stored oid merged :
  payload_input_ok merged -> validatePayloadObject merged (idKey store) = Ok oid ->
  stored_ok store oid (merged_phrase merged).
Proof.
  intros (Hc & Hg & Ht & Hp & Hs & U1 & U2 & U3 & U4)
    (Vt & Vp & Vo & Vid & Vg & (counts & Vc & Vd) & Vn)%validatePayloadObject_Ok.
  split; [|split].
  - split; try done; [|cbn; lia]. cbn. rewrite Vc in *. exists counts. done.
  - unfold objectID. cbn. by rewrite !bool_decide_eq_false_2.
  - by split_and!.
Qed.

(** The later of the two stamps of a state is not before either of them. *)
Lemma latest_clock_bound s wall counter :
  ~ clock_lt wall counter (WallMillis (latest_clock s)) (Counter (latest_clock s)) ->
  ~ clock_lt wall counter (WallMillis (Clock (Pinned s))) (Counter (Clock (Pinned s))) /\
  ~ clock_lt wall counter (WallMillis (PClock (presence s))) (Counter (PClock (presence s))).
Proof.
  unfold latest_clock, clock_lt, Compare. rewrite !Z.gtb_ltb.
  destruct (Z.ltb_spec (WallMillis (Clock (Pinned s))) (WallMillis (PClock (presence s))));
    [cbn; lia|].
  destruct (Z.ltb_spec (WallMillis (PClock (presence s))) (WallMillis (Clock (Pinned s))));
    [cbn; lia|].
  destruct (Z.ltb_spec (Counter (Clock (Pinned s))) (Counter (PClock (presence s)))); [cbn; lia|].
  destruct (Z.ltb_spec (Counter (PClock (presence s))) (Counter (Clock (Pinned s)))); [cbn; lia|].
  repeat case_match; lia.
Qed.

Lemma observe_sound clock w r w' :
  hlc_ok clock -> db_ok store (db w) -> observeHLC clock w = (r, w') ->
  same_data (db w) (db w') /\ db_ok store (db w') /\
  (r = Ok tt -> ~ clock_lt (hlc_wall_ms (db w')) (hlc_counter (db w')) (WallMillis clock) (Counter clock)) /\
  (r = Ok tt \/ exists e, r = Err e).
Proof.
  intros (_ & Hw & Hc) Hd H. pose proof (observeHLC_data _ _ _ _ H) as Hs. split; [done|].
  pose proof (db_clock _ _ Hd) as Hck.
  apply observeHLC_inv in H as [(e & -> & Hdb)|(-> & [[Hdb Hn]|[Hdb Hlt]])]; rewrite Hdb.
  - split; [done|]. split; [done|]. eauto.
  - split; [done|]. split; [done|]. by left.
  - split; [by apply (same_data_ok (db w))|]. split; [|by left].
    intros _. cbn. unfold clock_lt. lia.
Qed.

(** Whether the stored state was changed by the merge of a payload. *)
Definition merge_result (existing : option Phrase) (payload : PhrasePayload) : result PhrasePayload :=
  match existing with None => Ok payload | Some e => MergePhrasePayload (phrase_payload e) payload end.

Lemma MergeRemotePayload_inv payload w r w' :
  db_ok store (db w) -> payload_input_ok payload -> MergeRemotePayload store payload w = (r, w') ->
  db_ok store (db w') /\
  ((exists e, r = Err e) /\ same_data (db w) (db w') \/
   r = Ok tt /\ exists oid merged, validatePayloadObject payload (idKey store) = Ok oid /\
     merge_result (abs store (db w) !! oid) payload = Ok merged /\
     wrote (db w) (db w') oid (merged_phrase merged) false /\ stored_ok store oid (merged_phrase merged) /\
     ~ clock_lt (hlc_wall_ms (db w')) (hlc_counter (db w'))
         (WallMillis (Clock (Pinned (State merged)))) (Counter (Clock (Pinned (State merged)))) /\
     ~ clock_lt (hlc_wall_ms (db w')) (hlc_counter (db w'))
         (WallMillis (PClock (presence (State merged)))) (Counter (PClock (presence (State merged))))).
Proof.
  intros Hd Hin H. unfold MergeRemotePayload in H.
  step_run H; injection Hrun as Hv <-; [|failed]. rename a into oid.
  pose proof Hv as (_ & _ & Ho & Hid & _)%validatePayloadObject_Ok.
  pose proof (OpaqueObjectID_len _ _ _ _ Ho) as Hl.
  step_run H; [|apply loadByID_inv in Hrun as [Hdb _]; rewrite Hdb; failed].
  destruct (load_sound _ _ _ _ Hrun Hd) as (Hdb & Hx & He). rename a into existing. clear Hrun.
  rewrite <- Hdb in *. clear Hdb.
  assert (exists w1, db w1 = db w0 /\ bind (lift (merge_result existing payload)) (fun merged =>
     do! _ := lift (validatePayloadObject merged (idKey store)) in
     do! _ := observeHLC (latest_clock (CRDT (merged_phrase merged))) in
     upsert store (merged_phrase merged) false) w1 = (r, w')) as (w1 & Hw1 & H1).
  { destruct existing as [e|]; [|by eexists].
    assert (bool_decide (ObjectID (CRDT e) = []) = false) as Hne.
    { apply bool_decide_eq_false_2. destruct (He e eq_refl) as ([Eob _ _ _ _ _] & _). rewrite Eob.
      intros Eq. apply (f_equal len) in Eq. rewrite len_hex_encode, Hl in Eq. done. }
    rewrite Hne in H. exists w0. split; [done|]. exact H. }
  clear H. step_run H1; injection Hrun as Hm <-; [|rewrite Hw1 in *; failed]. rename a into merged.
  assert (payload_input_ok merged) as Hmin.
  { destruct existing as [e|]; cbn in Hm; [|by injection Hm as <-].
    eapply merge_payload_input_ok; [|exact Hin|exact Hm]. by eapply stored_payload_input_ok, He. }
  step_run H1; injection Hrun as Hv2 <-; [|rewrite Hw1 in *; failed].
  assert (a = oid) as ->.
  { apply validatePayloadObject_Ok in Hv2 as (_ & _ & _ & Hid2 & _).
    assert (ObjectID (State merged) = ObjectID (State payload)) as Hoo.
    { destruct existing as [e|]; cbn in Hm; [|by injection Hm as <-].
      unfold MergePhrasePayload in Hm. invert_ok. apply MergePhrase_Ok in Hok as (_ & Eq & Eq2). cbn in *. congruence. }
    apply hex_encode_inj. congruence. }
  pose proof (merged_stored _ _ Hmin Hv2) as Hst. rewrite <- Hw1 in Hd.
  assert (hlc_ok (latest_clock (CRDT (merged_phrase merged)))) as Hlk.
  { destruct Hst as (_ & _ & _ & _ & _ & _ & _ & U3 & U4). unfold latest_clock. by destruct (_ <? 0). }
  step_run H1; destruct (observe_sound _ _ _ _ Hlk Hd Hrun) as (Hs & Hd1 & Hck & Hcase).
  2: { rewrite Hw1 in Hs. failed. }
  destruct Hcase as [[= ->]|[? ?]]; [|done]. specialize (Hck eq_refl).
  apply latest_clock_bound in Hck. cbn in Hck. rewrite Hw1 in Hs.
  destruct (upsert_written store _ _ _ _ _ _ Hst H1) as [(e & -> & Heq)|(-> & Hwr & Hok)].
  { rewrite Heq. failed. }
  split; [by apply Hok|right]. split; [done|]. exists oid, merged. rewrite <- Hx.
  destruct (written_clock _ _ _ _ _ _ Hwr) as [-> ->]. split_and!; try done; [|apply Hck..].
  by exists (db w2).
Qed.

End operations.
