(* ===== verification/SyncState.v ===== *)
(** * The sync checkpoint of the local store ([localstore/sync_state.go])

    The row that records how far this device has synchronised: the download
    cursor, the next device sequence number with the hash it links to, and at
    most one upload that was staged before it was sent. *)

From S2P Require Import Prelude Encoding Unicode Crypto Envelope Crdt Phrase LocalStore LocalStoreFacts.

Definition maxPreparedWireBytes : Z := 1048576.

Record PreparedUpload := mkPrepared {
  EventID : Z; EventVersion : Z; DeviceSequence : Z; Wire : bytes; UEnvelopeHash : bytes
}.

Record SyncState := mkSyncState {
  SDeviceID : bytes; Cursor : Z; NextDeviceSequence : Z; SPreviousHash : bytes;
  Prepared : option PreparedUpload
}.

#[export] Instance PreparedUpload_eq_dec : EqDecision PreparedUpload.
Proof. solve_decision. Defined.

(** The CHECK constraints of the table. *)
Definition row_check (row : SyncRow) : bool :=
  (len (sync_device_id row) =? 32) && (0 <=? sync_cursor row) && (1 <=? next_device_sequence row)
  && match previous_hash row with None => true | Some h => len h =? 32 end
  && match prepared_event_id row, prepared_event_version row, prepared_device_sequence row,
           prepared_wire row, prepared_hash row with
     | None, None, None, None, None => true
     | Some i, Some v, Some s, Some w, Some h =>
         (0 <? i) && (0 <? v) && (0 <? s) && (0 <? len w) && (len h =? 32)
     | _, _, _, _, _ => false
     end.

(** UPDATE sync_state SET ... WHERE singleton = 1 AND device_id = ? [AND ...]:
    the number of rows affected. *)
Definition update_sync (device : bytes) (where_ : SyncRow -> bool) (f : SyncRow -> SyncRow) (d : Database)
    : result (Z * Database) :=
  match sync_state d with
  | Some row =>
      if bool_decide (sync_device_id row = device) && where_ row then
        if row_check (f row) then Ok (1, with_sync d (Some (f row))) else Err constraint_error
      else Ok (0, d)
  | None => Ok (0, d)
  end.

(** The row of this device, as a SELECT finds it. *)
Definition own_row (device : bytes) (d : Database) : option SyncRow :=
  match sync_state d with
  | Some row => if bool_decide (sync_device_id row = device) then Some row else None
  | None => None
  end.

Definition no_rows : error := errors_New "sql: no rows in result set".

Definition set_prepared (row : SyncRow) (upload : option PreparedUpload) : SyncRow :=
  mkSyncRow (sync_device_id row) (sync_cursor row) (next_device_sequence row) (previous_hash row)
    (EventID <$> upload) (EventVersion <$> upload) (DeviceSequence <$> upload)
    (Wire <$> upload) (UEnvelopeHash <$> upload).

Definition advance_chain (row : SyncRow) (sequence : Z) (hash : bytes) : SyncRow :=
  mkSyncRow (sync_device_id row) (sync_cursor row) sequence (Some hash) None None None None None.

Definition set_cursor (row : SyncRow) (cursor : Z) : SyncRow :=
  mkSyncRow (sync_device_id row) cursor (next_device_sequence row) (previous_hash row)
    (prepared_event_id row) (prepared_event_version row) (prepared_device_sequence row)
    (prepared_wire row) (prepared_hash row).

Section sync_state.
Context `{E : Environment} `{U : UnicodeTables}.
Variable store : Store.

Definition requireSync : result unit :=
  if negb (syncEnabled store) || negb (validSyncDeviceID (deviceID store)) then
    fail "store was not opened with OpenForDevice"
  else Ok tt.

(** The staged upload of a row: all five columns set, or none. *)
Definition prepared_of (row : SyncRow) : result (option PreparedUpload) :=
  match prepared_event_id row, prepared_event_version row, prepared_device_sequence row,
        prepared_wire row, prepared_hash row with
  | None, None, None, None, None => Ok None
  | Some id, Some version, Some sequence, wire, hash =>
      let wire := default [] wire in
      let hash := default [] hash in
      if (id <? 1) || (version <? 1) || (sequence <? 1) || (len wire =? 0) || negb (len hash =? 32)
      then fail "invalid persisted prepared upload"
      else Ok (Some (mkPrepared id version sequence wire hash))
  | _, _, _, _, _ => fail "invalid persisted prepared upload"
  end.

Definition LoadSyncState : M SyncState :=
  do! _ := lift requireSync in
  do! row := query (own_row (deviceID store)) in
  match row with
  | None => raise no_rows
  | Some row =>
      if next_device_sequence row <? 1 then raise (errors_New "invalid persisted device sequence")
      else
        do! prepared := lift (prepared_of row) in
        ret (mkSyncState (deviceID store) (sync_cursor row) (next_device_sequence row)
               (default [] (previous_hash row)) prepared)
  end.

Definition upload_ok (upload : PreparedUpload) : bool :=
  negb ((EventID upload <? 1) || (EventVersion upload <? 1) || (DeviceSequence upload <? 1)
        || (EventVersion upload >? MaxInt64) || (DeviceSequence upload >=? MaxInt64)
        || (len (Wire upload) =? 0) || (len (Wire upload) >? maxPreparedWireBytes)
        || negb (len (UEnvelopeHash upload) =? 32)).

Definition SavePreparedUpload (upload : PreparedUpload) : M unit :=
  do! _ := lift requireSync in
  if negb (upload_ok upload) then raise (errors_New "invalid prepared upload")
  else transaction (
    do! row := query (own_row (deviceID store)) in
    match row with
    | None => raise no_rows
    | Some row =>
        match prepared_event_id row with
        | Some existingID =>
            if (existingID =? EventID upload)
               && bool_decide (prepared_event_version row = Some (EventVersion upload))
               && bool_decide (prepared_device_sequence row = Some (DeviceSequence upload))
               && bool_decide (default [] (prepared_wire row) = Wire upload)
               && bool_decide (default [] (prepared_hash row) = UEnvelopeHash upload)
            then ret tt
            else raise (errors_New "a different upload is already prepared")
        | None =>
            if negb (next_device_sequence row =? DeviceSequence upload) then
              raise (errors_New "prepared upload sequence does not match checkpoint")
            else
              do! found := query (fun d => len (List.filter (fun r =>
                (event_id r =? EventID upload) && (version r =? EventVersion upload)) (outbox d))) in
              if negb (found =? 1) then
                raise (errors_New "outbox event changed before upload was prepared")
              else
                do! _ := statement (update_sync (deviceID store) (fun _ => true)
                                      (fun r => set_prepared r (Some upload))) in
                ret tt
        end
    end).

Definition CommitPreparedUpload : M bool :=
  do! _ := lift requireSync in
  transaction (
    do! row := query (own_row (deviceID store)) in
    match row with
    | None => raise no_rows
    | Some row =>
        match prepared_event_id row, prepared_event_version row, prepared_device_sequence row with
        | Some eventID, Some eventVersion, Some sequence =>
            let hash := default [] (prepared_hash row) in
            if (eventID <? 1) || (eventVersion <? 1) || (sequence <? 1) || negb (len hash =? 32)
               || (sequence =? MaxInt64) then
              raise (errors_New "invalid prepared upload checkpoint")
            else
              do! affected := statement (delete_outbox eventID eventVersion) in
              do! _ := statement (update_sync (deviceID store) (fun _ => true)
                                    (fun r => advance_chain r (sequence + 1) hash)) in
              ret (affected =? 1)
        | _, _, _ => raise (errors_New "sql: Scan error: converting NULL to int64 is unsupported")
        end
    end).

Definition AdvanceSyncCursor (expected next : Z) : M unit :=
  do! _ := lift requireSync in
  if (expected <? 0) || (next <? expected) then raise (errors_New "invalid sync cursor transition")
  else
    do! affected := statement (update_sync (deviceID store) (fun r => sync_cursor r =? expected)
                                 (fun r => set_cursor r next)) in
    if negb (affected =? 1) then raise (errors_New "sync cursor changed concurrently") else ret tt.

End sync_state.

(** ** What the operations do *)

(** A checkpoint is sound when the table's constraints hold and a staged upload
    carries the next sequence number. *)
Definition sync_ok (d : Database) : Prop :=
  forall row, sync_state d = Some row ->
    row_check row = true /\
    forall s, prepared_device_sequence row = Some s -> s = next_device_sequence row /\ s < MaxInt64.

Definition prepared_row (row : SyncRow) (upload : PreparedUpload) : Prop :=
  prepared_event_id row = Some (EventID upload) /\
  prepared_event_version row = Some (EventVersion upload) /\
  prepared_device_sequence row = Some (DeviceSequence upload) /\
  prepared_wire row = Some (Wire upload) /\ prepared_hash row = Some (UEnvelopeHash upload).

(** The checks a row with a staged upload passes. *)
Lemma row_check_prepared row i :
  row_check row = true -> prepared_event_id row = Some i ->
  exists upload, prepared_row row upload /\ 1 <= EventID upload /\ 1 <= EventVersion upload /\
    1 <= DeviceSequence upload /\ 0 < len (Wire upload) /\ len (UEnvelopeHash upload) = 32.
Proof.
  unfold row_check, prepared_row. intros H Hi. rewrite Hi in H. apply andb_prop in H as [_ H].
  destruct (prepared_event_version row) as [v|], (prepared_device_sequence row) as [s|],
    (prepared_wire row) as [w|], (prepared_hash row) as [h|]; try done. bools.
  exists (mkPrepared i v s w h). cbn. split_and!; try done; lia.
Qed.

Lemma row_check_unprepared row :
  row_check row = true -> prepared_event_id row = None ->
  prepared_event_version row = None /\ prepared_device_sequence row = None /\
  prepared_wire row = None /\ prepared_hash row = None.
Proof.
  unfold row_check. intros H Hi. rewrite Hi in H. apply andb_prop in H as [_ H].
  destruct (prepared_event_version row), (prepared_device_sequence row),
    (prepared_wire row), (prepared_hash row); done.
Qed.

Lemma prepared_of_row row upload :
  prepared_row row upload -> row_check row = true -> prepared_of row = Ok (Some upload).
Proof.
  intros (H1 & H2 & H3 & H4 & H5) Hc. unfold prepared_of, row_check in *.
  rewrite H1, H2, H3, H4, H5 in *. bools. cbn.
  rewrite !(proj2 (Z.ltb_ge _ _)) by lia. rewrite (proj2 (Z.eqb_neq _ _)) by lia.
  match goal with H : len (UEnvelopeHash _) = 32 |- _ => rewrite H end. by destruct upload.
Qed.

Section facts.
Context `{E : Environment} `{U : UnicodeTables}.
Variable store : Store.

Lemma own_row_Some device d row :
  own_row device d = Some row <-> sync_state d = Some row /\ sync_device_id row = device.
Proof.
  unfold own_row. destruct (sync_state d) as [r|]; [|split; [done|by intros [? _]]].
  case_bool_decide as Hb; split; try naive_solver.
Qed.

Lemma LoadSyncState_inv w r w' :
  LoadSyncState store w = (r, w') -> db w' = db w /\
  ((exists e, r = Err e) \/
   exists row prepared, own_row (deviceID store) (db w) = Some row /\ prepared_of row = Ok prepared /\
     r = Ok (mkSyncState (deviceID store) (sync_cursor row) (next_device_sequence row)
               (default [] (previous_hash row)) prepared)).
Proof.
  unfold LoadSyncState. intros H.
  step_run H; injection Hrun as Hr <-; [|subst; eauto].
  step_run H; apply query_inv in Hrun as (Hd & _ & Hq); [|subst; eauto]. split_and!.
  - destruct a0 as [row|]; [|by injection H as _ <-]. destruct (_ <? 1); [by injection H as _ <-|].
    step_run H; injection Hrun as Hp <-; [by injection H as _ <-|done].
  - destruct Hq as [[? ?]|[= ->]]; [done|].
    destruct (own_row _ _) as [row|]; [|injection H as <- _; eauto].
    destruct (_ <? 1); [injection H as <- _; eauto|].
    step_run H; injection Hrun as Hp <-; [|subst; eauto]. injection H as <- _. eauto 8.
Qed.

Lemma SavePreparedUpload_inv upload w r w' :
  sync_ok (db w) -> SavePreparedUpload store upload w = (r, w') ->
  (exists e, r = Err e /\ db w' = db w) \/
  (r = Ok tt /\ upload_ok upload = true /\ exists row,
     own_row (deviceID store) (db w) = Some row /\
     (db w' = db w /\ prepared_row row upload \/
      prepared_event_id row = None /\ next_device_sequence row = DeviceSequence upload /\
      db w' = with_sync (db w) (Some (set_prepared row (Some upload))) /\
      row_check (set_prepared row (Some upload)) = true /\
      exists ev, ev ∈ outbox (db w) /\ event_id ev = EventID upload /\ version ev = EventVersion upload)).
Proof.
  intros Hok H. unfold SavePreparedUpload in H.
  step_run H; injection Hrun as Hr <-; [|subst; eauto].
  destruct (upload_ok upload) eqn:Eu; cbn [negb] in H; [|injection H as <- <-; eauto].
  apply transaction_inv in H as [?|([] & w1 & -> & H & Hdb)]; [by left|right].
  split; [done|]. split; [done|].
  step_run H; [|done]. apply query_inv in Hrun as (Hd & _ & [[? ?]|[= ->]]); [done|]. cbn [db tick] in *.
  destruct (own_row (deviceID store) (db w)) as [row|] eqn:Er; [|done]. exists row. split; [done|].
  pose proof Er as [Hs Hdev]%own_row_Some. destruct (Hok _ Hs) as [Hck _].
  destruct (prepared_event_id row) as [i|] eqn:Ei.
  - destruct (_ && _) eqn:Ec; [|done]. injection H as <-. left. rewrite Hdb, Hd. split; [done|]. bools.
    destruct (row_check_prepared _ _ Hck Ei) as (u & (U1 & U2 & U3 & U4 & U5) & _).
    rewrite U4, U5 in *. cbn in *. unfold prepared_row. split_and!; congruence.
  - right. destruct (negb _) eqn:En; [done|]. bools.
    step_run H; [|done]. apply query_inv in Hrun as (Hd1 & _ & [[? ?]|[= ->]]); [done|].
    destruct (negb _) eqn:Ef; [done|]. bools.
    step_run H; [|done]. apply statement_inv in Hrun as [(_ & ? & ? & _)|(_ & n & _ & Hup)]; [done|].
    injection H as <-. rewrite Hdb. rewrite Hd1, Hd in Hup. unfold update_sync in Hup.
    rewrite Hs, bool_decide_eq_true_2 in Hup by done. cbn [andb] in Hup.
    destruct (row_check (set_prepared row (Some upload))) eqn:Eck; [|done]. injection Hup as _ <-.
    split_and!; try done. rewrite Hd in Ef.
    destruct (List.filter _ (outbox (db w))) as [|ev l] eqn:Efl; [done|]. exists ev.
    assert (In ev (List.filter (fun r => (event_id r =? EventID upload) && (version r =? EventVersion upload))
      (outbox (db w)))) as [Hin Hev]%filter_In by (rewrite Efl; by left).
    bools. split; [by apply list_elem_of_In|done].
Qed.

Lemma CommitPreparedUpload_inv w r w' :
  sync_ok (db w) -> CommitPreparedUpload store w = (r, w') ->
  (exists e, r = Err e /\ db w' = db w) \/
  (exists row upload, own_row (deviceID store) (db w) = Some row /\ prepared_row row upload /\
     DeviceSequence upload = next_device_sequence row /\ DeviceSequence upload < MaxInt64 /\
     sync_state (db w') = Some (advance_chain row (DeviceSequence upload + 1) (UEnvelopeHash upload)) /\
     row_check (advance_chain row (DeviceSequence upload + 1) (UEnvelopeHash upload)) = true /\
     encrypted_phrases (db w') = encrypted_phrases (db w) /\ outbox_seq (db w') = outbox_seq (db w) /\
     generation (db w') = generation (db w) /\ hlc_wall_ms (db w') = hlc_wall_ms (db w) /\
     hlc_counter (db w') = hlc_counter (db w) /\
     outbox (db w') = List.filter (fun ev =>
       negb ((event_id ev =? EventID upload) && (version ev =? EventVersion upload))) (outbox (db w)) /\
     r = Ok (len (List.filter (fun ev =>
       (event_id ev =? EventID upload) && (version ev =? EventVersion upload)) (outbox (db w))) =? 1)).
Proof.
  intros Hok H. unfold CommitPreparedUpload in H.
  step_run H; injection Hrun as Hr <-; [|subst; eauto].
  apply transaction_inv in H as [?|(b & w1 & -> & H & Hdb)]; [by left|right].
  step_run H; [|done]. apply query_inv in Hrun as (Hd & _ & [[? ?]|[= ->]]); [done|]. cbn [db tick] in *.
  destruct (own_row (deviceID store) (db w)) as [row|] eqn:Er; [|done].
  pose proof Er as [Hs Hdev]%own_row_Some. destruct (Hok _ Hs) as [Hck Hseq].
  destruct (prepared_event_id row) as [i|] eqn:Ei; [|done].
  destruct (row_check_prepared _ _ Hck Ei) as (u & Hu & _). pose proof Hu as (U1 & U2 & U3 & U4 & U5).
  rewrite U2, U3, U5 in H. destruct (Hseq _ U3) as [Hnext Hmax]. cbn [default] in H.
  destruct (_ || _) eqn:Eg; [done|].
  step_run H; [|done]. apply statement_inv in Hrun as [(_ & ? & ? & _)|(_ & n & [= ->] & Hdel)]; [done|].
  step_run H; [|done]. apply statement_inv in Hrun as [(_ & ? & ? & _)|(_ & n' & _ & Hup)]; [done|].
  injection H as <- <-. unfold delete_outbox in Hdel. rewrite Hd in Hdel. injection Hdel as Hn Hd2.
  assert (i = EventID u) as -> by congruence.
  unfold update_sync in Hup. rewrite <- Hd2 in Hup. cbn [with_outbox sync_state] in Hup.
  rewrite Hs, bool_decide_eq_true_2 in Hup by done. cbn [andb] in Hup.
  destruct (row_check (advance_chain row (DeviceSequence u + 1) (UEnvelopeHash u))) eqn:Eck.
  2: { change (id (UEnvelopeHash u)) with (UEnvelopeHash u) in Hup. by rewrite Eck in Hup. }
  change (id (UEnvelopeHash u)) with (UEnvelopeHash u) in Hup. rewrite Eck in Hup. injection Hup as _ Hup.
  exists row, u. rewrite Hdb, <- Hup. cbn. split_and!; try done. by rewrite <- Hn.
Qed.

Lemma AdvanceSyncCursor_inv expected next w r w' :
  AdvanceSyncCursor store expected next w = (r, w') ->
  (exists e, r = Err e /\ db w' = db w) \/
  (r = Ok tt /\ 0 <= expected <= next /\ exists row, own_row (deviceID store) (db w) = Some row /\
     sync_cursor row = expected /\ row_check (set_cursor row next) = true /\
     db w' = with_sync (db w) (Some (set_cursor row next))).
Proof.
  unfold AdvanceSyncCursor. intros H.
  step_run H; injection Hrun as Hr <-; [|subst; eauto].
  destruct (_ || _) eqn:Eb; [injection H as <- <-; eauto|]. bools.
  step_run H.
  2: { apply statement_inv in Hrun as [(_ & ? & _ & Hd)|(_ & ? & ? & _)]; [left; eauto|done]. }
  apply statement_inv in Hrun as [(_ & ? & ? & _)|(_ & n & [= ->] & Hup)]; [done|].
  unfold update_sync in Hup. destruct (sync_state (db w)) as [row|] eqn:Es.
  2: { injection Hup as <- Hd. cbn in H. injection H as <- <-. left. eauto. }
  destruct (bool_decide _ && _) eqn:Eq.
  - destruct (row_check (set_cursor row next)) eqn:Eck; [|done]. injection Hup as <- Hup.
    cbn in H. injection H as <- <-. right. bools. split; [done|]. split; [done|]. exists row.
    split; [by apply own_row_Some|]. done.
  - injection Hup as <- Hd. cbn in H. injection H as <- <-. left. eauto.
Qed.

End facts.
