(* ===== verification/StoreProps.v ===== *)
(** * Theorems about the local store

    The invariant of every reachable database, the atomicity of the mutations,
    what each of them achieves, the hybrid logical clock, the outbox and the
    staged upload. *)

From S2P Require Import Prelude Encoding Unicode Crypto Envelope Crdt Phrase LocalStore LocalStoreFacts SyncState.

(** ** Rows that stay *)

Lemma StronglySorted_map_filter {A} (f : A -> Z) (p : A -> bool) l :
  StronglySorted Z.lt (map f l) -> StronglySorted Z.lt (map f (List.filter p l)).
Proof.
  induction l as [|x l IH]; simpl; intros H; [done|]. inversion_clear H as [|? ? Hs Hf].
  destruct (p x); [|by apply IH]. simpl. constructor; [by apply IH|].
  rewrite Forall_map in *. apply Forall_forall. intros y Hy%list_elem_of_In%filter_In.
  rewrite Forall_forall in Hf. apply Hf. apply list_elem_of_In, Hy.
Qed.

Lemma Forall_list_filter {A} (P : A -> Prop) (p : A -> bool) l :
  Forall P l -> Forall P (List.filter p l).
Proof.
  rewrite !Forall_forall. intros H x Hx%list_elem_of_In%filter_In. apply H, list_elem_of_In, Hx.
Qed.

Lemma NoDup_map_filter {A B} (f : A -> B) (p : A -> bool) l :
  NoDup (map f l) -> NoDup (map f (List.filter p l)).
Proof.
  induction l as [|x l IH]; simpl; intros H; [done|]. apply NoDup_cons in H as [Hn H].
  destruct (p x); [|by apply IH]. simpl. apply NoDup_cons. split; [|by apply IH].
  intros (y & Hy & Hin)%list_elem_of_fmap. apply Hn, list_elem_of_fmap. exists y. split; [done|].
  apply list_elem_of_In in Hin as [Hin _]%filter_In. by apply list_elem_of_In.
Qed.

Section steps.
Context `{E : Environment} `{P : Primitives} {PL : PrimitiveLaws P} `{U : UnicodeTables}.
Context `{J : Codec Phrase} {JL : JsonLaws J}.
Variable store : Store.

(** One operation of the store, by any caller with admissible arguments, in a
    world where any statement may fail. *)
Inductive store_step : World -> World -> Prop :=
  | step_save phrase r w w' :
      input_ok phrase -> SaveExplicit store phrase w = (r, w') -> store_step w w'
  | step_record phrase learning r w w' :
      learned_input_ok phrase -> RecordSelection store phrase learning w = (r, w') -> store_step w w'
  | step_delete text pinyin r w w' :
      ValidString text = true -> ValidString pinyin = true ->
      Delete store text pinyin w = (r, w') -> store_step w w'
  | step_merge payload r w w' :
      payload_input_ok payload -> MergeRemotePayload store payload w = (r, w') -> store_step w w'
  | step_ack eventID eventVersion r w w' :
      AckPending eventID eventVersion w = (r, w') -> store_step w w'
  | step_prepare upload r w w' :
      SavePreparedUpload store upload w = (r, w') -> store_step w w'
  | step_commit r w w' : CommitPreparedUpload store w = (r, w') -> store_step w w'
  | step_cursor expected next r w w' :
      AdvanceSyncCursor store expected next w = (r, w') -> store_step w w'
  | step_refill w w' : db w' = db w -> store_step w w'.

Definition store_inv (d : Database) : Prop := db_ok store d /\ sync_ok d.

Lemma same_data_sync d d' : same_data d d' -> sync_ok d -> sync_ok d'.
Proof. intros (_ & _ & _ & _ & H) Hs row. rewrite H. apply Hs. Qed.

Lemma wrote_sync d d' oid p q : wrote store d d' oid p q -> sync_ok d -> sync_ok d'.
Proof.
  intros (d1 & Hs & Hw) Hok row. rewrite (written_sync _ _ _ _ _ _ Hw). by apply (same_data_sync d).
Qed.

(** Removing outbox rows keeps a database sound. *)
Lemma remove_events_ok d d' keep :
  db_ok store d -> outbox d' = List.filter keep (outbox d) -> outbox_seq d' = outbox_seq d ->
  encrypted_phrases d' = encrypted_phrases d -> hlc_wall_ms d' = hlc_wall_ms d ->
  hlc_counter d' = hlc_counter d -> db_ok store d'.
Proof.
  intros [A B (C1 & C2 & C3) D F G] H1 H2 H3 H4 H5. split; rewrite ?H1, ?H2, ?H3.
  - done.
  - by apply Forall_list_filter.
  - split_and!; [by apply StronglySorted_map_filter| |done].
    rewrite Forall_map in *. by apply Forall_list_filter.
  - by apply NoDup_map_filter.
  - intros row Hin%list_elem_of_In%filter_In. apply F, list_elem_of_In, Hin.
  - unfold clock_range in *. by rewrite H4, H5.
Qed.

Lemma with_sync_ok d s : db_ok store d -> db_ok store (with_sync d s).
Proof. intros [A B C D F G]. by split. Qed.

Lemma AckPending_inv eventID eventVersion w r w' :
  AckPending eventID eventVersion w = (r, w') ->
  (exists e, r = Err e /\ db w' = db w) \/
  (r = Ok (len (List.filter (fun ev => (event_id ev =? eventID) && (version ev =? eventVersion))
        (outbox (db w))) =? 1) /\
   db w' = with_outbox (db w) (List.filter (fun ev =>
     negb ((event_id ev =? eventID) && (version ev =? eventVersion))) (outbox (db w))) (outbox_seq (db w))).
Proof.
  unfold AckPending. intros H. step_run H; apply statement_inv in Hrun as
    [(_ & e' & He & Hd)|(_ & n & He & Hd)]; try done.
  - injection He as ->. injection H as <- <-. unfold delete_outbox in Hd. injection Hd as <- <-. by right.
  - left. eauto.
Qed.

Hypothesis device_text : ValidString (deviceID store) = true.
Hypothesis clock_readings : forall n, in_i64 (now_at n).

Lemma step_inv w w' : store_step w w' -> store_inv (db w) -> store_inv (db w').
Proof.
  intros Hstep [Hd Hs]. destruct Hstep.
  - destruct (SaveExplicit_inv store device_text clock_readings _ _ _ _ Hd H H0)
      as (Hd' & [[_ ?]|(_ & oid & p & _ & Hw & _)]); (split; [done|]);
      [by eapply same_data_sync|by eapply wrote_sync].
  - destruct (RecordSelection_inv store device_text clock_readings _ _ _ _ _ Hd H H0)
      as (Hd' & [[_ ?]|(res & _ & [(_ & _ & ?)|(_ & oid & p & m & _ & Hw & _)])]); (split; [done|]);
      [by eapply same_data_sync|by eapply same_data_sync|by eapply wrote_sync].
  - destruct (Delete_inv store device_text clock_readings _ _ _ _ _ Hd H H0 H1)
      as (Hd' & [[_ ?]|(_ & oid & p & _ & Hw & _)]); (split; [done|]);
      [by eapply same_data_sync|by eapply wrote_sync].
  - destruct (MergeRemotePayload_inv store _ _ _ _ Hd H H0)
      as (Hd' & [[_ ?]|(_ & oid & m & _ & _ & Hw & _)]); (split; [done|]);
      [by eapply same_data_sync|by eapply wrote_sync].
  - apply AckPending_inv in H as [(e & _ & ->)|(_ & Hdb)]; [done|]. rewrite Hdb. split; [|done].
    by eapply remove_events_ok.
  - apply SavePreparedUpload_inv in H as [(e & _ & ->)|(_ & Hu & row & Hrow & [[-> _]|(Hn & Hseq & Hdb & Hck & _)])];
      [done|done| |done]. rewrite Hdb. split; [by apply with_sync_ok|].
    intros row' [= <-]. split; [done|]. cbn. intros s [= <-]. split; [done|].
    unfold upload_ok in Hu. rewrite Z.geb_leb in Hu. bools. lia.
  - apply CommitPreparedUpload_inv in H as [(e & _ & ->)|(row & u & Hrow & Hu & Hnext & Hmax & Hst & Hck & Hp & Hq & Hg & Hw & Hc & Ho & _)];
      [done| |done]. split; [by eapply remove_events_ok|].
    intros row' Hrow'. rewrite Hst in Hrow'. injection Hrow' as <-. split; [done|]. done.
  - apply AdvanceSyncCursor_inv in H as [(e & _ & ->)|(_ & _ & row & Hrow & _ & Hck & Hdb)]; [done|].
    rewrite Hdb. split; [by apply with_sync_ok|]. intros row' [= <-]. split; [done|]. cbn.
    apply own_row_Some in Hrow as [Hr _]. by apply Hs in Hr as [_ Hr].
  - by rewrite H.
Qed.


Lemma empty_database_inv : store_inv empty_database.
Proof.
  split; [|intros row Hrow; done]. split.
  - intros oid row Hl. cbn in Hl. by rewrite lookup_empty in Hl.
  - by apply Forall_nil.
  - split_and!; [constructor|by apply Forall_nil|done].
  - apply NoDup_nil_2.
  - intros row Hin. by apply not_elem_of_nil in Hin.
  - done.
Qed.

(** C8: a mutation that reports an error has changed nothing but, possibly, the
    persisted clock: the phrases, the outbox, the generation and the checkpoint
    are exactly as before, at whichever statement it failed. *)
Theorem failed_mutation_changes_nothing (w w' : World) (e : error) (phrase : Phrase)
    (learning : LearningContext) (text pinyin : bytes) (payload : PhrasePayload) :
  db_ok store (db w) -> input_ok phrase -> learned_input_ok phrase ->
  ValidString text = true -> ValidString pinyin = true -> payload_input_ok payload ->
  SaveExplicit store phrase w = (Err e, w') \/ RecordSelection store phrase learning w = (Err e, w') \/
  Delete store text pinyin w = (Err e, w') \/ MergeRemotePayload store payload w = (Err e, w') ->
  same_data (db w) (db w').
Proof.
  intros Hd H1 H2 H3 H4 H5 [H|[H|[H|H]]].
  - by destruct (SaveExplicit_inv store device_text clock_readings _ _ _ _ Hd H1 H) as (_ & [[_ ?]|[? _]]).
  - destruct (RecordSelection_inv store device_text clock_readings _ _ _ _ _ Hd H2 H)
      as (_ & [[_ ?]|(? & ? & _)]); done.
  - by destruct (Delete_inv store device_text clock_readings _ _ _ _ _ Hd H3 H4 H) as (_ & [[_ ?]|[? _]]).
  - by destruct (MergeRemotePayload_inv store _ _ _ _ Hd H5 H) as (_ & [[_ ?]|[? _]]).
Qed.

End steps.

(** ** Runs without failing statements *)

Section forward.
Context `{E : Environment} `{P : Primitives} {PL : PrimitiveLaws P} `{U : UnicodeTables}.
Context `{J : Codec Phrase} {JL : JsonLaws J}.
Variable store : Store.
Hypothesis device_text : ValidString (deviceID store) = true.
Hypothesis clock_readings : forall n, in_i64 (now_at n).
Hypothesis no_faults : forall n, fault_at n = false.

Lemma bind_run {A B} (m : M A) (f : A -> M B) w a w1 : m w = (Ok a, w1) -> bind m f w = f a w1.
Proof. intros H. unfold bind. by rewrite H. Qed.

Lemma statement_run {A} (f : Database -> result (A * Database)) w a d :
  f (db w) = Ok (a, d) -> statement f w = (Ok a, tick (set_db w d)).
Proof. intros H. unfold statement. by rewrite no_faults, H. Qed.

Lemma query_run {A} (f : Database -> A) w : query f w = (Ok (f (db w)), tick w).
Proof. unfold query. erewrite statement_run by done. by destruct w. Qed.

Lemma transaction_run {A} (m : M A) w a w1 :
  m (tick w) = (Ok a, w1) -> transaction m w = (Ok a, tick w1).
Proof. intros H. unfold transaction. by rewrite no_faults, H, no_faults. Qed.

Lemma seal_run oid phrase w :
  encodable phrase = true -> 24 <= len (random w) ->
  exists n c w1, seal store oid phrase w = (Ok (n, c), w1) /\ len n = 24 /\ db w1 = db w /\
    len (random w1) = len (random w) - 24.
Proof.
  intros He Hr. destruct (recordKey_ok store oid) as (key & aead & Hk & Ha).
  destruct (marshal_ok phrase He) as [b Hb].
  destruct (ReadFull_ok NonceSizeX (random w)) as (out & rest & Hd & Hl & Hsplit); [unfold NonceSizeX; lia|].
  unfold seal, lift, bind, draw. rewrite Hb, Hk, Ha, Hd.
  eexists _, _, _. split; [done|]. split; [done|]. split; [done|]. cbn [random].
  rewrite Hsplit, len_app, Hl. unfold NonceSizeX. lia.
Qed.

Lemma upsert_run phrase enqueue w oid :
  objectID store phrase = Ok oid -> encodable phrase = true -> 48 <= len (random w) ->
  exists w', upsert store phrase enqueue w = (Ok tt, w').
Proof.
  intros Ho He Hr. pose proof (OpaqueObjectID_len16 _ _ _ Ho) as Hl.
  destruct (seal_run oid phrase w He ltac:(lia)) as (n & c & w1 & Hs & Hn & Hd & Hr1).
  destruct (seal_run oid phrase w1 He ltac:(lia)) as (n2 & c2 & w2 & Hs2 & Hn2 & Hd2 & Hr2).
  unfold upsert. erewrite bind_run by (unfold lift; by rewrite Ho).
  erewrite bind_run by exact Hs.
  assert (forall event w0, (match event with Some (n, c) => len n = 24 | None => True end) ->
    exists w', transaction (do! now := read_clock in
      do! _ := statement (insert_phrase oid n c now) in
      do! _ := bumpGeneration in
      match event with
      | Some (eventNonce, eventCiphertext) =>
          do! now := read_clock in statement (insert_outbox oid eventNonce eventCiphertext now)
      | None => ret tt
      end) w0 = (Ok tt, w')) as Htx.
  { intros event w0 Hev.
    match goal with |- exists w', transaction ?m w0 = _ =>
      assert (exists w1, m (tick w0) = (Ok tt, w1)) as [w1' Hw1']; [|eexists; by apply transaction_run] end.
    erewrite bind_run by reflexivity.
    erewrite bind_run by (apply statement_run; unfold insert_phrase; by rewrite Hl, Hn).
    erewrite bind_run by (by apply statement_run).
    destruct event as [[en ec]|]; [|by eexists].
    erewrite bind_run by reflexivity.
    match goal with |- exists w', statement (insert_outbox _ _ _ ?t) ?w0 = _ =>
      destruct (insert_outbox_ok oid en ec t (db w0) Hl Hev) as [d' Hd'] end.
    eexists. by apply statement_run. }
  destruct enqueue.
  - destruct (Htx (Some (n2, c2)) w2 Hn2) as [w' Hw']. exists w'.
    erewrite bind_run by (by erewrite bind_run by exact Hs2). exact Hw'.
  - destruct (Htx None w1 I) as [w' Hw']. exists w'. by erewrite bind_run by reflexivity.
Qed.

Lemma load_run oid w :
  db_ok store (db w) ->
  exists w1, loadByID store oid w = (Ok (abs store (db w) !! oid), w1) /\ db w1 = db w /\ random w1 = random w.
Proof.
  intros Hd. unfold loadByID. erewrite bind_run by apply query_run.
  destruct (encrypted_phrases (db w) !! oid) as [row|] eqn:El.
  - destruct (db_phrases _ _ Hd _ _ El) as (p & Hp & _). unfold row_phrase in Hp.
    unfold lift, bind. rewrite Hp. exists (tick w). split; [|done]. unfold ret. do 2 f_equal. symmetry.
    apply abs_lookup. eauto.
  - exists (tick w). split; [|done]. unfold ret. do 2 f_equal. symmetry.
    destruct (abs store (db w) !! oid) eqn:Ea; [|done]. apply abs_lookup in Ea as (? & ? & _). congruence.
Qed.

Lemma nextHLC_run w : exists clock w1, nextHLC store w = (Ok clock, w1) /\ random w1 = random w.
Proof.
  unfold nextHLC.
  match goal with |- exists clock w1, transaction ?m w = _ /\ _ =>
    assert (exists clock w1, m (tick w) = (Ok clock, w1) /\ random w1 = random w) as (clock & w1 & H1 & Hr) end.
  - erewrite bind_run by apply query_run. erewrite bind_run by apply query_run.
    erewrite bind_run by reflexivity. cbn [db tick steps].
    destruct (next_clock _ _ _) as [wall counter]. unfold set_wall, set_counter.
    erewrite bind_run by (by apply statement_run). erewrite bind_run by (by apply statement_run).
    by eexists _, _.
  - exists clock, (tick w1). split; [by apply transaction_run|done].
Qed.

(** Loading and stamping without failures. *)
Lemma begin_run {A} oid (k : option Phrase -> HLC -> M A) w :
  db_ok store (db w) ->
  exists clock w1,
    bind (loadByID store oid) (fun existing => bind (nextHLC store) (fun clock => k existing clock)) w
      = k (abs store (db w) !! oid) clock w1 /\
    hlc_ok clock /\ random w1 = random w /\
    (forall p, abs store (db w) !! oid = Some p -> stored_ok store oid p).
Proof.
  intros Hd. destruct (load_run oid w Hd) as (w1 & Hl & Hd1 & Hr1).
  destruct (nextHLC_run w1) as (clock & w2 & Hn & Hr2).
  assert (db_ok store (db w1)) as Hok1 by (by rewrite Hd1).
  destruct (nextHLC_sound store device_text clock_readings _ _ _ Hn Hok1) as (_ & _ & Hc & _).
  exists clock, w2. split_and!; [|done|congruence|].
  - erewrite bind_run by exact Hl. by erewrite bind_run by exact Hn.
  - intros p Hp. exact (db_ok_abs store _ _ _ Hd Hp).
Qed.

Lemma ensured_target oid x :
  len oid = 16 -> (phrase_ok oid x \/ ObjectID (CRDT x) = []) ->
  ObjectID (CRDT x) = [] \/ ObjectID (CRDT x) = Hex.EncodeToString oid.
Proof. intros Hl [Hx|Hx]; [right; apply Hx|by left]. Qed.

(** C10: [SaveExplicit] on a sound database, in a run without failing statements,
    of a phrase whose texts are UTF-8.  A phrase without a valid identity is
    refused with the error of [objectID] and nothing changes.  A phrase with one
    is saved, provided the random source still has the 48 bytes of the two nonces
    and the 64-bit generation of a deleted phrase is not used up: afterwards the
    phrase stored under its identifier has the given text, is not deleted, has
    the wanted pin and at least the wanted count (no counter wraps), has a new
    generation exactly when it had been deleted, is waiting in the outbox with
    that very content, and every other phrase is unchanged. *)
Theorem SaveExplicit_result (phrase : Phrase) (w : World) :
  db_ok store (db w) -> input_ok phrase -> 48 <= len (random w) ->
  (forall e, objectID store phrase = Err e -> SaveExplicit store phrase w = (Err e, w)) /\
  (forall oid, objectID store phrase = Ok oid -> next_generation (abs store (db w) !! oid) <= MaxUint64 ->
     exists w' p, SaveExplicit store phrase w = (Ok tt, w') /\
       abs store (db w') = <[oid := p]> (abs store (db w)) /\
       Text p = Text phrase /\ Deleted p = false /\ PPinned p = PPinned phrase /\
       UseCount p = Z.max (known_count (abs store (db w) !! oid)) (UseCount phrase) /\
       Generation (presence (CRDT p)) = next_generation (abs store (db w) !! oid) /\
       exists row, row ∈ outbox (db w') /\ out_object_id row = oid /\
         open store oid (out_nonce row) (out_ciphertext row) = Ok p).
Proof.
  intros Hd Hin Hr. split; [intros e He; unfold SaveExplicit, bind, lift; by rewrite He|].
  intros oid Ho Hgen. pose proof (OpaqueObjectID_len16 _ _ _ Ho) as Hl.
  assert (exists w', SaveExplicit store phrase w = (Ok tt, w')) as [w' Hrun].
  { unfold SaveExplicit. erewrite bind_run by (unfold lift; by rewrite Ho). cbv zeta.
    set (source := if bool_decide _ then _ else _).
    assert (ValidString source = true) as Hsrc by (unfold source; case_bool_decide; [done|apply Hin]).
    destruct (begin_run oid (fun existing clock =>
      do! ensured := lift (ensurePhraseState (explicit_base existing phrase source) oid (deviceID store) clock) in
      do! state := lift (explicit_state store (PPinned phrase) (UseCount phrase) clock (CRDT ensured)) in
      upsert store (materializePhrase (set_crdt ensured state)) true) w Hd) as (clock & w1 & -> & Hc & Hr1 & He).
    destruct (explicit_base_sound store _ _ _ _ Hin Hsrc Ho He) as (Br & Bu & Bo).
    destruct (ensurePhraseState_total (explicit_base (abs store (db w) !! oid) phrase source) oid (deviceID store) clock)
      as [p Hp].
    { apply ensured_target; [done|]. destruct (abs store (db w) !! oid) as [e|]; [left|by right].
      destruct (He e eq_refl) as (Hek & _). by destruct Hek. }
    unfold lift. erewrite bind_run by (by rewrite Hp).
    destruct (explicit_ensured store device_text _ _ _ _ _ _ Hin Hsrc Ho He Hc Hp) as (Hpk & _ & _ & _ & Hg).
    pose proof Hpk as ([Pob (m & Hm & Hmk) Pg _ _ _] & _ & _ & _ & _ & Putf).
    assert (Present (presence (CRDT p)) = true \/ Generation (presence (CRDT p)) < MaxUint64) as Hroom
      by (destruct (Present (presence (CRDT p))); [by left|right; lia]).
    destruct (explicit_state_spec store (PPinned phrase) (UseCount phrase) clock _ m Hm Hmk (proj1 Hin) Pg Hroom)
      as (s & m' & Hs & Sob & Sc & Sk & _ & _ & Sg & _ & Su).
    erewrite bind_run by (by rewrite Hs).
    assert (stored_ok store oid (materializePhrase (set_crdt p s))) as Hfin.
    { eapply materialize_stored; try done; [|by apply Su].
      rewrite Sg. destruct (Present (presence (CRDT p))); [lia|]. destruct Hroom; [done|lia]. }
    apply (upsert_run _ true w1 oid); [apply Hfin|by eapply stored_encodable|by rewrite Hr1]. }
  destruct (SaveExplicit_inv store device_text clock_readings _ _ _ _ Hd Hin Hrun)
    as (_ & [[[? ?] _]|(_ & oid' & p & Ho' & Hw & _ & Ht & _ & Hdel & Hpin & Hu & Hg)]); [done|].
  assert (oid' = oid) as -> by congruence.
  exists w', p. split; [done|]. split; [by eapply wrote_abs|]. split_and!; try done.
  destruct Hw as (d1 & _ & Hwr). apply (written_event _ _ _ _ _ _ Hwr).
Qed.

(** The live record a selection is counted on, brought up to date. *)
Lemma selection_target phrase oid existing clock :
  len oid = 16 -> learned_input_ok phrase -> objectID store phrase = Ok oid ->
  ObjectID (CRDT phrase) = [] -> hlc_ok clock ->
  (forall e, existing = Some e -> stored_ok store oid e) ->
  Deleted (learned_base existing phrase) = false -> base_total (learned_base existing phrase) < MaxUint64 ->
  exists p m, ensurePhraseState (learned_base existing phrase) oid (deviceID store) clock = Ok p /\
    stored_ok store oid p /\ Present (presence (CRDT p)) = true /\ Counts (CRDT p) = Some m /\
    counts_ok (Some m) /\ map_get m (deviceID store) < MaxUint64.
Proof.
  intros Hl Hin Ho Hnew Hc He Hlive Hroom.
  destruct (learned_base_sound store _ _ _ Hin Ho He) as (Br & Bu & Bo).
  assert (phrase_ok oid (learned_base existing phrase) \/
          ObjectID (CRDT (learned_base existing phrase)) = []) as Hkind.
  { destruct existing as [e|]; [left|by right]. by destruct (He e eq_refl). }
  destruct (ensurePhraseState_total (learned_base existing phrase) oid (deviceID store) clock)
    as [p Hp]; [by apply ensured_target|].
  destruct (ensure_sound store device_text _ _ _ _ Br Bu Hc Bo Hp) as (Hpk & _).
  destruct (ensurePhraseState_counts _ _ _ _ _ Br Hp) as (m & Hm & Hmk & Ht & _).
  exists p, m. split_and!; try done.
  - destruct Hkind as [Hk|Hk].
    + destruct (ensure_of_ok _ _ _ _ _ Hl Hk Hp) as (_ & -> & _).
      pose proof (ok_deleted _ _ Hk) as Hdel. rewrite Hlive in Hdel. by destruct (Present _).
    + destruct (ensure_of_new _ _ _ _ _ Br Hk Hp) as (_ & -> & _). by rewrite Hlive.
  - fold (base_total (learned_base existing phrase)) in Ht.
    pose proof (map_get_le_sum m (deviceID store) Hmk).
    rewrite totalCounts_spec in Ht by done. simpl default in Ht. lia.
Qed.

(** The last part of [RecordSelection]: counting and writing. *)
Lemma selection_stored oid p m day :
  stored_ok store oid p -> Counts (CRDT p) = Some m -> counts_ok (Some m) ->
  map_get m (deviceID store) < MaxUint64 ->
  stored_ok store oid (materializePhrase (set_crdt (set_last_used p day)
    (set_counts (CRDT p) (<[deviceID store := map_get m (deviceID store) + 1]> m)))).
Proof.
  intros Hpk Hm Hmk Hroom. destruct (totalCounts_increment m (deviceID store) Hmk Hroom) as [_ Hmk'].
  pose proof Hpk as ([A1 A2 A3 A4 A5 A6] & A & T1 & T2 & T3 & U1 & U2 & U3 & U4).
  eapply (materialize_stored store oid (set_last_used p day)); try done.
  split_and!; try done. cbn. rewrite Hm in U2. by apply insert_utf8.
Qed.

Lemma RecordSelection_run phrase oid w :
  db_ok store (db w) -> learned_input_ok phrase -> objectID store phrase = Ok oid ->
  ObjectID (CRDT phrase) = [] -> 48 <= len (random w) ->
  Deleted (learned_base (abs store (db w) !! oid) phrase) = false ->
  base_total (learned_base (abs store (db w) !! oid) phrase) < MaxUint64 ->
  exists w' res, RecordSelection store phrase (mkLearning false false false) w = (Ok res, w') /\
    Recorded res = true.
Proof.
  intros Hd Hin Ho Hnew Hr Hlive Hroom. pose proof (OpaqueObjectID_len16 _ _ _ Ho) as Hl.
  unfold RecordSelection. cbn [Disabled PasswordField PrivateMode OneTimeInput orb].
  erewrite bind_run by (unfold lift; by rewrite Ho). cbv zeta.
  destruct (load_run oid w Hd) as (w0 & Hl0 & Hd0 & Hr0). erewrite bind_run by exact Hl0.
  destruct (nextHLC_run w0) as (clock & w1 & Hn & Hr1). erewrite bind_run by exact Hn.
  assert (db_ok store (db w0)) as Hok0 by (by rewrite Hd0).
  destruct (nextHLC_sound store device_text clock_readings _ _ _ Hn Hok0) as (_ & _ & Hc & _).
  assert (forall e, abs store (db w) !! oid = Some e -> stored_ok store oid e) as He
    by (intros e Hx; exact (db_ok_abs store _ _ _ Hd Hx)).
  destruct (selection_target phrase oid _ clock Hl Hin Ho Hnew Hc He Hlive Hroom)
    as (p & m & Hp & Hpk & Hpres & Hm & Hmk & Hmine). unfold learned_base in Hp.
  unfold lift. erewrite bind_run by (by rewrite Hp).
  rewrite Hpres, Hm. change (default ∅ (Some m)) with m. cbn [counts_get negb].
  pose proof (map_get_range m (deviceID store) Hmk) as [Hg0 _].
  rewrite (proj2 (Z.eqb_neq _ _)), wrap_u64_id by (unfold in_u64; lia).
  erewrite bind_run by reflexivity.
  pose proof (selection_stored oid p m (day_of (now_at (steps w1))) Hpk Hm Hmk Hmine) as Hfin.
  match goal with |- context [upsert store ?q ?b] =>
    destruct (upsert_run q b (tick w1) oid (proj1 (proj2 Hfin)) (stored_encodable store _ _ Hfin)) as [w' Hw'] end.
  { cbn. by rewrite Hr1, Hr0. }
  eexists _, _. erewrite bind_run by exact Hw'. split; [reflexivity|done].
Qed.

(** C30: in a run without failing statements, selecting a live phrase (or one not
    yet known) in an unprotected context counts it: the stored use count is one
    more than before, other devices' counters and other phrases are unchanged,
    and from the second use on, and only then, the phrase enters the outbox. *)
Theorem RecordSelection_result (phrase : Phrase) (oid : bytes) (w : World) :
  db_ok store (db w) -> learned_input_ok phrase -> objectID store phrase = Ok oid ->
  ObjectID (CRDT phrase) = [] -> 48 <= len (random w) ->
  Deleted (learned_base (abs store (db w) !! oid) phrase) = false ->
  base_total (learned_base (abs store (db w) !! oid) phrase) < MaxUint64 ->
  exists w' p res, RecordSelection store phrase (mkLearning false false false) w = (Ok res, w') /\
    Recorded res = true /\ abs store (db w') = <[oid := p]> (abs store (db w)) /\
    UseCount p = base_total (learned_base (abs store (db w) !! oid) phrase) + 1 /\
    LUseCount res = UseCount p /\ SyncEligible res = (2 <=? UseCount p) /\
    (forall d, d <> deviceID store -> counts_get (Counts (CRDT p)) d =
       map_get (base_counts (learned_base (abs store (db w) !! oid) phrase)) d) /\
    (if SyncEligible res then
       exists row, row ∈ outbox (db w') /\ out_object_id row = oid /\
         open store oid (out_nonce row) (out_ciphertext row) = Ok p
     else outbox (db w') = outbox (db w)).
Proof.
  intros Hd Hin Ho Hnew Hr Hlive Hroom. pose proof (OpaqueObjectID_len16 _ _ _ Ho) as Hl.
  destruct (RecordSelection_run phrase oid w Hd Hin Ho Hnew Hr Hlive Hroom) as (w' & res & Hrun & Hrec).
  destruct (RecordSelection_inv store device_text clock_readings _ _ _ _ _ Hd Hin Hrun)
    as (_ & [[[? ?] _]|(res' & [= <-] & [(? & _)|(_ & oid' & p & m & Ho' & Hw & _ & _ & _ & Hu & Hlu & Hel & Hm & _ & Hot)])]);
    [done|congruence|].
  assert (oid' = oid) as -> by congruence.
  exists w', p, res. split; [done|]. split; [done|]. split; [by eapply wrote_abs|].
  split; [rewrite Hu; lia|]. split; [done|]. split; [done|]. split; [rewrite Hm; exact Hot|].
  destruct Hw as (d1 & (_ & Ho1 & _) & Hwr). pose proof (written_event _ _ _ _ _ _ Hwr) as Hev.
  destruct (SyncEligible res); [done|]. destruct Hev as [-> _]. done.
Qed.

End forward.

(** ** Deletion, clocks and remote merges *)

Section more.
Context `{E : Environment} `{P : Primitives} {PL : PrimitiveLaws P} `{U : UnicodeTables}.
Context `{J : Codec Phrase} {JL : JsonLaws J}.
Variable store : Store.
Hypothesis device_text : ValidString (deviceID store) = true.
Hypothesis clock_readings : forall n, in_i64 (now_at n).

(** A deletion is not undone by use: after a successful [Delete], selecting
    the phrase (under any spelling with the same identifier, in any context, and
    whichever statements fail) records nothing and changes no table. *)
Theorem deleted_phrase_not_learned (text pinyin : bytes) (phrase : Phrase) (learning : LearningContext)
    (w w1 w2 : World) (r : result LearnResult) :
  db_ok store (db w) -> ValidString text = true -> ValidString pinyin = true ->
  Delete store text pinyin w = (Ok tt, w1) ->
  learned_input_ok phrase ->
  objectID store phrase = objectID store (mkPhrase text pinyin [] 0 false false 0 zeroState) ->
  RecordSelection store phrase learning w1 = (r, w2) ->
  same_data (db w1) (db w2) /\ (forall res, r = Ok res -> Recorded res = false).
Proof.
  intros Hd Ht Hp Hdel Hin Heq Hrec.
  destruct (Delete_inv store device_text clock_readings _ _ _ _ _ Hd Ht Hp Hdel)
    as (Hd1 & [[[? ?] _]|(_ & oid & p & Ho & Hw & _ & Hdeleted & _)]); [done|].
  destruct (RecordSelection_inv store device_text clock_readings _ _ _ _ _ Hd1 Hin Hrec)
    as (_ & [[[e ->] ?]|(res & -> & [(Hr & _ & ?)|(_ & oid' & p' & m & Ho' & _ & _ & _ & Hlive & _)])]).
  - done.
  - split; [done|]. by intros ? [= <-].
  - exfalso. assert (oid' = oid) as -> by congruence.
    rewrite (wrote_abs _ _ _ _ _ _ Hw) in Hlive. specialize (Hlive p ltac:(apply lookup_insert_eq)). congruence.
Qed.

(** Every stamp is later than the persisted clock was, and is what the
    clock becomes: consecutive stamps of a device strictly increase, even when
    the physical clock stands still or goes back (as long as the clock is not at
    its very last value). *)
Theorem nextHLC_increases (w w' : World) (clock : HLC) :
  clock_range (db w) -> nextHLC store w = (Ok clock, w') ->
  ~ (hlc_wall_ms (db w) = MaxInt64 /\ hlc_counter (db w) = MaxUint32) ->
  clock_lt (hlc_wall_ms (db w)) (hlc_counter (db w)) (WallMillis clock) (Counter clock) /\
  WallMillis clock = hlc_wall_ms (db w') /\ Counter clock = hlc_counter (db w') /\
  Node clock = deviceID store /\ clock_range (db w').
Proof.
  intros [Hw Hc] H Hlast. apply nextHLC_inv in H as [(? & ? & _)|(p & H)]; [done|].
  destruct (next_clock_range (hlc_wall_ms (db w)) (hlc_counter (db w)) p) as [R1 R2]; try done.
  { destruct (next_clock _ _ _). destruct H as (_ & _ & n & ->). apply clock_readings. }
  destruct (next_clock (hlc_wall_ms (db w)) (hlc_counter (db w)) p) as [wall c] eqn:En.
  cbn [fst snd] in *. destruct H as ([= ->] & Hdb & _).
  assert (wrap_u32 c = c) as Hwr by (unfold wrap_u32; apply Z.mod_small; unfold MaxUint32 in *; lia).
  rewrite Hdb. cbn. rewrite Hwr. split; [|done].
  unfold next_clock in En. rewrite Z.gtb_ltb, Z.geb_leb in En. unfold clock_lt.
  destruct (Z.ltb_spec (hlc_wall_ms (db w)) p); [injection En as <- <-; lia|].
  destruct (Z.leb_spec MaxUint32 (hlc_counter (db w))); injection En as <- <-; [|lia].
  left. rewrite wrap_i64_id; unfold in_i64, MinInt64, MaxInt64 in *; lia.
Qed.

(** At the last value of the clock the next stamp wraps around to the
    earliest time there is: a device that has seen such a stamp from another one
    stamps all its later events before everything else. *)
Theorem nextHLC_wraps (w w' : World) (clock : HLC) :
  hlc_wall_ms (db w) = MaxInt64 -> hlc_counter (db w) = MaxUint32 ->
  nextHLC store w = (Ok clock, w') -> WallMillis clock = MinInt64 /\ Counter clock = 0.
Proof.
  intros Hw Hc H. apply nextHLC_inv in H as [(? & ? & _)|(p & H)]; [done|].
  unfold next_clock in H. rewrite Hw, Hc, Z.gtb_ltb in H.
  destruct (Z.ltb_spec MaxInt64 p) as [Hp|Hp].
  - exfalso. destruct H as (_ & _ & n & ->). pose proof (clock_readings n) as [_ ?]. lia.
  - destruct H as ([= ->] & _). by vm_compute.
Qed.

Lemma clock_lt_Compare a b :
  clock_lt (WallMillis a) (Counter a) (WallMillis b) (Counter b) -> Compare a b < 0.
Proof.
  unfold clock_lt, Compare. rewrite !Z.gtb_ltb. intros H.
  destruct (Z.ltb_spec (WallMillis a) (WallMillis b)); [lia|].
  destruct (Z.ltb_spec (WallMillis b) (WallMillis a)); [lia|].
  destruct (Z.ltb_spec (Counter a) (Counter b)); lia.
Qed.

Lemma clone_equiv s : s ≡ clonePhraseState s.
Proof. split_and!; try done. intros d. cbn. by destruct (Counts s). Qed.

(** Merging a remote payload stores exactly the join of the stored state
    and the received one (the received one alone for a new phrase), without
    echoing it to the outbox, and the next local stamp is later than both stamps
    of the merged state. *)
Theorem merge_remote_then_stamp (payload : PhrasePayload) (w w1 w2 : World) (clock : HLC) :
  db_ok store (db w) -> payload_input_ok payload ->
  MergeRemotePayload store payload w = (Ok tt, w1) -> nextHLC store w1 = (Ok clock, w2) ->
  ~ (hlc_wall_ms (db w1) = MaxInt64 /\ hlc_counter (db w1) = MaxUint32) ->
  exists oid p, validatePayloadObject payload (idKey store) = Ok oid /\
    abs store (db w1) = <[oid := p]> (abs store (db w)) /\ outbox (db w1) = outbox (db w) /\
    (match abs store (db w) !! oid with
     | None => CRDT p ≡ State payload
     | Some e => MergePhrase (CRDT e) (State payload) ≡ Ok (CRDT p)
     end) /\
    Compare (Clock (Pinned (CRDT p))) clock < 0 /\ Compare (PClock (presence (CRDT p))) clock < 0.
Proof.
  intros Hd Hin Hm Hn Hlast.
  destruct (MergeRemotePayload_inv store _ _ _ _ Hd Hin Hm)
    as (Hd1 & [[[? ?] _]|(_ & oid & merged & Hv & Hres & Hw & _ & Hc1 & Hc2)]); [done|].
  destruct (nextHLC_increases _ _ _ (db_clock _ _ Hd1) Hn Hlast) as (Hlt & _).
  exists oid, (merged_phrase merged). split; [done|]. split; [by eapply wrote_abs|]. split_and!.
  - destruct Hw as (d1 & (_ & Ho & _) & Hwr). by destruct (written_event _ _ _ _ _ _ Hwr) as [-> _].
  - unfold merge_result in Hres. destruct (abs store (db w) !! oid) as [e|].
    + unfold MergePhrasePayload in Hres. invert_ok. cbn in Hok. rewrite Hok. apply clone_equiv.
    + injection Hres as <-. symmetry. apply clone_equiv.
  - apply clock_lt_Compare. unfold clock_lt in *. cbn. lia.
  - apply clock_lt_Compare. unfold clock_lt in *. cbn. lia.
Qed.

(** ** The outbox *)

Lemma sorted_unique (l : list OutboxRow) a b :
  StronglySorted Z.lt (map event_id l) -> a ∈ l -> b ∈ l -> event_id a = event_id b -> a = b.
Proof.
  induction l as [|x l IH]; intros Hs Ha Hb He; [by apply not_elem_of_nil in Ha|].
  cbn in Hs. inversion_clear Hs as [|? ? Hs' Hf]. rewrite Forall_map, Forall_forall in Hf.
  apply elem_of_cons in Ha as [->|Ha], Hb as [->|Hb]; [done| | |by apply IH].
  - apply Hf in Hb. lia.
  - apply Hf in Ha. lia.
Qed.

Lemma filter_none {A} (f : A -> bool) l : (forall x, x ∈ l -> f x = false) ->
  List.filter f l = [] /\ List.filter (fun x => negb (f x)) l = l.
Proof.
  induction l as [|x l IH]; intros H; [done|]. cbn. rewrite (H x) by (by left). cbn.
  destruct IH as [-> ->]; [intros; apply H; by right|]. done.
Qed.

(** No update is lost between sending and acknowledging: when the phrase of
    a pending event was changed again after the event was read, acknowledging
    the version that was read removes nothing and reports so, and the newer
    content stays in the outbox. *)
Theorem ack_keeps_newer_version (phrase : Phrase) (row : OutboxRow) (oid : bytes) (w w1 w2 : World)
    (b : bool) :
  db_ok store (db w) -> input_ok phrase -> row ∈ outbox (db w) -> out_object_id row = oid ->
  objectID store phrase = Ok oid -> SaveExplicit store phrase w = (Ok tt, w1) ->
  AckPending (event_id row) (version row) w1 = (Ok b, w2) ->
  b = false /\ outbox (db w2) = outbox (db w1) /\
  exists row' p, row' ∈ outbox (db w2) /\ out_object_id row' = oid /\
    open store oid (out_nonce row') (out_ciphertext row') = Ok p /\ abs store (db w2) !! oid = Some p.
Proof.
  intros Hd Hin Hrow Hobj Ho Hs Hack.
  destruct (SaveExplicit_inv store device_text clock_readings _ _ _ _ Hd Hin Hs)
    as (Hd1 & [[[? ?] _]|(_ & oid' & p & Ho' & Hw & _)]); [done|].
  assert (oid' = oid) as -> by congruence. pose proof (wrote_abs _ _ _ _ _ _ Hw) as Habs.
  destruct Hw as (d1 & (_ & Hout & _) & Hwr). rewrite <- Hout in Hrow.
  destruct (written_version _ _ _ _ _ _ Hwr eq_refl row Hrow Hobj) as (row1 & Hin1 & Hid & Hver).
  destruct (written_event _ _ _ _ _ _ Hwr) as (row' & Hin' & Hobj' & Hopen).
  apply AckPending_inv in Hack as [(? & ? & _)|([= ->] & Hdb)]; [done|].
  destruct (filter_none (fun ev => (event_id ev =? event_id row) && (version ev =? version row)) (outbox (db w1)))
    as [F1 F2].
  { intros ev Hev. destruct (Z.eqb_spec (event_id ev) (event_id row)) as [He|]; [|done]. cbn.
    assert (ev = row1) as -> by (eapply sorted_unique; [apply (db_event_ids _ _ Hd1)|done|done|congruence]).
    apply Z.eqb_neq. lia. }
  rewrite F1. rewrite F2 in Hdb. rewrite Hdb. split; [done|]. split; [done|].
  exists row', p. split_and!; try done.
  change (abs store (with_outbox (db w1) (outbox (db w1)) (outbox_seq (db w1)))) with (abs store (db w1)).
  rewrite Habs. apply lookup_insert_eq.
Qed.

End more.

(** ** The staged upload and the snapshot *)

Section checkpoint.
Context `{E : Environment} `{P : Primitives} {PL : PrimitiveLaws P} `{U : UnicodeTables}.
Context `{J : Codec Phrase} {JL : JsonLaws J}.
Variable store : Store.

(** At most one row of a sound outbox has a given event number. *)
Lemma event_filter_one d i v :
  StronglySorted Z.lt (map event_id (outbox d)) ->
  len (List.filter (fun ev => (event_id ev =? i) && (version ev =? v)) (outbox d)) =? 1 = true <->
  exists ev, ev ∈ outbox d /\ event_id ev = i /\ version ev = v.
Proof.
  intros Hs. split.
  - intros H%Z.eqb_eq. destruct (List.filter _ _) as [|ev l] eqn:Ef; [done|]. exists ev.
    assert (In ev (List.filter (fun ev => (event_id ev =? i) && (version ev =? v)) (outbox d)))
      as [Hin Hev]%filter_In by (rewrite Ef; by left).
    bools. split; [by apply list_elem_of_In|done].
  - intros (ev & Hin & Hi & Hv). apply Z.eqb_eq.
    assert (forall x, In x (List.filter (fun ev => (event_id ev =? i) && (version ev =? v)) (outbox d)) -> x = ev) as Hall.
    { intros x [Hx Hp]%filter_In. bools. eapply sorted_unique; [exact Hs|by apply list_elem_of_In|done|congruence]. }
    assert (In ev (List.filter (fun ev => (event_id ev =? i) && (version ev =? v)) (outbox d))) as Hev.
    { apply filter_In. split; [by apply list_elem_of_In|]. by rewrite Hi, Hv, !Z.eqb_refl. }
    pose proof (NoDup_map_filter event_id (fun ev => (event_id ev =? i) && (version ev =? v)) (outbox d)) as Hnd.
    destruct (List.filter _ (outbox d)) as [|x [|y l]] eqn:Ef; [by destruct Hev|done|].
    exfalso. assert (NoDup (map event_id (outbox d))) as Hn.
    { clear -Hs. induction (map event_id (outbox d)) as [|a m IH]; [apply NoDup_nil_2|].
      inversion_clear Hs as [|? ? Hm Hf]. apply NoDup_cons. split; [|by apply IH].
      intros Hin. rewrite Forall_forall in Hf. apply Hf in Hin. lia. }
    specialize (Hnd Hn). cbn in Hnd. apply NoDup_cons in Hnd as [Hnd _]. apply Hnd.
    rewrite (Hall x), (Hall y) by (cbn; auto). by left.
Qed.

(** Committing a staged upload is all or nothing.  Either it fails and the
    database is unchanged, or, in one transaction, the device sequence advances
    by exactly one past the staged one, the hash of the staged envelope becomes
    the link of the next, the stage is cleared, the cursor stays, exactly the
    sent version of the event leaves the outbox, and the result says whether it
    was still there. *)
Theorem commit_advances_chain (w w' : World) (r : result bool) (row : SyncRow) (upload : PreparedUpload) :
  db_ok store (db w) -> sync_ok (db w) ->
  own_row (deviceID store) (db w) = Some row -> prepared_row row upload ->
  CommitPreparedUpload store w = (r, w') ->
  (exists e, r = Err e /\ db w' = db w) \/
  exists b row', r = Ok b /\ own_row (deviceID store) (db w') = Some row' /\
    next_device_sequence row' = next_device_sequence row + 1 /\
    previous_hash row' = Some (UEnvelopeHash upload) /\ prepared_event_id row' = None /\
    sync_cursor row' = sync_cursor row /\ encrypted_phrases (db w') = encrypted_phrases (db w) /\
    (b = true <-> exists ev, ev ∈ outbox (db w) /\ event_id ev = EventID upload /\ version ev = EventVersion upload) /\
    (forall ev, ev ∈ outbox (db w') <-> ev ∈ outbox (db w) /\
       ~ (event_id ev = EventID upload /\ version ev = EventVersion upload)).
Proof.
  intros Hd Hs Hrow Hp H.
  apply CommitPreparedUpload_inv in H as [?|(row1 & u & Hrow1 & Hu & Hnext & _ & Hst & _ & Hph & _ & _ & _ & _ & Ho & ->)];
    [by left| |done].
  right. assert (row1 = row) as -> by congruence.
  assert (u = upload) as ->.
  { destruct Hu as (? & ? & ? & ? & ?), Hp as (? & ? & ? & ? & ?). destruct u, upload. cbn in *. congruence. }
  eexists _, _. split; [done|]. apply own_row_Some in Hrow as [_ Hdev].
  split; [apply own_row_Some; split; [exact Hst|done]|]. cbn. split_and!; try done; [lia| |].
  - apply event_filter_one, (db_event_ids _ _ Hd).
  - intros ev. rewrite Ho, !list_elem_of_In, filter_In, negb_true_iff, andb_false_iff, !Z.eqb_neq.
    destruct (Z.eq_dec (event_id ev) (EventID upload)), (Z.eq_dec (version ev) (EventVersion upload)); tauto.
Qed.

(** A staged upload is never replaced: until it is committed, staging the
    same upload again succeeds without a change and staging any other one fails
    without a change, so a retry after a lost response sends the same bytes. *)
Theorem staged_upload_is_kept (w w' : World) (r : result unit) (row : SyncRow) (upload other : PreparedUpload) :
  sync_ok (db w) -> own_row (deviceID store) (db w) = Some row -> prepared_row row upload ->
  SavePreparedUpload store other w = (r, w') ->
  db w' = db w /\ (r = Ok tt -> other = upload).
Proof.
  intros Hs Hrow Hp H.
  apply SavePreparedUpload_inv in H as [(e & -> & ->)|(-> & _ & row1 & Hrow1 & [[-> Hu]|(Hn & _)])]; [done| | |done].
  - split; [done|]. intros _. assert (row1 = row) as -> by congruence.
    destruct Hu as (? & ? & ? & ? & ?), Hp as (? & ? & ? & ? & ?). destruct other, upload. cbn in *. congruence.
  - assert (row1 = row) as -> by congruence. destruct Hp as (? & _). congruence.
Qed.

(** *** Snapshots *)

#[local] Instance id_le_total : Total (fun a b : bytes * PhraseRow => bytes_compare a.1 b.1 <> Gt).
Proof.
  intros a b. rewrite (cmp_antisym bytes_compare a.1 b.1). destruct (bytes_compare a.1 b.1); [left|left|right]; done.
Qed.

Lemma open_phrases_ok (Q : bytes -> Phrase -> Prop) rows :
  (forall oid row, (oid, row) ∈ rows -> exists p, row_phrase store oid row = Ok p /\ Q oid p) ->
  exists phrases, open_phrases store rows = Ok phrases /\ Forall2 (fun entry p => Q entry.1 p) rows phrases.
Proof.
  induction rows as [|[oid row] rows IH]; intros H; [exists []; split; [done|constructor]|].
  destruct (H oid row ltac:(by left)) as (p & Hp & Hq).
  destruct IH as (ps & Hps & Hf); [intros; apply H; by right|].
  exists (p :: ps). cbn. unfold row_phrase in Hp. rewrite Hp, Hps. split; [done|]. constructor; done.
Qed.

Lemma Sorted_fst {A} (R : bytes -> bytes -> Prop) (l : list (bytes * A)) :
  Sorted (fun a b => R a.1 b.1) l -> Sorted R l.*1.
Proof.
  induction 1 as [|a l Hs IH Hd]; cbn; constructor; [done|]. destruct Hd; cbn; by constructor.
Qed.

(** A snapshot of a sound database, taken without failing statements,
    carries the current generation and exactly the stored phrases, in the order
    of their identifiers. *)
Theorem Snapshot_complete (w : World) :
  (forall n, fault_at n = false) -> db_ok store (db w) ->
  exists snapshot w' ids, Snapshot store w = (Ok snapshot, w') /\ db w' = db w /\
    SGeneration snapshot = generation (db w) /\
    Forall2 (fun oid p => abs store (db w) !! oid = Some p) ids (SPhrases snapshot) /\
    (forall oid, oid ∈ ids <-> is_Some (abs store (db w) !! oid)) /\
    Sorted (fun a b => bytes_compare a b <> Gt) ids /\ NoDup ids.
Proof.
  intros Hf Hd. unfold Snapshot. erewrite bind_run by (by apply query_run).
  erewrite bind_run by (by apply query_run). cbn [db tick].
  pose proof (merge_sort_Permutation (fun a b : bytes * PhraseRow => bytes_compare a.1 b.1 <> Gt)
    (map_to_list (encrypted_phrases (db w)))) as Hperm.
  pose proof (Sorted_merge_sort (fun a b : bytes * PhraseRow => bytes_compare a.1 b.1 <> Gt)
    (map_to_list (encrypted_phrases (db w)))) as Hsort.
  fold (phrase_rows (db w)) in Hperm, Hsort.
  assert (forall oid row, (oid, row) ∈ phrase_rows (db w) <-> encrypted_phrases (db w) !! oid = Some row) as Hin.
  { intros oid row. rewrite Hperm. apply elem_of_map_to_list. }
  destruct (open_phrases_ok (fun oid p => abs store (db w) !! oid = Some p) (phrase_rows (db w))) as (ps & Hps & Hall).
  { intros oid row Hr%Hin. destruct (db_phrases _ _ Hd _ _ Hr) as (p & Hp & _).
    exists p. split; [done|]. apply abs_lookup. eauto. }
  unfold lift. erewrite bind_run by (by rewrite Hps).
  exists (mkSnapshot (generation (db w)) ps), (tick (tick w)), ((phrase_rows (db w)).*1).
  split; [reflexivity|]. split; [done|]. split; [done|]. cbn [SPhrases]. split_and!.
  - by apply Forall2_fmap_l.
  - intros oid. rewrite abs_dom, list_elem_of_fmap by done. split.
    + intros ([oid' row] & -> & Hr%Hin). eauto.
    + intros [row Hr%Hin]. by exists (oid, row).
  - exact (Sorted_fst (fun a b => bytes_compare a b <> Gt) _ Hsort).
  - rewrite Hperm. apply NoDup_fst_map_to_list.
Qed.

End checkpoint.

(** ** Witnesses *)

Section witnesses.
#[local] Existing Instance Sample.primitives.
#[local] Existing Instance Sample.primitive_laws.
#[local] Existing Instance ascii_tables.
#[local] Instance phrase_codec : Codec Phrase := Sample.codec Phrase.
#[local] Instance phrase_codec_laws : JsonLaws phrase_codec.
Proof. split; [apply Sample.codec_laws|done]. Qed.

(** A world without failures whose clock shows one second. *)
#[local] Instance quiet : Environment :=
  {| now_at _ := 1000; fault_at _ := false; conflict_uses_id := false |}.

Definition sample_store : Store :=
  mkStore (replicate 32 Byte.x0b) sample_id_key (Hex.EncodeToString sample_device) true.

Definition sample_world : World :=
  mkWorld (with_sync empty_database (Some (new_sync_row (deviceID sample_store)))) (replicate 240 Byte.x07) 0.

Definition sample_phrase : Phrase := mkPhrase (str "x") (str "ni") (str " book ") 3 true false 0 zeroState.

Lemma quiet_readings : forall n, in_i64 (now_at n).
Proof. intros n. cbn. unfold in_i64, MinInt64, MaxInt64. lia. Qed.

Lemma run_ok {A} (m : M A) w a : fst (m w) = Ok a -> m w = (Ok a, snd (m w)).
Proof. intros H. rewrite <- H. by destruct (m w). Qed.

Lemma run_any {A} (m : M A) w : m w = (fst (m w), snd (m w)).
Proof. by destruct (m w). Qed.

Lemma sample_text : ValidString (deviceID sample_store) = true.
Proof. vm_compute. reflexivity. Qed.

Lemma sample_input : input_ok sample_phrase.
Proof. split; [by apply in_u64_small|]. vm_compute. done. Qed.

Lemma sample_learned : learned_input_ok sample_phrase.
Proof.
  split; [split; [by apply in_u64_small|apply counts_ok_empty|vm_compute; split; discriminate]|].
  split; [vm_compute; done|]. split; [vm_compute; done|]. split; [vm_compute; done|]. apply zeroState_utf8.
Qed.

Lemma sample_world_inv : store_inv sample_store (db sample_world).
Proof.
  destruct (empty_database_inv sample_store) as [Hd _]. split; [by apply with_sync_ok|].
  intros row [= <-]. split; [vm_compute; reflexivity|]. done.
Qed.

Lemma sample_object : objectID sample_store sample_phrase = Ok sample_oid.
Proof. vm_compute. reflexivity. Qed.

Definition saved : World := snd (SaveExplicit sample_store sample_phrase sample_world).

Lemma saved_run : SaveExplicit sample_store sample_phrase sample_world = (Ok tt, saved).
Proof. refine (run_ok (SaveExplicit sample_store sample_phrase) sample_world tt _). vm_compute. reflexivity. Qed.

Lemma saved_step : store_step sample_store sample_world saved.
Proof. exact (step_save _ _ _ _ _ sample_input saved_run). Qed.

Lemma saved_inv : store_inv sample_store (db saved).
Proof. exact (step_inv _ sample_text quiet_readings _ _ saved_step sample_world_inv). Qed.


Lemma SaveExplicit_result_witness :
  exists w' p, SaveExplicit sample_store sample_phrase saved = (Ok tt, w') /\
    abs sample_store (db w') = <[sample_oid := p]> (abs sample_store (db saved)) /\
    Text p = str "x" /\ Deleted p = false /\ PPinned p = true.
Proof.
  destruct (SaveExplicit_result sample_store sample_text quiet_readings (fun _ => eq_refl) sample_phrase saved) as [_ H].
  - exact (proj1 saved_inv).
  - exact sample_input.
  - vm_compute. discriminate.
  - destruct (H sample_oid sample_object) as (w' & p & H1 & H2 & H3 & H4 & H5 & _); [vm_compute; discriminate|].
    exists w', p. split; [exact H1|]. split; [exact H2|]. split; [exact H3|]. split; [exact H4|exact H5].
Defined.

Lemma RecordSelection_result_witness :
  exists w' p res, RecordSelection sample_store sample_phrase (mkLearning false false false) saved = (Ok res, w') /\
    Recorded res = true /\ UseCount p = 4 /\ SyncEligible res = true /\
    abs sample_store (db w') = <[sample_oid := p]> (abs sample_store (db saved)).
Proof.
  destruct (RecordSelection_result sample_store sample_text quiet_readings (fun _ => eq_refl)
    sample_phrase sample_oid saved) as (w' & p & res & H1 & H2 & H3 & H4 & H5 & H6 & _).
  - exact (proj1 saved_inv).
  - exact sample_learned.
  - exact sample_object.
  - reflexivity.
  - vm_compute. discriminate.
  - vm_compute. reflexivity.
  - vm_compute. reflexivity.
  - exists w', p, res. split; [exact H1|]. split; [exact H2|].
    assert (UseCount p = 4) as H4' by (rewrite H4; vm_compute; reflexivity).
    split; [exact H4'|]. split; [rewrite H6, H4'; reflexivity|exact H3].
Defined.

Definition deleted : World := snd (Delete sample_store (str "x") (str "ni") saved).

Lemma deleted_phrase_not_learned_witness :
  let outcome := RecordSelection sample_store sample_phrase (mkLearning false false false) deleted in
  same_data (db deleted) (db (snd outcome)) /\ (forall res, fst outcome = Ok res -> Recorded res = false).
Proof.
  cbv zeta. eapply (deleted_phrase_not_learned sample_store sample_text quiet_readings
    (str "x") (str "ni") sample_phrase (mkLearning false false false) saved deleted).
  - exact (proj1 saved_inv).
  - vm_compute. reflexivity.
  - vm_compute. reflexivity.
  - refine (run_ok (Delete sample_store (str "x") (str "ni")) saved tt _). vm_compute. reflexivity.
  - exact sample_learned.
  - vm_compute. reflexivity.
  - exact (run_any (RecordSelection sample_store sample_phrase (mkLearning false false false)) deleted).
Defined.

Lemma nextHLC_increases_witness :
  clock_lt (hlc_wall_ms (db saved)) (hlc_counter (db saved)) 1000 1.
Proof.
  destruct (nextHLC_increases sample_store quiet_readings saved (snd (nextHLC sample_store saved))
    (mkHLC 1000 1 (deviceID sample_store))) as [H _].
  - exact (db_clock _ _ (proj1 saved_inv)).
  - refine (run_ok (nextHLC sample_store) saved (mkHLC 1000 1 (deviceID sample_store)) _).
    vm_compute. reflexivity.
  - vm_compute. intros [H _]. discriminate.
  - exact H.
Defined.

Definition last_instant : World :=
  mkWorld (with_counter (with_wall empty_database MaxInt64) MaxUint32) [] 0.

Lemma nextHLC_wraps_witness :
  exists clock w', nextHLC sample_store last_instant = (Ok clock, w') /\
    WallMillis clock = MinInt64 /\ Counter clock = 0.
Proof.
  exists (mkHLC MinInt64 0 (deviceID sample_store)), (snd (nextHLC sample_store last_instant)).
  assert (nextHLC sample_store last_instant =
    (Ok (mkHLC MinInt64 0 (deviceID sample_store)), snd (nextHLC sample_store last_instant))) as H
    by (refine (run_ok (nextHLC sample_store) last_instant _ _); vm_compute; reflexivity).
  split; [exact H|].
  exact (nextHLC_wraps sample_store quiet_readings last_instant _ _ eq_refl eq_refl H).
Defined.

(** A payload of another device for the same phrase. *)
Definition remote_payload : PhrasePayload :=
  mkPayload (str "x") (str "ni") (str "manual") 5
    (CRDT (counted_phrase (Hex.EncodeToString (replicate 16 Byte.x04)))).

Lemma remote_input : payload_input_ok remote_payload.
Proof.
  split; [apply counts_ok_insert; [by apply in_u64_small|apply counts_ok_empty]|].
  split; [vm_compute; split; discriminate|]. split; [vm_compute; done|]. split; [vm_compute; done|].
  split; [vm_compute; done|]. split; [vm_compute; done|]. split.
  - intros d [c Hd].
    change ((<[Hex.EncodeToString (replicate 16 Byte.x04) := 1]> ∅ : gmap bytes Z) !! d = Some c) in Hd.
    apply lookup_insert_Some in Hd as [[<- _]|[_ Hd]]; [vm_compute; done|by rewrite lookup_empty in Hd].
  - split; (split; [vm_compute; done|]; vm_compute; repeat split; discriminate).
Qed.

Definition merged : World := snd (MergeRemotePayload sample_store remote_payload saved).

Lemma merge_remote_then_stamp_witness :
  exists clock w2 p, nextHLC sample_store merged = (Ok clock, w2) /\
    abs sample_store (db merged) = <[sample_oid := p]> (abs sample_store (db saved)) /\
    outbox (db merged) = outbox (db saved) /\ Compare (PClock (presence (CRDT p))) clock < 0.
Proof.
  assert (nextHLC sample_store merged = (Ok (mkHLC 1000 1 (deviceID sample_store)), snd (nextHLC sample_store merged)))
    as Hn by (refine (run_ok (nextHLC sample_store) merged _ _); vm_compute; reflexivity).
  destruct (merge_remote_then_stamp sample_store quiet_readings remote_payload saved merged
    (snd (nextHLC sample_store merged)) (mkHLC 1000 1 (deviceID sample_store)))
    as (oid & p & Hv & H1 & H2 & _ & _ & H3).
  - exact (proj1 saved_inv).
  - exact remote_input.
  - refine (run_ok (MergeRemotePayload sample_store remote_payload) saved tt _). vm_compute. reflexivity.
  - exact Hn.
  - vm_compute. intros [H _]. discriminate.
  - assert (oid = sample_oid) as -> by (vm_compute in Hv; injection Hv as <-; reflexivity).
    exists (mkHLC 1000 1 (deviceID sample_store)), (snd (nextHLC sample_store merged)), p.
    split; [exact Hn|]. split; [exact H1|]. split; [exact H2|exact H3].
Defined.

(** The same world in which the write of the outbox row fails. *)
Definition failing : Environment :=
  {| now_at _ := 1000; fault_at n := Nat.eqb n 13; conflict_uses_id := false |}.

Lemma failed_mutation_changes_nothing_witness :
  let outcome := @SaveExplicit failing _ _ _ sample_store sample_phrase sample_world in
  fst outcome = Err sql_error /\ same_data (db sample_world) (db (snd outcome)).
Proof.
  cbv zeta. assert (fst (@SaveExplicit failing _ _ _ sample_store sample_phrase sample_world) = Err sql_error) as Hf
    by (vm_compute; reflexivity).
  split; [exact Hf|].
  apply (@failed_mutation_changes_nothing failing _ _ _ _ _ sample_store sample_text quiet_readings
    sample_world _ sql_error sample_phrase (mkLearning false false false) (str "x") (str "ni") remote_payload).
  - exact (proj1 sample_world_inv).
  - exact sample_input.
  - exact sample_learned.
  - vm_compute. reflexivity.
  - vm_compute. reflexivity.
  - exact remote_input.
  - left. rewrite <- Hf. exact (run_any (@SaveExplicit failing _ _ _ sample_store sample_phrase) sample_world).
Defined.

(** The event of the first save, and the world after a second one. *)
Definition first_row : OutboxRow := default (mkOutboxRow 0 [] [] [] 0 0) (head (outbox (db saved))).
Definition saved_again : World := snd (SaveExplicit sample_store sample_phrase saved).

Lemma first_row_in : first_row ∈ outbox (db saved).
Proof.
  assert (length (outbox (db saved)) = 1%nat) as Hl by (vm_compute; reflexivity).
  unfold first_row. destruct (outbox (db saved)) as [|row l]; [discriminate Hl|]. by left.
Qed.

Lemma ack_keeps_newer_version_witness :
  exists row' p, row' ∈ outbox (db saved_again) /\ out_object_id row' = sample_oid /\
    open sample_store sample_oid (out_nonce row') (out_ciphertext row') = Ok p.
Proof.
  destruct (ack_keeps_newer_version sample_store sample_text quiet_readings sample_phrase first_row sample_oid
    saved saved_again (snd (AckPending (event_id first_row) (version first_row) saved_again)) false)
    as (_ & Hout & row' & p & H1 & H2 & H3 & _).
  - exact (proj1 saved_inv).
  - exact sample_input.
  - exact first_row_in.
  - vm_compute. reflexivity.
  - exact sample_object.
  - refine (run_ok (SaveExplicit sample_store sample_phrase) saved tt _). vm_compute. reflexivity.
  - refine (run_ok (AckPending (event_id first_row) (version first_row)) saved_again false _).
    vm_compute. reflexivity.
  - rewrite Hout in H1. exists row', p. split; [exact H1|]. split; [exact H2|exact H3].
Defined.

(** An upload staged for that event. *)
Definition sample_upload : PreparedUpload := mkPrepared 1 1 1 (str "wire") (replicate 32 Byte.x09).
Definition staged : World := snd (SavePreparedUpload sample_store sample_upload saved).
Definition staged_row : SyncRow :=
  set_prepared (new_sync_row (deviceID sample_store)) (Some sample_upload).

Lemma staged_inv : store_inv sample_store (db staged).
Proof.
  refine (step_inv _ sample_text quiet_readings saved staged _ saved_inv).
  exact (step_prepare _ sample_upload _ _ _ (run_any (SavePreparedUpload sample_store sample_upload) saved)).
Qed.

Lemma staged_own : own_row (deviceID sample_store) (db staged) = Some staged_row.
Proof. vm_compute. reflexivity. Qed.

Lemma staged_upload_is_kept_witness :
  db (snd (SavePreparedUpload sample_store (mkPrepared 1 1 1 (str "other") (replicate 32 Byte.x09)) staged)) = db staged.
Proof.
  apply (staged_upload_is_kept sample_store staged _
    (fst (SavePreparedUpload sample_store (mkPrepared 1 1 1 (str "other") (replicate 32 Byte.x09)) staged))
    staged_row sample_upload (mkPrepared 1 1 1 (str "other") (replicate 32 Byte.x09))).
  - exact (proj2 staged_inv).
  - exact staged_own.
  - by split_and!.
  - apply run_any.
Defined.

Lemma commit_advances_chain_witness :
  exists row', own_row (deviceID sample_store) (db (snd (CommitPreparedUpload sample_store staged))) = Some row' /\
    next_device_sequence row' = 2 /\ previous_hash row' = Some (replicate 32 Byte.x09).
Proof.
  assert (CommitPreparedUpload sample_store staged = (Ok true, snd (CommitPreparedUpload sample_store staged))) as Hc
    by (refine (run_ok (CommitPreparedUpload sample_store) staged true _); vm_compute; reflexivity).
  destruct (commit_advances_chain sample_store staged _ (Ok true) staged_row sample_upload
    (proj1 staged_inv) (proj2 staged_inv) staged_own ltac:(by split_and!) Hc)
    as [(e & He & _)|(b & row' & _ & H1 & H2 & H3 & _)]; [discriminate He|].
  exists row'. split; [exact H1|]. split; [exact H2|exact H3].
Defined.

Lemma Snapshot_complete_witness :
  exists snapshot w' ids, Snapshot sample_store saved = (Ok snapshot, w') /\
    SGeneration snapshot = 1 /\ (forall oid, oid ∈ ids <-> is_Some (abs sample_store (db saved) !! oid)) /\
    Forall2 (fun oid p => abs sample_store (db saved) !! oid = Some p) ids (SPhrases snapshot).
Proof.
  destruct (Snapshot_complete (E := quiet) sample_store saved (fun _ => eq_refl) (proj1 saved_inv))
    as (snapshot & w' & ids & H1 & _ & H2 & H3 & H4 & _).
  exists snapshot, w', ids. split; [exact H1|]. split; [rewrite H2; vm_compute; reflexivity|].
  split; [exact H4|exact H3].
Defined.

End witnesses.
