(* ===== verification/Client.v ===== *)
(** * The sync client ([syncclient/client.go], [syncclient/worker.go])

    The HTTP client of the relay and the background worker that drives one
    synchronisation round over the local store.  What happens on the network is
    the argument [transport]: it sees the request and a remote state, and
    either fails or delivers a response; nothing is assumed of it here, so the
    relay may answer anything.  The JSON texts are those of the class
    [ClientJson].  A round threads the local world, the remote state and the
    random source of the worker. *)

From S2P Require Import Prelude Encoding Unicode Endpoint Crypto Envelope Boxes Crdt Phrase LocalStore SyncState.

(** ** Requests and responses *)

Definition maxResponseBytes : Z := 2097152.

Record Client := mkClient { endpoint : Endpoint }.

Record HttpRequest := mkHttpRequest {
  ReqMethod : bytes; ReqURL : bytes; ReqAuthorization : option bytes; ReqBody : option bytes
}.

(** The body a response delivers, and the error its reader ends with if it does
    not end with [io.EOF]. *)
Record HttpResponse := mkHttpResponse {
  StatusCode : Z; ResBody : bytes; ResError : option error
}.

Record DeviceRegistration := mkDeviceRegistration {
  RDeviceNameCiphertext : bytes; REd25519PublicKey : bytes; RX25519PublicKey : bytes
}.

Record AccountRegistration := mkAccountRegistration {
  RecoveryAuthentication : bytes; RDevice : DeviceRegistration
}.

Record AccountCredentials := mkAccountCredentials {
  AAccountID : bytes; ADeviceID : bytes; ADeviceToken : bytes
}.

Record registrationWire := mkRegistrationWire {
  w_recovery_authentication : bytes; w_device_name_ciphertext : bytes;
  w_ed25519_public_key : bytes; w_x25519_public_key : bytes
}.

Record accountWire := mkAccountWire { w_account_id : bytes; w_device_id : bytes; w_device_token : bytes }.

(** A keyring as the relay sends it; a zero time is [None]. *)
Record keyringWire := mkKeyringWire {
  w_epoch : Z; w_ciphertext : bytes; w_writer_device_id : bytes; w_created_at : option Z
}.

Record Keyring := mkKeyringEntry {
  KEpoch : Z; KBox : SealedBox; KWriterDeviceID : bytes; KCreatedAt : Z
}.

Record SyncRequest := mkSyncRequest {
  QCursor : Z; QAckCursor : Z; QLimit : Z; QEnvelopes : list WireEnvelope
}.

Record SyncRejection := mkSyncRejection { JDeviceSequence : Z; JCode : bytes }.

Record SyncResponse := mkSyncResponse {
  AcceptedSequences : list Z; RejectedSequences : list SyncRejection; SEnvelopes : list WireEnvelope;
  NextCursor : Z; SHasMore : bool; CurrentKeyEpoch : Z
}.

(** [encoding/json] on the types of the client: [json.Encoder] without HTML
    escaping for requests, a strict [json.Decoder] for responses (the first
    value, and whether only white space follows it), the error object of the
    relay, and the staged wire envelope. *)
Class ClientJson := {
  encode_registration : registrationWire -> result bytes;
  encode_keyring : Z -> bytes -> result bytes;
  encode_sync : SyncRequest -> result bytes;
  decode_account : bytes -> option (accountWire * bool);
  decode_epoch : bytes -> option (Z * bool);
  decode_keyrings : bytes -> option (list keyringWire * bool);
  decode_sync : bytes -> option (SyncResponse * bool);
  decode_error : bytes -> option bytes;
  marshal_wire : WireEnvelope -> result bytes;
  unmarshal_wire : bytes -> result WireEnvelope
}.

Definition GET := str "GET".
Definition POST := str "POST".
Definition PUT := str "PUT".

(** [strings.ContainsAny(token, "\r\n")] *)
Definition contains_newline (token : bytes) : bool := existsb (fun b => (u8 b =? 13) || (u8 b =? 10)) token.

(** [io.ReadAll] of a body limited to [limit] bytes. *)
Definition read_limited (limit : Z) (response : HttpResponse) : result bytes :=
  if limit <=? len (ResBody response) then Ok (take (Z.to_nat limit) (ResBody response))
  else match ResError response with None => Ok (ResBody response) | Some e => Err e end.

Section client.
Context `{U : UnicodeTables} `{CJ : ClientJson} {R : Type}.
Variable transport : HttpRequest -> R -> result HttpResponse * R.

(** [input] is what the encoder makes of the request value; every caller asks
    for an output. *)
Definition doJSON {T} (client : Client) (method path token : bytes) (input : option (result bytes))
    (output : bytes -> option (T * bool)) (expectedStatus : Z) (remote : R) : result T * R :=
  match input with
  | Some (Err e) => (Err (Errorf_w "encode sync request: %w" e), remote)
  | _ =>
    let body := match input with Some (Ok encoded) => Some encoded | _ => None end in
    if negb (bool_decide (token = [])) && contains_newline token then
      (Err (errors_New "invalid device token"), remote)
    else
      let authorization := if bool_decide (token = []) then None else Some (str "Bearer " ++ token) in
      match transport (mkHttpRequest method (resolve (endpoint client) path) authorization body) remote with
      | (Err e, remote) => (Err (Errorf_w "sync relay request failed: %w" e), remote)
      | (Ok response, remote) =>
          (match read_limited (maxResponseBytes + 1) response with
           | Err e => Err (Errorf_w "read sync relay response: %w" e)
           | Ok payload =>
               if len payload >? maxResponseBytes then fail "sync relay response exceeds size limit"
               else if negb (StatusCode response =? expectedStatus) then
                 let code := match decode_error payload with Some c => c | None => [] end in
                 Err (APIError (StatusCode response)
                        (if bool_decide (code = []) then str "unexpected_status" else code))
               else match output payload with
                    | Some (value, true) => Ok value
                    | _ => fail "sync relay returned invalid JSON"
                    end
           end, remote)
      end
  end.

Definition registrationToWire (registration : AccountRegistration) : result registrationWire :=
  let device := RDevice registration in
  if negb (len (RecoveryAuthentication registration) =? 32) || (len (RDeviceNameCiphertext device) <? 16)
     || (len (RDeviceNameCiphertext device) >? 512)
     || negb (len (REd25519PublicKey device) =? PublicKeySize)
     || negb (len (RX25519PublicKey device) =? 32) then
    fail "invalid account registration material"
  else
    let encode := Base64.EncodeToString in
    Ok (mkRegistrationWire (encode (RecoveryAuthentication registration))
          (encode (RDeviceNameCiphertext device)) (encode (REd25519PublicKey device))
          (encode (RX25519PublicKey device))).

(** A lower-case hexadecimal identifier of 16 bytes. *)
Definition wire_id (value : bytes) : option bytes :=
  match Hex.DecodeString value with
  | Some id =>
      if negb (len id =? 16) || negb (bool_decide (value = Ascii.ToLower unicode_lower value))
      then None else Some id
  | None => None
  end.

Definition accountFromWire (wire : accountWire) : result AccountCredentials :=
  match wire_id (w_account_id wire) with
  | None => fail "sync relay returned invalid account ID"
  | Some accountID =>
      match wire_id (w_device_id wire) with
      | None => fail "sync relay returned invalid device credentials"
      | Some deviceID =>
          if bool_decide (w_device_token wire = []) then fail "sync relay returned invalid device credentials"
          else Ok (mkAccountCredentials accountID deviceID (w_device_token wire))
      end
  end.

(** The rest of a call, after its response. *)
Definition answered {A B} (call : result A * R) (k : A -> result B) : result B * R :=
  let '(response, remote) := call in (let! value := response in k value, remote).

Definition CreateAccount (client : Client) (registration : AccountRegistration) (remote : R)
    : result AccountCredentials * R :=
  match registrationToWire registration with
  | Err e => (Err e, remote)
  | Ok wire =>
      answered (doJSON client POST (str "/v1/accounts") [] (Some (encode_registration wire))
                  decode_account 201 remote) accountFromWire
  end.

Definition RecoverAccount (client : Client) (accountID : bytes) (registration : AccountRegistration)
    (remote : R) : result AccountCredentials * R :=
  if negb (len accountID =? 16) then (fail "account ID must be 16 bytes", remote)
  else match registrationToWire registration with
  | Err e => (Err e, remote)
  | Ok wire =>
      let path := str "/v1/accounts/" ++ Hex.EncodeToString accountID ++ str "/recover" in
      answered (doJSON client POST path [] (Some (encode_registration wire)) decode_account 201 remote)
        accountFromWire
  end.

Definition PutKeyring (client : Client) (token : bytes) (epoch : Z) (box : SealedBox) (remote : R)
    : result unit * R :=
  if bool_decide (token = []) || (epoch <? 1) || (epoch >? MaxInt64) then
    (fail "invalid keyring request", remote)
  else match EncodeSealedBox box with
  | Err e => (Err e, remote)
  | Ok encoded =>
      answered (doJSON client PUT (str "/v1/keyring") token (Some (encode_keyring epoch encoded))
                  decode_epoch 200 remote)
        (fun answer => reject_if (negb (answer =? epoch)) "sync relay returned the wrong keyring epoch")
  end.

(** The loop over the keyrings of a response. *)
Fixpoint keyrings_from_wire (previous : Z) (l : list keyringWire) : result (list Keyring) :=
  match l with
  | [] => Ok []
  | wire :: rest =>
      match w_created_at wire with
      | None => fail "sync relay returned invalid keyring metadata"
      | Some createdAt =>
          if (w_epoch wire <? 1) || (w_epoch wire >? MaxInt64) || (w_epoch wire <=? previous) then
            fail "sync relay returned invalid keyring metadata"
          else match wire_id (w_writer_device_id wire) with
          | None => fail "sync relay returned invalid keyring writer"
          | Some _ =>
              match DecodeSealedBox (w_ciphertext wire) with
              | Err _ => fail "sync relay returned invalid keyring ciphertext"
              | Ok box =>
                  let! keyrings := keyrings_from_wire (w_epoch wire) rest in
                  Ok (mkKeyringEntry (w_epoch wire) box (w_writer_device_id wire) createdAt :: keyrings)
              end
          end
      end
  end.

Definition GetKeyrings (client : Client) (token : bytes) (remote : R) : result (list Keyring) * R :=
  if bool_decide (token = []) then (fail "device token is required", remote)
  else answered (doJSON client GET (str "/v1/keyring") token None decode_keyrings 200 remote)
         (keyrings_from_wire 0).

Definition Sync (client : Client) (token : bytes) (request : SyncRequest) (remote : R)
    : result SyncResponse * R :=
  if bool_decide (token = []) || (QCursor request <? 0) || (QAckCursor request <? 0)
     || (QAckCursor request >? QCursor request) || (QLimit request <? 0) || (QLimit request >? 256)
     || (len (QEnvelopes request) >? 256) then
    (fail "invalid sync request", remote)
  else
    answered (doJSON client POST (str "/v1/sync") token (Some (encode_sync request)) decode_sync 200 remote)
      (fun response =>
         if (NextCursor response <? QCursor request) || (len (SEnvelopes response) >? 256) then
           fail "sync relay returned an invalid cursor or page"
         else Ok response).

End client.

(** ** Sessions *)

Record Session := mkSession {
  SAccountID : bytes;
  SessionDeviceID : bytes;
  SDeviceToken : bytes;
  SKeyEpoch : Z;
  SEpochKeys : gmap Z bytes;
  SSigningPrivate : bytes;
  SVerificationKeys : gmap bytes bytes
}.

(** A key of a Go map of slices: [nil] when it is absent. *)
Definition epoch_key (session : Session) (epoch : Z) : bytes := default [] (SEpochKeys session !! epoch).
Definition verification_key (session : Session) (device : bytes) : bytes :=
  default [] (SVerificationKeys session !! device).

Definition trusted_entry (entry : bytes * bytes) : bool :=
  match Hex.DecodeString entry.1 with
  | None => false
  | Some decoded => (len decoded =? 16) && bool_decide (entry.1 = Hex.EncodeToString decoded)
                    && (len entry.2 =? PublicKeySize)
  end.

Definition validate (session : Session) : result unit :=
  if negb (len (SAccountID session) =? 16) || negb (len (SessionDeviceID session) =? 16)
     || bool_decide (SDeviceToken session = []) || (SKeyEpoch session <? 1)
     || (SKeyEpoch session >? MaxInt64) || negb (len (SSigningPrivate session) =? PrivateKeySize) then
    fail "invalid sync session"
  else if negb (len (epoch_key session (SKeyEpoch session)) =? 32) then
    fail "current epoch key is unavailable"
  else
    let self := Hex.EncodeToString (SessionDeviceID session) in
    let selfVerification := verification_key session self in
    if negb (len selfVerification =? PublicKeySize)
       || negb (bool_decide (ed25519_Public (SSigningPrivate session) = selfVerification)) then
      fail "current device verification key is unavailable"
    else if negb (forallb trusted_entry (map_to_list (SVerificationKeys session))) then
      fail "invalid trusted device verification key"
    else Ok tt.

(** ** The worker *)

(** The pointers of a worker may be [nil]. *)
Record Worker := mkWorker { WClient : option Client; WStore : option Store; WSession : Session }.

Record Result := mkResult {
  Uploaded : bool; AcknowledgedOutbox : bool; Downloaded : Z; RCursor : Z; HasMore : bool
}.

(** Everything a round reads and changes. *)
Record Net (R : Type) := mkNet { local : World; remote : R; source : bytes }.
Arguments mkNet {R}.
Arguments local {R}.
Arguments remote {R}.
Arguments source {R}.

Definition W (R A : Type) : Type := Net R -> result A * Net R.

Definition wret {R A} (a : A) : W R A := fun s => (Ok a, s).
Definition wfail {R A} (message : string) : W R A := fun s => (fail message, s).
Definition wlift {R A} (r : result A) : W R A := fun s => (r, s).
Definition wbind {R A B} (m : W R A) (f : A -> W R B) : W R B := fun s =>
  match m s with (Ok a, s') => f a s' | (Err e, s') => (Err e, s') end.

(** An operation of the store, of the network, and a read of the random source. *)
Definition on_store {R A} (m : M A) : W R A := fun s =>
  let '(r, w) := m (local s) in (r, mkNet w (remote s) (source s)).
Definition on_network {R A} (m : R -> result A * R) : W R A := fun s =>
  let '(r, remote) := m (remote s) in (r, mkNet (local s) remote (source s)).
Definition on_random {R A} (m : bytes -> result (A * bytes)) : W R A := fun s =>
  match m (source s) with
  | Ok (a, rest) => (Ok a, mkNet (local s) (remote s) rest)
  | Err e => (Err e, s)
  end.

Declare Scope worker_scope.
Delimit Scope worker_scope with worker.
Notation "'go!' x := m 'in' k" := (wbind m (fun x => k))
  (at level 10, x pattern, m at level 100, k at level 200) : worker_scope.
#[global] Open Scope worker_scope.

(** The rejections of a response to one staged upload: whether there was one. *)
Fixpoint check_rejections (sequence : Z) (seenRejected : bool) (l : list SyncRejection) : result bool :=
  match l with
  | [] => Ok seenRejected
  | rejection :: rest =>
      if negb (JDeviceSequence rejection =? sequence) || seenRejected
         || (negb (bool_decide (JCode rejection = str "sequence_conflict"))
             && negb (bool_decide (JCode rejection = str "sequence_gap"))
             && negb (bool_decide (JCode rejection = str "previous_hash_mismatch"))) then
        fail "sync relay returned an unexpected upload rejection"
      else check_rejections sequence true rest
  end.

(** Its acknowledgements. *)
Fixpoint check_accepted (sequence : Z) (seenAccepted : bool) (l : list Z) : result bool :=
  match l with
  | [] => Ok seenAccepted
  | s :: rest =>
      if negb (s =? sequence) || seenAccepted then
        fail "sync relay returned an unexpected upload acknowledgement"
      else check_accepted sequence true rest
  end.

(** What the response says about the staged upload, if there is one. *)
Definition check_upload (prepared : option PreparedUpload) (response : SyncResponse) : result unit :=
  match prepared with
  | Some upload =>
      let! seenRejected := check_rejections (DeviceSequence upload) false (RejectedSequences response) in
      let! seenAccepted := check_accepted (DeviceSequence upload) false (AcceptedSequences response) in
      if seenRejected && seenAccepted then fail "sync relay both accepted and rejected one upload"
      else if seenRejected then
        Err (Errorf_s "prepared upload rejected: %s"
               (match RejectedSequences response with rejection :: _ => JCode rejection | [] => [] end))
      else if negb seenAccepted then fail "sync relay did not acknowledge the prepared upload"
      else Ok tt
  | None =>
      if negb (len (AcceptedSequences response) =? 0) || negb (len (RejectedSequences response) =? 0) then
        fail "sync relay reported results for an empty upload"
      else Ok tt
  end.

Section worker.
Context `{E : Environment} `{P : Primitives} `{U : UnicodeTables} `{J : Codec Phrase}.
Context `{CH : Codec Header} `{CP : Codec PhrasePayload} `{CJ : ClientJson} {R : Type}.
Variable transport : HttpRequest -> R -> result HttpResponse * R.

Definition options_of (session : Session) (state : SyncState) : EnvelopeOptions :=
  mkOptions (SAccountID session) (SessionDeviceID session) (SKeyEpoch session)
    (NextDeviceSequence state) (SPreviousHash state) (epoch_key session (SKeyEpoch session))
    (SSigningPrivate session).

Definition prepare (session : Session) (store : Store) (state : SyncState) : W R SyncState :=
  match Prepared state with
  | Some _ => wret state
  | None =>
      go! events := on_store (PendingEvents store 1) in
      match events with
      | [] => wret state
      | event :: _ =>
          go! envelope := on_random (SealEnvelope event (options_of session state)) in
          go! wire := wlift (ToWire envelope) in
          go! encoded := wlift (marshal_wire wire) in
          go! hash := wlift (EnvelopeHash envelope) in
          go! _ := on_store (SavePreparedUpload store
            (mkPrepared (EID event) (EVersion event) (NextDeviceSequence state) encoded hash)) in
          on_store (LoadSyncState store)
      end
  end.

(** The loop over a page: the payloads and the last cursor. *)
Fixpoint decode_page (session : Session) (nextCursor lastCursor : Z) (page : list WireEnvelope)
    : result (list PhrasePayload * Z) :=
  match page with
  | [] => Ok ([], lastCursor)
  | wire :: rest =>
      if (WCursor wire >? MaxInt64) || (WCursor wire <=? lastCursor) || (WCursor wire >? nextCursor) then
        fail "sync relay returned out-of-order download cursors"
      else
        let! envelope := EnvelopeFromDownload (SAccountID session) wire in
        let verificationKey := verification_key session (WDeviceID wire) in
        if negb (len verificationKey =? PublicKeySize) then
          Err (Errorf_s "no trusted verification key for device %s" (WDeviceID wire))
        else
          let epochKey := epoch_key session (WKeyEpoch wire) in
          if negb (len epochKey =? 32) then Err (Errorf_d "no local key for epoch %d" (WKeyEpoch wire))
          else
            let! payload := Open epochKey envelope verificationKey in
            let! (payloads, last) := decode_page session nextCursor (WCursor wire) rest in
            Ok (payload :: payloads, last)
  end.

Definition decodeDownloads (session : Session) (response : SyncResponse) (cursor : Z)
    : result (list PhrasePayload) :=
  let! (payloads, lastCursor) := decode_page session (NextCursor response) cursor (SEnvelopes response) in
  if (len (SEnvelopes response) =? 0) && negb (NextCursor response =? cursor) then
    fail "sync relay advanced cursor without a downloaded envelope"
  else if (len (SEnvelopes response) >? 0) && negb (lastCursor =? NextCursor response) then
    fail "sync relay next cursor does not match the downloaded page"
  else Ok payloads.

(** The request of a round: the staged envelope, read back from its JSON text. *)
Definition round_request (state : SyncState) : result SyncRequest :=
  match Prepared state with
  | None => Ok (mkSyncRequest (Cursor state) (Cursor state) 256 [])
  | Some upload =>
      match unmarshal_wire (Wire upload) with
      | Err _ => fail "prepared upload is not valid wire JSON"
      | Ok wire =>
          if negb (WDeviceSeq wire =? DeviceSequence upload) || negb (bool_decide (WDeviceID wire = []))
             || negb (WCursor wire =? 0) then
            fail "prepared upload metadata does not match checkpoint"
          else Ok (mkSyncRequest (Cursor state) (Cursor state) 256 [wire])
      end
  end.

Fixpoint merge_all (store : Store) (payloads : list PhrasePayload) : W R unit :=
  match payloads with
  | [] => wret tt
  | payload :: rest =>
      go! _ := on_store (MergeRemotePayload store payload) in
      merge_all store rest
  end.

Definition SyncOnce (worker : Worker) : W R Result :=
  match WClient worker, WStore worker with
  | Some client, Some store =>
      let session := WSession worker in
      go! _ := wlift (validate session) in
      go! state := on_store (LoadSyncState store) in
      if negb (bool_decide (SDeviceID state = Hex.EncodeToString (SessionDeviceID session))) then
        wfail "sync session device does not match the local store"
      else
      go! state := prepare session store state in
      go! request := wlift (round_request state) in
      go! response := on_network (Sync transport client (SDeviceToken session) request) in
      go! _ := wlift (check_upload (Prepared state) response) in
      go! payloads := wlift (decodeDownloads session response (Cursor state)) in
      go! _ := merge_all store payloads in
      go! acknowledged :=
        match Prepared state with
        | Some _ => on_store (CommitPreparedUpload store)
        | None => wret false
        end in
      go! _ := on_store (AdvanceSyncCursor store (Cursor state) (NextCursor response)) in
      wret (mkResult (bool_decide (is_Some (Prepared state))) acknowledged (len payloads)
              (NextCursor response) (SHasMore response))
  | _, _ => wfail "sync worker requires a client and local store"
  end.

(** The rounds: their results so far, and the error the loop ended with. *)
Fixpoint sync_rounds (worker : Worker) (rounds : nat) (results : list Result) (s : Net R)
    : (list Result * option error) * Net R :=
  match rounds with
  | O => ((results, Some (errors_New "sync did not become idle before the round limit")), s)
  | S rounds =>
      match SyncOnce worker s with
      | (Err e, s) => ((results, Some e), s)
      | (Ok result, s) =>
          let results := results ++ [result] in
          match on_store PendingEventCount s with
          | (Err e, s) => ((results, Some e), s)
          | (Ok pending, s) =>
              if negb (HasMore result) && (pending =? 0) then ((results, None), s)
              else sync_rounds worker rounds results s
          end
      end
  end.

Definition SyncUntilIdle (worker : Worker) (maxRounds : Z) (s : Net R)
    : (list Result * option error) * Net R :=
  if (maxRounds <? 1) || (maxRounds >? 1024) then
    (([], Some (errors_New "sync round limit must be between 1 and 1024")), s)
  else sync_rounds worker (Z.to_nat maxRounds) [] s.

End worker.
