(* ===== verification/ClientFacts.v ===== *)
(** * What a synchronisation round does

    The checkpoint of the store as an abstract machine (stage, commit, advance),
    the payloads a round may trust, and the effect of every phase of
    [SyncOnce] on the local database, whatever the relay answers and whichever
    statement fails. *)

From S2P Require Import Prelude Encoding Unicode Crypto Envelope Boxes Crdt Phrase LocalStore LocalStoreFacts SyncState StoreProps Client.

(** ** Computations of the worker *)

Lemma wbind_inv {R A B} (m : W R A) (f : A -> W R B) s r s' :
  wbind m f s = (r, s') ->
  (exists a s1, m s = (Ok a, s1) /\ f a s1 = (r, s')) \/ (exists e, m s = (Err e, s') /\ r = Err e).
Proof.
  unfold wbind. destruct (m s) as [[a|e] s1]; intros H; [left; eauto|right]. injection H as <- <-. eauto.
Qed.

Lemma wlift_inv {R A} (x : result A) (s : Net R) r s' : wlift x s = (r, s') -> x = r /\ s' = s.
Proof. by intros [= <- <-]. Qed.

Lemma on_store_inv {R A} (m : M A) (s : Net R) r s' :
  on_store m s = (r, s') -> m (local s) = (r, local s') /\ remote s' = remote s /\ source s' = source s.
Proof. unfold on_store. destruct (m (local s)) as [r1 w1]. by intros [= <- <-]. Qed.

Lemma on_network_inv {R A} (m : R -> result A * R) (s : Net R) r s' :
  on_network m s = (r, s') -> m (remote s) = (r, remote s') /\ local s' = local s /\ source s' = source s.
Proof. unfold on_network. destruct (m (remote s)) as [r1 w1]. by intros [= <- <-]. Qed.

Lemma on_random_inv {R A} (m : bytes -> result (A * bytes)) (s : Net R) r s' :
  on_random m s = (r, s') ->
  local s' = local s /\ remote s' = remote s /\
  ((exists e, r = Err e) \/ exists a, r = Ok a /\ m (source s) = Ok (a, source s')).
Proof.
  unfold on_random. destruct (m (source s)) as [[a rest]|e]; intros [= <- <-]; [|by eauto].
  split_and!; try done. right. by exists a.
Qed.

(** Take a round apart at its first computation. *)
Ltac round_step H :=
  lazymatch type of H with
  | wbind _ _ _ = _ =>
      let a := fresh "a" in let s1 := fresh "s" in let H1 := fresh "Hrun" in let e := fresh "e" in
      apply wbind_inv in H as [(a & s1 & H1 & H)|(e & H1 & H)]
  end.

(** ** The checkpoint as an abstract machine *)

Record Checkpoint := mkCheckpoint {
  cp_cursor : Z; cp_sequence : Z; cp_hash : bytes; cp_staged : option PreparedUpload
}.

Definition checkpoint_of (state : SyncState) : Checkpoint :=
  mkCheckpoint (Cursor state) (NextDeviceSequence state) (SPreviousHash state) (Prepared state).

(** The checkpoint a database holds for the device of a store. *)
Definition checkpoint (store : Store) (d : Database) : option Checkpoint :=
  match own_row (deviceID store) d with
  | Some row =>
      match prepared_of row with
      | Ok prepared => Some (mkCheckpoint (sync_cursor row) (next_device_sequence row)
                               (default [] (previous_hash row)) prepared)
      | Err _ => None
      end
  | None => None
  end.

Definition stage (cp : Checkpoint) (upload : PreparedUpload) : Checkpoint :=
  mkCheckpoint (cp_cursor cp) (cp_sequence cp) (cp_hash cp) (Some upload).

(** The staged upload, if any, becomes the end of the device's chain. *)
Definition commit (cp : Checkpoint) : Checkpoint :=
  match cp_staged cp with
  | Some upload =>
      mkCheckpoint (cp_cursor cp) (DeviceSequence upload + 1) (UEnvelopeHash upload) None
  | None => cp
  end.

Definition advance (cp : Checkpoint) (cursor : Z) : Checkpoint :=
  mkCheckpoint cursor (cp_sequence cp) (cp_hash cp) (cp_staged cp).

(** The relay confirmed exactly what was staged. *)
Definition acknowledged (response : SyncResponse) (cp : Checkpoint) : Prop :=
  RejectedSequences response = [] /\
  AcceptedSequences response = match cp_staged cp with Some u => [DeviceSequence u] | None => [] end.

Lemma check_rejections_none sequence l : check_rejections sequence false l = Ok false -> l = [].
Proof.
  assert (forall l b, check_rejections sequence true l = Ok b -> b = true) as Hseen.
  { intros l0 b. destruct l0 as [|j l0]; cbn; [by intros [= <-]|]. rewrite orb_true_r. done. }
  destruct l as [|j l]; [done|]. cbn. destruct (_ || _); [done|]. intros ?%Hseen. done.
Qed.

Lemma check_accepted_once sequence l : check_accepted sequence false l = Ok true -> l = [sequence].
Proof.
  destruct l as [|s l]; [done|]. cbn. destruct (negb (s =? sequence) || false) eqn:E; [done|]. bools. subst.
  destruct l as [|s' l]; [done|]. cbn. by rewrite orb_true_r.
Qed.

Lemma check_upload_Ok response cp : check_upload (cp_staged cp) response = Ok tt <-> acknowledged response cp.
Proof.
  unfold check_upload, acknowledged. destruct (cp_staged cp) as [u|]; split.
  - intros H. invert_ok. destruct a, a0; try done. split; [by eapply check_rejections_none|by apply check_accepted_once].
  - intros [-> ->]. cbn. by rewrite Z.eqb_refl.
  - destruct (_ || _) eqn:E; [done|]. intros _. bools.
    destruct (AcceptedSequences response), (RejectedSequences response); try done; rewrite ?len_cons in *;
      match goal with l : list _ |- _ => pose proof (len_nonneg l); lia end.
  - by intros [-> ->].
Qed.

Section checkpoint_facts.
Context `{E : Environment} `{P : Primitives} {PL : PrimitiveLaws P} `{U : UnicodeTables}.
Context `{J : Codec Phrase} {JL : JsonLaws J}.
Variable store : Store.

Lemma prepared_of_ok row : row_check row = true -> exists prepared, prepared_of row = Ok prepared /\
  match prepared with Some u => prepared_row row u | None => prepared_event_id row = None end.
Proof.
  intros Hc. destruct (prepared_event_id row) as [i|] eqn:Ei.
  - destruct (row_check_prepared _ _ Hc Ei) as (u & Hu & _). exists (Some u).
    split; [by apply prepared_of_row|done].
  - destruct (row_check_unprepared _ Hc Ei) as (E1 & E2 & E3 & E4). exists None. unfold prepared_of.
    by rewrite Ei, E1, E2, E3, E4.
Qed.

(** A sound database that has a row for the device has a checkpoint. *)
Lemma checkpoint_row d row :
  sync_ok d -> own_row (deviceID store) d = Some row ->
  exists prepared, checkpoint store d = Some (mkCheckpoint (sync_cursor row) (next_device_sequence row)
      (default [] (previous_hash row)) prepared) /\
    match prepared with Some u => prepared_row row u | None => prepared_event_id row = None end.
Proof.
  intros Hok Hrow. pose proof Hrow as [Hs _]%own_row_Some. destruct (Hok _ Hs) as [Hc _].
  destruct (prepared_of_ok _ Hc) as (prepared & Hp & Hm). exists prepared.
  unfold checkpoint. by rewrite Hrow, Hp.
Qed.

Lemma checkpoint_Some d cp :
  sync_ok d -> checkpoint store d = Some cp ->
  exists row, own_row (deviceID store) d = Some row /\ cp_cursor cp = sync_cursor row /\
    cp_sequence cp = next_device_sequence row /\ cp_hash cp = default [] (previous_hash row) /\
    match cp_staged cp with Some u => prepared_row row u | None => prepared_event_id row = None end.
Proof.
  intros Hok H. unfold checkpoint in H. destruct (own_row _ _) as [row|] eqn:Hrow; [|done].
  destruct (checkpoint_row _ _ Hok Hrow) as (prepared & Hc & Hm). unfold checkpoint in Hc. rewrite Hrow in Hc.
  rewrite H in Hc. injection Hc as ->. exists row. done.
Qed.

Lemma checkpoint_same d d' : sync_state d' = sync_state d -> checkpoint store d' = checkpoint store d.
Proof. intros H. unfold checkpoint, own_row. by rewrite H. Qed.

Lemma own_row_with_sync d row : sync_device_id row = deviceID store ->
  own_row (deviceID store) (with_sync d (Some row)) = Some row.
Proof. intros H. by apply own_row_Some. Qed.

Lemma prepared_row_unique row u v : prepared_row row u -> prepared_row row v -> u = v.
Proof. intros (? & ? & ? & ? & ?) (? & ? & ? & ? & ?). destruct u, v. cbn in *. congruence. Qed.

(** *** The operations on the checkpoint *)

Lemma LoadSyncState_checkpoint w r w' :
  LoadSyncState store w = (r, w') -> db w' = db w /\
  forall state, r = Ok state -> SDeviceID state = deviceID store /\
    checkpoint store (db w) = Some (checkpoint_of state).
Proof.
  intros (Hd & Hr)%LoadSyncState_inv. split; [done|]. intros state ->.
  destruct Hr as [[? [=]]|(row & prepared & Hrow & Hp & [= ->])]. split; [done|].
  unfold checkpoint. by rewrite Hrow, Hp.
Qed.

Lemma SavePreparedUpload_checkpoint upload w r w' cp :
  sync_ok (db w) -> checkpoint store (db w) = Some cp -> SavePreparedUpload store upload w = (r, w') ->
  (exists e, r = Err e) /\ db w' = db w \/
  r = Ok tt /\ (cp_staged cp = Some upload \/ cp_staged cp = None /\ DeviceSequence upload = cp_sequence cp) /\
    checkpoint store (db w') = Some (stage cp upload) /\
    abs store (db w') = abs store (db w) /\ outbox (db w') = outbox (db w).
Proof.
  intros Hok Hcp H. destruct (checkpoint_Some _ _ Hok Hcp) as (row & Hrow & C1 & C2 & C3 & C4).
  apply SavePreparedUpload_inv in H as [(e & -> & Hd)|(-> & _ & row' & Hrow' & Hcase)]; [left; by eauto| |done].
  assert (row' = row) as -> by congruence. right. split; [done|]. destruct Hcase as [[Hd Hu]|(Hn & Hseq & Hd & Hck & _)].
  - assert (cp_staged cp = Some upload) as Hst.
    { destruct (cp_staged cp) as [v|]; [by rewrite (prepared_row_unique _ _ _ C4 Hu)|].
      destruct Hu as (Hu & _). congruence. }
    assert (stage cp upload = cp) as -> by (destruct cp; unfold stage; cbn in *; congruence).
    rewrite Hd. split_and!; try done. by left.
  - assert (cp_staged cp = None) as Hst.
    { destruct (cp_staged cp) as [v|]; [|done]. destruct C4 as (C4 & _). congruence. }
    split; [right; split; congruence|]. rewrite Hd. split; [|done].
    unfold checkpoint. pose proof Hrow as [_ Hid]%own_row_Some. rewrite own_row_with_sync by done.
    rewrite (prepared_of_row _ upload) by done. unfold stage. cbn. by rewrite C1, C2, C3.
Qed.

Lemma CommitPreparedUpload_checkpoint w r w' cp u :
  sync_ok (db w) -> checkpoint store (db w) = Some cp -> cp_staged cp = Some u ->
  CommitPreparedUpload store w = (r, w') ->
  (exists e, r = Err e) /\ db w' = db w \/
  (exists b, r = Ok b) /\ checkpoint store (db w') = Some (commit cp) /\ abs store (db w') = abs store (db w) /\
    outbox (db w') = List.filter (fun ev =>
      negb ((event_id ev =? EventID u) && (version ev =? EventVersion u))) (outbox (db w)).
Proof.
  intros Hok Hcp Hst H. destruct (checkpoint_Some _ _ Hok Hcp) as (row & Hrow & C1 & C2 & C3 & C4). rewrite Hst in C4.
  apply CommitPreparedUpload_inv in H as [(e & -> & Hd)|(row' & v & Hrow' & Hv & Hs & Hm & Hst' & Hck & Hp & _ & _ & _ & _ & Ho & ->)];
    [left; by eauto| |done].
  assert (row' = row) as -> by congruence. assert (v = u) as -> by (by eapply prepared_row_unique).
  right. split; [by eauto|]. split_and!; [|unfold abs; by rewrite Hp|done].
  unfold checkpoint. pose proof Hrow as [_ Hid]%own_row_Some.
  assert (own_row (deviceID store) (db w') = Some (advance_chain row (DeviceSequence u + 1) (UEnvelopeHash u))) as ->
    by (by apply own_row_Some). cbn. unfold commit. by rewrite Hst, C1.
Qed.

Lemma AdvanceSyncCursor_checkpoint expected next w r w' cp :
  sync_ok (db w) -> checkpoint store (db w) = Some cp -> AdvanceSyncCursor store expected next w = (r, w') ->
  (exists e, r = Err e) /\ db w' = db w \/
  r = Ok tt /\ cp_cursor cp = expected /\ 0 <= expected <= next /\
    checkpoint store (db w') = Some (advance cp next) /\ abs store (db w') = abs store (db w) /\
    outbox (db w') = outbox (db w).
Proof.
  intros Hok Hcp H. destruct (checkpoint_Some _ _ Hok Hcp) as (row & Hrow & C1 & C2 & C3 & C4).
  apply AdvanceSyncCursor_inv in H as [(e & -> & Hd)|(-> & Hle & row' & Hrow' & Hc & Hck & Hd)]; [left; by eauto|].
  assert (row' = row) as -> by congruence. right. split_and!; try done; [congruence|lia|lia|..]; rewrite Hd; try done.
  unfold checkpoint. pose proof Hrow as [_ Hid]%own_row_Some. rewrite own_row_with_sync by done.
  unfold checkpoint in Hcp. rewrite Hrow in Hcp.
  assert (prepared_of (set_cursor row next) = prepared_of row) as -> by done.
  destruct (prepared_of row) as [prepared|]; [|done]. injection Hcp as <-. done.
Qed.

End checkpoint_facts.

Lemma last_cons_default {A} (l : list A) : forall x d, List.last (x :: l) d = List.last l x.
Proof. induction l as [|y l IH]; intros x d; [done|]. etrans; [apply (IH y d)|]. symmetry. apply IH. Qed.

(** ** Trust *)

(** The CBOR decoder fills a payload with values of its Go types, and refuses
    text that is not UTF-8. *)
Class PayloadDecoder (CP : Codec PhrasePayload) : Prop :=
  unmarshal_payload : forall b payload, Unmarshal b = Ok payload -> payload_input_ok payload.

Section trust.
Context `{P : Primitives} `{U : UnicodeTables} `{CH : Codec Header} `{CP : Codec PhrasePayload}.

(** The payload was in an envelope of the session's account, signed with a key
    the session trusts for the device the envelope names, and sealed under one
    of the session's epoch keys. *)
Definition trusted (session : Session) (payload : PhrasePayload) : Prop :=
  exists env device key epochKey header,
    AccountID (EHeader env) = SAccountID session /\ DeviceID (EHeader env) = device /\
    SVerificationKeys session !! Hex.EncodeToString device = Some key /\
    SEpochKeys session !! KeyEpoch (EHeader env) = Some epochKey /\
    canonicalHeader (EHeader env) = Ok header /\
    ed25519_Verify key (header ++ Ciphertext env) (Signature env) = true /\
    Open epochKey env key = Ok payload.

Lemma Open_verified epochKey env key (payload : PhrasePayload) :
  Open epochKey env key = Ok payload ->
  exists header, canonicalHeader (EHeader env) = Ok header /\
    ed25519_Verify key (header ++ Ciphertext env) (Signature env) = true.
Proof.
  unfold Open. intros H. invert_ok. destruct (negb (len key =? PublicKeySize)); [done|]. invert_ok.
  destruct (negb (ed25519_Verify _ _ _)) eqn:Ev; [done|]. bools. eauto.
Qed.

Lemma Open_input_ok {PD : PayloadDecoder CP} epochKey env key (payload : PhrasePayload) :
  Open epochKey env key = Ok payload -> payload_input_ok payload.
Proof.
  unfold Open. intros H. invert_ok. destruct (negb (len key =? PublicKeySize)); [done|]. invert_ok.
  destruct (negb (ed25519_Verify _ _ _)); [done|]. invert_ok.
  destruct (aead_Open _ _ _ _) as [plain|]; [|done]. destruct (len plain <? 4); [done|].
  destruct (_ || _); [done|]. by eapply unmarshal_payload.
Qed.

Lemma trusted_input_ok {PD : PayloadDecoder CP} session payload : trusted session payload -> payload_input_ok payload.
Proof. intros (env & device & key & epochKey & header & _ & _ & _ & _ & _ & _ & H). by eapply Open_input_ok. Qed.

Lemma default_nonempty {K} `{Countable K} (m : gmap K bytes) k n :
  n <> 0 -> len (default [] (m !! k)) = n -> m !! k = Some (default [] (m !! k)).
Proof. intros Hn Hl. destruct (m !! k); [done|]. cbn in Hl. done. Qed.

(** One downloaded envelope that was opened. *)
Lemma download_trusted session wire env (payload : PhrasePayload) :
  EnvelopeFromDownload (SAccountID session) wire = Ok env ->
  len (verification_key session (WDeviceID wire)) = PublicKeySize ->
  len (epoch_key session (WKeyEpoch wire)) = 32 ->
  Open (epoch_key session (WKeyEpoch wire)) env (verification_key session (WDeviceID wire)) = Ok payload ->
  trusted session payload.
Proof.
  intros Henv Hv He Hopen. unfold EnvelopeFromDownload in Henv. case_bool_decide; [done|].
  destruct (decodeHexWireID (WDeviceID wire)) as [device|] eqn:Ed; [|done].
  apply decodeHexWireID_Ok in Ed as [Hw Hl].
  assert (AccountID (EHeader env) = SAccountID session /\ DeviceID (EHeader env) = device /\
          KeyEpoch (EHeader env) = WKeyEpoch wire) as (Ha & Hd & Hk).
  { unfold EnvelopeFromWire in Henv. invert_ok. done. }
  destruct (Open_verified _ _ _ _ Hopen) as (header & Hc & Hsig).
  exists env, device, (verification_key session (WDeviceID wire)), (epoch_key session (WKeyEpoch wire)), header.
  split_and!; try done.
  - rewrite <- Hw. by apply (default_nonempty _ _ PublicKeySize).
  - rewrite Hk. by apply (default_nonempty _ _ 32).
Qed.

(** A page that is accepted: every payload trusted, the cursors strictly
    increasing and within the announced end. *)
Lemma decode_page_Ok session next page : forall last payloads last',
  decode_page session next last page = Ok (payloads, last') ->
  Forall (trusted session) payloads /\ length payloads = length page /\
  StronglySorted Z.lt (last :: map WCursor page) /\ Forall (fun w => WCursor w <= next) page /\
  last' = List.last (map WCursor page) last.
Proof.
  induction page as [|wire page IH]; intros last payloads last' H; cbn [decode_page] in H.
  { injection H as <- <-. split_and!; try done; repeat constructor. }
  destruct (_ || _) eqn:Ec; [done|]. rewrite !Z.gtb_ltb in Ec. bools. invert_ok. rename a into env. bools.
  destruct a1 as [ps l]. invert_ok.
  destruct (IH _ _ _ Hok1) as (Ht & Hn & Hs & Hle & Hlast). split_and!.
  - constructor; [|done]. by eapply download_trusted.
  - cbn. by rewrite Hn.
  - cbn. constructor; [done|]. constructor; [lia|]. apply StronglySorted_inv in Hs as [_ Hs].
    eapply Forall_impl; [exact Hs|]. cbn. intros. lia.
  - constructor; [lia|done].
  - rewrite Hlast. symmetry. apply last_cons_default.
Qed.

Lemma decodeDownloads_Ok session response cursor payloads :
  decodeDownloads session response cursor = Ok payloads ->
  Forall (trusted session) payloads /\ length payloads = length (SEnvelopes response) /\
  StronglySorted Z.lt (cursor :: map WCursor (SEnvelopes response)) /\
  NextCursor response = List.last (map WCursor (SEnvelopes response)) cursor /\ cursor <= NextCursor response.
Proof.
  unfold decodeDownloads. intros H. invert_ok. destruct a as [ps last].
  destruct (decode_page_Ok _ _ _ _ _ _ Hok) as (Ht & Hn & Hs & Hle & Hlast). rewrite Z.gtb_ltb in H.
  destruct (_ && _) eqn:E1 in H; [done|]. destruct (_ && _) eqn:E2 in H; [done|]. invert_ok.
  assert (NextCursor response = List.last (map WCursor (SEnvelopes response)) cursor) as Hnext.
  { destruct (SEnvelopes response) as [|w page] eqn:Ep.
    - cbn. change (len (@nil WireEnvelope)) with 0 in E1. cbn in E1. by bools.
    - rewrite len_cons in E2. pose proof (len_nonneg page).
      rewrite (proj2 (Z.ltb_lt 0 (1 + len page))) in E2 by lia. cbn [andb] in E2. by bools. }
  split_and!; try done. rewrite Hnext. apply StronglySorted_inv in Hs as [_ Hs].
  destruct (map WCursor (SEnvelopes response)) as [|c l] eqn:Em; [cbn; lia|].
  rewrite Forall_forall in Hs. assert (List.last (c :: l) cursor ∈ c :: l) as Hin%Hs; [|lia].
  apply list_elem_of_In. destruct (exists_last (l := c :: l)) as (l' & x & ->); [done|].
  rewrite last_last. apply in_or_app. right. by left.
Qed.

End trust.

(** ** The round as an abstract machine *)

Section round.
Context `{E : Environment} `{P : Primitives} {PL : PrimitiveLaws P} `{U : UnicodeTables}.
Context `{J : Codec Phrase} {JL : JsonLaws J} `{CH : Codec Header}.
Context `{CP : Codec PhrasePayload} {PD : PayloadDecoder CP} `{CJ : ClientJson} {R : Type}.
Variable transport : HttpRequest -> R -> result HttpResponse * R.

(** The staged bytes are the wire form of an envelope of this device, signed
    with its key and linked to [previous], and the staged hash is its hash. *)
Definition genuine_upload (session : Session) (previous : bytes) (upload : PreparedUpload) : Prop :=
  exists env wire header,
    AccountID (EHeader env) = SAccountID session /\ DeviceID (EHeader env) = SessionDeviceID session /\
    DeviceSeq (EHeader env) = DeviceSequence upload /\ PreviousHash (EHeader env) = previous /\
    ToWire env = Ok wire /\ marshal_wire wire = Ok (Wire upload) /\
    EnvelopeHash env = Ok (UEnvelopeHash upload) /\ canonicalHeader (EHeader env) = Ok header /\
    Signature env = ed25519_Sign (SSigningPrivate session) (header ++ Ciphertext env).

(** An upload is staged under the next sequence number, or nothing happens. *)
Definition staging (session : Session) (cp cp1 : Checkpoint) : Prop :=
  cp1 = cp \/
  exists upload, cp_staged cp = None /\ DeviceSequence upload = cp_sequence cp /\
    genuine_upload session (cp_hash cp) upload /\ cp1 = stage cp upload.

Definition request_of (cp : Checkpoint) : result SyncRequest :=
  round_request (mkSyncState [] (cp_cursor cp) (cp_sequence cp) (cp_hash cp) (cp_staged cp)).

(** One payload merged into the plain table, and a list of them in order. *)
Definition merge_into (store : Store) (payload : PhrasePayload) (m m' : gmap bytes Phrase) : Prop :=
  exists oid merged, validatePayloadObject payload (idKey store) = Ok oid /\
    merge_result (m !! oid) payload = Ok merged /\ m' = <[oid := merged_phrase merged]> m.

Fixpoint merged_in (store : Store) (payloads : list PhrasePayload) (m m' : gmap bytes Phrase) : Prop :=
  match payloads with
  | [] => m' = m
  | payload :: rest => exists m1, merge_into store payload m m1 /\ merged_in store rest m1 m'
  end.

(** What a round is: from a checkpoint and a remote state to an outcome, a
    checkpoint, a remote state and the payloads merged on the way.  It may stop
    before the relay is asked, after that without having accepted the answer,
    while merging, after the commit, or succeed. *)
Inductive round (client : Client) (session : Session) (cp : Checkpoint) (remote : R)
    : result Result -> Checkpoint -> R -> list PhrasePayload -> Prop :=
  | round_unsent e cp1 : staging session cp cp1 -> round client session cp remote (Err e) cp1 remote []
  | round_unheard e cp1 request answer remote' :
      staging session cp cp1 -> request_of cp1 = Ok request ->
      Sync transport client (SDeviceToken session) request remote = (answer, remote') ->
      round client session cp remote (Err e) cp1 remote' []
  | round_interrupted e cp1 request response remote' payloads merged :
      staging session cp cp1 -> request_of cp1 = Ok request ->
      Sync transport client (SDeviceToken session) request remote = (Ok response, remote') ->
      acknowledged response cp1 -> decodeDownloads session response (cp_cursor cp) = Ok payloads ->
      merged `prefix_of` payloads -> round client session cp remote (Err e) cp1 remote' merged
  | round_uncounted e cp1 request response remote' payloads :
      staging session cp cp1 -> request_of cp1 = Ok request ->
      Sync transport client (SDeviceToken session) request remote = (Ok response, remote') ->
      acknowledged response cp1 -> decodeDownloads session response (cp_cursor cp) = Ok payloads ->
      round client session cp remote (Err e) (commit cp1) remote' payloads
  | round_done cp1 request response remote' payloads acked :
      staging session cp cp1 -> request_of cp1 = Ok request ->
      Sync transport client (SDeviceToken session) request remote = (Ok response, remote') ->
      acknowledged response cp1 -> decodeDownloads session response (cp_cursor cp) = Ok payloads ->
      round client session cp remote
        (Ok (mkResult (bool_decide (is_Some (cp_staged cp1))) acked (len payloads)
               (NextCursor response) (SHasMore response)))
        (advance (commit cp1) (NextCursor response)) remote' payloads.

Variable store : Store.

Lemma merged_in_app l : forall l' m m1 m2,
  merged_in store l m m1 -> merged_in store l' m1 m2 -> merged_in store (l ++ l') m m2.
Proof. induction l as [|p l IH]; intros l' m m1 m2; cbn; [by intros ->|]. intros (m0 & ? & ?) ?. eauto. Qed.

(** The part of the database a merge leaves alone. *)
Lemma merge_all_inv payloads : forall (s : Net R) r s',
  store_inv store (db (local s)) -> Forall payload_input_ok payloads ->
  merge_all store payloads s = (r, s') ->
  store_inv store (db (local s')) /\ sync_state (db (local s')) = sync_state (db (local s)) /\
  outbox (db (local s')) = outbox (db (local s)) /\ remote s' = remote s /\
  exists merged, merged `prefix_of` payloads /\ (r = Ok tt -> merged = payloads) /\
    merged_in store merged (abs store (db (local s))) (abs store (db (local s'))).
Proof.
  induction payloads as [|p l IH]; intros s r s' Hinv Hin H; cbn [merge_all] in H.
  { injection H as <- <-. split_and!; try done. exists []. by split_and!. }
  apply Forall_cons in Hin as [Hp Hl]. pose proof Hinv as [Hd Hs].
  assert (forall r0 s0, on_store (MergeRemotePayload store p) s = (r0, s0) ->
    store_inv store (db (local s0)) /\ sync_state (db (local s0)) = sync_state (db (local s)) /\
    outbox (db (local s0)) = outbox (db (local s)) /\ remote s0 = remote s /\
    ((exists e, r0 = Err e) /\ abs store (db (local s0)) = abs store (db (local s)) \/
     r0 = Ok tt /\ merge_into store p (abs store (db (local s))) (abs store (db (local s0))))) as Hstep.
  { intros r0 s0 (Hm & Hr & _)%on_store_inv. destruct (MergeRemotePayload_inv store _ _ _ _ Hd Hp Hm)
      as (Hd' & [[He Hsame]|(-> & oid & merged & Hv & Hmr & Hw & _)]).
    - destruct Hsame as (S1 & S2 & S3 & S4 & S5). split_and!; try done.
      + split; [done|]. intros row. rewrite S5. apply Hs.
      + left. split; [done|]. unfold abs. by rewrite S1.
    - pose proof Hw as (d1 & (S1 & S2 & S3 & S4 & S5) & Hwr). split_and!; try done.
      + split; [done|]. by eapply wrote_sync.
      + by rewrite (written_sync _ _ _ _ _ _ Hwr).
      + destruct (written_event _ _ _ _ _ _ Hwr) as [-> _]. done.
      + right. split; [done|]. exists oid, merged. split_and!; try done. by apply wrote_abs with false. }
  round_step H.
  - destruct (Hstep _ _ Hrun) as (I1 & I2 & I3 & I4 & [[[? [=]] _]|[_ Hmi]]).
    destruct (IH _ _ _ I1 Hl H) as (J1 & J2 & J3 & J4 & done_ & Hpre & Hall & Hmd).
    split_and!; try done; [congruence|congruence|congruence|]. exists (p :: done_). split_and!.
    + by apply prefix_cons.
    + intros Hr. by rewrite (Hall Hr).
    + cbn. eauto.
  - subst. destruct (Hstep _ _ Hrun) as (I1 & I2 & I3 & I4 & [[_ Ha]|[[=] _]]).
    split_and!; try done. exists []. split_and!; [apply prefix_nil|done|done].
Qed.

Hypothesis device_text : ValidString (deviceID store) = true.
Hypothesis clock_readings : forall n, in_i64 (now_at n).

(** What the worker stages is a genuine upload. *)
Lemma SealEnvelope_genuine session state event random env rest wire encoded hash :
  SealEnvelope event (options_of session state) random = Ok (env, rest) ->
  ToWire env = Ok wire -> marshal_wire wire = Ok encoded -> EnvelopeHash env = Ok hash ->
  genuine_upload session (SPreviousHash state)
    (mkPrepared (EID event) (EVersion event) (NextDeviceSequence state) encoded hash).
Proof.
  intros H Hw Hm Hh. unfold SealEnvelope in H. destruct (_ || _); [done|]. destruct (_ || _); [done|].
  invert_ok. apply Seal_Ok in H as (nonce & aad & plain & src & key & aead & _ & _ & Haad & _ & _ & _ & ->).
  by exists (mkEnvelope (with_nonce (mkHeader 0 (SAccountID session) (EObjectID event) (SKeyEpoch session)
    (SessionDeviceID session) (NextDeviceSequence state) (SPreviousHash state) []) nonce)
    (aead_Seal aead nonce plain aad)
    (ed25519_Sign (SSigningPrivate session) (aad ++ aead_Seal aead nonce plain aad))), wire, aad.
Qed.

Lemma PendingEvents_quiet limit w r w' : PendingEvents store limit w = (r, w') -> db w' = db w.
Proof.
  unfold PendingEvents. destruct (_ || _); [by intros [= _ <-]|]. intros H. step_run H.
  - apply query_inv in Hrun as (Hd & _). by injection H as _ <-.
  - by apply query_inv in Hrun as (Hd & _).
Qed.

(** Nothing but the checkpoint has changed, and the database is sound. *)
Definition quiet_step (s s' : Net R) : Prop :=
  store_inv store (db (local s')) /\ remote s' = remote s /\
  abs store (db (local s')) = abs store (db (local s)) /\ outbox (db (local s')) = outbox (db (local s)).

Lemma quiet_same (s s' : Net R) :
  store_inv store (db (local s)) -> db (local s') = db (local s) -> remote s' = remote s -> quiet_step s s'.
Proof. intros Hi Hd Hr. unfold quiet_step. by rewrite Hd. Qed.

Lemma quiet_trans s1 s2 s3 : quiet_step s1 s2 -> quiet_step s2 s3 -> quiet_step s1 s3.
Proof. intros (_ & ? & ? & ?) (? & ? & ? & ?). unfold quiet_step. split_and!; congruence || done. Qed.

Lemma prepare_inv session state (s : Net R) r s' :
  store_inv store (db (local s)) -> checkpoint store (db (local s)) = Some (checkpoint_of state) ->
  prepare session store state s = (r, s') ->
  quiet_step s s' /\ exists cp1, staging session (checkpoint_of state) cp1 /\
    checkpoint store (db (local s')) = Some cp1 /\ forall state', r = Ok state' -> checkpoint_of state' = cp1.
Proof.
  intros Hinv Hcp H. unfold prepare in H.
  assert (forall s1 r1, db (local s1) = db (local s) -> remote s1 = remote s ->
    (forall state', r1 = Ok state' -> state' = state) -> quiet_step s s1 /\ exists cp1, staging session (checkpoint_of state) cp1 /\
    checkpoint store (db (local s1)) = Some cp1 /\ forall state', r1 = Ok state' -> checkpoint_of state' = cp1) as Hstop.
  { intros s1 r1 Hd Hr Hst. split; [by apply quiet_same|]. exists (checkpoint_of state). rewrite Hd.
    split_and!; [by left|done|]. intros state' Eq. by rewrite (Hst _ Eq). }
  destruct (Prepared state) as [u|] eqn:Ep; [injection H as <- <-; apply Hstop; [done..|congruence]|].
  round_step H; pose proof Hrun as (Hrun1%PendingEvents_quiet & Hr1 & _)%on_store_inv; [|subst; by apply Hstop].
  destruct a as [|event events]; [injection H as <- <-; apply Hstop; [done..|congruence]|].
  round_step H; pose proof Hrun0 as (Hl2 & Hr2 & Hcase)%on_random_inv; [|subst; apply Hstop; [by rewrite Hl2|congruence|done]].
  destruct Hcase as [[? [=]]|(env & [= ->] & Hseal)].
  round_step H; apply wlift_inv in Hrun2 as [Hwire ->]; [|subst; apply Hstop; [by rewrite Hl2|congruence|done]].
  round_step H; apply wlift_inv in Hrun2 as [Henc ->]; [|subst; apply Hstop; [by rewrite Hl2|congruence|done]].
  round_step H; apply wlift_inv in Hrun2 as [Hhash ->]; [|subst; apply Hstop; [by rewrite Hl2|congruence|done]].
  pose proof (SealEnvelope_genuine _ _ _ _ _ _ _ _ _ Hseal Hwire Henc Hhash) as Hgen.
  assert (db (local s1) = db (local s)) as Hd2 by (rewrite Hl2; exact Hrun1).
  assert (store_inv store (db (local s1))) as Hinv2 by (by rewrite Hd2).
  assert (checkpoint store (db (local s1)) = Some (checkpoint_of state)) as Hcp2 by (by rewrite Hd2).
  round_step H; apply on_store_inv in Hrun2 as (Hsave & Hr3 & _);
    pose proof (SavePreparedUpload_checkpoint store _ _ _ _ _ (proj2 Hinv2) Hcp2 Hsave)
      as [[[? He] Hd3]|(He & Hcase & Hcp3 & Ha3 & Ho3)]; try done.
  2: { subst. apply Hstop; [congruence|congruence|done]. }
  assert (store_inv store (db (local s2))) as Hinv3
    by (eapply step_inv; [done..| |exact Hinv2]; by eapply step_prepare).
  apply on_store_inv in H as (Hload & Hr5 & _). apply LoadSyncState_checkpoint in Hload as [Hd5 Hst5].
  split.
  { apply quiet_trans with s1; [by apply quiet_same; [|done|congruence]|].
    apply quiet_trans with s2; [|apply quiet_same; [done..|congruence]]. unfold quiet_step. split_and!; try done. }
  exists (stage (checkpoint_of state) (mkPrepared (EID event) (EVersion event) (NextDeviceSequence state) a0 a1)).
  rewrite Hd5. split_and!; [|done|].
  - right. exists (mkPrepared (EID event) (EVersion event) (NextDeviceSequence state) a0 a1).
    split_and!; [exact Ep|done|exact Hgen|done].
  - intros state' [_ Eq]%Hst5. congruence.
Qed.

(** The outcome of a run: a round of the abstract machine, the merged payloads
    trusted and the database sound. *)
Definition round_outcome (client : Client) (session : Session) (cp : Checkpoint) (s : Net R)
    (r : result Result) (s' : Net R) : Prop :=
  store_inv store (db (local s')) /\ exists cp' payloads,
    round client session cp (remote s) r cp' (remote s') payloads /\
    checkpoint store (db (local s')) = Some cp' /\ Forall (trusted session) payloads /\
    merged_in store payloads (abs store (db (local s))) (abs store (db (local s'))).

(** From the answer of the relay on: merging, committing, advancing. *)
Lemma finish_inv client session cp cp1 prepared request response payloads (s0 s : Net R) r s' :
  store_inv store (db (local s)) -> checkpoint store (db (local s)) = Some cp1 -> cp_staged cp1 = prepared ->
  abs store (db (local s)) = abs store (db (local s0)) ->
  staging session cp cp1 -> request_of cp1 = Ok request ->
  Sync transport client (SDeviceToken session) request (remote s0) = (Ok response, remote s) ->
  acknowledged response cp1 -> decodeDownloads session response (cp_cursor cp) = Ok payloads ->
  wbind (merge_all store payloads) (fun _ =>
    go! acked := match prepared with Some _ => on_store (CommitPreparedUpload store) | None => wret false end in
    go! _ := on_store (AdvanceSyncCursor store (cp_cursor cp) (NextCursor response)) in
    wret (mkResult (bool_decide (is_Some prepared)) acked (len payloads) (NextCursor response) (SHasMore response))) s
    = (r, s') ->
  round_outcome client session cp s0 r s'.
Proof.
  intros Hinv Hcp <- Habs Hst Hreq Hsync Hack Hdec H.
  destruct (decodeDownloads_Ok _ _ _ _ Hdec) as (Htr & _).
  assert (Forall payload_input_ok payloads) as Hin
    by (eapply Forall_impl; [exact Htr|]; intros ?; apply trusted_input_ok).
  assert (forall l, l `prefix_of` payloads -> Forall (trusted session) l) as Hpre
    by (intros l [k ->]; by apply Forall_app in Htr as [? _]).
  round_step H; destruct (merge_all_inv _ _ _ _ Hinv Hin Hrun) as (I1 & I2 & I3 & I4 & merged & Hp & Hall & Hm);
    rewrite Habs in Hm; rewrite <- (checkpoint_same store _ _ I2) in Hcp.
  2: { subst. split; [done|]. exists cp1, merged. rewrite I4. split_and!; try done; [|by apply Hpre]. by eapply round_interrupted. }
  destruct a. rewrite (Hall eq_refl) in Hm. clear Hp Hall.
  assert (forall r1 s2, match cp_staged cp1 with Some _ => on_store (CommitPreparedUpload store) | None => wret false end s1 = (r1, s2) ->
    store_inv store (db (local s2)) /\ remote s2 = remote s1 /\ abs store (db (local s2)) = abs store (db (local s1)) /\
    ((exists e, r1 = Err e) /\ checkpoint store (db (local s2)) = Some cp1 \/
     (exists b, r1 = Ok b) /\ checkpoint store (db (local s2)) = Some (commit cp1))) as Hcommit.
  { intros r1 s2 Hc. destruct (cp_staged cp1) as [u|] eqn:Eu.
    - apply on_store_inv in Hc as (Hc & Hr & _).
      assert (store_inv store (db (local s2))) as Hi2 by (eapply step_inv; [done..| |exact I1]; by eapply step_commit).
      destruct (CommitPreparedUpload_checkpoint store _ _ _ _ _ (proj2 I1) Hcp Eu Hc) as [[? Hd]|(? & ? & ? & _)].
      + rewrite Hd. split_and!; try done. by left.
      + split_and!; try done. by right.
    - injection Hc as <- <-. split_and!; try done. right. split; [by eauto|]. unfold commit. by rewrite Eu. }
  round_step H; destruct (Hcommit _ _ Hrun0) as (C1 & C2 & C3 & Hcase).
  2: { subst. split; [done|]. exists cp1, payloads. destruct Hcase as [[_ Hcp1]|[[? [=]] _]]. rewrite C2, C3, I4.
       split_and!; try done. by eapply round_interrupted. }
  destruct Hcase as [[[? [=]] _]|[_ Hcp2]].
  round_step H; apply on_store_inv in Hrun1 as (Hadv & Hr3 & _);
    pose proof (AdvanceSyncCursor_checkpoint store _ _ _ _ _ _ (proj2 C1) Hcp2 Hadv)
      as [[[? He] Hd3]|(He & _ & _ & Hcp3 & Ha3 & _)]; try done.
  - assert (store_inv store (db (local s3))) as Hi3 by (eapply step_inv; [done..| |exact C1]; by eapply step_cursor).
    injection H as <- <-. split; [done|]. exists (advance (commit cp1) (NextCursor response)), payloads.
    rewrite Hr3, C2, I4, Ha3, C3. split_and!; try done. by eapply round_done.
  - subst. unfold round_outcome. rewrite Hd3. split; [done|]. exists (commit cp1), payloads. rewrite Hr3, C2, I4, C3.
    split_and!; try done. by eapply round_uncounted.
Qed.

Lemma staging_cursor session cp cp1 : staging session cp cp1 -> cp_cursor cp1 = cp_cursor cp.
Proof. by intros [->|(u & _ & _ & _ & ->)]. Qed.

(** A run that stopped before anything was merged. *)
Lemma stopped_outcome client session cp cp1 (s : Net R) e s' :
  quiet_step s s' -> checkpoint store (db (local s')) = Some cp1 -> staging session cp cp1 ->
  round_outcome client session cp s (Err e) s'.
Proof.
  intros (Hi & Hr & Ha & _) Hcp Hst. split; [done|]. exists cp1, []. rewrite Hr, Ha.
  split_and!; try done. by apply round_unsent.
Qed.

(** A run that stopped after the relay was asked. *)
Lemma unheard_outcome client session cp cp1 request answer (s s1 : Net R) e s' :
  quiet_step s s1 -> checkpoint store (db (local s1)) = Some cp1 -> staging session cp cp1 ->
  request_of cp1 = Ok request ->
  Sync transport client (SDeviceToken session) request (remote s1) = (answer, remote s') -> local s' = local s1 ->
  round_outcome client session cp s (Err e) s'.
Proof.
  intros (Hi & Hr & Ha & _) Hcp Hst Hreq Hsync Hl. rewrite Hr in Hsync. unfold round_outcome. rewrite Hl.
  split; [done|]. exists cp1, []. split_and!; try done. by eapply round_unheard.
Qed.

Lemma SyncOnce_inv worker client (s : Net R) r s' cp :
  WClient worker = Some client -> WStore worker = Some store ->
  store_inv store (db (local s)) -> checkpoint store (db (local s)) = Some cp ->
  SyncOnce transport worker s = (r, s') -> round_outcome client (WSession worker) cp s r s'.
Proof.
  intros Hc Hs Hinv Hcp H. unfold SyncOnce in H. rewrite Hc, Hs in H. set (session := WSession worker) in *.
  assert (staging session cp cp) as Hrefl by (by left).
  round_step H; apply wlift_inv in Hrun as [Hval ->]; [|subst; by eapply stopped_outcome; [apply quiet_same| |]].
  round_step H; apply on_store_inv in Hrun as ([Hd1 Hst1]%LoadSyncState_checkpoint & Hr1 & _);
    [|subst; eapply stopped_outcome; [by apply quiet_same| |done]; by rewrite Hd1].
  destruct (Hst1 _ eq_refl) as [Hdev Hcp1]. rename a0 into state.
  assert (cp = checkpoint_of state) as -> by congruence. clear Hst1.
  assert (quiet_step s s0) as Q1 by (by apply quiet_same). rewrite <- Hd1 in Hcp1.
  destruct (negb _); [injection H as <- <-; by eapply stopped_outcome|].
  assert (store_inv store (db (local s0))) as Hinv0 by (by rewrite Hd1).
  round_step H; destruct (prepare_inv _ _ _ _ _ Hinv0 Hcp1 Hrun) as (Q2 & cp1 & Hst & Hcp2 & Hstate);
    pose proof (quiet_trans _ _ _ Q1 Q2) as Q; [|subst; by eapply stopped_outcome].
  specialize (Hstate _ eq_refl). rename a0 into state1.
  change (round_request state1) with (request_of (checkpoint_of state1)) in H.
  change (Prepared state1) with (cp_staged (checkpoint_of state1)) in H.
  change (Cursor state1) with (cp_cursor (checkpoint_of state1)) in H. rewrite Hstate in H.
  round_step H; apply wlift_inv in Hrun0 as [Hreq ->]; [|subst r; by eapply stopped_outcome].
  round_step H; apply on_network_inv in Hrun0 as (Hsync & Hl & _); [|subst r; by eapply unheard_outcome].
  round_step H; apply wlift_inv in Hrun0 as [Hup ->]; [|subst r; by eapply unheard_outcome].
  destruct a2. apply check_upload_Ok in Hup.
  rewrite (staging_cursor _ _ _ Hst) in H.
  round_step H; apply wlift_inv in Hrun0 as [Hdec ->]; [|subst r; by eapply unheard_outcome].
  destruct Q as (Hi & Hr & Ha & _). rewrite Hr in Hsync.
  eapply (finish_inv _ _ _ cp1); [by rewrite Hl..|reflexivity| |done|done|exact Hsync|done|exact Hdec|exact H]. by rewrite Hl.
Qed.

End round.
