(* ===== verification/ClientProps.v ===== *)
(** * Properties of the sync client

    One round refines the abstract checkpoint machine, whatever the relay
    answers; a relay cannot inject phrases; the checkpoint moves only as
    confirmed; rounds are bounded and end idle. *)

From S2P Require Import Prelude Encoding Unicode Crypto Envelope Boxes Crdt Phrase LocalStore LocalStoreFacts SyncState StoreProps Client ClientFacts.

Section client_properties.
Context `{E : Environment} `{P : Primitives} {PL : PrimitiveLaws P} `{U : UnicodeTables}.
Context `{J : Codec Phrase} {JL : JsonLaws J} `{CH : Codec Header}.
Context `{CP : Codec PhrasePayload} {PD : PayloadDecoder CP} `{CJ : ClientJson} {R : Type}.
Variable transport : HttpRequest -> R -> result HttpResponse * R.
Variable store : Store.
Hypothesis device_text : ValidString (deviceID store) = true.
Hypothesis clock_readings : forall n, in_i64 (now_at n).

(** C5: a round of the worker refines the abstract checkpoint machine.  Against
    any relay and any pattern of failing statements, what [SyncOnce] does to the
    persisted checkpoint is one step of [round]: stage at most one genuine
    envelope under the next sequence number, ask the relay at most once, merge
    the downloaded payloads in order only after a confirmed answer, then commit
    the chain, then advance the cursor; an error stops it between two of these,
    and the database stays sound. *)
Theorem sync_round_refines (worker : Worker) (client : Client) (s : Net R) r s' cp :
  WClient worker = Some client -> WStore worker = Some store ->
  store_inv store (db (local s)) -> checkpoint store (db (local s)) = Some cp ->
  SyncOnce transport worker s = (r, s') ->
  store_inv store (db (local s')) /\ exists cp' payloads,
    round transport client (WSession worker) cp (remote s) r cp' (remote s') payloads /\
    checkpoint store (db (local s')) = Some cp' /\
    merged_in store payloads (abs store (db (local s))) (abs store (db (local s'))).
Proof.
  intros Hc Hs Hinv Hcp H.
  destruct (SyncOnce_inv transport store device_text clock_readings _ _ _ _ _ _ Hc Hs Hinv Hcp H)
    as (Hi & cp' & payloads & Hr & Hcp' & _ & Hm). eauto 6.
Qed.

(** Merging never removes a phrase, and changes only the phrases it is about. *)
Lemma merged_in_keeps payloads : forall m m' oid,
  merged_in store payloads m m' -> is_Some (m !! oid) -> is_Some (m' !! oid).
Proof.
  induction payloads as [|p l IH]; intros m m' oid; cbn; [by intros ->|].
  intros (m1 & (oid1 & merged & _ & _ & ->) & Hrest) Hm. apply (IH _ _ _ Hrest).
  destruct (decide (oid = oid1)) as [->|]; [rewrite lookup_insert_eq; eauto|by rewrite lookup_insert_ne].
Qed.

Lemma merged_in_changes payloads : forall m m' oid,
  merged_in store payloads m m' -> m' !! oid <> m !! oid ->
  is_Some (m' !! oid) /\
  exists payload, payload ∈ payloads /\ validatePayloadObject payload (idKey store) = Ok oid.
Proof.
  induction payloads as [|p l IH]; intros m m' oid; cbn; [by intros ->|].
  intros (m1 & (oid1 & merged & Hv & _ & ->) & Hrest) Hne.
  destruct (decide (oid = oid1)) as [->|Hoid].
  - split; [|exists p; split; [by left|done]]. eapply merged_in_keeps; [exact Hrest|]. rewrite lookup_insert_eq; eauto.
  - destruct (IH _ _ oid Hrest) as (Hsome & payload & Hin & Hp); [by rewrite lookup_insert_ne|].
    split; [done|]. exists payload. split; [by right|done].
Qed.

(** C7: the relay cannot inject anything.  Every phrase a round changes belongs
    to a payload that came in an envelope of the session's own account, signed
    with the key the session holds for the sending device and sealed under one
    of the session's epoch keys; phrases are never removed. *)
Theorem relay_cannot_inject (worker : Worker) (client : Client) (s : Net R) r s' cp oid :
  WClient worker = Some client -> WStore worker = Some store ->
  store_inv store (db (local s)) -> checkpoint store (db (local s)) = Some cp ->
  SyncOnce transport worker s = (r, s') ->
  abs store (db (local s')) !! oid <> abs store (db (local s)) !! oid ->
  is_Some (abs store (db (local s')) !! oid) /\
  exists payload, trusted (WSession worker) payload /\ validatePayloadObject payload (idKey store) = Ok oid.
Proof.
  intros Hc Hs Hinv Hcp H Hne.
  destruct (SyncOnce_inv transport store device_text clock_readings _ _ _ _ _ _ Hc Hs Hinv Hcp H)
    as (Hi & cp' & payloads & Hr & Hcp' & Ht & Hm).
  destruct (merged_in_changes _ _ _ _ Hm Hne) as (Hsome & payload & Hin & Hv). split; [done|]. exists payload.
  rewrite Forall_forall in Ht. auto.
Qed.

(** What a step of the abstract machine can do to the checkpoint. *)
Lemma round_checkpoint client session cp remote r cp' remote' payloads :
  (forall u, cp_staged cp = Some u -> DeviceSequence u = cp_sequence cp) ->
  round transport client session cp remote r cp' remote' payloads ->
  cp_cursor cp <= cp_cursor cp' /\
  (forall e, r = Err e -> cp_cursor cp' = cp_cursor cp) /\
  (forall result, r = Ok result -> cp_cursor cp' = RCursor result /\ cp_staged cp' = None) /\
  (cp_sequence cp' = cp_sequence cp /\ cp_hash cp' = cp_hash cp /\
     (forall u, cp_staged cp = Some u -> cp_staged cp' = Some u) \/
   exists u request response,
     (cp_staged cp = Some u \/ cp_staged cp = None /\ genuine_upload session (cp_hash cp) u) /\
     Sync transport client (SDeviceToken session) request remote = (Ok response, remote') /\
     AcceptedSequences response = [DeviceSequence u] /\ RejectedSequences response = [] /\
     DeviceSequence u = cp_sequence cp /\ cp_sequence cp' = cp_sequence cp + 1 /\
     cp_hash cp' = UEnvelopeHash u /\ cp_staged cp' = None).
Proof.
  intros Hseq.
  assert (forall cp1, staging session cp cp1 -> cp_cursor cp1 = cp_cursor cp /\ cp_sequence cp1 = cp_sequence cp /\
    cp_hash cp1 = cp_hash cp /\ (forall u, cp_staged cp = Some u -> cp_staged cp1 = Some u) /\
    (forall u, cp_staged cp1 = Some u -> DeviceSequence u = cp_sequence cp /\
       (cp_staged cp = Some u \/ cp_staged cp = None /\ genuine_upload session (cp_hash cp) u))) as Hst.
  { intros cp1 [->|(u & Hn & Hd & Hg & ->)]; [by split_and!; auto|]. cbn. split_and!; try done; [congruence|].
    intros u' [= <-]. auto. }
  assert (forall cp1 request response, staging session cp cp1 ->
    Sync transport client (SDeviceToken session) request remote = (Ok response, remote') ->
    acknowledged response cp1 -> forall u, cp_staged cp1 = Some u ->
    (cp_staged cp = Some u \/ cp_staged cp = None /\ genuine_upload session (cp_hash cp) u) /\
     Sync transport client (SDeviceToken session) request remote = (Ok response, remote') /\
     AcceptedSequences response = [DeviceSequence u] /\ RejectedSequences response = [] /\
     DeviceSequence u = cp_sequence cp) as Hack.
  { intros cp1 request response (_ & _ & _ & _ & H4)%Hst Hs [Hr Ha] u Hu. rewrite Hu in Ha.
    destruct (H4 _ Hu) as [? ?]. split_and!; done. }
  intros H. destruct H as [e cp1 Hs|e cp1 rq a r2 Hs _ _|e cp1 rq resp r2 ps m Hs _ _ _ _ _|e cp1 rq resp r2 ps Hs Hrq Hsy Ha Hd
    |cp1 rq resp r2 ps acked Hs Hrq Hsy Ha Hd];
    destruct (Hst _ Hs) as (H1 & H2 & H3 & H4 & H5); rewrite ?H1.
  1-3: split; [lia|]; split; [done|]; split; [done|]; left; by split_and!.
  - assert (cp_cursor (commit cp1) = cp_cursor cp) as -> by (rewrite <- H1; unfold commit; by destruct (cp_staged cp1)).
    split_and!; [lia|done|done|]. unfold commit. destruct (cp_staged cp1) as [u|] eqn:Eu.
    + right. destruct (Hack _ _ _ Hs Hsy Ha u Eu) as (A1 & A2 & A3 & A4 & A5).
      exists u, rq, resp. cbn. split_and!; try done. lia.
    + left. rewrite Eu. by split_and!.
  - destruct (decodeDownloads_Ok _ _ _ _ Hd) as (_ & _ & _ & _ & Hle).
    assert (cp_staged (commit cp1) = None) as Hns by (unfold commit; destruct (cp_staged cp1) eqn:Eu; done).
    split_and!; [done|done|by intros result [= <-]|].
    unfold commit in *. destruct (cp_staged cp1) as [u|] eqn:Eu.
    + right. destruct (Hack _ _ _ Hs Hsy Ha u Eu) as (A1 & A2 & A3 & A4 & A5).
      exists u, rq, resp. cbn. split_and!; try done. lia.
    + left. cbn. rewrite Eu. by split_and!.
Qed.

(** A staged upload carries the next sequence number. *)
Lemma staged_sequence d cp u :
  store_inv store d -> checkpoint store d = Some cp -> cp_staged cp = Some u -> DeviceSequence u = cp_sequence cp.
Proof.
  intros Hinv Hcp Hu.
  destruct (checkpoint_Some store _ _ (proj2 Hinv) Hcp) as (row & Hrow & _ & Hseq & _ & Hp). rewrite Hu in Hp.
  destruct Hp as (_ & _ & Hp & _). apply own_row_Some in Hrow as [Hrow _].
  destruct (proj2 Hinv _ Hrow) as [_ Hn]. rewrite Hseq. by apply Hn.
Qed.

(** What a successful round reports is what happened to the checkpoint. *)
Lemma round_reports client session cp remote result cp' remote' payloads :
  (forall u, cp_staged cp = Some u -> DeviceSequence u = cp_sequence cp) ->
  round transport client session cp remote (Ok result) cp' remote' payloads ->
  cp_sequence cp' = cp_sequence cp + (if Uploaded result then 1 else 0) /\ cp_cursor cp' = RCursor result /\
  cp_staged cp' = None /\ cp_cursor cp <= cp_cursor cp' /\ Downloaded result = len payloads.
Proof.
  intros Hseq H. inversion H as [| | | |cp1 rq resp r2 ps acked Hs Hrq Hsy Ha Hd]; subst.
  destruct (decodeDownloads_Ok _ _ _ _ Hd) as (_ & _ & _ & _ & Hle).
  assert (cp_sequence cp1 = cp_sequence cp /\ forall u, cp_staged cp1 = Some u -> DeviceSequence u = cp_sequence cp)
    as [H1 H2] by (destruct Hs as [->|(u & _ & Hu & _ & ->)]; [done|split; [done|by intros ? [= <-]]]).
  unfold advance, commit. cbn. destruct (cp_staged cp1) as [u|] eqn:Eu; cbn.
  - rewrite (H2 u) by done. split_and!; done.
  - rewrite H1, Eu. split_and!; try done. lia.
Qed.

(** The persisted checkpoint is safe.  A round never moves the cursor back,
    moves it forward only when it succeeds, and then to the end of the page it
    downloaded; it moves the device's chain by at most one record, the staged
    one, and only after the relay has confirmed exactly that sequence number
    and nothing else; until then the staged upload is kept unchanged, so a
    retry sends the same bytes. *)
Theorem sync_round_checkpoint (worker : Worker) (client : Client) (s : Net R) r s' cp :
  WClient worker = Some client -> WStore worker = Some store ->
  store_inv store (db (local s)) -> checkpoint store (db (local s)) = Some cp ->
  SyncOnce transport worker s = (r, s') ->
  exists cp', checkpoint store (db (local s')) = Some cp' /\
    cp_cursor cp <= cp_cursor cp' /\
    (forall e, r = Err e -> cp_cursor cp' = cp_cursor cp) /\
    (forall result, r = Ok result -> cp_cursor cp' = RCursor result /\ cp_staged cp' = None) /\
    (cp_sequence cp' = cp_sequence cp /\ cp_hash cp' = cp_hash cp /\
       (forall u, cp_staged cp = Some u -> cp_staged cp' = Some u) \/
     exists u request response,
       (cp_staged cp = Some u \/ cp_staged cp = None /\ genuine_upload (WSession worker) (cp_hash cp) u) /\
       Sync transport client (SDeviceToken (WSession worker)) request (remote s) = (Ok response, remote s') /\
       AcceptedSequences response = [DeviceSequence u] /\ RejectedSequences response = [] /\
       DeviceSequence u = cp_sequence cp /\ cp_sequence cp' = cp_sequence cp + 1 /\
       cp_hash cp' = UEnvelopeHash u /\ cp_staged cp' = None).
Proof.
  intros Hc Hs Hinv Hcp H.
  destruct (SyncOnce_inv transport store device_text clock_readings _ _ _ _ _ _ Hc Hs Hinv Hcp H)
    as (_ & cp' & payloads & Hr & Hcp' & _ & _). exists cp'. split; [done|].
  eapply round_checkpoint; [|exact Hr]. intros u Hu. by eapply staged_sequence.
Qed.

(** The store is sound and bound to the device. *)
Definition ready (d : Database) : Prop := store_inv store d /\ is_Some (checkpoint store d).

Lemma round_ready worker client (s : Net R) r s' :
  WClient worker = Some client -> WStore worker = Some store -> ready (db (local s)) ->
  SyncOnce transport worker s = (r, s') -> ready (db (local s')).
Proof.
  intros Hc Hs [Hinv [cp Hcp]] H.
  destruct (SyncOnce_inv transport store device_text clock_readings _ _ _ _ _ _ Hc Hs Hinv Hcp H)
    as (Hi & cp' & payloads & _ & Hcp' & _). split; eauto.
Qed.

Lemma sync_rounds_inv worker client rounds : forall results (s : Net R) results' err s',
  WClient worker = Some client -> WStore worker = Some store -> ready (db (local s)) ->
  sync_rounds transport worker rounds results s = ((results', err), s') ->
  ready (db (local s')) /\ exists more, results' = results ++ more /\ (length more <= rounds)%nat /\
    (err = None -> exists result, last more = Some result /\ HasMore result = false /\ outbox (db (local s')) = []).
Proof.
  induction rounds as [|rounds IH]; intros results s results' err s' Hc Hs Hrdy H; cbn [sync_rounds] in H.
  { injection H as <- <- <-. split; [done|]. exists []. rewrite app_nil_r. by split_and!. }
  destruct (SyncOnce transport worker s) as [[result|e] s1] eqn:E1; pose proof (round_ready _ _ _ _ _ Hc Hs Hrdy E1) as Hrdy1.
  2: { injection H as <- <- <-. split; [done|]. exists []. rewrite app_nil_r. split_and!; [done|cbn; lia|done]. }
  destruct (on_store PendingEventCount s1) as [q s2] eqn:E2.
  pose proof E2 as ((Hd & _ & Hq)%query_inv & _ & _)%on_store_inv. rewrite <- Hd in Hrdy1.
  destruct q as [pending|e].
  2: { injection H as <- <- <-. split; [done|]. exists [result]. split_and!; [done|cbn; lia|done]. }
  destruct Hq as [[? [=]]|[= ->]]. destruct (negb (HasMore result) && _) eqn:Ei.
  - injection H as <- <- <-. split; [done|]. exists [result]. split_and!; [done|cbn; lia|]. intros _.
    exists result. bools. split_and!; [done|done|]. rewrite Hd. destruct (outbox (db (local s1))); [done|].
    rewrite len_cons in *. pose proof (len_nonneg l). lia.
  - destruct (IH _ _ _ _ _ Hc Hs Hrdy1 H) as (Hr & more & -> & Hl & Hidle). split; [done|].
    exists (result :: more). rewrite <- app_assoc. split_and!; [done|cbn; lia|]. intros He.
    destruct (Hidle He) as (res & Hlast & ? & ?). exists res. split_and!; try done.
    rewrite last_cons, Hlast. done.
Qed.

(** C33: a drain of the queue is bounded and means what it says.  Whatever the
    relay answers, at most [maxRounds] rounds are made and the store stays
    sound; when no error is reported, the last round had nothing more to fetch
    and the outbox is empty. *)
Theorem sync_until_idle_bounded (worker : Worker) (client : Client) (maxRounds : Z) (s : Net R) results err s' :
  WClient worker = Some client -> WStore worker = Some store -> ready (db (local s)) ->
  SyncUntilIdle transport worker maxRounds s = ((results, err), s') ->
  ready (db (local s')) /\ len results <= 1024 /\ len results <= Z.max 0 maxRounds /\
  (err = None -> exists result, last results = Some result /\ HasMore result = false /\ outbox (db (local s')) = []).
Proof.
  intros Hc Hs Hr H. unfold SyncUntilIdle in H. rewrite Z.gtb_ltb in H. destruct (_ || _) eqn:Eb.
  - injection H as <- <- <-. change (len (@nil Result)) with 0. split_and!; try done; lia.
  - bools. destruct (sync_rounds_inv _ _ _ _ _ _ _ _ Hc Hs Hr H) as (Hr' & more & -> & Hl & Hidle). cbn [app].
    unfold len. split_and!; try done; lia.
Qed.

End client_properties.
