(* ===== verification/Server.v ===== *)
(** * The sync relay ([sync/internal/server/server.go])

    The relay's database as a record of its tables, and every handler as a
    computation over it.  A handler either answers with a value or with an
    error status and code; the environment decides which SQL statements fail
    and what the clock shows.  Statements of a transaction are undone together.
    The decoding of a JSON body is an argument: [None] stands for a body that
    [decodeJSON] refuses. *)

From S2P Require Import Prelude Encoding Sha256 Unicode Crypto Envelope.

(** ** Tables ([migrations/001_init.sql]) *)

Record Account := mkAccount { recovery_authentication_hash : bytes; acc_created_at : Z }.

Record Device := mkDevice {
  dev_account_id : bytes; dev_name : bytes; token_hash : bytes; dev_ed25519 : bytes; dev_x25519 : bytes;
  ack_cursor : Z; dev_created_at : Z; revoked_at : option Z
}.

Inductive pairing_state := created | joined | approved | claimed.

#[export] Instance pairing_state_eq_dec : EqDecision pairing_state.
Proof. solve_decision. Defined.

Record Pairing := mkPairing {
  pair_account_id : bytes; creator_device_id : bytes; secret_hash : bytes; state : pairing_state;
  pending_name : bytes; pending_ed25519 : bytes; pending_x25519 : bytes;
  new_device_id : bytes; encrypted_keyring : bytes; expires_at : Z; claimed_at : option Z; pair_created_at : Z
}.

Record KeyringRow := mkKeyring {
  ring_ciphertext : bytes; writer_device_id : bytes; ring_created_at : Z
}.

Record EnvelopeRow := mkRow {
  cursor : Z; env_account_id : bytes; env_device_id : bytes; device_seq : Z; env_version : Z;
  env_object_id : bytes; env_key_epoch : Z; env_previous_hash : bytes; env_nonce : bytes;
  env_ciphertext : bytes; env_signature : bytes; record_hash : bytes; env_created_at : Z
}.

(** [envelopes] is kept in the order of [cursor]; [last_cursor] is the greatest
    cursor given out (the table is AUTOINCREMENT). *)
Record ServerDB := mkServerDB {
  accounts : gmap bytes Account;
  devices : gmap bytes Device;
  pairings : gmap bytes Pairing;
  keyrings : gmap (bytes * Z) KeyringRow;
  envelopes : list EnvelopeRow;
  last_cursor : Z
}.

Definition with_accounts (d : ServerDB) x := mkServerDB x (devices d) (pairings d) (keyrings d) (envelopes d) (last_cursor d).
Definition with_devices (d : ServerDB) x := mkServerDB (accounts d) x (pairings d) (keyrings d) (envelopes d) (last_cursor d).
Definition with_pairings (d : ServerDB) x := mkServerDB (accounts d) (devices d) x (keyrings d) (envelopes d) (last_cursor d).
Definition with_keyrings (d : ServerDB) x := mkServerDB (accounts d) (devices d) (pairings d) x (envelopes d) (last_cursor d).
Definition with_envelopes (d : ServerDB) x c := mkServerDB (accounts d) (devices d) (pairings d) (keyrings d) x c.

(** ** Handlers *)

Record ServerWorld := mkServerWorld { sdb : ServerDB; entropy : bytes; ticks : nat }.

Class ServerEnv := { server_now : nat -> Z; statement_fails : nat -> bool }.

(** [writeError(w, status, code)]. *)
Record failure := mkFailure { status : Z; code : string }.

Inductive answer (A : Type) : Type := Answer (value : A) | Failed (why : failure).
Arguments Answer {A} value.
Arguments Failed {A} why.

Definition H (A : Type) : Type := ServerWorld -> answer A * ServerWorld.

Definition hret {A} (a : A) : H A := fun w => (Answer a, w).
Definition hfail {A} (status : Z) (code : string) : H A := fun w => (Failed (mkFailure status code), w).
Definition hbind {A B} (m : H A) (f : A -> H B) : H B := fun w =>
  match m w with (Answer a, w') => f a w' | (Failed e, w') => (Failed e, w') end.

Declare Scope handler_scope.
Delimit Scope handler_scope with handler.
Notation "'try!' x := m 'in' k" := (hbind m (fun x => k))
  (at level 10, x pattern, m at level 100, k at level 200) : handler_scope.
#[global] Open Scope handler_scope.

Definition step (w : ServerWorld) : ServerWorld := mkServerWorld (sdb w) (entropy w) (S (ticks w)).
Definition with_sdb (w : ServerWorld) (d : ServerDB) : ServerWorld := mkServerWorld d (entropy w) (ticks w).

(** A check that refuses the request. *)
Definition require {A} (o : option A) (status : Z) (code : string) : H A :=
  match o with Some a => hret a | None => hfail status code end.

Definition refuse_if (b : bool) (status : Z) (code : string) : H unit :=
  if b then hfail status code else hret tt.

Section handlers.
Context `{SE : ServerEnv}.

Definition clock : H Z := fun w => (Answer (server_now (ticks w)), step w).

(** One SQL statement; [None] is a violated constraint. *)
Definition sql {A} (status : Z) (code : string) (f : ServerDB -> option (A * ServerDB)) : H A := fun w =>
  if statement_fails (ticks w) then (Failed (mkFailure status code), step w)
  else match f (sdb w) with
       | Some (a, d) => (Answer a, step (with_sdb w d))
       | None => (Failed (mkFailure status code), step w)
       end.

Definition select {A} (f : ServerDB -> A) : H A :=
  sql 500 "database_error" (fun d => Some (f d, d)).

(** A transaction; [status] and [code] answer a failing [BeginTx] or [Commit]. *)
Definition in_tx {A} (status : Z) (code : string) (m : H A) : H A := fun w =>
  if statement_fails (ticks w) then (Failed (mkFailure 500 "database_error"), step w)
  else match m (step w) with
       | (Answer a, w') =>
           if statement_fails (ticks w') then (Failed (mkFailure status code), step (with_sdb w' (sdb w)))
           else (Answer a, step w')
       | (Failed e, w') => (Failed e, with_sdb w' (sdb w))
       end.

Definition read_random (n : Z) : H bytes := fun w =>
  match ReadFull n (entropy w) with
  | Ok (out, rest) => (Answer out, mkServerWorld (sdb w) rest (ticks w))
  | Err _ => (Failed (mkFailure 500 "random_source_unavailable"), w)
  end.

(** [for rows.Next() { ... }] without a look at [rows.Err()]: a row that cannot
    be fetched ends the loop. *)
Fixpoint iterate {A} (rows : list A) : H (list A) := fun w =>
  match rows with
  | [] => (Answer [], w)
  | r :: rest =>
      if statement_fails (ticks w) then (Answer [], step w)
      else match iterate rest (step w) with
           | (Answer l, w') => (Answer (r :: l), w')
           | (Failed e, w') => (Failed e, w')
           end
  end.

Definition randomID (n : Z) : H bytes := try! buffer := read_random n in hret (Hex.EncodeToString buffer).
Definition randomSecret (n : Z) : H bytes := try! buffer := read_random n in hret (Base64.EncodeToString buffer).

End handlers.

(** ** Decoding helpers *)

Definition digest (value : bytes) : bytes := Sum256 value.

Definition decodeSized (value : bytes) (min max : Z) : option bytes :=
  match Base64.DecodeString value with
  | Some decoded => if (len decoded <? min) || (len decoded >? max) then None else Some decoded
  | None => None
  end.

Definition maxSealedBoxWire : Z := 262144.

Definition decodeSealedBoxWire (value : bytes) : option bytes :=
  let headerSize := 4 + 1 + 4 + 24 in
  match decodeSized value (headerSize + 16) maxSealedBoxWire with
  | None => None
  | Some decoded =>
      if negb (bool_decide (slice decoded 0 4 = str "YPBX")) || negb (u8 (nth 4 decoded Byte.x00) =? 1) then None
      else
        let ciphertextLength := BigEndian.get (slice decoded 5 9) in
        if (ciphertextLength <? 16) || (ciphertextLength >? maxSealedBoxWire - headerSize)
           || negb (len decoded =? headerSize + ciphertextLength) then None
        else Some decoded
  end.

Definition validID (value : bytes) : bool :=
  (len value =? 32) && match Hex.DecodeString value with Some _ => true | None => false end.

Record deviceRegistration := mkRegistration {
  DeviceNameCiphertext : bytes; RegEd25519 : bytes; RegX25519 : bytes
}.

Definition validateRegistration {SE : ServerEnv} (input : deviceRegistration) : H (bytes * bytes * bytes) :=
  try! nameCiphertext := require (decodeSized (DeviceNameCiphertext input) 16 512) 400 "invalid_device_name_ciphertext" in
  try! edKey := require (decodeSized (RegEd25519 input) 32 32) 400 "invalid_ed25519_public_key" in
  try! xKey := require (decodeSized (RegX25519 input) 32 32) 400 "invalid_x25519_public_key" in
  hret (nameCiphertext, edKey, xKey).

(** ** Statements on devices *)

(** INSERT INTO devices: primary key, unique token, foreign key and lengths. *)
Definition insert_device (id : bytes) (device : Device) (d : ServerDB) : option (unit * ServerDB) :=
  if bool_decide (is_Some (devices d !! id))
     || existsb (fun entry => bool_decide (token_hash entry.2 = token_hash device)) (map_to_list (devices d))
     || negb (bool_decide (is_Some (accounts d !! dev_account_id device)))
     || negb (len (token_hash device) =? 32) || negb (len (dev_ed25519 device) =? 32)
     || negb (len (dev_x25519 device) =? 32)
  then None
  else Some (tt, with_devices d (<[id := device]> (devices d))).

Record deviceIdentity := mkIdentity {
  ID : bytes; IAccountID : bytes; Ed25519Key : bytes; X25519Key : bytes; CreatedUnix : Z
}.

(** SELECT ... FROM devices WHERE token_hash = ? AND revoked_at IS NULL *)
Definition device_by_token (hash : bytes) (d : ServerDB) : option deviceIdentity :=
  match List.filter (fun entry => bool_decide (token_hash entry.2 = hash)
                                  && bool_decide (revoked_at entry.2 = None)) (map_to_list (devices d)) with
  | (id, device) :: _ =>
      Some (mkIdentity id (dev_account_id device) (dev_ed25519 device) (dev_x25519 device) (dev_created_at device))
  | [] => None
  end.

Section operations.
Context `{SE : ServerEnv} `{U : UnicodeTables}.

(** The bearer token of an Authorization header. *)
Definition bearer (header : bytes) : option bytes :=
  match strip_prefix (str "Bearer ") header with
  | None => None
  | Some rest =>
      if existsb (fun b => bool_decide (b = Byte.x20)) rest then None
      else
        let token := TrimSpace rest in
        if bool_decide (token = []) then None else Some token
  end.

Definition authenticate (header : bytes) : H deviceIdentity :=
  try! token := require (bearer header) 401 "authentication_required" in
  try! found := sql 401 "invalid_device_token" (fun d => Some (device_by_token (digest token) d, d)) in
  require found 401 "invalid_device_token".

Definition requireAuth {A} (next : deviceIdentity -> H A) (header : bytes) : H A :=
  try! identity := authenticate header in next identity.

(** *** Accounts *)

Record account_input := mkAccountInput { RecoveryAuthenticationIn : bytes; Registration : deviceRegistration }.

Record credentials := mkCredentials { c_account_id : bytes; c_device_id : bytes; c_device_token : bytes }.

Definition insert_account (id hash : bytes) (now : Z) (d : ServerDB) : option (unit * ServerDB) :=
  if bool_decide (is_Some (accounts d !! id)) || negb (len hash =? 32) then None
  else Some (tt, with_accounts d (<[id := mkAccount hash now]> (accounts d))).

Definition createAccount (body : option account_input) : H credentials :=
  try! input := require body 400 "invalid_json" in
  try! (nameCiphertext, edKey, xKey) := validateRegistration (Registration input) in
  try! recoveryAuthentication :=
    require (decodeSized (RecoveryAuthenticationIn input) 32 32) 400 "invalid_recovery_authentication" in
  try! accountID := randomID 16 in
  try! deviceID := randomID 16 in
  try! deviceToken := randomSecret 32 in
  try! now := clock in
  in_tx 500 "database_error" (
    try! _ := sql 500 "database_error" (insert_account accountID (digest recoveryAuthentication) now) in
    try! _ := sql 500 "database_error" (insert_device deviceID
      (mkDevice accountID nameCiphertext (digest deviceToken) edKey xKey 0 now None)) in
    hret (mkCredentials accountID deviceID deviceToken)).

Definition recoverAccount (accountID : bytes) (body : option account_input) : H credentials :=
  try! _ := refuse_if (negb (validID accountID)) 404 "account_not_found" in
  try! input := require body 400 "invalid_json" in
  try! (nameCiphertext, edKey, xKey) := validateRegistration (Registration input) in
  try! recoveryAuthentication :=
    require (decodeSized (RecoveryAuthenticationIn input) 32 32) 401 "invalid_recovery_authentication" in
  try! expected := sql 401 "invalid_recovery_authentication" (fun d => Some (accounts d !! accountID, d)) in
  try! account := require expected 401 "invalid_recovery_authentication" in
  try! _ := refuse_if (negb (bool_decide (recovery_authentication_hash account = digest recoveryAuthentication)))
              401 "invalid_recovery_authentication" in
  try! deviceID := randomID 16 in
  try! deviceToken := randomSecret 32 in
  try! now := clock in
  try! _ := sql 500 "database_error" (insert_device deviceID
    (mkDevice accountID nameCiphertext (digest deviceToken) edKey xKey 0 now None)) in
  hret (mkCredentials accountID deviceID deviceToken).

(** *** Pairings *)

Definition pairingLifetime : Z := 600000.

Definition insert_pairing (id : bytes) (p : Pairing) (d : ServerDB) : option (unit * ServerDB) :=
  if bool_decide (is_Some (pairings d !! id)) || negb (bool_decide (is_Some (accounts d !! pair_account_id p)))
     || negb (bool_decide (is_Some (devices d !! creator_device_id p))) || negb (len (secret_hash p) =? 32)
  then None else Some (tt, with_pairings d (<[id := p]> (pairings d))).

Record pairing_offer := mkOffer { o_pairing_id : bytes; o_secret : bytes; o_x25519 : bytes; o_expires : Z }.

Definition createPairing (identity : deviceIdentity) : H pairing_offer :=
  try! pairingID := randomID 16 in
  try! pairingSecret := randomSecret 24 in
  try! now := clock in
  try! _ := sql 500 "database_error" (insert_pairing pairingID
    (mkPairing (IAccountID identity) (ID identity) (digest pairingSecret) created [] [] [] [] []
       (now + pairingLifetime) None now)) in
  hret (mkOffer pairingID pairingSecret (Base64.EncodeToString (X25519Key identity)) (now + pairingLifetime)).

(** UPDATE pairings SET ... WHERE id = ? AND ...: the number of rows affected;
    the CHECK on the keyring can be violated. *)
Definition keyring_check (ring : bytes) : bool :=
  bool_decide (ring = []) || ((49 <=? len ring) && (len ring <=? 262144)).

Definition update_pairing (id : bytes) (where_ : Pairing -> bool) (f : Pairing -> Pairing) (d : ServerDB)
    : option (Z * ServerDB) :=
  match pairings d !! id with
  | Some p =>
      if where_ p then
        if keyring_check (encrypted_keyring (f p)) then Some (1, with_pairings d (<[id := f p]> (pairings d))) else None
      else Some (0, d)
  | None => Some (0, d)
  end.

Record join_input := mkJoin { JoinSecret : bytes; JoinRegistration : deviceRegistration }.

Definition joinPairing (pairingID : bytes) (body : option join_input) : H pairing_state :=
  try! input := require body 400 "invalid_json" in
  try! (nameCiphertext, edKey, xKey) := validateRegistration (JoinRegistration input) in
  try! now := clock in
  try! affected := sql 500 "database_error" (update_pairing pairingID
    (fun p => bool_decide (secret_hash p = digest (JoinSecret input)) && bool_decide (state p = created)
              && (expires_at p >? now))
    (fun p => mkPairing (pair_account_id p) (creator_device_id p) (secret_hash p) joined nameCiphertext edKey xKey
                (new_device_id p) (encrypted_keyring p) (expires_at p) (claimed_at p) (pair_created_at p))) in
  try! _ := refuse_if (negb (affected =? 1)) 401 "invalid_or_expired_pairing" in
  hret joined.

Record pairing_view := mkView {
  v_state : pairing_state; v_expires : Z; v_expired : bool; v_pending : option (bytes * bytes * bytes)
}.

Definition getPairing (identity : deviceIdentity) (pairingID : bytes) : H pairing_view :=
  try! row := select (fun d =>
    match pairings d !! pairingID with
    | Some p => if bool_decide (pair_account_id p = IAccountID identity)
                   && bool_decide (creator_device_id p = ID identity) then Some p else None
    | None => None
    end) in
  try! p := require row 404 "pairing_not_found" in
  try! now := clock in
  hret (mkView (state p) (expires_at p) (expires_at p <=? now)
    (if len (pending_name p) =? 0 then None
     else Some (Base64.EncodeToString (pending_name p), Base64.EncodeToString (pending_ed25519 p),
                Base64.EncodeToString (pending_x25519 p)))).

Definition approvePairing (identity : deviceIdentity) (pairingID : bytes) (body : option bytes) : H pairing_state :=
  try! encoded := require body 400 "invalid_json" in
  try! keyring := require (decodeSealedBoxWire encoded) 400 "invalid_encrypted_keyring" in
  try! deviceID := randomID 16 in
  try! now := clock in
  try! affected := sql 500 "database_error" (update_pairing pairingID
    (fun p => bool_decide (pair_account_id p = IAccountID identity)
              && bool_decide (creator_device_id p = ID identity) && bool_decide (state p = joined)
              && (expires_at p >? now))
    (fun p => mkPairing (pair_account_id p) (creator_device_id p) (secret_hash p) approved (pending_name p)
                (pending_ed25519 p) (pending_x25519 p) deviceID keyring (expires_at p) (claimed_at p)
                (pair_created_at p))) in
  try! _ := refuse_if (negb (affected =? 1)) 409 "pairing_not_ready" in
  hret approved.

Record claim_answer := mkClaim { cl_credentials : credentials; cl_keyring : bytes }.

Definition claimPairing (pairingID : bytes) (body : option bytes) : H claim_answer :=
  try! pairingSecret := require body 400 "invalid_json" in
  in_tx 409 "pairing_already_claimed" (
    try! row := sql 401 "invalid_or_expired_pairing" (fun d =>
      Some (match pairings d !! pairingID with
            | Some p => if bool_decide (state p = approved) then Some p else None
            | None => None
            end, d)) in
    try! p := require row 401 "invalid_or_expired_pairing" in
    try! now := clock in
    try! _ := refuse_if ((expires_at p <=? now) || negb (bool_decide (secret_hash p = digest pairingSecret)))
                401 "invalid_or_expired_pairing" in
    try! deviceToken := randomSecret 32 in
    try! now := clock in
    try! _ := sql 409 "pairing_already_claimed" (insert_device (new_device_id p)
      (mkDevice (pair_account_id p) (pending_name p) (digest deviceToken) (pending_ed25519 p) (pending_x25519 p)
         0 now None)) in
    try! now := clock in
    try! _ := sql 409 "pairing_already_claimed" (update_pairing pairingID
      (fun p => bool_decide (state p = approved))
      (fun p => mkPairing (pair_account_id p) (creator_device_id p) (secret_hash p) claimed (pending_name p)
                  (pending_ed25519 p) (pending_x25519 p) (new_device_id p) (encrypted_keyring p) (expires_at p)
                  (Some now) (pair_created_at p))) in
    hret (mkClaim (mkCredentials (pair_account_id p) (new_device_id p) deviceToken)
            (Base64.EncodeToString (encrypted_keyring p)))).

End operations.

(** ** Envelopes *)

Definition maxCiphertext : Z := 524816.
Definition maxUploadBatch : Z := 256.
Definition defaultSyncLimit : Z := 256.
Definition maximumSyncLimit : Z := 256.
Definition maxDownloadBytes : Z := maxCiphertext.

(** The relay's [Envelope] has the JSON fields of the client's [WireEnvelope],
    and its [Header] the CBOR fields of the client's [Header]. *)
Record decodedEnvelope := mkDecoded {
  d_wire : WireEnvelope; d_objectID : bytes; d_previousHash : bytes; d_nonce : bytes;
  d_ciphertext : bytes; d_signature : bytes; d_recordHash : bytes
}.

Definition d_seq (e : decodedEnvelope) : Z := WDeviceSeq (d_wire e).

(** A hexadecimal identifier of 16 bytes. *)
Definition decode_id (value : bytes) : option bytes :=
  match Hex.DecodeString value with
  | Some decoded => if negb (len decoded =? 16) then None else Some decoded
  | None => None
  end.

Section envelopes.
Context `{SE : ServerEnv} `{P : Primitives} `{CH : Codec Header}.

Definition CanonicalHeader (accountID deviceID : bytes) (envelope : WireEnvelope) (previousHash nonce : bytes)
    : option bytes :=
  match decode_id accountID, decode_id deviceID, decode_id (WObjectID envelope) with
  | Some accountBytes, Some deviceBytes, Some objectBytes =>
      if negb (len previousHash =? 0) && negb (len previousHash =? Size) then None
      else if negb (len nonce =? 24) then None
      else match Marshal (mkHeader (WVersion envelope) accountBytes objectBytes (WKeyEpoch envelope)
                            deviceBytes (WDeviceSeq envelope) previousHash nonce) with
           | Ok b => Some b
           | Err _ => None
           end
  | _, _, _ => None
  end.

Definition validateEnvelope (identity : deviceIdentity) (envelope : WireEnvelope) : H decodedEnvelope :=
  try! _ := refuse_if (negb (bool_decide (WDeviceID envelope = [])) || negb (WCursor envelope =? 0)
      || negb (WVersion envelope =? 1) || (WDeviceSeq envelope <? 1) || (WDeviceSeq envelope >? MaxInt64)
      || (WKeyEpoch envelope <? 1) || (WKeyEpoch envelope >? MaxInt64)) 400 "invalid_envelope_metadata" in
  try! objectID := require (decode_id (WObjectID envelope)) 400 "invalid_envelope_object_id" in
  try! previousHash :=
    if bool_decide (WPreviousHash envelope = []) then hret []
    else require (decodeSized (WPreviousHash envelope) Size Size) 400 "invalid_envelope_previous_hash" in
  try! nonce := require (decodeSized (WNonce envelope) 24 24) 400 "invalid_envelope_nonce" in
  try! ciphertext := require (decodeSized (WCiphertext envelope) (PaddingBucket + 16) maxCiphertext)
      400 "invalid_envelope_ciphertext" in
  try! _ := refuse_if (negb ((len ciphertext - 16) mod PaddingBucket =? 0)) 400 "invalid_envelope_ciphertext" in
  try! signature := require (decodeSized (WSignature envelope) 64 64) 400 "invalid_envelope_signature" in
  try! headerBytes := require (CanonicalHeader (IAccountID identity) (ID identity) envelope previousHash nonce)
      400 "invalid_envelope_metadata" in
  let signedBytes := headerBytes ++ ciphertext in
  try! _ := refuse_if (negb (ed25519_Verify (Ed25519Key identity) signedBytes signature))
      400 "invalid_envelope_signature" in
  hret (mkDecoded envelope objectID previousHash nonce ciphertext signature (Sum256 (signedBytes ++ signature))).

Fixpoint validate_all (identity : deviceIdentity) (l : list WireEnvelope) : H (list decodedEnvelope) :=
  match l with
  | [] => hret []
  | envelope :: rest =>
      try! decoded := validateEnvelope identity envelope in
      try! more := validate_all identity rest in
      hret (decoded :: more)
  end.

(** [sort.SliceStable] by sequence number. *)
Fixpoint insert_by_seq (e : decodedEnvelope) (l : list decodedEnvelope) : list decodedEnvelope :=
  match l with
  | [] => [e]
  | x :: rest => if d_seq e <=? d_seq x then e :: l else x :: insert_by_seq e rest
  end.

Definition sort_by_seq (l : list decodedEnvelope) : list decodedEnvelope := fold_right insert_by_seq [] l.

Record syncRejection := mkRejection { r_seq : Z; r_code : string }.

(** The runs of equal sequence numbers: one of identical records is kept once,
    one with differing records is rejected. *)
Fixpoint dedupe (start : decodedEnvelope) (conflict : bool) (rest : list decodedEnvelope)
    : list syncRejection * list decodedEnvelope :=
  let close tail :=
    if conflict then (mkRejection (d_seq start) "sequence_conflict" :: tail.1, tail.2)
    else (tail.1, start :: tail.2) in
  match rest with
  | [] => close ([], [])
  | e :: rest' =>
      if d_seq e =? d_seq start then
        dedupe start (conflict || negb (bool_decide (d_recordHash e = d_recordHash start))) rest'
      else close (dedupe e false rest')
  end.

Definition unique_batch (sorted : list decodedEnvelope) : list syncRejection * list decodedEnvelope :=
  match sorted with [] => ([], []) | e :: rest => dedupe e false rest end.

(** SELECT record_hash FROM envelopes WHERE account, device and sequence match *)
Definition find_row (account device : bytes) (seq : Z) (d : ServerDB) : option EnvelopeRow :=
  find (fun r => bool_decide (env_account_id r = account) && bool_decide (env_device_id r = device)
                 && (device_seq r =? seq)) (envelopes d).

(** The rows of one device, and the last of them: ORDER BY device_seq DESC LIMIT 1 *)
Definition rows_of (account device : bytes) (l : list EnvelopeRow) : list EnvelopeRow :=
  List.filter (fun r => bool_decide (env_account_id r = account) && bool_decide (env_device_id r = device)) l.

Definition greatest_seq (l : list EnvelopeRow) : option EnvelopeRow :=
  fold_left (fun best r => match best with
                           | Some b => if device_seq b <? device_seq r then Some r else best
                           | None => Some r
                           end) l None.

(** INSERT INTO envelopes: lengths, uniqueness and foreign keys. *)
Definition insert_envelope (r : EnvelopeRow) (d : ServerDB) : option (unit * ServerDB) :=
  if (device_seq r <? 1) || negb (env_version r =? 1) || negb (len (env_object_id r) =? 16)
     || (env_key_epoch r <? 1)
     || (negb (bool_decide (env_previous_hash r = [])) && negb (len (env_previous_hash r) =? 32))
     || negb (len (env_nonce r) =? 24)
     || (len (env_ciphertext r) <? 528) || (len (env_ciphertext r) >? 524816)
     || negb ((len (env_ciphertext r) - 16) mod 512 =? 0)
     || negb (len (env_signature r) =? 64) || negb (len (record_hash r) =? 32)
     || negb (bool_decide (is_Some (accounts d !! env_account_id r)))
     || negb (bool_decide (is_Some (devices d !! env_device_id r)))
     || bool_decide (is_Some (find_row (env_account_id r) (env_device_id r) (device_seq r) d))
  then None
  else Some (tt, with_envelopes d
    (envelopes d ++ [mkRow (last_cursor d + 1) (env_account_id r) (env_device_id r) (device_seq r)
       (env_version r) (env_object_id r) (env_key_epoch r) (env_previous_hash r) (env_nonce r)
       (env_ciphertext r) (env_signature r) (record_hash r) (env_created_at r)]) (last_cursor d + 1)).

(** One uploaded envelope: [inl] accepted, [inr] rejected. *)
Definition upload_one (identity : deviceIdentity) (e : decodedEnvelope) : H (Z + syncRejection) :=
  try! existing := select (find_row (IAccountID identity) (ID identity) (d_seq e)) in
  match existing with
  | Some row =>
      if bool_decide (record_hash row = d_recordHash e) then hret (inl (d_seq e))
      else hret (inr (mkRejection (d_seq e) "sequence_conflict"))
  | None =>
      try! last := select (fun d => greatest_seq (rows_of (IAccountID identity) (ID identity) (envelopes d))) in
      let lastSequence := match last with Some r => device_seq r | None => 0 end in
      let lastHash := match last with Some r => record_hash r | None => [] end in
      if negb (d_seq e =? lastSequence + 1) then
        hret (inr (mkRejection (d_seq e)
          (if d_seq e <=? lastSequence then "sequence_conflict" else "sequence_gap")))
      else if negb (bool_decide (d_previousHash e = lastHash)) then
        hret (inr (mkRejection (d_seq e) "previous_hash_mismatch"))
      else
        try! now := clock in
        try! _ := sql 500 "database_error" (insert_envelope
          (mkRow 0 (IAccountID identity) (ID identity) (d_seq e) (WVersion (d_wire e)) (d_objectID e)
             (WKeyEpoch (d_wire e)) (d_previousHash e) (d_nonce e) (d_ciphertext e) (d_signature e)
             (d_recordHash e) now)) in
        hret (inl (d_seq e))
  end.

Fixpoint upload_all (identity : deviceIdentity) (l : list decodedEnvelope)
    : H (list Z * list syncRejection) :=
  match l with
  | [] => hret ([], [])
  | e :: rest =>
      try! outcome := upload_one identity e in
      try! (accepted, rejected) := upload_all identity rest in
      hret (match outcome with
            | inl seq => (seq :: accepted, rejected)
            | inr rejection => (accepted, rejection :: rejected)
            end)
  end.

(** The loop over the rows of a page; [None] is a row with a bad ciphertext. *)
Fixpoint page (limit : Z) (rows outgoing : list EnvelopeRow) (downloadBytes : Z)
    : option (list EnvelopeRow * bool) :=
  match rows with
  | [] => Some (outgoing, false)
  | r :: rest =>
      if (len (env_ciphertext r) <? PaddingBucket + 16) || (len (env_ciphertext r) >? maxCiphertext)
         || negb ((len (env_ciphertext r) - 16) mod PaddingBucket =? 0) then None
      else if (len outgoing >=? limit)
              || ((len outgoing >? 0) && (downloadBytes + len (env_ciphertext r) >? maxDownloadBytes))
      then Some (outgoing, true)
      else page limit rest (outgoing ++ [r]) (downloadBytes + len (env_ciphertext r))
  end.

(** WHERE account_id = ? AND cursor > ? ORDER BY cursor *)
Definition rows_after (account : bytes) (after : Z) (d : ServerDB) : list EnvelopeRow :=
  List.filter (fun r => bool_decide (env_account_id r = account) && (cursor r >? after)) (envelopes d).

(** COALESCE(MAX(cursor), 0) of an account *)
Definition max_cursor (account : bytes) (d : ServerDB) : Z :=
  fold_left Z.max (map cursor (List.filter (fun r => bool_decide (env_account_id r = account)) (envelopes d))) 0.

Definition max_epoch (account : bytes) (d : ServerDB) : Z :=
  fold_left Z.max (map (fun entry => entry.1.2)
    (List.filter (fun entry => bool_decide (entry.1.1 = account)) (map_to_list (keyrings d)))) 0.

(** UPDATE devices SET ack_cursor = CASE WHEN ack_cursor < ? THEN ? ELSE ack_cursor END *)
Definition raise_ack (id account : bytes) (ack : Z) (d : ServerDB) : option (unit * ServerDB) :=
  match devices d !! id with
  | Some v =>
      if bool_decide (dev_account_id v = account) then
        Some (tt, with_devices d (<[id := mkDevice (dev_account_id v) (dev_name v) (token_hash v) (dev_ed25519 v)
          (dev_x25519 v) (if ack_cursor v <? ack then ack else ack_cursor v) (dev_created_at v) (revoked_at v)]>
          (devices d)))
      else Some (tt, d)
  | None => Some (tt, d)
  end.

(** A row as it is sent: [cursor], the uploader and the encoded columns. *)
Definition row_wire (r : EnvelopeRow) : WireEnvelope :=
  mkWire (env_version r) (env_device_id r) (device_seq r) (Hex.EncodeToString (env_object_id r))
    (env_key_epoch r)
    (if negb (len (env_previous_hash r) =? 0) then Base64.EncodeToString (env_previous_hash r) else [])
    (Base64.EncodeToString (env_nonce r)) (Base64.EncodeToString (env_ciphertext r))
    (Base64.EncodeToString (env_signature r)) (cursor r).

Record sync_input := mkSyncInput {
  i_cursor : Z; i_ack_cursor : Z; i_limit : Z; i_envelopes : list WireEnvelope
}.

Record sync_answer := mkSyncAnswer {
  accepted_sequences : list Z; rejected_sequences : list syncRejection; a_envelopes : list WireEnvelope;
  next_cursor : Z; has_more : bool; current_key_epoch : Z
}.

(** The cursor after a page. *)
Definition page_cursor (outgoing : list EnvelopeRow) (from : Z) : Z :=
  match last outgoing with Some r => cursor r | None => from end.

Definition sync_tx (identity : deviceIdentity) (input : sync_input) (limit : Z)
    (batchRejected : list syncRejection) (decoded : list decodedEnvelope) : H sync_answer :=
  try! (accepted, rejected) := upload_all identity decoded in
  try! accountMaxCursor := select (max_cursor (IAccountID identity)) in
  try! _ := refuse_if ((i_cursor input >? accountMaxCursor) || (i_ack_cursor input >? accountMaxCursor))
              400 "invalid_cursor" in
  try! _ := sql 500 "database_error" (raise_ack (ID identity) (IAccountID identity) (i_ack_cursor input)) in
  try! rows := select (fun d => take (Z.to_nat (limit + 1)) (rows_after (IAccountID identity) (i_cursor input) d)) in
  try! (outgoing, hasMore) := require (page limit rows [] 0) 500 "database_error" in
  try! currentKeyEpoch := select (max_epoch (IAccountID identity)) in
  hret (mkSyncAnswer accepted (batchRejected ++ rejected) (map row_wire outgoing)
          (page_cursor outgoing (i_cursor input)) hasMore currentKeyEpoch).

Definition syncEnvelopes (identity : deviceIdentity) (body : option sync_input) : H sync_answer :=
  try! input := require body 400 "invalid_json" in
  try! _ := refuse_if ((i_cursor input <? 0) || (i_ack_cursor input <? 0)
              || (len (i_envelopes input) >? maxUploadBatch)) 400 "invalid_sync_batch" in
  let limit := if i_limit input =? 0 then defaultSyncLimit else i_limit input in
  try! _ := refuse_if ((limit <? 1) || (limit >? maximumSyncLimit)) 400 "invalid_limit" in
  try! decoded := validate_all identity (i_envelopes input) in
  let '(batchRejected, unique) := unique_batch (sort_by_seq decoded) in
  in_tx 500 "database_error" (sync_tx identity input limit batchRejected unique).

End envelopes.

(** ** Devices and keyrings *)

Section devices.
Context `{SE : ServerEnv}.

Record device_item := mkItem {
  it_id : bytes; it_name : bytes; it_ed25519 : bytes; it_x25519 : bytes; it_created : Z;
  it_current : bool; it_revoked : bool; it_revoked_at : option Z
}.

Fixpoint insert_by_creation (v : bytes * Device) (l : list (bytes * Device)) : list (bytes * Device) :=
  match l with
  | [] => [v]
  | x :: rest => if dev_created_at v.2 <=? dev_created_at x.2 then v :: l else x :: insert_by_creation v rest
  end.

Definition listDevices (identity : deviceIdentity) : H (list device_item) :=
  try! rows := select (fun d => fold_right insert_by_creation []
    (List.filter (fun entry => bool_decide (dev_account_id entry.2 = IAccountID identity)) (map_to_list (devices d)))) in
  try! rows := iterate rows in
  hret (map (fun '(id, v) =>
    mkItem id (Base64.EncodeToString (dev_name v)) (Base64.EncodeToString (dev_ed25519 v))
      (Base64.EncodeToString (dev_x25519 v)) (dev_created_at v) (bool_decide (id = ID identity))
      (bool_decide (is_Some (revoked_at v))) (revoked_at v)) rows).

(** UPDATE devices SET revoked_at = ? WHERE id = ? AND account_id = ? AND revoked_at IS NULL *)
Definition revoke (id account : bytes) (now : Z) (d : ServerDB) : option (Z * ServerDB) :=
  match devices d !! id with
  | Some v =>
      if bool_decide (dev_account_id v = account) && bool_decide (revoked_at v = None) then
        Some (1, with_devices d (<[id := mkDevice (dev_account_id v) (dev_name v) (token_hash v) (dev_ed25519 v)
          (dev_x25519 v) (ack_cursor v) (dev_created_at v) (Some now)]> (devices d)))
      else Some (0, d)
  | None => Some (0, d)
  end.

Definition revokeDevice (identity : deviceIdentity) (deviceID : bytes) : H unit :=
  try! _ := refuse_if (bool_decide (deviceID = ID identity)) 409 "cannot_revoke_current_device" in
  try! now := clock in
  try! affected := sql 500 "database_error" (revoke deviceID (IAccountID identity) now) in
  refuse_if (negb (affected =? 1)) 404 "device_not_found".

Record keyring_item := mkRingItem {
  k_epoch : Z; k_ciphertext : bytes; k_writer : bytes; k_created : Z
}.

Fixpoint insert_by_epoch (v : (bytes * Z) * KeyringRow) (l : list ((bytes * Z) * KeyringRow))
    : list ((bytes * Z) * KeyringRow) :=
  match l with
  | [] => [v]
  | x :: rest => if v.1.2 <=? x.1.2 then v :: l else x :: insert_by_epoch v rest
  end.

Definition getKeyring (identity : deviceIdentity) : H (list keyring_item) :=
  try! rows := select (fun d => fold_right insert_by_epoch []
    (List.filter (fun entry => bool_decide (entry.1.1 = IAccountID identity)) (map_to_list (keyrings d)))) in
  try! rows := iterate rows in
  hret (map (fun entry => mkRingItem entry.1.2 (Base64.EncodeToString (ring_ciphertext entry.2))
                            (writer_device_id entry.2) (ring_created_at entry.2)) rows).

(** INSERT OR IGNORE INTO keyrings: a conflict or a violated CHECK skips the row;
    a missing account or device is still an error. *)
Definition insert_keyring (account : bytes) (epoch : Z) (ring : KeyringRow) (d : ServerDB)
    : option (Z * ServerDB) :=
  if bool_decide (is_Some (keyrings d !! (account, epoch))) || (epoch <? 1)
     || (len (ring_ciphertext ring) <? 49) || (len (ring_ciphertext ring) >? 262144) then Some (0, d)
  else if negb (bool_decide (is_Some (accounts d !! account)))
          || negb (bool_decide (is_Some (devices d !! writer_device_id ring))) then None
  else Some (1, with_keyrings d (<[(account, epoch) := ring]> (keyrings d))).

Definition putKeyring (identity : deviceIdentity) (body : option (Z * bytes)) : H Z :=
  try! (epoch, encoded) := require body 400 "invalid_json" in
  try! ciphertext := require (decodeSealedBoxWire encoded) 400 "invalid_keyring" in
  try! _ := refuse_if (epoch <? 1) 400 "invalid_keyring" in
  try! now := clock in
  try! affected := sql 500 "database_error"
    (insert_keyring (IAccountID identity) epoch (mkKeyring ciphertext (ID identity) now)) in
  if negb (affected =? 1) then
    try! existing := sql 409 "keyring_epoch_conflict" (fun d => Some (keyrings d !! (IAccountID identity, epoch), d)) in
    try! ring := require existing 409 "keyring_epoch_conflict" in
    try! _ := refuse_if (negb (bool_decide (ring_ciphertext ring = ciphertext))) 409 "keyring_epoch_conflict" in
    hret epoch
  else hret epoch.

End devices.

(** ** Routing *)

(** The bodies [decodeJSON] yields for the types the handlers ask for. *)
Class ServerJson := {
  as_account : bytes -> option account_input;
  as_join : bytes -> option join_input;
  as_keyring_box : bytes -> option bytes;
  as_secret : bytes -> option bytes;
  as_sync : bytes -> option sync_input;
  as_keyring : bytes -> option (Z * bytes)
}.

Record Request := mkRequest { Method : bytes; Path : bytes; Authorization : bytes; Body : bytes }.

Inductive payload :=
  | Healthy
  | Credentials (c : credentials)
  | Offer (o : pairing_offer)
  | State (s : pairing_state)
  | View (v : pairing_view)
  | Claim (c : claim_answer)
  | SyncAnswer (a : sync_answer)
  | Items (l : list device_item)
  | Keyrings (l : list keyring_item)
  | Epoch (epoch : Z)
  | NoContent.

Definition GET := str "GET".
Definition POST := str "POST".
Definition PUT := str "PUT".
Definition DELETE := str "DELETE".

Section routing.
Context `{SE : ServerEnv} `{U : UnicodeTables} `{P : Primitives} `{CH : Codec Header} `{SJ : ServerJson}.

(** [writeJSON(w, status, value)] *)
Definition reply {A} (status : Z) (f : A -> payload) (m : H A) : H (Z * payload) :=
  try! a := m in hret (status, f a).

Definition notFound : H (Z * payload) := hfail 404 "not_found".

Definition health : H (Z * payload) := fun w =>
  if statement_fails (ticks w) then (Failed (mkFailure 503 "database_unavailable"), step w)
  else (Answer (200, Healthy), step w).

Definition is_method (r : Request) (m : bytes) : bool := bool_decide (Method r = m).

Definition routePairing (r : Request) (path : bytes) : H (Z * payload) :=
  let parts := split_path path in
  let part i := nth i parts [] in
  if (len parts =? 4) && is_method r GET then
    requireAuth (fun identity => reply 200 View (getPairing identity (part 3%nat))) (Authorization r)
  else if (len parts =? 4) && is_method r PUT then
    reply 200 State (joinPairing (part 3%nat) (as_join (Body r)))
  else if (len parts =? 5) && bool_decide (part 4%nat = str "approve") && is_method r POST then
    requireAuth (fun identity => reply 200 State (approvePairing identity (part 3%nat) (as_keyring_box (Body r))))
      (Authorization r)
  else if (len parts =? 5) && bool_decide (part 4%nat = str "claim") && is_method r POST then
    reply 201 Claim (claimPairing (part 3%nat) (as_secret (Body r)))
  else notFound.

Definition route (r : Request) : H (Z * payload) :=
  let path := TrimSuffix (Path r) [slash] in
  let path := if bool_decide (path = []) then [slash] else path in
  let at_ p := bool_decide (path = str p) in
  if at_ "/healthz" && is_method r GET then health
  else if at_ "/v1/accounts" && is_method r POST then
    reply 201 Credentials (createAccount (as_account (Body r)))
  else if HasPrefix path (str "/v1/accounts/") && HasSuffix path (str "/recover") && is_method r POST then
    let parts := split_path path in
    if negb (len parts =? 5) then notFound
    else reply 201 Credentials (recoverAccount (nth 3 parts []) (as_account (Body r)))
  else if at_ "/v1/pairings" && is_method r POST then
    requireAuth (fun identity => reply 201 Offer (createPairing identity)) (Authorization r)
  else if HasPrefix path (str "/v1/pairings/") then routePairing r path
  else if at_ "/v1/sync" && is_method r POST then
    requireAuth (fun identity => reply 200 SyncAnswer (syncEnvelopes identity (as_sync (Body r)))) (Authorization r)
  else if at_ "/v1/devices" && is_method r GET then
    requireAuth (fun identity => reply 200 Items (listDevices identity)) (Authorization r)
  else if HasPrefix path (str "/v1/devices/") && is_method r DELETE then
    let parts := split_path path in
    if negb (len parts =? 4) then notFound
    else requireAuth (fun identity => reply 204 (fun _ => NoContent) (revokeDevice identity (nth 3 parts [])))
           (Authorization r)
  else if at_ "/v1/keyring" && is_method r GET then
    requireAuth (fun identity => reply 200 Keyrings (getKeyring identity)) (Authorization r)
  else if at_ "/v1/keyring" && is_method r PUT then
    requireAuth (fun identity => reply 200 Epoch (putKeyring identity (as_keyring (Body r)))) (Authorization r)
  else notFound.

End routing.

(** The path of a log line. *)
Definition routeLabel (path : bytes) : string :=
  let at_ p := bool_decide (path = str p) in
  if at_ "/healthz" then "/healthz"
  else if at_ "/v1/accounts" then "/v1/accounts"
  else if HasPrefix path (str "/v1/accounts/") then "/v1/accounts/:id/recover"
  else if at_ "/v1/pairings" then "/v1/pairings"
  else if HasPrefix path (str "/v1/pairings/") && HasSuffix path (str "/approve") then "/v1/pairings/:id/approve"
  else if HasPrefix path (str "/v1/pairings/") && HasSuffix path (str "/claim") then "/v1/pairings/:id/claim"
  else if HasPrefix path (str "/v1/pairings/") then "/v1/pairings/:id"
  else if at_ "/v1/sync" then "/v1/sync"
  else if at_ "/v1/devices" then "/v1/devices"
  else if HasPrefix path (str "/v1/devices/") then "/v1/devices/:id"
  else if at_ "/v1/keyring" then "/v1/keyring"
  else "unmatched".

(** ** Rate limiting *)

(** A zero [time.Time] is [None]; times and the window are in nanoseconds. *)
Record rateEntry := mkRate { rstart : option Z; rcount : Z }.

Record ipLimiter := mkLimiter {
  entries : gmap bytes rateEntry; limit : Z; window : Z; lastSweep : option Z
}.

Definition requestsPerWindow : Z := 240.
Definition rateWindow : Z := 60000000000.

(** The limiter [New] builds. *)
Definition newLimiter : ipLimiter := mkLimiter ∅ requestsPerWindow rateWindow None.

(** [now.Before(start) || now.Sub(start) >= window] *)
Definition outside (win now start : Z) : bool := (now <? start) || (win <=? now - start).

(** Go's zero time lies before every real one by more than the window. *)
Definition entry_outside (win now : Z) (e : rateEntry) : bool :=
  match rstart e with None => true | Some s => outside win now s end.

Definition allow (l : ipLimiter) (ip : bytes) (now : Z) : bool * ipLimiter :=
  let sweep := match lastSweep l with None => true | Some t => outside (window l) now t end in
  let swept := if sweep then base.filter (fun kv => entry_outside (window l) now kv.2 = false) (entries l) else entries l in
  let swept_at := if sweep then Some now else lastSweep l in
  let entry := default (mkRate None 0) (swept !! ip) in
  if entry_outside (window l) now entry then
    (true, mkLimiter (<[ip := mkRate (Some now) 1]> swept) (limit l) (window l) swept_at)
  else
    let entry := mkRate (rstart entry) (rcount entry + 1) in
    (rcount entry <=? limit l, mkLimiter (<[ip := entry]> swept) (limit l) (window l) swept_at).

(** The limiter in front of the routes; [nowNanos] is [s.now()]. *)
Definition withRateLimit {A} (l : ipLimiter) (ip : bytes) (nowNanos : Z) (path : bytes) (next : H A) (w : ServerWorld)
    : (answer A * ServerWorld) * ipLimiter :=
  if bool_decide (path = str "/healthz") then (next w, l)
  else
    let '(admitted, l') := allow l ip nowNanos in
    ((if admitted then next w else hfail 429 "rate_limited" w), l').
