(* ===== verification/ServerFacts.v ===== *)
(** * Facts about the relay

    Inversion of the handlers' computations, the row-level writes they are made
    of, the invariant of the database and the order in which it grows. *)

From S2P Require Import Prelude Encoding Sha256 Unicode Crypto Envelope Server.

(** ** Computations *)

Section computations.
Context `{SE : ServerEnv}.

Lemma hbind_inv {A B} (m : H A) (f : A -> H B) w r w' :
  hbind m f w = (r, w') ->
  (exists a w1, m w = (Answer a, w1) /\ f a w1 = (r, w')) \/ (exists e, m w = (Failed e, w') /\ r = Failed e).
Proof.
  unfold hbind. destruct (m w) as [[a|e] w1]; intros H; [left; eauto|right].
  injection H as <- <-. eauto.
Qed.

Lemma sql_inv {A} st c (f : ServerDB -> option (A * ServerDB)) w r w' :
  sql st c f w = (r, w') ->
  (exists e, r = Failed e /\ sdb w' = sdb w) \/ (exists a, r = Answer a /\ f (sdb w) = Some (a, sdb w')).
Proof.
  unfold sql. destruct (statement_fails (ticks w)); [intros [= <- <-]; eauto|].
  destruct (f (sdb w)) as [[a d]|]; intros [= <- <-]; simpl; eauto.
Qed.

Lemma select_inv {A} (f : ServerDB -> A) w r w' :
  select f w = (r, w') -> sdb w' = sdb w /\ ((exists e, r = Failed e) \/ r = Answer (f (sdb w))).
Proof.
  intros [(e & -> & Hd)|(a & -> & [= <- <-])]%sql_inv; eauto.
Qed.

Lemma in_tx_inv {A} st c (m : H A) w r w' :
  in_tx st c m w = (r, w') ->
  (exists e, r = Failed e /\ sdb w' = sdb w) \/
  (exists a w1 w2, r = Answer a /\ sdb w1 = sdb w /\ m w1 = (Answer a, w2) /\ sdb w' = sdb w2).
Proof.
  unfold in_tx. destruct (statement_fails (ticks w)); [intros [= <- <-]; eauto|].
  destruct (m (step w)) as [[a|e] w2] eqn:Em; [|intros [= <- <-]; eauto].
  destruct (statement_fails (ticks w2)); intros [= <- <-]; [eauto|].
  right. exists a, (step w), w2. done.
Qed.

(** What a computation does to the database, and what its value satisfies. *)
Definition pres {A} (R : ServerDB -> ServerDB -> Prop) (m : H A) (Q : A -> Prop) : Prop :=
  forall w r w', m w = (r, w') -> R (sdb w) (sdb w') /\ forall a, r = Answer a -> Q a.

Lemma pres_weaken {A} (R R' : ServerDB -> ServerDB -> Prop) (m : H A) (Q Q' : A -> Prop) :
  pres R m Q -> (forall d d', R d d' -> R' d d') -> (forall a, Q a -> Q' a) -> pres R' m Q'.
Proof. intros H HR HQ w r w' E. destruct (H w r w' E). eauto. Qed.

(** Computations that leave the database alone. *)
Definition quiet {A} (m : H A) (Q : A -> Prop) : Prop := pres eq m Q.

Section rules.
Variable R : ServerDB -> ServerDB -> Prop.
Context `{!PreOrder R}.

Lemma pres_ret {A} (a : A) (Q : A -> Prop) : Q a -> pres R (hret a) Q.
Proof. intros HQ w r w' [= <- <-]. split; [reflexivity|]. by intros ? [= <-]. Qed.

Lemma pres_fail {A} st c (Q : A -> Prop) : pres R (hfail st c) Q.
Proof. intros w r w' [= <- <-]. split; [reflexivity|done]. Qed.

Lemma pres_bind {A B} (m : H A) (f : A -> H B) Q Q' :
  pres R m Q -> (forall a, Q a -> pres R (f a) Q') -> pres R (hbind m f) Q'.
Proof.
  intros Hm Hf w r w' [(a & w1 & E1 & E2)|(e & E & ->)]%hbind_inv.
  - destruct (Hm _ _ _ E1) as [HR HQ]. destruct (Hf a (HQ a eq_refl) _ _ _ E2) as [HR2 HQ2].
    split; [by etrans|done].
  - destruct (Hm _ _ _ E) as [HR _]. split; [done|]. intros ? [=].
Qed.

Lemma pres_sql {A} st c (f : ServerDB -> option (A * ServerDB)) (Q : A -> Prop) :
  (forall d a d', f d = Some (a, d') -> R d d' /\ Q a) -> pres R (sql st c f) Q.
Proof.
  intros H w r w' [(e & -> & ->)|(a & -> & E)]%sql_inv; [split; [reflexivity|done]|].
  destruct (H _ _ _ E). split; [done|]. by intros ? [= <-].
Qed.

Lemma pres_tx {A} st c (m : H A) Q : pres R m Q -> pres R (in_tx st c m) Q.
Proof.
  intros H w r w' [(e & -> & ->)|(a & w1 & w2 & -> & <- & E & ->)]%in_tx_inv; [split; [reflexivity|done]|].
  by destruct (H _ _ _ E).
Qed.

Lemma pres_clock (Q : Z -> Prop) : (forall t, Q t) -> pres R clock Q.
Proof. intros HQ w r w' [= <- <-]. split; [reflexivity|eauto]. Qed.

Lemma pres_select {A} (f : ServerDB -> A) Q : (forall d, Q (f d)) -> pres R (select f) Q.
Proof. intros H. apply pres_sql. intros d a d' [= <- <-]. split; [reflexivity|done]. Qed.

Lemma pres_require {A} (o : option A) st c (Q : A -> Prop) :
  (forall a, o = Some a -> Q a) -> pres R (require o st c) Q.
Proof. intros H. destruct o; [by apply pres_ret; auto|apply pres_fail]. Qed.

Lemma pres_refuse b st c (Q : unit -> Prop) : (b = false -> Q tt) -> pres R (refuse_if b st c) Q.
Proof. intros H. destruct b; [apply pres_fail|by apply pres_ret; auto]. Qed.

Lemma pres_iterate {A} (rows : list A) Q : (forall l, Q l) -> pres R (iterate rows) Q.
Proof.
  intros HQ w r w' E. split; [|eauto]. revert w r w' E. induction rows as [|x rows IH]; intros w r w'; simpl.
  - intros [= <- <-]. reflexivity.
  - destruct (statement_fails (ticks w)); [intros [= <- <-]; reflexivity|].
    destruct (iterate rows (step w)) as [[l|e] w1] eqn:E; intros [= <- <-];
      by apply IH in E.
Qed.

Lemma pres_random n (Q : bytes -> Prop) : (forall b, len b = n -> Q b) -> 0 <= n -> pres R (read_random n) Q.
Proof.
  intros HQ Hn w r w'. unfold read_random. destruct (ReadFull n (entropy w)) as [[out rest]|e] eqn:E.
  - intros [= <- <-]. split; [reflexivity|]. intros ? [= <-]. apply HQ.
    by apply ReadFull_len in E as [? _].
  - intros [= <- <-]. split; [reflexivity|done].
Qed.

End rules.

End computations.

(** ** Row-level writes *)

(** An identifier as [randomID(16)] makes it. *)
Definition hex_id (s : bytes) : Prop := exists id, s = Hex.EncodeToString id /\ len id = 16.

(** The moves of a pairing. *)
Definition pairing_next (p p' : Pairing) : Prop :=
  pair_account_id p' = pair_account_id p /\ creator_device_id p' = creator_device_id p /\
  secret_hash p' = secret_hash p /\ expires_at p' = expires_at p /\
  (state p = created /\ state p' = joined \/
   state p = joined /\ state p' = approved /\ hex_id (new_device_id p') \/
   state p = approved /\ state p' = claimed /\ new_device_id p' = new_device_id p).

(** The records of one device form a chain: sequence numbers without a gap, each
    record naming the hash of the one before. *)
Fixpoint linked (seq : Z) (previous : bytes) (rows : list EnvelopeRow) : Prop :=
  match rows with
  | [] => True
  | r :: rest => device_seq r = seq /\ env_previous_hash r = previous /\ linked (seq + 1) (record_hash r) rest
  end.

(** The sequence number and hash the next record of a device has to continue. *)
Definition chain_end (account device : bytes) (d : ServerDB) : Z * bytes :=
  match greatest_seq (rows_of account device (envelopes d)) with
  | Some r => (device_seq r, record_hash r)
  | None => (0, [])
  end.

Section writes.
Context `{P : Primitives} `{U : UnicodeTables} `{CH : Codec Header}.

(** What every client that downloads the record finds: it decodes, hashes to the
    hash of the chain and carries the signature of the device's key. *)
Definition deliverable (key : bytes) (r : EnvelopeRow) : Prop :=
  exists account env header,
    env_account_id r = Hex.EncodeToString account /\
    EnvelopeFromDownload account (row_wire r) = Ok env /\
    EnvelopeHash env = Ok (record_hash r) /\
    canonicalHeader (EHeader env) = Ok header /\
    ed25519_Verify key (header ++ Ciphertext env) (Signature env) = true.

Definition row_ok (d : ServerDB) (r : EnvelopeRow) : Prop :=
  PaddingBucket + 16 <= len (env_ciphertext r) <= maxCiphertext /\
  (len (env_ciphertext r) - 16) mod PaddingBucket = 0 /\
  exists v, devices d !! env_device_id r = Some v /\ dev_account_id v = env_account_id r /\
            deliverable (dev_ed25519 v) r.

Inductive write (d : ServerDB) : ServerDB -> Prop :=
  | w_account id hash now d' :
      hex_id id -> insert_account id hash now d = Some (tt, d') -> write d d'
  | w_device id v d' :
      hex_id id -> insert_device id v d = Some (tt, d') -> write d d'
  | w_new_pairing id p d' :
      state p = created -> insert_pairing id p d = Some (tt, d') -> write d d'
  | w_pairing id p p' :
      pairings d !! id = Some p -> pairing_next p p' -> write d (with_pairings d (<[id := p']> (pairings d)))
  | w_envelope r d' :
      insert_envelope r d = Some (tt, d') ->
      (device_seq r, env_previous_hash r) =
        ((chain_end (env_account_id r) (env_device_id r) d).1 + 1,
         (chain_end (env_account_id r) (env_device_id r) d).2) ->
      (forall c, row_ok d (mkRow c (env_account_id r) (env_device_id r) (device_seq r) (env_version r)
         (env_object_id r) (env_key_epoch r) (env_previous_hash r) (env_nonce r) (env_ciphertext r)
         (env_signature r) (record_hash r) (env_created_at r))) -> write d d'
  | w_ack id account ack d' : raise_ack id account ack d = Some (tt, d') -> write d d'
  | w_revoke id account now n d' : revoke id account now d = Some (n, d') -> write d d'
  | w_keyring account epoch ring n d' : insert_keyring account epoch ring d = Some (n, d') -> write d d'.

End writes.

(** ** How the database grows *)

Record device_next (v v' : Device) : Prop := {
  dn_account : dev_account_id v' = dev_account_id v;
  dn_name : dev_name v' = dev_name v;
  dn_token : token_hash v' = token_hash v;
  dn_ed25519 : dev_ed25519 v' = dev_ed25519 v;
  dn_x25519 : dev_x25519 v' = dev_x25519 v;
  dn_created : dev_created_at v' = dev_created_at v;
  dn_ack : ack_cursor v <= ack_cursor v';
  dn_revoked : is_Some (revoked_at v) -> revoked_at v' = revoked_at v
}.

#[export] Instance device_next_preorder : PreOrder device_next.
Proof.
  split; [by intros v; split|]. intros v1 v2 v3 [] []. split; try congruence; [lia|].
  intros Hr. rewrite dn_revoked1; [by auto|]. by rewrite dn_revoked0.
Qed.

Record extends (d d' : ServerDB) : Prop := {
  ext_accounts : accounts d ⊆ accounts d';
  ext_devices : forall id v, devices d !! id = Some v -> exists v', devices d' !! id = Some v' /\ device_next v v';
  ext_pairings : forall id p, pairings d !! id = Some p ->
    exists p', pairings d' !! id = Some p' /\ rtc pairing_next p p';
  ext_keyrings : keyrings d ⊆ keyrings d';
  ext_envelopes : envelopes d `prefix_of` envelopes d';
  ext_cursor : last_cursor d <= last_cursor d'
}.

#[export] Instance extends_preorder : PreOrder extends.
Proof.
  split.
  - intros d. split; try done; [|eauto using rtc_refl]. intros id v H. exists v. split; [done|reflexivity].
  - intros d1 d2 d3 [] []. split; try by etrans.
    + intros id v (v' & (v'' & ? & ?)%ext_devices1 & ?)%ext_devices0. exists v''. split; [done|]. by etrans.
    + intros id v (v' & (v'' & ? & ?)%ext_pairings1 & ?)%ext_pairings0. exists v''. split; [done|]. by etrans.
Qed.

(** Only one table changes. *)
Lemma extends_devices d ds :
  (forall id v, devices d !! id = Some v -> exists v', ds !! id = Some v' /\ device_next v v') ->
  extends d (with_devices d ds).
Proof. intros H. split; try done; simpl; eauto using rtc_refl. Qed.

Lemma extends_pairings d ps :
  (forall id p, pairings d !! id = Some p -> exists p', ps !! id = Some p' /\ rtc pairing_next p p') ->
  extends d (with_pairings d ps).
Proof.
  intros H. split; try done; simpl; eauto using rtc_refl. intros id v Hv. exists v. split; [done|reflexivity].
Qed.

Lemma extends_others d d' :
  accounts d ⊆ accounts d' -> devices d' = devices d -> pairings d' = pairings d -> keyrings d ⊆ keyrings d' ->
  envelopes d `prefix_of` envelopes d' -> last_cursor d <= last_cursor d' -> extends d d'.
Proof.
  intros Ha Hd Hp Hk He Hc. split; try done; [rewrite Hd|rewrite Hp; eauto using rtc_refl].
  intros id v Hv. exists v. split; [done|reflexivity].
Qed.

Ltac insert_guard H := match type of H with (if ?c then _ else _) = _ => destruct c eqn:?; [discriminate H|] end.

Lemma insert_account_Some id hash now d u d' :
  insert_account id hash now d = Some (u, d') ->
  accounts d !! id = None /\ d' = with_accounts d (<[id := mkAccount hash now]> (accounts d)).
Proof.
  unfold insert_account. intros H. insert_guard H. bools. injection H as _ <-.
  split; [by apply eq_None_not_Some|done].
Qed.

Lemma insert_device_Some id v d u d' :
  insert_device id v d = Some (u, d') ->
  devices d !! id = None /\ (forall id' v', devices d !! id' = Some v' -> token_hash v' <> token_hash v) /\
  is_Some (accounts d !! dev_account_id v) /\ len (dev_ed25519 v) = 32 /\
  d' = with_devices d (<[id := v]> (devices d)).
Proof.
  unfold insert_device. intros H. insert_guard H. bools. injection H as _ <-.
  split_and!; [by apply eq_None_not_Some| |done..]. intros id' v' Hv Ht.
  apply not_true_iff_false in H5. apply H5, existsb_exists. exists (id', v'). split.
  - by apply list_elem_of_In, elem_of_map_to_list.
  - by apply bool_decide_eq_true.
Qed.

Lemma insert_pairing_Some id p d u d' :
  insert_pairing id p d = Some (u, d') ->
  pairings d !! id = None /\ d' = with_pairings d (<[id := p]> (pairings d)).
Proof.
  unfold insert_pairing. intros H. insert_guard H. bools. injection H as _ <-.
  split; [by apply eq_None_not_Some|done].
Qed.

(** The row of an envelope with its cursor. *)
Definition with_cursor (c : Z) (r : EnvelopeRow) : EnvelopeRow :=
  mkRow c (env_account_id r) (env_device_id r) (device_seq r) (env_version r) (env_object_id r) (env_key_epoch r)
    (env_previous_hash r) (env_nonce r) (env_ciphertext r) (env_signature r) (record_hash r) (env_created_at r).

Lemma insert_envelope_Some r d u d' :
  insert_envelope r d = Some (u, d') ->
  d' = with_envelopes d (envelopes d ++ [with_cursor (last_cursor d + 1) r]) (last_cursor d + 1).
Proof.
  unfold insert_envelope. intros H. insert_guard H. by injection H as _ <-.
Qed.

Lemma update_device_extends d id v v' :
  devices d !! id = Some v -> device_next v v' -> extends d (with_devices d (<[id := v']> (devices d))).
Proof.
  intros Hv Hn. apply extends_devices. intros id0 v0 H0. destruct (decide (id0 = id)) as [->|Hne].
  - rewrite lookup_insert_eq. exists v'. split; [done|]. by simplify_eq.
  - rewrite lookup_insert_ne by done. exists v0. split; [done|reflexivity].
Qed.

Lemma raise_ack_Some id account ack d u d' :
  raise_ack id account ack d = Some (u, d') ->
  d' = d \/ exists v v', devices d !! id = Some v /\ device_next v v' /\
    d' = with_devices d (<[id := v']> (devices d)).
Proof.
  unfold raise_ack. destruct (devices d !! id) as [v|] eqn:Ev; [|intros [= _ <-]; by left].
  case_bool_decide; [|intros [= _ <-]; by left]. intros [= _ <-]. right. eexists v, _.
  split; [done|]. split; [|done]. split; try done. simpl. destruct (_ <? _) eqn:E; bools; lia.
Qed.

Lemma revoke_Some id account now d n d' :
  revoke id account now d = Some (n, d') ->
  (n = 0 /\ d' = d) \/ exists v v', n = 1 /\ devices d !! id = Some v /\ device_next v v' /\ dev_account_id v = account /\
    revoked_at v' = Some now /\ d' = with_devices d (<[id := v']> (devices d)).
Proof.
  unfold revoke. destruct (devices d !! id) as [v|] eqn:Ev; [|intros [= <- <-]; by left].
  destruct (_ && _) eqn:E; [|intros [= <- <-]; by left]. bools. intros [= <- <-]. right. eexists v, _.
  split; [done|]. split; [done|]. split; [|split; [done|]; split; [|reflexivity]; done].
  split; try done. simpl. intros [? ?]. congruence.
Qed.

Lemma insert_keyring_Some account epoch ring d n d' :
  insert_keyring account epoch ring d = Some (n, d') ->
  (n = 0 /\ d' = d) \/ (n = 1 /\ keyrings d !! (account, epoch) = None /\
    d' = with_keyrings d (<[(account, epoch) := ring]> (keyrings d))).
Proof.
  unfold insert_keyring. destruct (_ || _ || _ || _) eqn:E; [intros [= <- <-]; by left|].
  intros H. insert_guard H. bools. injection H as <- <-. right. split_and!; [done| |done].
  by apply eq_None_not_Some.
Qed.

Section growth.
Context `{P : Primitives} `{U : UnicodeTables} `{CH : Codec Header}.

Lemma write_extends d d' : write d d' -> extends d d'.
Proof.
  destruct 1 as [id hash now d' _ H|id v d' _ H|id p d' _ H|id p p' H Hn|r d' H _ _|id a k d' H|id a t n d' H|a e r n d' H].
  - apply insert_account_Some in H as [H ->]. apply extends_others; try done. simpl. by apply insert_subseteq.
  - apply insert_device_Some in H as (H & _ & _ & _ & ->). apply extends_devices. intros id0 v0 H0.
    exists v0. split; [|reflexivity]. rewrite lookup_insert_ne; [done|]. by intros ->; simplify_eq.
  - apply insert_pairing_Some in H as [H ->]. apply extends_pairings. intros id0 v0 H0.
    exists v0. split; [|reflexivity]. rewrite lookup_insert_ne; [done|]. by intros ->; simplify_eq.
  - apply extends_pairings. intros id0 p0 H0. destruct (decide (id0 = id)) as [->|Hne].
    + rewrite lookup_insert_eq. exists p'. simplify_eq. split; [done|]. by apply rtc_once.
    + rewrite lookup_insert_ne by done. exists p0. split; [done|reflexivity].
  - apply insert_envelope_Some in H as ->. apply extends_others; try done; simpl; [|lia]. by eexists.
  - apply raise_ack_Some in H as [->|(v & v' & Hv & Hn & ->)]; [reflexivity|]. by eapply update_device_extends.
  - apply revoke_Some in H as [[_ ->]|(v & v' & _ & Hv & Hn & _ & _ & ->)]; [reflexivity|]. by eapply update_device_extends.
  - apply insert_keyring_Some in H as [[_ ->]|(_ & H & ->)]; [reflexivity|]. apply extends_others; try done.
    simpl. by apply insert_subseteq.
Qed.

Lemma writes_extend d d' : rtc write d d' -> extends d d'.
Proof. induction 1; [reflexivity|]. etrans; [by apply write_extends|done]. Qed.

Lemma row_ok_extends d d' r : extends d d' -> row_ok d r -> row_ok d' r.
Proof.
  intros He (Hc & Hm & v & Hv & Ha & Hd). destruct (ext_devices _ _ He _ _ Hv) as (v' & Hv' & Hn).
  split; [done|]. split; [done|]. exists v'. destruct Hn. rewrite dn_account0, dn_ed25520. done.
Qed.

(** ** The invariant *)

Record server_ok (d : ServerDB) : Prop := {
  so_accounts : forall id, is_Some (accounts d !! id) -> hex_id id;
  so_devices : forall id v, devices d !! id = Some v -> hex_id id /\ is_Some (accounts d !! dev_account_id v);
  so_tokens : forall id v id' v', devices d !! id = Some v -> devices d !! id' = Some v' ->
    token_hash v = token_hash v' -> id = id';
  so_pairings : forall id p, pairings d !! id = Some p -> state p = approved -> hex_id (new_device_id p);
  so_rows : Forall (row_ok d) (envelopes d);
  so_chains : forall account device, linked 1 [] (rows_of account device (envelopes d));
  so_cursors : StronglySorted Z.lt (map cursor (envelopes d));
  so_last : Forall (fun r => 0 < cursor r <= last_cursor d) (envelopes d);
  so_last_pos : 0 <= last_cursor d
}.

(** *** Chains *)

Lemma linked_snoc rows : forall seq previous r,
  linked seq previous (rows ++ [r]) <->
  linked seq previous rows /\ device_seq r = seq + len rows /\
  env_previous_hash r = match last rows with Some x => record_hash x | None => previous end.
Proof.
  induction rows as [|x rows IH]; intros seq previous r; simpl.
  - rewrite Z.add_0_r. naive_solver.
  - rewrite IH, len_cons. destruct rows as [|y rows]; [change (len (@nil EnvelopeRow)) with 0|].
    + simpl. replace (seq + 1 + 0) with (seq + (1 + 0)) by lia. naive_solver.
    + replace (seq + 1 + len (y :: rows)) with (seq + (1 + len (y :: rows))) by lia.
      change (last (x :: y :: rows)) with (last (y :: rows)).
      destruct (last (y :: rows)) eqn:E; [naive_solver|]. by apply last_None in E.
Qed.

Lemma linked_seq rows : forall seq previous i r,
  linked seq previous rows -> rows !! i = Some r -> device_seq r = seq + Z.of_nat i.
Proof.
  induction rows as [|x rows IH]; intros seq previous [|i] r; simpl; try done.
  - intros (<- & _) [= ->]. lia.
  - intros (_ & _ & H) Hi. rewrite (IH _ _ _ _ H Hi). lia.
Qed.

Lemma greatest_seq_linked rows : forall seq previous,
  linked seq previous rows -> greatest_seq rows = last rows.
Proof.
  unfold greatest_seq. intros seq previous.
  induction rows as [|r rows IH] using rev_ind; [done|].
  intros H. pose proof H as (H1 & H2 & _)%linked_snoc. rewrite fold_left_app, (IH H1), last_snoc. simpl.
  destruct (last rows) as [b|] eqn:E; [|done].
  rewrite last_lookup in E. rewrite (linked_seq _ _ _ _ _ H1 E), H2.
  rewrite (proj2 (Z.ltb_lt _ _)); [done|]. apply lookup_lt_Some in E. unfold len. lia.
Qed.

Lemma rows_of_snoc account device rows r :
  rows_of account device (rows ++ [r]) =
  rows_of account device rows ++
    (if bool_decide (env_account_id r = account) && bool_decide (env_device_id r = device) then [r] else []).
Proof. unfold rows_of. rewrite List.filter_app. simpl. by destruct (_ && _). Qed.

Lemma chain_end_linked account device d :
  linked 1 [] (rows_of account device (envelopes d)) ->
  chain_end account device d =
    (len (rows_of account device (envelopes d)),
     match last (rows_of account device (envelopes d)) with Some r => record_hash r | None => [] end).
Proof.
  intros H. unfold chain_end. rewrite (greatest_seq_linked _ _ _ H).
  destruct (last _) as [r|] eqn:E; [|by apply last_None in E as ->].
  rewrite last_lookup in E. rewrite (linked_seq _ _ _ _ _ H E). f_equal.
  apply lookup_lt_Some in E. unfold len. lia.
Qed.

(** *** Preservation *)

Lemma so_others d d' :
  server_ok d -> extends d d' -> envelopes d' = envelopes d -> last_cursor d' = last_cursor d ->
  (forall id, is_Some (accounts d' !! id) -> hex_id id) ->
  (forall id v, devices d' !! id = Some v -> hex_id id /\ is_Some (accounts d' !! dev_account_id v)) ->
  (forall id v id' v', devices d' !! id = Some v -> devices d' !! id' = Some v' ->
     token_hash v = token_hash v' -> id = id') ->
  (forall id p, pairings d' !! id = Some p -> state p = approved -> hex_id (new_device_id p)) ->
  server_ok d'.
Proof.
  intros [] He Henv Hlast Ha Hd Ht Hp. split; try done; rewrite ?Henv, ?Hlast; try done.
  eapply Forall_impl; [exact so_rows0|]. intros r Hr. by eapply row_ok_extends.
Qed.

Lemma devices_update_ok d id v v' :
  server_ok d -> devices d !! id = Some v -> device_next v v' ->
  server_ok (with_devices d (<[id := v']> (devices d))).
Proof.
  intros Hok Hv Hn. pose proof Hn as []. apply (so_others d); try done; try apply Hok.
  - by eapply update_device_extends.
  - intros id0 v0. cbn. destruct (decide (id0 = id)) as [->|Hne].
    + rewrite lookup_insert_eq. intros [= <-]. rewrite dn_account0. by apply (so_devices _ Hok).
    + rewrite lookup_insert_ne by done. apply (so_devices _ Hok).
  - intros id1 v1 id2 v2. cbn. rewrite !lookup_insert_Some.
    intros [[<- <-]|[_ H1]] [[<- <-]|[_ H2]]; rewrite ?dn_token0; intros Ht; try done;
      by eapply (so_tokens _ Hok).
Qed.

Lemma envelope_write_ok d r d' :
  server_ok d -> insert_envelope r d = Some (tt, d') ->
  (device_seq r, env_previous_hash r) =
    ((chain_end (env_account_id r) (env_device_id r) d).1 + 1,
     (chain_end (env_account_id r) (env_device_id r) d).2) ->
  (forall c, row_ok d (with_cursor c r)) -> extends d d' -> server_ok d'.
Proof.
  intros Hok Hins Hend Hrow He. apply insert_envelope_Some in Hins as ->.
  split; try apply Hok; cbn [envelopes last_cursor with_envelopes].
  - apply Forall_app. split.
    + eapply Forall_impl; [apply Hok|]. intros x Hx. by eapply row_ok_extends.
    + constructor; [|done]. eapply row_ok_extends; [done|]. apply Hrow.
  - intros account device. rewrite rows_of_snoc. cbn [env_account_id env_device_id with_cursor].
    destruct (_ && _) eqn:E; [|rewrite app_nil_r; apply Hok]. bools. subst.
    pose proof (so_chains _ Hok (env_account_id r) (env_device_id r)) as Hl.
    rewrite (chain_end_linked _ _ _ Hl) in Hend. injection Hend as Hs Hp.
    apply linked_snoc. split; [done|]. cbn [device_seq env_previous_hash with_cursor]. split; [lia|done].
  - rewrite map_app. cbn [map cursor with_cursor]. pose proof (so_cursors _ Hok) as Hs. pose proof (so_last _ Hok) as Hl.
    clear -Hs Hl. induction (envelopes d) as [|x l IH]; simpl in *; [by repeat constructor|].
    apply StronglySorted_inv in Hs as [Hs Hx]. apply Forall_cons in Hl as [Hl1 Hl2].
    constructor; [by apply IH|]. apply Forall_app. split; [done|]. constructor; [lia|done].
  - pose proof (so_last_pos _ Hok). apply Forall_app. split.
    + eapply Forall_impl; [apply (so_last _ Hok)|]. simpl. lia.
    + constructor; [simpl; lia|done].
  - pose proof (so_last_pos _ Hok). lia.
Qed.

Lemma write_ok d d' : server_ok d -> write d d' -> server_ok d'.
Proof.
  intros Hok Hw. pose proof (write_extends _ _ Hw) as He.
  destruct Hw as [id hash now d' Hid H|id v d' Hid H|id p d' Hs H|id p p' H Hn|r d' H Hend Hr|id a k d' H|id a t n d' H|a e r n d' H].
  - apply insert_account_Some in H as [H ->]. apply (so_others d); try done; try apply Hok.
    + intros id0. cbn. destruct (decide (id0 = id)) as [->|Hne]; [done|].
      rewrite lookup_insert_ne by done. apply Hok.
    + intros id0 v0 [? Hacc]%(so_devices _ Hok). split; [done|]. cbn.
      apply lookup_insert_is_Some. by destruct (decide (id = dev_account_id v0)); [left|right].
  - apply insert_device_Some in H as (H & Ht & Ha & _ & ->). apply (so_others d); try done; try apply Hok.
    + intros id0 v0. cbn. rewrite lookup_insert_Some. intros [[<- <-]|[_ H0]]; [done|]. by apply (so_devices _ Hok).
    + intros id1 v1 id2 v2. cbn. rewrite !lookup_insert_Some.
      intros [[<- <-]|[_ H1]] [[<- <-]|[_ H2]] Htok; [done|exfalso; by eapply Ht|exfalso; by eapply Ht|].
      by eapply (so_tokens _ Hok).
  - apply insert_pairing_Some in H as [H ->]. apply (so_others d); try done; try apply Hok.
    intros id0 p0. cbn. rewrite lookup_insert_Some. intros [[<- <-]|[_ H0]] Hst; [congruence|].
    by apply (so_pairings _ Hok id0).
  - apply (so_others d); try done; try apply Hok. intros id0 p0. cbn. rewrite lookup_insert_Some.
    intros [[<- <-]|[_ H0]] Hst; [|by apply (so_pairings _ Hok id0)].
    destruct Hn as (_ & _ & _ & _ & [[_ ?]|[(_ & _ & ?)|(_ & ? & _)]]); congruence.
  - by eapply envelope_write_ok.
  - apply raise_ack_Some in H as [->|(v & v' & Hv & Hn & ->)]; [done|]. by eapply devices_update_ok.
  - apply revoke_Some in H as [[_ ->]|(v & v' & _ & Hv & Hn & _ & _ & ->)]; [done|]. by eapply devices_update_ok.
  - apply insert_keyring_Some in H as [[_ ->]|(_ & H & ->)]; [done|]. by apply (so_others d); try apply Hok.
Qed.

Lemma writes_ok d d' : server_ok d -> rtc write d d' -> server_ok d'.
Proof. intros Hok H. revert Hok. induction H; [done|]. intros. eauto using write_ok. Qed.

End growth.

(** ** What the handlers write *)

(** A device that authenticated against this database or an earlier one. *)
Definition known (d : ServerDB) (identity : deviceIdentity) : Prop :=
  exists v, devices d !! ID identity = Some v /\ dev_account_id v = IAccountID identity /\
            dev_ed25519 v = Ed25519Key identity.

Lemma known_extends d d' identity : extends d d' -> known d identity -> known d' identity.
Proof.
  intros He (v & Hv & Ha & Hk). destruct (ext_devices _ _ He _ _ Hv) as (v' & Hv' & []).
  exists v'. split; [done|]. split; congruence.
Qed.

Definition anything {A} (_ : A) : Prop := True.

Lemma anything_intro {A} (a : A) : anything a.
Proof. done. Qed.
#[export] Hint Resolve anything_intro : yunpin.

Section small_rules.
Context `{SE : ServerEnv}.
Variable R : ServerDB -> ServerDB -> Prop.
Context `{!PreOrder R}.

Lemma pres_randomID : pres R (randomID 16) hex_id.
Proof.
  eapply pres_bind; [done| |]; [apply (pres_random R 16 (fun b => len b = 16)); (done || lia)|].
  intros b Hb. apply pres_ret; [done|]. by exists b.
Qed.

Lemma pres_randomSecret n : 0 <= n -> pres R (randomSecret n) anything.
Proof.
  intros Hn. eapply pres_bind; [done| |]; [by apply (pres_random R n anything)|].
  intros b Hb. by apply pres_ret.
Qed.

Lemma pres_registration input : pres R (validateRegistration input) anything.
Proof.
  unfold validateRegistration.
  repeat (eapply (pres_bind R _ _ anything); [by apply pres_require|intros ? _]). by apply pres_ret.
Qed.

End small_rules.

#[export] Hint Resolve pres_randomID pres_registration : yunpin.

#[export] Instance rtc_preorder {A} (R : A -> A -> Prop) : PreOrder (rtc R).
Proof. split; [intros x; apply rtc_refl|intros x y z H1 H2; by etrans]. Qed.

(** One step of a computation whose value is not needed later. *)
Ltac pres_side := first [ done | typeclasses eauto | lia ].

Ltac pres_quiet :=
  first [ apply pres_require | apply pres_refuse | apply pres_clock | apply pres_select | apply pres_iterate
        | apply pres_registration | apply pres_randomSecret | apply pres_ret ]; pres_side.

Ltac pres_step :=
  lazymatch goal with
  | |- pres ?R (hbind (randomID 16) _) _ =>
      let H := fresh "Hid" in apply (pres_bind R _ _ hex_id); [apply pres_randomID; typeclasses eauto|intros ? H]
  | |- pres ?R (hbind ?m _) _ =>
      apply (pres_bind R m _ anything); [pres_quiet|];
      let a := fresh "a" in intros a _; try (destruct a as [[? ?] ?])
  | |- pres _ _ _ => pres_quiet
  end.

(** One SQL statement that writes. *)
Ltac pres_write :=
  lazymatch goal with
  | |- pres ?R (hbind (sql _ _ _) _) _ =>
      apply (pres_bind R _ _ anything);
        [apply pres_sql; [typeclasses eauto|];
         let u := fresh "u" in let H := fresh "Hsql" in intros ? u ? H;
         lazymatch type of u with unit => destruct u | _ => idtac end; split; [|done]
        |intros ? _]
  end.

Section handlers.
Context `{SE : ServerEnv} `{P : Primitives} `{U : UnicodeTables} `{CH : Codec Header}.

Lemma authenticate_known header w r w' :
  authenticate header w = (r, w') -> sdb w' = sdb w /\ forall identity, r = Answer identity -> known (sdb w') identity.
Proof.
  unfold authenticate. intros [(t & w1 & E & H)|(e & E & ->)]%hbind_inv.
  - assert (sdb w1 = sdb w) as Hw by (revert E; unfold require; destruct (bearer header); intros [= _ <-]; done).
    apply hbind_inv in H as [(o & w2 & E2 & H)|(e & E2 & ->)].
    + apply sql_inv in E2 as [(e & [=] & _)|(a & [= <-] & [= <- Hd])].
      assert (sdb w' = sdb w2) as Hw' by (revert H; unfold require; destruct (device_by_token _ _); intros [= _ <-]; done).
      split; [congruence|]. intros identity ->. rewrite Hw', <- Hd. revert H. unfold require, device_by_token.
      destruct (List.filter _ _) as [|[id v] l] eqn:Ef; intros [= <-]. 
      assert (In (id, v) (List.filter (fun entry => bool_decide (token_hash entry.2 = digest t)
         && bool_decide (revoked_at entry.2 = None)) (map_to_list (devices (sdb w1))))) as Hin by (rewrite Ef; by left).
      apply List.filter_In in Hin as [Hin _]. apply list_elem_of_In, elem_of_map_to_list in Hin. by exists v.
    + apply sql_inv in E2 as [(e' & _ & Hd)|(a & [=] & _)]. split; [congruence|done].
  - split; [|done]. revert E. unfold require. destruct (bearer header); intros [= _ <-]; done.
Qed.

Lemma createAccount_writes body : pres (rtc write) (createAccount body) anything.
Proof.
  unfold createAccount. do 7 pres_step. apply pres_tx; [typeclasses eauto|].
  pres_write; [eapply rtc_once, w_account; [|done]; done|]. pres_write; [eapply rtc_once, w_device; [|done]; done|]. pres_step.
Qed.

Lemma recoverAccount_writes id body : pres (rtc write) (recoverAccount id body) anything.
Proof.
  unfold recoverAccount. do 4 pres_step.
  apply (pres_bind _ _ _ anything); [apply pres_sql; [typeclasses eauto|by intros ? ? ? [= _ <-]]|intros ? _].
  do 5 pres_step. pres_write; [eapply rtc_once, w_device; [|done]; done|]. pres_step.
Qed.

Lemma createPairing_writes identity : pres (rtc write) (createPairing identity) anything.
Proof.
  unfold createPairing. do 3 pres_step. pres_write; [eapply rtc_once, w_new_pairing; [|done]; done|]. pres_step.
Qed.

Lemma update_pairing_Some id where_ f d n d' :
  update_pairing id where_ f d = Some (n, d') ->
  (n = 0 /\ d' = d) \/
  exists p, n = 1 /\ pairings d !! id = Some p /\ where_ p = true /\
    d' = with_pairings d (<[id := f p]> (pairings d)).
Proof.
  unfold update_pairing. destruct (pairings d !! id) as [p|] eqn:Ep; [|intros [= <- <-]; by left].
  destruct (where_ p) eqn:Ew; [|intros [= <- <-]; by left].
  destruct (keyring_check _); [|done]. intros [= <- <-]. right. by exists p.
Qed.

Lemma update_pairing_writes id where_ f d n d' :
  (forall p, where_ p = true -> pairing_next p (f p)) ->
  update_pairing id where_ f d = Some (n, d') -> rtc write d d'.
Proof.
  intros Hf [[_ ->]|(p & _ & Hp & Hw & ->)]%update_pairing_Some; [done|]. eapply rtc_once, w_pairing; eauto.
Qed.

Lemma joinPairing_writes id body : pres (rtc write) (joinPairing id body) anything.
Proof.
  unfold joinPairing. do 3 pres_step. pres_write; [|do 2 pres_step].
  eapply update_pairing_writes; [|done]. simpl. intros p Hp. bools. unfold pairing_next. simpl. split_and!; auto.
Qed.

Lemma approvePairing_writes identity id body : pres (rtc write) (approvePairing identity id body) anything.
Proof.
  unfold approvePairing. do 4 pres_step. pres_write; [|do 2 pres_step].
  eapply update_pairing_writes; [|done]. simpl. intros p Hp. bools. unfold pairing_next. simpl. split_and!; auto.
Qed.

Lemma revokeDevice_writes identity id : pres (rtc write) (revokeDevice identity id) anything.
Proof.
  unfold revokeDevice. do 2 pres_step. pres_write; [by eapply rtc_once, w_revoke|]. pres_step.
Qed.

Lemma putKeyring_writes identity body : pres (rtc write) (putKeyring identity body) anything.
Proof.
  unfold putKeyring. apply (pres_bind _ _ _ anything); [pres_quiet|]. intros [epoch encoded] _.
  do 3 pres_step. pres_write; [by eapply rtc_once, w_keyring|]. destruct (negb _); [|pres_step].
  apply (pres_bind _ _ _ anything); [apply pres_sql; [typeclasses eauto|by intros ? ? ? [= _ <-]]|intros ? _].
  do 3 pres_step.
Qed.

Lemma claimPairing_writes id body w r w' :
  server_ok (sdb w) -> claimPairing id body w = (r, w') -> rtc write (sdb w) (sdb w').
Proof.
  intros Hok. unfold claimPairing. destruct body as [secret|]; [|by intros [= _ <-]].
  intros [(e & -> & ->)|(a & w1 & w2 & -> & Hd & H & ->)]%in_tx_inv; [done|]. rewrite <- Hd in *. clear w Hd w'.
  apply hbind_inv in H as [(o & w3 & E & H)|(e & _ & [=])].
  apply sql_inv in E as [(e & [=] & _)|(o' & [= <-] & [= <- Hd])]. rewrite Hd in *. clear w1 Hd.
  destruct (pairings (sdb w3) !! id) as [p|] eqn:Ep; [|done]. case_bool_decide as Hst; [|done].
  revert H. match goal with |- ?m w3 = _ -> _ => assert (pres (rtc write) m anything) as Hp end.
  { apply (pres_bind _ _ _ (fun p' => p' = p)); [apply pres_ret; pres_side|]. intros ? ->. do 4 pres_step.
    pres_write; [eapply rtc_once, w_device; [|done]; by eapply so_pairings|].
    pres_step. pres_write; [|pres_step]. eapply update_pairing_writes; [|done].
    simpl. intros p' Hp. bools. unfold pairing_next. simpl. split_and!; auto. }
  by intros []%Hp.
Qed.

(** *** Uploads *)

(** The envelope a validated upload stands for. *)
Definition uploaded (account device : bytes) (e : decodedEnvelope) : Envelope :=
  mkEnvelope (mkHeader (WVersion (d_wire e)) account (d_objectID e) (WKeyEpoch (d_wire e)) device
                (WDeviceSeq (d_wire e)) (d_previousHash e) (d_nonce e)) (d_ciphertext e) (d_signature e).

Definition genuine (identity : deviceIdentity) (e : decodedEnvelope) : Prop :=
  exists account device header,
    IAccountID identity = Hex.EncodeToString account /\ ID identity = Hex.EncodeToString device /\
    header_ok (EHeader (uploaded account device e)) /\ body_ok (d_ciphertext e) (d_signature e) /\
    canonicalHeader (EHeader (uploaded account device e)) = Ok header /\
    ed25519_Verify (Ed25519Key identity) (header ++ d_ciphertext e) (d_signature e) = true /\
    d_recordHash e = Sum256 (header ++ d_ciphertext e ++ d_signature e).

Lemma require_inv {A} (o : option A) st c w a w' : require o st c w = (Answer a, w') -> o = Some a /\ w' = w.
Proof. unfold require. destruct o; intros [=]; by subst. Qed.

Lemma refuse_inv b st c w u w' : refuse_if b st c w = (Answer u, w') -> b = false /\ w' = w.
Proof. unfold refuse_if. destruct b; intros [=]; by subst. Qed.

Lemma decodeSized_Some v lo hi b : decodeSized v lo hi = Some b -> lo <= len b <= hi.
Proof.
  unfold decodeSized. destruct (Base64.DecodeString v); [|done]. destruct (_ || _) eqn:E; [done|].
  rewrite Z.gtb_ltb in E. bools. intros [= ->]. lia.
Qed.

Lemma decode_id_Some v b : decode_id v = Some b -> len b = 16.
Proof.
  unfold decode_id. destruct (Hex.DecodeString v); [|done]. destruct (negb _) eqn:E; [done|]. bools. by intros [= <-].
Qed.

Lemma decode_hex_id id : len id = 16 -> decode_id (Hex.EncodeToString id) = Some id.
Proof. intros H. unfold decode_id. by rewrite hex_decode_encode, H. Qed.

Lemma CanonicalHeader_Some account device envelope previous nonce object b :
  len account = 16 -> len device = 16 -> decode_id (WObjectID envelope) = Some object ->
  CanonicalHeader (Hex.EncodeToString account) (Hex.EncodeToString device) envelope previous nonce = Some b ->
  canonicalHeader (mkHeader (WVersion envelope) account object (WKeyEpoch envelope) device (WDeviceSeq envelope)
    previous nonce) = Ok b.
Proof.
  intros Ha Hd Ho. unfold CanonicalHeader, canonicalHeader. rewrite !decode_hex_id, Ho by done.
  destruct (_ && _); [done|]. destruct (negb _); [done|]. destruct (Marshal _); [|done]. by intros [= ->].
Qed.

Lemma validateEnvelope_inv identity envelope w e w' :
  hex_id (IAccountID identity) -> hex_id (ID identity) ->
  validateEnvelope identity envelope w = (Answer e, w') -> w' = w /\ genuine identity e /\ d_wire e = envelope.
Proof.
  intros (account & Hacc & Hla) (device & Hdev & Hld) H. unfold validateEnvelope in H.
  repeat lazymatch type of H with
  | hbind (refuse_if _ _ _) _ _ = _ =>
      let Hc := fresh "Hc" in apply hbind_inv in H as [(? & ? & [Hc ->]%refuse_inv & H)|(? & _ & [=])]
  | hbind (require _ _ _) _ _ = _ =>
      let Hc := fresh "Hc" in
      apply hbind_inv in H as [(? & ? & [Hc ->]%require_inv & H)|(? & _ & [=])]
  | hbind _ _ _ = _ =>
      apply hbind_inv in H as [(previous & w1 & Hprev & H)|(? & _ & [=])];
      assert ((previous = [] \/ len previous = 32) /\ w1 = w) as [Hp ->] by
        (case_bool_decide; [injection Hprev as <- <-; auto|];
         apply require_inv in Hprev as [Hprev%decodeSized_Some ->]; unfold Size in Hprev; split; [right; lia|done])
  end.
  injection H as <- <-. split; [done|]. split; [|done]. rewrite ?Z.gtb_ltb in *. bools.
  rewrite Hacc, Hdev in *. pose proof (decode_id_Some _ _ Hc0) as Ho.
  apply decodeSized_Some in Hc1, Hc2, Hc4.
  exists account, device, x5. split_and!; try done; cbn [d_ciphertext d_signature d_recordHash uploaded EHeader].
  - unfold header_ok. cbn. split_and!; try done; lia.
  - unfold body_ok. split; [lia|]. unfold PaddingBucket, maxCiphertext in *.
    exists ((len x2 - 16) / 512). Z.div_mod_to_equations; lia.
  - by apply (CanonicalHeader_Some _ _ _ _ _ x0).
  - by rewrite <- app_assoc.
Qed.

Lemma FromDownload_row account env r :
  header_ok (EHeader env) -> body_ok (Ciphertext env) (Signature env) -> AccountID (EHeader env) = account ->
  row_wire r = mkWire (Version (EHeader env)) (Hex.EncodeToString (DeviceID (EHeader env))) (DeviceSeq (EHeader env))
    (Hex.EncodeToString (HObjectID (EHeader env))) (KeyEpoch (EHeader env))
    (Base64.EncodeToString (PreviousHash (EHeader env))) (Base64.EncodeToString (Nonce (EHeader env)))
    (Base64.EncodeToString (Ciphertext env)) (Base64.EncodeToString (Signature env)) (cursor r) ->
  EnvelopeFromDownload account (row_wire r) = Ok env.
Proof.
  intros Hh Hb <- ->. unfold EnvelopeFromDownload. cbn [WDeviceID].
  pose proof Hh as (_ & _ & _ & Hdev & _).
  rewrite bool_decide_false, decodeHexWireID_encode; [|done|].
  - apply FromWire_encoded; auto.
  - intros E%(f_equal len). rewrite len_hex_encode, Hdev in E. done.
Qed.

(** The row that stores an upload. *)
Definition stored (identity : deviceIdentity) (e : decodedEnvelope) (now c : Z) : EnvelopeRow :=
  mkRow c (IAccountID identity) (ID identity) (d_seq e) (WVersion (d_wire e)) (d_objectID e) (WKeyEpoch (d_wire e))
    (d_previousHash e) (d_nonce e) (d_ciphertext e) (d_signature e) (d_recordHash e) now.

Lemma genuine_row d identity e now c :
  known d identity -> genuine identity e -> row_ok d (stored identity e now c).
Proof.
  intros (v & Hv & Ha & Hk) (account & device & header & Hacc & Hdev & Hh & Hb & Hc & Hsig & Hhash).
  pose proof Hb as (_ & k & Hk1 & Hlen). unfold row_ok, PaddingBucket, maxCiphertext. cbn.
  split; [lia|]. split; [rewrite Hlen; replace (512 * k + 16 - 16) with (k * 512) by lia; by rewrite Z.mod_mul|].
  exists v. split_and!; [done..|]. exists account, (uploaded account device e), header. rewrite Hk.
  split_and!; try done.
  - apply FromDownload_row; try done. unfold row_wire, stored, uploaded. cbn. rewrite Hdev. f_equal.
    destruct (len (d_previousHash e) =? 0) eqn:E; [|done]. bools. by apply len_zero in E as ->.
  - unfold EnvelopeHash. rewrite (proj2 (validateHeader_Ok _) Hh). cbn [rbind Ciphertext Signature uploaded].
    rewrite (proj2 (validateEnvelopeBody_Ok _ _) Hb). cbn [rbind]. rewrite Hc. cbn -[Sum256]. by rewrite Hhash.
Qed.

(** What the answer to one upload says about the database. *)
Definition upload_answer (identity : deviceIdentity) (e : decodedEnvelope) (answer : Z + syncRejection)
    (d d' : ServerDB) : Prop :=
  match answer with
  | inl seq => seq = d_seq e /\ exists r, find_row (IAccountID identity) (ID identity) (d_seq e) d' = Some r /\
                 record_hash r = d_recordHash e
  | inr rejection => r_seq rejection = d_seq e /\ d' = d
  end.

Lemma find_snoc {A} (f : A -> bool) l x : find f l = None -> f x = true -> find f (l ++ [x]) = Some x.
Proof. induction l as [|y l IH]; simpl; [by intros _ ->|]. destruct (f y); [done|auto]. Qed.

Lemma upload_one_inv identity e w r w' :
  known (sdb w) identity -> genuine identity e -> upload_one identity e w = (r, w') ->
  rtc write (sdb w) (sdb w') /\
  forall answer, r = Answer answer -> upload_answer identity e answer (sdb w) (sdb w').
Proof.
  intros Hknown Hgen H. unfold upload_one in H.
  apply hbind_inv in H as [(existing & w1 & E1 & H)|(? & E1 & ->)];
    apply select_inv in E1 as [Hd1 E1]; [|rewrite Hd1; by split].
  destruct E1 as [[? [=]]|[= ->]]. rewrite <- Hd1 in *. clear w Hd1.
  destruct (find_row _ _ _ _) as [row|] eqn:Ef.
  { case_bool_decide; injection H as <- <-; (split; [done|]); intros ? [= <-]; [|done]. split; [done|]. eauto. }
  apply hbind_inv in H as [(last_ & w2 & E2 & H)|(? & E2 & ->)];
    apply select_inv in E2 as [Hd2 E2]; [|rewrite Hd2; by split].
  destruct E2 as [[? [=]]|[= ->]]. rewrite <- Hd2 in *. clear w1 Hd2.
  assert (forall code, (Answer (inr (mkRejection (d_seq e) code)), w2) = (r, w') ->
    rtc write (sdb w2) (sdb w') /\ forall answer, r = Answer answer -> upload_answer identity e answer (sdb w2) (sdb w'))
    as Hrej by (intros ? [= <- <-]; split; [done|]; by intros ? [= <-]).
  destruct (negb (_ =? _)) eqn:Eseq; [by eapply Hrej|].
  destruct (negb (bool_decide _)) eqn:Eprev; [by eapply Hrej|]. clear Hrej. bools.
  apply hbind_inv in H as [(now & w3 & [= <- <-] & H)|(? & [=] & _)].
  apply hbind_inv in H as [(u & w4 & E4 & H)|(? & E4 & ->)].
  - injection H as <- <-. apply sql_inv in E4 as [(? & [=] & _)|([] & _ & E4)]. cbn [sdb step] in E4. split.
    + eapply rtc_once, w_envelope; [done| |]; cbn -[chain_end].
      * unfold chain_end. destruct (greatest_seq _); cbn; by f_equal.
      * intros c. by apply (genuine_row _ _ _ _ c).
    + intros ? [= <-]. split; [done|]. apply insert_envelope_Some in E4 as ->. eexists.
      split; [unfold find_row; cbn; apply find_snoc; [done|]; cbn; by rewrite !bool_decide_true, Z.eqb_refl|done].
  - apply sql_inv in E4 as [(? & _ & ->)|(? & [=] & _)]. by split.
Qed.

Lemma validateEnvelope_pure identity envelope w e w1 :
  validateEnvelope identity envelope w = (Answer e, w) -> validateEnvelope identity envelope w1 = (Answer e, w1).
Proof.
  unfold validateEnvelope, hbind, refuse_if, require, hret, hfail. intros H.
  repeat (case_match; simplify_eq; try done).
Qed.

Lemma validate_all_quiet identity l : forall w r w', validate_all identity l w = (r, w') -> w' = w.
Proof.
  induction l as [|envelope l IH]; intros w r w' H; cbn [validate_all] in H; [by injection H as _ <-|].
  assert (forall w r w', validateEnvelope identity envelope w = (r, w') -> w' = w) as Hq.
  { clear. intros w r w'. unfold validateEnvelope, hbind, refuse_if, require, hret, hfail. intros H.
    repeat (case_match; simplify_eq; try done). }
  apply hbind_inv in H as [(e & w1 & ->%Hq & H)|(e & ->%Hq & _)]; [|done].
  apply hbind_inv in H as [(es & w2 & ->%IH & H)|(es & ->%IH & _)]; [by injection H as _ <-|done].
Qed.

Lemma validate_all_inv identity l : forall w es w',
  hex_id (IAccountID identity) -> hex_id (ID identity) ->
  validate_all identity l w = (Answer es, w') ->
  w' = w /\ Forall (genuine identity) es /\ map d_wire es = l /\ forall w1, validate_all identity l w1 = (Answer es, w1).
Proof.
  induction l as [|envelope l IH]; intros w es w' Ha Hd H; cbn [validate_all] in H.
  { by injection H as <- <-. }
  apply hbind_inv in H as [(e & w1 & E1 & H)|(? & _ & [=])].
  pose proof E1 as (-> & Hg & Hw)%validateEnvelope_inv; [|done..].
  apply hbind_inv in H as [(es' & w2 & E2 & H)|(? & _ & [=])].
  destruct (IH _ _ _ Ha Hd E2) as (-> & Hgs & Hws & Hall). injection H as <- <-.
  split_and!; [done|by constructor|cbn; congruence|]. intros w1. cbn [validate_all]. unfold hbind at 1.
  rewrite (validateEnvelope_pure _ _ _ _ w1 E1). unfold hbind. by rewrite Hall.
Qed.

Lemma insert_by_seq_in e l x : In x (insert_by_seq e l) <-> x = e \/ In x l.
Proof. induction l as [|y l IH]; simpl; [naive_solver|]. destruct (_ <=? _); simpl; [naive_solver|]. rewrite IH. naive_solver. Qed.

Lemma sort_by_seq_in l x : In x (sort_by_seq l) <-> In x l.
Proof. induction l as [|y l IH]; simpl; [done|]. rewrite insert_by_seq_in, IH. naive_solver. Qed.

Lemma dedupe_in rest : forall start conflict x, In x (dedupe start conflict rest).2 -> x = start \/ In x rest.
Proof.
  induction rest as [|e rest IH]; intros start conflict x; simpl.
  - destruct conflict; simpl; naive_solver.
  - destruct (_ =? _); [intros [?|?]%IH; auto|].
    destruct conflict; simpl; [intros [?|?]%IH; auto|]. intros [->|[?|?]%IH]; auto.
Qed.

Lemma unique_batch_in l x : In x (unique_batch (sort_by_seq l)).2 -> In x l.
Proof.
  intros H. apply sort_by_seq_in. revert H. destruct (sort_by_seq l) as [|e rest]; [done|]. simpl. intros [->|?]%dedupe_in; auto.
Qed.

(** The record is stored under the device's sequence number. *)
Definition has_record (identity : deviceIdentity) (e : decodedEnvelope) (d : ServerDB) : Prop :=
  exists r, find_row (IAccountID identity) (ID identity) (d_seq e) d = Some r /\ record_hash r = d_recordHash e.

Lemma find_prefix {A} (f : A -> bool) l l' x : l `prefix_of` l' -> find f l = Some x -> find f l' = Some x.
Proof. intros [k ->]. induction l as [|y l IH]; simpl; [done|]. destruct (f y); auto. Qed.

Lemma has_record_extends identity e d d' : extends d d' -> has_record identity e d -> has_record identity e d'.
Proof. intros He (r & Hr & Hh). exists r. split; [|done]. eapply find_prefix; [apply He|done]. Qed.

Lemma upload_one_again identity e w answer w' :
  has_record identity e (sdb w) -> upload_one identity e w = (Answer answer, w') -> answer = inl (d_seq e).
Proof.
  intros (row & Hf & Hr) H. unfold upload_one in H.
  apply hbind_inv in H as [(existing & w1 & E1 & H)|(? & _ & [=])].
  apply select_inv in E1 as [Hd1 [[? [=]]|[= ->]]]. rewrite Hf, Hr in H.
  rewrite bool_decide_true in H by done. by injection H as <- <-.
Qed.

Lemma upload_all_inv identity l : forall w r w',
  known (sdb w) identity -> Forall (genuine identity) l -> upload_all identity l w = (r, w') ->
  rtc write (sdb w) (sdb w') /\
  forall accepted rejected, r = Answer (accepted, rejected) ->
    (forall seq, In seq accepted -> exists e, In e l /\ d_seq e = seq /\ has_record identity e (sdb w')) /\
    (forall e, In e l -> has_record identity e (sdb w) -> In (d_seq e) accepted).
Proof.
  induction l as [|e l IH]; intros w r w' Hk Hg H; cbn [upload_all] in H.
  { injection H as <- <-. split; [done|]. by intros ? ? [= <- <-]. }
  apply Forall_cons in Hg as [Hge Hg].
  apply hbind_inv in H as [(o & w1 & E1 & H)|(? & E1 & ->)];
    pose proof E1 as [Hw1 Ho]%upload_one_inv; try done.
  pose proof (writes_extend _ _ Hw1) as He1.
  apply hbind_inv in H as [([acc rej] & w2 & E2 & H)|(? & E2 & ->)];
    apply IH in E2 as [Hw2 Hall]; try done; try by eapply known_extends.
  2: { split; [by etrans|done]. }
  injection H as <- <-. split; [by etrans|]. destruct (Hall _ _ eq_refl) as [Hacc Hagain].
  specialize (Ho _ eq_refl). pose proof (writes_extend _ _ Hw2) as He2. intros accepted rejected [= Hres].
  assert (forall seq, In seq acc -> exists e0, In e0 (e :: l) /\ d_seq e0 = seq /\ has_record identity e0 (sdb w2))
    as Hacc' by (intros seq (e0 & ? & ?)%Hacc; exists e0; split; [by right|done]).
  assert (forall e0, In e0 l -> has_record identity e0 (sdb w) -> In (d_seq e0) acc)
    as Hagain' by (intros e0 Hin Hrec; apply Hagain; [done|]; by eapply has_record_extends).
  destruct o as [seq|rejection]; injection Hres as <- <-.
  - destruct Ho as [-> Hrec]. split.
    + intros seq [<-|Hin]; [|by apply Hacc']. exists e. split; [by left|]. split; [done|].
      eapply has_record_extends; [done|]. exact Hrec.
    + intros e0 [->|Hin] Hrec0; [by left|]. right. by apply Hagain'.
  - split; [done|]. intros e0 [->|Hin] Hrec0; [|by apply Hagain'].
    by pose proof (upload_one_again _ _ _ _ _ Hrec0 E1).
Qed.

(** *** Pages *)

Definition page_row_ok (r : EnvelopeRow) : Prop :=
  PaddingBucket + 16 <= len (env_ciphertext r) <= maxCiphertext /\ (len (env_ciphertext r) - 16) mod PaddingBucket = 0.

Definition page_bytes (rows : list EnvelopeRow) : Z := fold_right (fun r n => len (env_ciphertext r) + n) 0 rows.

(** The page is a prefix of the rows, within both limits, and nothing is left
    when no more is announced. *)
Lemma page_Some limit rows : forall outgoing bytes out more,
  page limit rows outgoing bytes = Some (out, more) ->
  exists taken rest, rows = taken ++ rest /\ out = outgoing ++ taken /\
    (more = true <-> rest <> []) /\ len out <= Z.max limit (len outgoing) /\
    (outgoing <> [] -> bytes + page_bytes taken <= Z.max bytes maxDownloadBytes) /\
    (outgoing = [] -> bytes = 0 -> page_bytes taken <= maxDownloadBytes) /\
    (1 <= limit -> outgoing = [] -> rows <> [] -> taken <> []).
Proof.
  induction rows as [|r rows IH]; intros outgoing bytes out more; cbn [page].
  { intros [= <- <-]. exists [], []. rewrite (app_nil_r outgoing). cbn. split_and!; try done; lia. }
  destruct (_ || _ || _) eqn:Ebad; [done|]. rewrite !Z.gtb_ltb, !Z.geb_leb. rewrite Z.gtb_ltb in Ebad. bools.
  destruct (_ || _) eqn:Estop.
  - intros [= <- <-]. exists [], (r :: rows). rewrite (app_nil_r outgoing). cbn. split_and!; try done; try lia.
    intros Hl -> _. exfalso. apply orb_true_iff in Estop as [E|[E _]%andb_true_iff]; change (len (@nil EnvelopeRow)) with 0 in E; bools; lia.
  - intros (taken & rest & -> & -> & Hm & Hlen & Hb1 & _)%IH. bools. exists (r :: taken), rest.
    rewrite <- app_assoc in *. cbn [app page_bytes fold_right] in *. fold (page_bytes taken) in *.
    rewrite !len_app, !len_cons in *. change (len (@nil EnvelopeRow)) with 0 in *.
    assert (outgoing ++ [r] <> []) as Hne by (by destruct outgoing). specialize (Hb1 Hne).
    split_and!; try done; [lia| |].
    + intros Hout. apply andb_false_iff in H3 as [E|E]; bools; [|lia].
      destruct outgoing; [done|]. rewrite len_cons in E. pose proof (len_nonneg outgoing). lia.
    + intros -> ->. unfold maxDownloadBytes in *. lia.
Qed.

Lemma page_total limit rows : forall outgoing bytes, Forall page_row_ok rows -> is_Some (page limit rows outgoing bytes).
Proof.
  induction rows as [|r rows IH]; intros outgoing bytes Hok; cbn [page]; [eauto|].
  apply Forall_cons in Hok as [[Hl Hm] Hok]. rewrite !Z.gtb_ltb, Hm, !(proj2 (Z.ltb_ge _ _)) by lia. cbn [orb negb Z.eqb].
  destruct (_ || _); [eauto|]. by apply IH.
Qed.

Lemma sync_tx_inv identity input limit batch decoded w r w' :
  known (sdb w) identity -> Forall (genuine identity) decoded ->
  sync_tx identity input limit batch decoded w = (r, w') ->
  rtc write (sdb w) (sdb w') /\
  forall a, r = Answer a -> exists accepted rejected w1 outgoing,
    upload_all identity decoded w = (Answer (accepted, rejected), w1) /\
    accepted_sequences a = accepted /\ rejected_sequences a = batch ++ rejected /\
    envelopes (sdb w') = envelopes (sdb w1) /\
    page limit (take (Z.to_nat (limit + 1)) (rows_after (IAccountID identity) (i_cursor input) (sdb w'))) [] 0
      = Some (outgoing, has_more a) /\
    a_envelopes a = map row_wire outgoing /\ next_cursor a = page_cursor outgoing (i_cursor input).
Proof.
  intros Hk Hg H. unfold sync_tx in H.
  apply hbind_inv in H as [([acc rej] & w1 & E1 & H)|(? & E1 & ->)];
    pose proof E1 as [Hw1 _]%upload_all_inv; try done.
  apply hbind_inv in H as [(top & w2 & [Hd2 _]%select_inv & H)|(? & [Hd2 _]%select_inv & ->)]; [|by rewrite Hd2].
  apply hbind_inv in H as [(u & w3 & [_ ->]%refuse_inv & H)|(? & E3 & ->)].
  2: { unfold refuse_if in E3. destruct (_ || _); [|done]. injection E3 as _ <-. by rewrite Hd2. }
  apply hbind_inv in H as [([] & w4 & E4 & H)|(? & [(? & _ & Hd)|(? & [=] & _)]%sql_inv & ->)]; [|by rewrite Hd, Hd2].
  apply sql_inv in E4 as [(? & [=] & _)|([] & _ & Hack)].
  assert (rtc write (sdb w) (sdb w4)) as Hw4.
  { etrans; [done|]. rewrite <- Hd2. by eapply rtc_once, w_ack. }
  assert (envelopes (sdb w4) = envelopes (sdb w1)) as He4.
  { rewrite <- Hd2. by apply raise_ack_Some in Hack as [->|(v & v' & _ & _ & ->)]. }
  apply hbind_inv in H as [(rows & w5 & [Hd5 Hr]%select_inv & H)|(? & [Hd5 _]%select_inv & ->)]; [|by rewrite Hd5].
  destruct Hr as [[? [=]]|[= ->]].
  apply hbind_inv in H as [([outgoing more] & w6 & [Hpage ->]%require_inv & H)|(? & E6 & ->)].
  2: { unfold require in E6. destruct (page _ _ _ _); [done|]. injection E6 as _ <-. by rewrite Hd5. }
  apply hbind_inv in H as [(ep & w7 & [Hd7 _]%select_inv & H)|(? & [Hd7 _]%select_inv & ->)]; [|by rewrite Hd7, Hd5].
  injection H as <- <-. rewrite Hd7, Hd5. split; [done|]. intros a [= <-]. cbn. exists acc, rej, w1, outgoing. split_and!; done.
Qed.

Definition sync_limit (input : sync_input) : Z := if i_limit input =? 0 then defaultSyncLimit else i_limit input.

Lemma known_hex d identity : server_ok d -> known d identity -> hex_id (IAccountID identity) /\ hex_id (ID identity).
Proof.
  intros Hok (v & Hv & Ha & _). destruct (so_devices _ Hok _ _ Hv) as [? Hacc]. rewrite Ha in Hacc.
  split; [by apply (so_accounts _ Hok)|done].
Qed.

(** What a successful answer to a sync request is. *)
Definition sync_result (identity : deviceIdentity) (input : sync_input) (decoded : list decodedEnvelope)
    (a : sync_answer) (d d' : ServerDB) : Prop :=
  (forall seq, In seq (accepted_sequences a) ->
     exists e, In e (unique_batch (sort_by_seq decoded)).2 /\ d_seq e = seq /\ has_record identity e d') /\
  (forall e, In e (unique_batch (sort_by_seq decoded)).2 -> has_record identity e d -> In (d_seq e) (accepted_sequences a)) /\
  exists outgoing,
    page (sync_limit input)
      (take (Z.to_nat (sync_limit input + 1)) (rows_after (IAccountID identity) (i_cursor input) d')) [] 0
      = Some (outgoing, has_more a) /\
    a_envelopes a = map row_wire outgoing /\ next_cursor a = page_cursor outgoing (i_cursor input).

Lemma syncEnvelopes_inv identity body w r w' :
  server_ok (sdb w) -> known (sdb w) identity -> syncEnvelopes identity body w = (r, w') ->
  rtc write (sdb w) (sdb w') /\
  forall a, r = Answer a -> exists input decoded,
    body = Some input /\ 1 <= sync_limit input <= maximumSyncLimit /\ 0 <= i_cursor input /\
    (forall w1, validate_all identity (i_envelopes input) w1 = (Answer decoded, w1)) /\
    sync_result identity input decoded a (sdb w) (sdb w').
Proof.
  intros Hok Hk H. destruct (known_hex _ _ Hok Hk) as [Ha Hd]. unfold syncEnvelopes in H.
  assert (forall st c, (Failed (mkFailure st c), w) = (r, w') ->
    rtc write (sdb w) (sdb w') /\ forall a : sync_answer, r = Answer a -> False) as Hfail
    by (intros st c [= <- <-]; by split).
  destruct body as [input|]; [|apply Hfail in H as [? Hn]; split; [done|]; by intros ? ?%Hn].
  cbn [require] in H. unfold hbind at 1, hret at 1 in H. unfold refuse_if at 1, hbind at 1 in H.
  destruct (_ || _ || _) eqn:E1 in H; [apply Hfail in H as [? Hn]; split; [done|]; by intros ? ?%Hn|].
  unfold hret at 1 in H. fold (sync_limit input) in H. unfold refuse_if at 1, hbind at 1 in H.
  destruct (_ || _) eqn:E2 in H; [apply Hfail in H as [? Hn]; split; [done|]; by intros ? ?%Hn|].
  unfold hret at 1 in H. rewrite Z.gtb_ltb in E1, E2. bools.
  apply hbind_inv in H as [(decoded & w1 & Ev & H)|(e & Ev & ->)].
  2: { split; [|done]. by rewrite (validate_all_quiet _ _ _ _ _ Ev). }
  pose proof Ev as (-> & Hg & _ & Hall)%validate_all_inv; [|done..].
  destruct (unique_batch (sort_by_seq decoded)) as [batch unique] eqn:Eu.
  apply in_tx_inv in H as [(e & -> & ->)|(a & w1 & w2 & -> & Hd1 & H & ->)]; [by split|].
  assert (Forall (genuine identity) unique) as Hgu.
  { apply List.Forall_forall. intros e He. rewrite List.Forall_forall in Hg. apply Hg, unique_batch_in. by rewrite Eu. }
  rewrite <- Hd1 in Hk |- *. apply sync_tx_inv in H as [Hw Hres]; [|done..]. split; [done|].
  intros a0 [= <-]. destruct (Hres a eq_refl) as (acc & rej & w3 & outgoing & Eup & Hacc & _ & Henv & Hpage & Hout & Hnext).
  exists input, decoded. split_and!; try done. unfold sync_result. rewrite Eu.
  apply upload_all_inv in Eup as [_ Hup]; [|done..]. destruct (Hup _ _ eq_refl) as [Hup1 Hup2]. rewrite Hacc. split_and!.
  - intros seq (e & He & Hs & r & Hr & Hh)%Hup1. exists e. split_and!; try done. exists r. split; [|done].
    unfold find_row in *. by rewrite Henv.
  - done.
  - exists outgoing. split_and!; done.
Qed.
End handlers.
