(* ===== verification/ServerProps.v ===== *)
(** * Properties of the relay

    The relay as a transition system: any request, under any clock, any
    randomness and any pattern of failing statements.  Every handler writes in
    one statement or one transaction, so requests one after the other cover the
    interleavings; a request may also act on an authentication that was checked
    against an earlier database ([known]). *)

From S2P Require Import Prelude Encoding Sha256 Unicode Crypto Envelope Server ServerFacts.

Definition empty_db : ServerDB := mkServerDB ∅ ∅ ∅ ∅ [] 0.

Section relay.
Context `{P : Primitives} `{U : UnicodeTables} `{CH : Codec Header}.

Inductive server_step : ServerDB -> ServerDB -> Prop :=
  | st_route (SE : ServerEnv) (SJ : ServerJson) request w r w' :
      route request w = (r, w') -> server_step (sdb w) (sdb w')
  | st_createPairing (SE : ServerEnv) identity w r w' :
      known (sdb w) identity -> createPairing identity w = (r, w') -> server_step (sdb w) (sdb w')
  | st_approvePairing (SE : ServerEnv) identity id body w r w' :
      known (sdb w) identity -> approvePairing identity id body w = (r, w') -> server_step (sdb w) (sdb w')
  | st_syncEnvelopes (SE : ServerEnv) identity body w r w' :
      known (sdb w) identity -> syncEnvelopes identity body w = (r, w') -> server_step (sdb w) (sdb w')
  | st_revokeDevice (SE : ServerEnv) identity id w r w' :
      known (sdb w) identity -> revokeDevice identity id w = (r, w') -> server_step (sdb w) (sdb w')
  | st_putKeyring (SE : ServerEnv) identity body w r w' :
      known (sdb w) identity -> putKeyring identity body w = (r, w') -> server_step (sdb w) (sdb w').

Definition reachable (d : ServerDB) : Prop := rtc server_step empty_db d.

(** ** Steps are writes *)

(** A computation that only writes, from a sound database. *)
Definition writing {A} (m : H A) : Prop :=
  forall w r w', server_ok (sdb w) -> m w = (r, w') -> rtc write (sdb w) (sdb w').

Section steps.
Context `{SE : ServerEnv}.

Lemma pres_writing {A} (m : H A) : pres (rtc write) m anything -> writing m.
Proof. intros H w r w' _ E. by destruct (H _ _ _ E). Qed.

Lemma reply_writing {A} st f (m : H A) : writing m -> writing (reply st f m).
Proof. intros Hm w r w' Hok [(a & w1 & E & [= _ <-])|(e & E & _)]%hbind_inv; by eapply Hm. Qed.

Lemma requireAuth_writing {A} (next : deviceIdentity -> H A) header :
  (forall identity w r w', server_ok (sdb w) -> known (sdb w) identity -> next identity w = (r, w') ->
     rtc write (sdb w) (sdb w')) -> writing (requireAuth next header).
Proof.
  intros Hn w r w' Hok [(identity & w1 & E & H)|(e & E & _)]%hbind_inv; apply authenticate_known in E as [Hd Hk].
  - rewrite <- Hd in Hok |- *. eapply Hn; eauto.
  - by rewrite Hd.
Qed.

Lemma quiet_writing {A} (m : H A) : pres eq m anything -> writing m.
Proof. intros Hm w r w' _ E. destruct (Hm _ _ _ E) as [-> _]. done. Qed.

Lemma getPairing_quiet identity id : pres eq (getPairing identity id) anything.
Proof. unfold getPairing. do 4 pres_step. Qed.

Lemma listDevices_quiet identity : pres eq (listDevices identity) anything.
Proof. unfold listDevices. do 3 pres_step. Qed.

Lemma getKeyring_quiet identity : pres eq (getKeyring identity) anything.
Proof. unfold getKeyring. do 3 pres_step. Qed.

Lemma notFound_writing : writing notFound.
Proof. by intros w r w' _ [= _ <-]. Qed.

(** An authenticated handler, from what its body writes. *)
Ltac authenticated :=
  apply requireAuth_writing; intros identity w r w' Hok Hk; apply reply_writing; [|done].

Context `{SJ : ServerJson}.

Lemma routePairing_writing request path : writing (routePairing request path).
Proof.
  unfold routePairing. repeat (case_match; [|]); try apply notFound_writing.
  - authenticated. apply quiet_writing, getPairing_quiet.
  - apply reply_writing, pres_writing, joinPairing_writes.
  - authenticated. apply pres_writing, approvePairing_writes.
  - apply reply_writing. intros w r w'. apply claimPairing_writes.
Qed.

Lemma route_writing request : writing (route request).
Proof.
  unfold route. set (path := if bool_decide (_ = []) then _ else _). clearbody path. cbv zeta.
  repeat (case_match; [|]); try apply notFound_writing; try apply routePairing_writing.
  - intros w r w' _. unfold health. destruct (statement_fails _); by intros [= _ <-].
  - apply reply_writing, pres_writing, createAccount_writes.
  - apply reply_writing, pres_writing, recoverAccount_writes.
  - authenticated. apply pres_writing, createPairing_writes.
  - apply requireAuth_writing. intros identity w r w' Hok Hk [(a & w1 & E & [= _ <-])|(e & E & _)]%hbind_inv;
      by apply syncEnvelopes_inv in E as [? _].
  - authenticated. apply quiet_writing, listDevices_quiet.
  - authenticated. apply pres_writing, revokeDevice_writes.
  - authenticated. apply quiet_writing, getKeyring_quiet.
  - authenticated. apply pres_writing, putKeyring_writes.
Qed.
End steps.

Lemma step_writes d d' : server_ok d -> server_step d d' -> rtc write d d'.
Proof.
  intros Hok Hs. revert Hok. destruct Hs as [SE SJ req w r w' E|SE id w r w' Hk E|SE id pid b w r w' Hk E|SE id b w r w' Hk E
    |SE id did w r w' Hk E|SE id b w r w' Hk E]; intros Hok.
  - by eapply route_writing.
  - by eapply pres_writing, E; [apply createPairing_writes|].
  - by eapply pres_writing, E; [apply approvePairing_writes|].
  - by apply syncEnvelopes_inv in E as [? _].
  - by eapply pres_writing, E; [apply revokeDevice_writes|].
  - by eapply pres_writing, E; [apply putKeyring_writes|].
Qed.

Lemma steps_writes d d' : server_ok d -> rtc server_step d d' -> rtc write d d'.
Proof.
  intros Hok H. revert Hok. induction H as [|d1 d2 d3 H12 _ IH]; [done|]. intros Hok.
  pose proof (step_writes _ _ Hok H12) as Hw. etrans; [done|]. by eapply IH, writes_ok.
Qed.

Lemma empty_ok : server_ok empty_db.
Proof.
  split; try done; cbn; try by constructor.
  all: intros *; rewrite ?lookup_empty; try done.
Qed.

Lemma reachable_ok d : reachable d -> server_ok d.
Proof. intros H. eapply writes_ok, steps_writes, H; apply empty_ok. Qed.

Lemma steps_extend d d' : reachable d -> rtc server_step d d' -> extends d d'.
Proof. intros Hd H. by apply writes_extend, steps_writes; [apply reachable_ok|]. Qed.

(** ** Pulling pages *)

Lemma rows_after_later account c c' d :
  c <= c' -> rows_after account c' d = List.filter (fun r => cursor r >? c') (rows_after account c d).
Proof.
  intros Hc. unfold rows_after. induction (envelopes d) as [|r l IH]; [done|]. simpl. rewrite !Z.gtb_ltb in *.
  destruct (bool_decide _) eqn:Ea; simpl; [|done]. destruct (c <? cursor r) eqn:E1; simpl.
  - rewrite Z.gtb_ltb. destruct (c' <? cursor r); by rewrite IH.
  - rewrite (proj2 (Z.ltb_ge _ _)); [done|]. bools. lia.
Qed.

Lemma filter_cursor_none (l : list EnvelopeRow) c :
  Forall (fun r => cursor r <= c) l -> List.filter (fun r => cursor r >? c) l = [].
Proof.
  induction 1 as [|r l H Hl IH]; [done|]. simpl. rewrite Z.gtb_ltb, (proj2 (Z.ltb_ge _ _)) by done. done.
Qed.

Lemma filter_cursor_all (l : list EnvelopeRow) c :
  Forall (fun r => c < cursor r) l -> List.filter (fun r => cursor r >? c) l = l.
Proof.
  induction 1 as [|r l H Hl IH]; [done|]. simpl. by rewrite Z.gtb_ltb, (proj2 (Z.ltb_lt _ _)), IH by done.
Qed.

Lemma sorted_filter (f : EnvelopeRow -> bool) l :
  StronglySorted Z.lt (map cursor l) -> StronglySorted Z.lt (map cursor (List.filter f l)).
Proof.
  induction l as [|r l IH]; [done|]. simpl. intros [Hs Hf]%StronglySorted_inv. destruct (f r); [|auto].
  simpl. constructor; [auto|]. rewrite List.Forall_forall in Hf |- *. intros x (y & <- & [Hy _]%List.filter_In)%in_map_iff.
  apply Hf. by apply in_map.
Qed.

Lemma sorted_split (taken rest : list EnvelopeRow) r :
  StronglySorted Z.lt (map cursor ((taken ++ [r]) ++ rest)) ->
  Forall (fun x => cursor x <= cursor r) (taken ++ [r]) /\ Forall (fun x => cursor r < cursor x) rest.
Proof.
  induction taken as [|x taken IH]; simpl; intros [Hs Hf]%StronglySorted_inv.
  - split; [constructor; [lia|done]|]. rewrite List.Forall_forall in Hf |- *. intros y Hy. apply Hf. by apply in_map.
  - apply IH in Hs as [H1 H2]. split; [|done]. constructor; [|done].
    rewrite List.Forall_forall in Hf. enough (cursor x < cursor r) by lia. apply Hf, in_map.
    rewrite !in_app_iff. simpl. auto.
Qed.

(** The rows after the last one of a page are the ones the page left. *)
Lemma rows_after_page account c d taken rest :
  server_ok d -> rows_after account c d = taken ++ rest -> rows_after account (page_cursor taken c) d = rest.
Proof.
  intros Hok Hr. unfold page_cursor. destruct (last taken) as [r|] eqn:El.
  2: { by apply last_None in El as ->. }
  apply last_Some in El as [taken' ->].
  assert (c <= cursor r) as Hc.
  { assert (In r (rows_after account c d)) as [_ Hin]%List.filter_In by (rewrite Hr, !in_app_iff; simpl; auto).
    rewrite Z.gtb_ltb in Hin. bools. lia. }
  pose proof (sorted_filter (fun r => bool_decide (env_account_id r = account) && (cursor r >? c)) _ (so_cursors _ Hok)) as Hs.
  change (List.filter _ _) with (rows_after account c d) in Hs. rewrite Hr in Hs. apply sorted_split in Hs as [H1 H2].
  rewrite (rows_after_later account c) by done. by rewrite Hr, List.filter_app, filter_cursor_none, filter_cursor_all.
Qed.

(** A client that pulls one page after the other. *)
Fixpoint pull (fuel : nat) (account : bytes) (limit : Z) (d : ServerDB) (from : Z) : option (list EnvelopeRow) :=
  match fuel with
  | O => None
  | S fuel =>
      match page limit (take (Z.to_nat (limit + 1)) (rows_after account from d)) [] 0 with
      | Some (outgoing, false) => Some outgoing
      | Some (outgoing, true) =>
          match pull fuel account limit d (page_cursor outgoing from) with
          | Some more => Some (outgoing ++ more)
          | None => None
          end
      | None => None
      end
  end.

Lemma page_rows_ok account from d : server_ok d -> Forall page_row_ok (rows_after account from d).
Proof.
  intros Hok. apply List.Forall_forall. intros r [Hin _]%List.filter_In.
  pose proof (so_rows _ Hok) as Hr. rewrite List.Forall_forall in Hr. destruct (Hr r Hin) as (? & ? & _). by split.
Qed.

(** One page: a prefix of what is left, within the limits, not empty when
    something is left, and everything when no more is announced. *)
Lemma page_of_rows account from limit d out more :
  1 <= limit ->
  page limit (take (Z.to_nat (limit + 1)) (rows_after account from d)) [] 0 = Some (out, more) ->
  exists rest, rows_after account from d = out ++ rest /\ (more = false <-> rest = []) /\
    len out <= limit /\ page_bytes out <= maxDownloadBytes /\ (rows_after account from d <> [] -> out <> []).
Proof.
  intros Hl. set (rows := rows_after account from d). intros (taken & rest & Hsplit & -> & Hm & Hlen & _ & Hb & Hne)%page_Some.
  cbn [app] in *. exists (rest ++ drop (Z.to_nat (limit + 1)) rows).
  rewrite app_assoc, <- Hsplit, take_drop. split; [done|].
  change (len (@nil EnvelopeRow)) with 0 in Hlen. split_and!; try lia; auto.
  - split.
    + intros ->. destruct rest as [|x rest]; [|assert (false = true) by (by apply Hm); done]. rewrite app_nil_r in Hsplit. simpl.
      apply drop_ge. assert (length (take (Z.to_nat (limit + 1)) rows) = length taken) as Hlt by congruence.
      rewrite length_take in Hlt. unfold len in Hlen. lia.
    + intros [-> _]%app_eq_nil. destruct more; [|done]. by destruct (proj1 Hm eq_refl).
  - intros Hr. apply Hne; [done..|]. destruct rows; [done|]. replace (Z.to_nat (limit + 1)) with (S (Z.to_nat limit)) by lia. done.
Qed.

Lemma pull_all account limit d fuel : forall from,
  server_ok d -> 1 <= limit -> (length (rows_after account from d) < fuel)%nat ->
  pull fuel account limit d from = Some (rows_after account from d).
Proof.
  induction fuel as [|fuel IH]; intros from Hok Hl Hf; [lia|]. cbn [pull].
  destruct (page_total limit (take (Z.to_nat (limit + 1)) (rows_after account from d)) [] 0) as [[out more] Hp].
  { apply Forall_take. by apply page_rows_ok. }
  rewrite Hp. apply page_of_rows in Hp as (rest & Hr & Hm & _ & _ & Hne); [|done]. destruct more.
  - pose proof (rows_after_page _ _ _ _ _ Hok Hr) as Hnext.
    assert (rest <> []) as Hrest by (intros ->; discriminate (proj2 Hm eq_refl)).
    assert (out <> []) as Hout by (apply Hne; rewrite Hr; by destruct out).
    rewrite IH; [by rewrite Hnext, Hr|done..|]. rewrite Hnext.
    rewrite Hr, length_app in Hf. destruct out; [done|]. simpl in Hf. lia.
  - rewrite Hr. by rewrite (proj1 Hm eq_refl), app_nil_r.
Qed.

(** ** Revocation *)

Lemma device_by_token_None d hash id v :
  server_ok d -> devices d !! id = Some v -> token_hash v = hash -> is_Some (revoked_at v) ->
  device_by_token hash d = None.
Proof.
  intros Hok Hv Ht [t Hr]. unfold device_by_token. destruct (List.filter _ _) as [|[id' v'] l] eqn:Ef; [done|].
  assert (In (id', v') (List.filter (fun entry => bool_decide (token_hash entry.2 = hash)
    && bool_decide (revoked_at entry.2 = None)) (map_to_list (devices d)))) as Hin by (rewrite Ef; by left).
  apply List.filter_In in Hin as [Hin Hc]. apply list_elem_of_In, elem_of_map_to_list in Hin. simpl in Hc. bools.
  assert (id = id') as -> by (eapply (so_tokens _ Hok); eauto; congruence). congruence.
Qed.

Lemma requireAuth_refused `{SE : ServerEnv} {A} (next : deviceIdentity -> H A) header token w :
  bearer header = Some token -> device_by_token (digest token) (sdb w) = None ->
  exists w', requireAuth next header w = (Failed (mkFailure 401 "invalid_device_token"), w') /\ sdb w' = sdb w.
Proof.
  intros Hb Hn. unfold requireAuth, authenticate. rewrite Hb. unfold hbind, require, hret, sql. rewrite Hn.
  destruct (statement_fails (ticks w)); [by exists (step w)|]. eexists. split; [reflexivity|done].
Qed.

Lemma revokeDevice_Answer `{SE : ServerEnv} identity id w u w' :
  revokeDevice identity id w = (Answer u, w') ->
  exists v, devices (sdb w') !! id = Some v /\ is_Some (revoked_at v) /\ dev_account_id v = IAccountID identity.
Proof.
  unfold revokeDevice. intros [(? & w1 & [_ ->]%refuse_inv & H)|(? & _ & [=])]%hbind_inv.
  apply hbind_inv in H as [(now & w2 & [= <- <-] & H)|(? & [=] & _)].
  apply hbind_inv in H as [(n & w3 & E & H)|(? & _ & [=])]. apply refuse_inv in H as [Hn ->]. bools. subst n.
  apply sql_inv in E as [(? & [=] & _)|(n & [= <-] & E)].
  apply revoke_Some in E as [[? _]|(v & v' & _ & Hv & Hn & Ha & Hr & ->)]; [done|].
  exists v'. cbn. rewrite lookup_insert_eq. split; [done|]. split; [by eexists|]. destruct Hn. congruence.
Qed.

(** C28: once the relay has confirmed that a device is revoked, no request that
    carries its token is let through again: in every database the relay can
    come to, whatever the handler behind the authentication, the answer is
    401 and nothing is written. *)
Theorem revoked_device_locked_out `{SE : ServerEnv} identity id w u w' :
  reachable (sdb w) -> known (sdb w) identity -> revokeDevice identity id w = (Answer u, w') ->
  exists v, devices (sdb w') !! id = Some v /\
    forall d' token header (SE' : ServerEnv) A (next : deviceIdentity -> H A) w1,
      rtc server_step (sdb w') d' -> digest token = token_hash v -> bearer header = Some token -> sdb w1 = d' ->
      exists w2, requireAuth (SE := SE') next header w1 = (Failed (mkFailure 401 "invalid_device_token"), w2) /\ sdb w2 = d'.
Proof.
  intros Hreach Hk E. pose proof E as (v & Hv & Hr & _)%revokeDevice_Answer. exists v. split; [done|].
  intros d' token header SE' A next w1 Hsteps Htok Hb Hd. rewrite <- Hd.
  assert (reachable (sdb w')) as Hreach' by (eapply rtc_r; [done|]; exact (st_revokeDevice _ _ _ _ _ _ Hk E)).
  pose proof (steps_extend _ _ Hreach' Hsteps) as He.
  destruct (ext_devices _ _ He _ _ Hv) as (v' & Hv' & Hn). rewrite <- Hd in Hv'.
  eapply requireAuth_refused; [done|]. eapply device_by_token_None; [|done| |].
  - apply reachable_ok. rewrite Hd. unfold reachable in *. by etrans.
  - destruct Hn. congruence.
  - destruct Hn. by rewrite dn_revoked.
Qed.

(** ** Pairing *)

Lemma claimed_final p p' : rtc pairing_next p p' -> state p = claimed -> state p' = claimed.
Proof.
  induction 1 as [|p1 p2 p3 H12 _ IH]; [done|]. intros H. destruct H12 as (_ & _ & _ & _ & [[? _]|[[? _]|[? _]]]); congruence.
Qed.

Lemma claimPairing_refused `{SE : ServerEnv} id body w r w' p :
  pairings (sdb w) !! id = Some p -> state p = claimed -> claimPairing id body w = (r, w') ->
  (exists e, r = Failed e) /\ sdb w' = sdb w.
Proof.
  intros Hp Hs. unfold claimPairing. destruct body as [secret|]; [|intros [= <- <-]; by eauto].
  intros [(e & -> & ->)|(a & w1 & w2 & -> & Hd & H & ->)]%in_tx_inv; [by eauto|exfalso].
  apply hbind_inv in H as [(o & w3 & E & H)|(e & _ & [=])].
  apply sql_inv in E as [(e & [=] & _)|(o' & [= <-] & [= <- _])]. rewrite Hd, Hp, Hs in H. done.
Qed.

Lemma claimPairing_Answer `{SE : ServerEnv} id body w c w' :
  claimPairing id body w = (Answer c, w') ->
  exists secret p p' v, body = Some secret /\ pairings (sdb w) !! id = Some p /\ state p = approved /\
    secret_hash p = digest secret /\ pairings (sdb w') !! id = Some p' /\ state p' = claimed /\
    c_device_id (cl_credentials c) = new_device_id p /\ devices (sdb w) !! new_device_id p = None /\
    devices (sdb w') !! new_device_id p = Some v /\ dev_account_id v = pair_account_id p /\
    dev_ed25519 v = pending_ed25519 p /\ dev_x25519 v = pending_x25519 p /\
    token_hash v = digest (c_device_token (cl_credentials c)) /\ revoked_at v = None.
Proof.
  unfold claimPairing. destruct body as [secret|]; [|done].
  intros [(e & [=] & _)|(a & w1 & w2 & [= <-] & Hd & H & ->)]%in_tx_inv. rewrite <- Hd. clear w Hd.
  apply hbind_inv in H as [(o & w3 & E & H)|(e & _ & [=])].
  apply sql_inv in E as [(e & [=] & _)|(o' & [= <-] & [= <- Hd])]. rewrite Hd in *. clear w1 Hd.
  destruct (pairings (sdb w3) !! id) as [p|] eqn:Ep; [|done]. case_bool_decide as Hst; [|done].
  apply hbind_inv in H as [(? & ? & [[= <-] ->]%require_inv & H)|(? & [=] & _)].
  apply hbind_inv in H as [(now & w4 & [= <- <-] & H)|(? & [=] & _)].
  apply hbind_inv in H as [(? & ? & [Hc ->]%refuse_inv & H)|(? & _ & [=])]. bools.
  apply hbind_inv in H as [(token & w5 & E5 & H)|(? & _ & [=])].
  apply (pres_randomSecret eq 32) in E5 as [E5 _]; [|lia]. cbn [sdb step] in E5.
  apply hbind_inv in H as [(now & w6 & [= <- <-] & H)|(? & [=] & _)].
  apply hbind_inv in H as [([] & w7 & E7 & H)|(? & _ & [=])].
  apply sql_inv in E7 as [(e & [=] & _)|([] & _ & E7)]. cbn [sdb step] in E7. rewrite <- E5 in E7.
  apply insert_device_Some in E7 as (Hnew & _ & _ & _ & Hd7).
  apply hbind_inv in H as [(now & w8 & [= <- <-] & H)|(? & [=] & _)].
  apply hbind_inv in H as [(n & w9 & E9 & H)|(? & _ & [=])]. injection H as <- <-.
  apply sql_inv in E9 as [(e & [=] & _)|(n' & _ & E9)]. cbn [sdb step] in E9. unfold update_pairing in E9.
  rewrite Hd7 in E9. cbn [pairings with_devices] in E9. rewrite Ep, bool_decide_true in E9 by done.
  destruct (keyring_check _); [|done]. injection E9 as _ <-. cbn [pairings devices with_pairings with_devices].
  eexists secret, p, _, _. rewrite !lookup_insert_eq. by split_and!.
Qed.

(** C29: a pairing is claimed at most once.  A successful claim means that the
    pairing was approved and the secret was the one it was created with; it
    registers exactly the keys the joining device presented, under the
    approved device identifier; and in every database the relay can come to
    afterwards, another claim of the pairing fails and writes nothing. *)
Theorem pairing_claimed_once `{SE : ServerEnv} id secret w c w' :
  reachable (sdb w) -> claimPairing id (Some secret) w = (Answer c, w') ->
  (exists p v, pairings (sdb w) !! id = Some p /\ state p = approved /\ secret_hash p = digest secret /\
     devices (sdb w) !! new_device_id p = None /\ devices (sdb w') !! new_device_id p = Some v /\
     dev_account_id v = pair_account_id p /\ dev_ed25519 v = pending_ed25519 p /\ dev_x25519 v = pending_x25519 p /\
     token_hash v = digest (c_device_token (cl_credentials c))) /\
  forall (SE' : ServerEnv) body w1 r w2,
    rtc server_step (sdb w') (sdb w1) -> claimPairing (SE := SE') id body w1 = (r, w2) ->
    (exists e, r = Failed e) /\ sdb w2 = sdb w1.
Proof.
  intros Hreach E. pose proof E as (secret' & p & p' & v & [= <-] & Hp & Hs & Hsec & Hp' & Hs' & _ & Hnone & Hv & Ha & Hed
    & Hx & Ht & _)%claimPairing_Answer. split; [by exists p, v|].
  intros SE' body w1 r w2 Hsteps E1. apply reachable_ok in Hreach.
  assert (extends (sdb w') (sdb w1)) as He.
  { apply writes_extend, steps_writes; [|done]. eapply writes_ok; [done|]. exact (claimPairing_writes (SE := SE) _ _ _ _ _ Hreach E). }
  destruct (ext_pairings _ _ He _ _ Hp') as (p2 & Hp2 & Hn).
  eapply claimPairing_refused; [done| |done]. by eapply claimed_final.
Qed.

(** C3: the relay's database stays sound under every sequence of requests and
    failures.  The envelopes of each device form a chain without gaps in which
    every record names the hash of its predecessor; cursors increase; tokens
    are unique; and every stored envelope, as it is handed out, decodes on the
    client, hashes to the stored hash and verifies under the key its device
    registered. *)
Theorem relay_invariant d : reachable d -> server_ok d.
Proof. apply reachable_ok. Qed.

(** C9: the relay never forgets or rewrites: along every run the accounts and
    keyrings of a database are kept unchanged, its envelopes stay a prefix of
    the later ones, device keys and tokens never change, acknowledged cursors
    do not go back, a revocation is never undone, and pairings only move
    forward. *)
Theorem relay_append_only d d' : reachable d -> rtc server_step d d' -> extends d d'.
Proof. apply steps_extend. Qed.

(** C12: a sync request that is sent again, after any number of other requests,
    is accepted for at least the sequence numbers it was accepted for the first
    time, and each of them is stored with the hash of the uploaded record. *)
Theorem sync_retry_accepted `{SE : ServerEnv} identity body w a w' :
  reachable (sdb w) -> known (sdb w) identity -> syncEnvelopes identity body w = (Answer a, w') ->
  exists input decoded, body = Some input /\
    (forall w1, validate_all identity (i_envelopes input) w1 = (Answer decoded, w1)) /\
    (forall seq, In seq (accepted_sequences a) ->
       exists e, In e decoded /\ d_seq e = seq /\ has_record identity e (sdb w')) /\
    forall (SE' : ServerEnv) w1 a' w2, rtc server_step (sdb w') (sdb w1) ->
      syncEnvelopes (SE := SE') identity body w1 = (Answer a', w2) ->
      forall seq, In seq (accepted_sequences a) -> In seq (accepted_sequences a').
Proof.
  intros Hreach Hk E. assert (reachable (sdb w')) as Hreach'
    by (eapply rtc_r; [done|]; exact (st_syncEnvelopes _ _ _ _ _ _ Hk E)).
  pose proof (reachable_ok _ Hreach) as Hok.
  apply syncEnvelopes_inv in E as [Hw Hres]; [|done..].
  destruct (Hres a eq_refl) as (input & decoded & -> & _ & _ & Hval & Hacc & _ & _).
  exists input, decoded. split_and!; [done..| |].
  - intros seq (e & He & Hs & Hr)%Hacc. exists e. split; [by apply unique_batch_in|done].
  - intros SE' w1 a' w2 Hsteps E' seq (e & He & <- & Hr)%Hacc.
    pose proof (steps_extend _ _ Hreach' Hsteps) as He1.
    apply syncEnvelopes_inv in E' as [_ Hres']; [| |].
    + destruct (Hres' a' eq_refl) as (input' & decoded' & [= <-] & _ & _ & Hval' & _ & Hagain & _).
      pose proof (Hval' w1) as Hv'. rewrite Hval in Hv'. injection Hv' as <-.
      apply Hagain; [done|]. by eapply has_record_extends.
    + apply reachable_ok. unfold reachable in *. by etrans.
    + eapply known_extends; [done|]. eapply known_extends; [by apply writes_extend|done].
Qed.

(** What a sync answer delivers is a prefix of the account's envelopes after
    the client's cursor, in cursor order, at most the limit and at most
    [maxDownloadBytes] of ciphertext; it is not empty when something is left,
    it is everything exactly when no more is announced, and the next cursor is
    the point where the rest begins. *)
Theorem sync_answer_page `{SE : ServerEnv} identity body w a w' :
  reachable (sdb w) -> known (sdb w) identity -> syncEnvelopes identity body w = (Answer a, w') ->
  exists input outgoing rest, body = Some input /\
    rows_after (IAccountID identity) (i_cursor input) (sdb w') = outgoing ++ rest /\
    a_envelopes a = map row_wire outgoing /\
    (has_more a = false <-> rest = []) /\ (outgoing = [] -> rest = []) /\
    len outgoing <= maximumSyncLimit /\ page_bytes outgoing <= maxDownloadBytes /\
    rows_after (IAccountID identity) (next_cursor a) (sdb w') = rest.
Proof.
  intros Hreach Hk E. apply reachable_ok in Hreach as Hok. apply syncEnvelopes_inv in E as [Hw Hres]; [|done..].
  destruct (Hres a eq_refl) as (input & decoded & -> & Hl & _ & _ & _ & _ & outgoing & Hp & Hout & Hnext).
  apply page_of_rows in Hp as (rest & Hr & Hm & Hlen & Hb & Hne); [|lia]. exists input, outgoing, rest.
  split_and!; try done; [|lia|].
  - intros ->. cbn in Hr. destruct rest; [done|]. by destruct Hne; rewrite ?Hr.
  - rewrite Hnext. apply rows_after_page; [by eapply writes_ok|done].
Qed.

(** C27: pulling page after page from any cursor ends, after at most one page
    more than there are envelopes, with every envelope of the account after
    that cursor exactly once and in order. *)
Theorem pull_delivers_everything account limit d from fuel :
  reachable d -> 1 <= limit -> (length (rows_after account from d) < fuel)%nat ->
  pull fuel account limit d from = Some (rows_after account from d).
Proof. intros Hd. by apply pull_all, reachable_ok. Qed.

(** ** The relay and the client agree *)

Lemma hbind_Answer {A B} (m : H A) (f : A -> H B) w a w1 : m w = (Answer a, w1) -> hbind m f w = f a w1.
Proof. unfold hbind. by intros ->. Qed.

Lemma refuse_pass b st c w : b = false -> refuse_if b st c w = (Answer tt, w).
Proof. by intros ->. Qed.

Lemma require_pass {A} (o : option A) a st c w : o = Some a -> require o st c w = (Answer a, w).
Proof. by intros ->. Qed.

Lemma decodeSized_encode b lo hi : lo <= len b <= hi -> decodeSized (Base64.EncodeToString b) lo hi = Some b.
Proof.
  intros H. unfold decodeSized. rewrite base64_decode_encode, Z.gtb_ltb, !(proj2 (Z.ltb_ge _ _)) by lia. done.
Qed.

Lemma CanonicalHeader_encoded account device wire previous nonce object header :
  len account = 16 -> len device = 16 -> len object = 16 -> (previous = [] \/ len previous = 32) -> len nonce = 24 ->
  WObjectID wire = Hex.EncodeToString object ->
  canonicalHeader (mkHeader (WVersion wire) account object (WKeyEpoch wire) device (WDeviceSeq wire) previous nonce)
    = Ok header ->
  CanonicalHeader (Hex.EncodeToString account) (Hex.EncodeToString device) wire previous nonce = Some header.
Proof.
  intros Ha Hd Ho Hp Hn Hw Hm. unfold CanonicalHeader. rewrite Hw, !decode_hex_id by done.
  assert (negb (len previous =? 0) && negb (len previous =? Size) = false) as -> by (by destruct Hp as [->| ->]).
  rewrite Hn. cbn [negb Z.eqb Pos.eqb]. unfold canonicalHeader in Hm. by rewrite Hm.
Qed.

(** The relay's validation of the wire form of a client's envelope. *)
Lemma validateEnvelope_client identity env wire header w :
  IAccountID identity = Hex.EncodeToString (AccountID (EHeader env)) ->
  ID identity = Hex.EncodeToString (DeviceID (EHeader env)) ->
  ToWire env = Ok wire -> canonicalHeader (EHeader env) = Ok header ->
  ed25519_Verify (Ed25519Key identity) (header ++ Ciphertext env) (Signature env) = true ->
  exists e, validateEnvelope identity wire w = (Answer e, w) /\
    uploaded (AccountID (EHeader env)) (DeviceID (EHeader env)) e = env /\ EnvelopeHash env = Ok (d_recordHash e).
Proof.
  intros Ha Hd (Hh & Hb & ->)%ToWire_Ok Hc Hv.
  pose proof Hh as (Hver & Hla & Hlo & Hld & Hep & Hseq & Hprev & Hn). pose proof Hb as (Hs & k & Hk & Hlen).
  set (wire := mkWire _ _ _ _ _ _ _ _ _ _).
  exists (mkDecoded wire (HObjectID (EHeader env)) (PreviousHash (EHeader env)) (Nonce (EHeader env)) (Ciphertext env)
            (Signature env) (Sum256 ((header ++ Ciphertext env) ++ Signature env))).
  split_and!.
  - unfold validateEnvelope.
    rewrite (hbind_Answer _ _ w tt w); [|apply refuse_pass; unfold wire; cbn; rewrite Hver, !Z.gtb_ltb, !(proj2 (Z.ltb_ge _ _)) by lia; done].
    rewrite (hbind_Answer _ _ w (HObjectID (EHeader env)) w); [|by apply require_pass, decode_hex_id].
    rewrite (hbind_Answer _ _ w (PreviousHash (EHeader env)) w).
    2: { case_bool_decide as E; cbn in E.
         - destruct (decide (PreviousHash (EHeader env) = [])) as [->|Hne]; [done|]. by apply base64_encode_nonempty in Hne.
         - destruct Hprev as [Hp|Hp]; [by rewrite Hp in E|]. apply require_pass, decodeSized_encode. unfold Size. lia. }
    rewrite (hbind_Answer _ _ w (Nonce (EHeader env)) w); [|apply require_pass, decodeSized_encode; lia].
    rewrite (hbind_Answer _ _ w (Ciphertext env) w); [|apply require_pass, decodeSized_encode; unfold PaddingBucket, maxCiphertext; lia].
    rewrite (hbind_Answer _ _ w tt w); [|apply refuse_pass; rewrite Hlen; replace (512 * k + 16 - 16) with (k * PaddingBucket) by (unfold PaddingBucket; lia); by rewrite Z.mod_mul].
    rewrite (hbind_Answer _ _ w (Signature env) w); [|apply require_pass, decodeSized_encode; lia].
    rewrite (hbind_Answer _ _ w header w).
    2: { rewrite Ha, Hd. eapply require_pass, (CanonicalHeader_encoded _ _ _ _ _ (HObjectID (EHeader env))); try done. destruct env as [[] ? ?]; exact Hc. }
    cbv zeta. rewrite (hbind_Answer _ _ w tt w); [done|]. apply refuse_pass. by rewrite Hv.
  - destruct env as [[] ? ?]. unfold uploaded, wire. cbn in *. done.
  - unfold EnvelopeHash. rewrite (proj2 (validateHeader_Ok _) Hh), (proj2 (validateEnvelopeBody_Ok _ _) Hb). cbn [rbind].
    rewrite Hc. cbn [rbind d_recordHash]. by rewrite <- app_assoc.
Qed.

(** The relay accepts what a client sends.  The wire form of a valid
    envelope of the authenticated device, signed with the device's key, passes
    the relay's validation; the relay reads from it the same envelope and
    computes the hash the client computes. *)
Theorem relay_accepts_client_envelope identity env wire header w :
  IAccountID identity = Hex.EncodeToString (AccountID (EHeader env)) ->
  ID identity = Hex.EncodeToString (DeviceID (EHeader env)) ->
  ToWire env = Ok wire -> canonicalHeader (EHeader env) = Ok header ->
  ed25519_Verify (Ed25519Key identity) (header ++ Ciphertext env) (Signature env) = true ->
  exists e, validateEnvelope identity wire w = (Answer e, w) /\
    uploaded (AccountID (EHeader env)) (DeviceID (EHeader env)) e = env /\ EnvelopeHash env = Ok (d_recordHash e).
Proof. apply validateEnvelope_client. Qed.
End relay.

(** ** Rate limiting *)

Section limiter.
Variable ip : bytes.

(** The limiter after a sequence of requests, each an address and a time. *)
Definition after_requests (l : ipLimiter) (calls : list (bytes * Z)) : ipLimiter :=
  fold_left (fun l call => (allow l call.1 call.2).2) calls l.

(** How many requests of [ip] are let through. *)
Fixpoint admitted (l : ipLimiter) (calls : list (bytes * Z)) : Z :=
  match calls with
  | [] => 0
  | call :: rest =>
      (if bool_decide (call.1 = ip) && (allow l call.1 call.2).1 then 1 else 0)
      + admitted (allow l call.1 call.2).2 rest
  end.

(** What the entries of a limiter satisfy when time has reached [now]. *)
Definition entries_ok (l : ipLimiter) (now : Z) : Prop :=
  forall k e, entries l !! k = Some e -> 1 <= rcount e /\ exists s, rstart e = Some s /\ s <= now.

(** The entries after the sweep. *)
Definition swept (l : ipLimiter) (now : Z) : gmap bytes rateEntry :=
  if match lastSweep l with None => true | Some t => outside (window l) now t end
  then base.filter (fun kv => entry_outside (window l) now kv.2 = false) (entries l) else entries l.

Definition current (l : ipLimiter) (now : Z) (k : bytes) : rateEntry := default (mkRate None 0) (swept l now !! k).

Lemma allow_eq l k now :
  allow l k now =
    let l' e := mkLimiter (<[k := e]> (swept l now)) (limit l) (window l)
                  (if match lastSweep l with None => true | Some t => outside (window l) now t end
                   then Some now else lastSweep l) in
    if entry_outside (window l) now (current l now k) then (true, l' (mkRate (Some now) 1))
    else (rcount (current l now k) + 1 <=? limit l, l' (mkRate (rstart (current l now k)) (rcount (current l now k) + 1))).
Proof. reflexivity. Qed.

(** A sweep removes the entry or leaves it; it removes only entries outside the window. *)
Lemma swept_entry l now k :
  swept l now !! k = entries l !! k \/
  exists e, entries l !! k = Some e /\ entry_outside (window l) now e = true /\ swept l now !! k = None.
Proof.
  unfold swept. destruct (match lastSweep l with None => _ | Some t => _ end); [|by left].
  destruct (entries l !! k) as [e|] eqn:E.
  - destruct (entry_outside (window l) now e) eqn:Eo.
    + right. exists e. split_and!; try done. apply map_lookup_filter_None. right. intros x Hx. cbn. by simplify_eq; rewrite Eo.
    + left. by apply map_lookup_filter_Some.
  - left. apply map_lookup_filter_None. by left.
Qed.

(** What is still to be let through in the interval that starts at [t0]. *)
Definition budget (l : ipLimiter) (t0 : Z) (o : option rateEntry) : Z :=
  match o with
  | Some (mkRate (Some s) n) =>
      if t0 <=? s then Z.max 0 (limit l - n) else limit l + Z.max 0 (limit l - n)
  | _ => limit l
  end.

Lemma allow_limits l k now : limit (allow l k now).2 = limit l /\ window (allow l k now).2 = window l.
Proof. rewrite allow_eq. cbv zeta. by destruct (entry_outside _ _ _). Qed.

Lemma allow_entries_ok l k now0 now : now0 <= now -> entries_ok l now0 -> entries_ok (allow l k now).2 now.
Proof.
  intros Hn Hok. assert (forall k0 e, swept l now !! k0 = Some e -> 1 <= rcount e /\ exists s, rstart e = Some s /\ s <= now) as Hs.
  { intros k0 e He. destruct (swept_entry l now k0) as [E|(e' & _ & _ & E)]; rewrite E in He; [|done].
    destruct (Hok _ _ He) as (? & s & ? & ?). split; [done|]. exists s. split; [done|lia]. }
  intros k0 e. rewrite allow_eq. cbv zeta.
  destruct (entry_outside _ _ _) eqn:Eo; cbn; rewrite lookup_insert_Some; intros [[<- <-]|[_ He]]; try by eauto.
  - cbn. split; [lia|]. exists now. split; [done|lia].
  - cbn. unfold current in *. destruct (swept l now !! k) as [e0|] eqn:E; [|done].
    destruct (Hs _ _ E) as (? & ?). cbn. split; [lia|done].
Qed.

Lemma swept_budget l t0 now :
  t0 <= now < t0 + window l -> 1 <= limit l -> entries_ok l now ->
  budget l t0 (swept l now !! ip) <= budget l t0 (entries l !! ip).
Proof.
  intros Ht Hl Hok. destruct (swept_entry l now ip) as [->|(e & He & Ho & ->)]; [lia|]. rewrite He.
  destruct (Hok _ _ He) as (_ & s & Hs & Hle). destruct e as [o n]. cbn in Hs. subst o. cbn.
  unfold entry_outside, outside in Ho. cbn in Ho. apply orb_true_iff in Ho as [Ho|Ho]; bools; [lia|].
  rewrite (proj2 (Z.leb_gt _ _)) by lia. lia.
Qed.

(** One request in the interval: the budget pays for what is let through. *)
Lemma allow_budget l k t0 now :
  t0 <= now < t0 + window l -> 1 <= limit l -> entries_ok l now ->
  (if bool_decide (k = ip) && (allow l k now).1 then 1 else 0)
    + budget l t0 (entries (allow l k now).2 !! ip) <= budget l t0 (entries l !! ip).
Proof.
  intros Ht Hl Hok. pose proof (swept_budget _ _ _ Ht Hl Hok) as Hb. rewrite allow_eq. cbv zeta.
  destruct (bool_decide (k = ip)) eqn:Ek; bools.
  2: { destruct (entry_outside _ _ _); cbn [fst snd andb entries]; rewrite lookup_insert_ne by done; lia. }
  subst k. unfold current. destruct (swept_entry l now ip) as [E|(e & He & Ho & E)].
  2: { rewrite E in *. cbn in *. rewrite lookup_insert_eq. cbn. rewrite (proj2 (Z.leb_le _ _)) by lia. lia. }
  rewrite E in *. destruct (entries l !! ip) as [e|] eqn:He; cbn [default].
  2: { cbn in *. rewrite lookup_insert_eq. cbn. rewrite (proj2 (Z.leb_le _ _)) by lia. lia. }
  destruct (Hok _ _ He) as (Hn & s & Hs & Hle). destruct e as [o n]. cbn in Hs, Hn. subst o.
  unfold id. cbn [entry_outside rstart rcount]. unfold outside. rewrite (proj2 (Z.ltb_ge now s)) by lia. cbn [orb].
  destruct (window l <=? now - s) eqn:Ew; cbn [fst snd entries andb]; rewrite lookup_insert_eq; cbn [budget]; bools.
  - rewrite (proj2 (Z.leb_le t0 now)), (proj2 (Z.leb_gt t0 s)) by lia. lia.
  - destruct (n + 1 <=? limit l) eqn:En; bools; destruct (t0 <=? s); lia.
Qed.

Lemma admitted_budget t0 calls : forall l now0,
  1 <= limit l -> entries_ok l now0 -> StronglySorted Z.le (now0 :: map snd calls) ->
  Forall (fun call => t0 <= call.2 < t0 + window l) calls -> admitted l calls <= budget l t0 (entries l !! ip).
Proof.
  induction calls as [|[k now] calls IH]; intros l now0 Hl Hok Hs Ht; cbn [admitted fst snd].
  - unfold budget. repeat case_match; lia.
  - apply Forall_cons in Ht as [Ht1 Ht]. cbn in Ht1, Hs. apply StronglySorted_inv in Hs as [Hs Hle].
    apply Forall_cons in Hle as [Hle _].
    assert (entries_ok l now) as Hok'.
    { intros k0 e He. destruct (Hok _ _ He) as (? & s & ? & ?). split; [done|]. exists s. split; [done|lia]. }
    pose proof (allow_budget l k t0 now Ht1 Hl Hok') as Hb. destruct (allow_limits l k now) as [HL HW].
    specialize (IH (allow l k now).2 now). rewrite HL, HW in IH.
    specialize (IH Hl (allow_entries_ok _ _ _ _ Hle Hok) Hs Ht). unfold budget in *. rewrite HL in IH. lia.
Qed.

Lemma after_requests_ok calls : forall l now0,
  entries_ok l now0 -> StronglySorted Z.le (now0 :: map snd calls) ->
  limit (after_requests l calls) = limit l /\ window (after_requests l calls) = window l /\
  entries_ok (after_requests l calls) (default now0 (last (map snd calls))).
Proof.
  induction calls as [|[k now] calls IH]; intros l now0 Hok Hs; [done|]. cbn in Hs.
  apply StronglySorted_inv in Hs as [Hs Hle]. apply Forall_cons in Hle as [Hle _].
  destruct (allow_limits l k now) as [HL HW]. destruct (IH (allow l k now).2 now) as (H1 & H2 & H3); [|done|].
  { by eapply allow_entries_ok. }
  change (after_requests l ((k, now) :: calls)) with (after_requests (allow l k now).2 calls).
  rewrite HL in H1. rewrite HW in H2. split_and!; try done.
  destruct calls as [|c calls]; [done|]. cbn [map] in *.
  change (last (snd (k, now) :: snd c :: map snd calls)) with (last (snd c :: map snd calls)).
  destruct (last (snd c :: map snd calls)) eqn:E; [done|]. by apply last_None in E.
Qed.

End limiter.

Lemma sorted_bottom l : StronglySorted Z.le l -> exists b, StronglySorted Z.le (b :: l).
Proof.
  destruct l as [|x l]; [exists 0; by repeat constructor|]. intros H. exists x. constructor; [done|].
  apply StronglySorted_inv in H as [_ H]. constructor; [lia|done].
Qed.

Lemma sorted_suffix l1 l2 : forall b, StronglySorted Z.le (b :: l1 ++ l2) -> StronglySorted Z.le (default b (last l1) :: l2).
Proof.
  induction l1 as [|x l1 IH]; intros b H; [done|]. apply StronglySorted_inv in H as [H _]. specialize (IH x H).
  destruct l1 as [|y l1]; [done|]. change (last (x :: y :: l1)) with (last (y :: l1)).
  destruct (last (y :: l1)) eqn:E; [done|]. by apply last_None in E.
Qed.

Lemma budget_bound ip l now t0 : 1 <= limit l -> entries_ok l now -> budget l t0 (entries l !! ip) <= 2 * limit l.
Proof.
  intros Hl Hok. destruct (entries l !! ip) as [[[s|] n]|] eqn:E; cbn; [|lia..].
  destruct (Hok _ _ E) as [Hn _]. cbn in Hn. destruct (t0 <=? s); lia.
Qed.

(** However requests arrive, and whatever other addresses do, no address gets
    more than twice the limit of requests through in any interval of one
    window, provided the clock does not run backwards. *)
Theorem rate_limit_bound ip earlier calls t0 :
  StronglySorted Z.le (map snd (earlier ++ calls)) ->
  Forall (fun call => t0 <= call.2 < t0 + rateWindow) calls ->
  admitted ip (after_requests newLimiter earlier) calls <= 2 * requestsPerWindow.
Proof.
  rewrite map_app. intros [b Hs]%sorted_bottom Ht.
  assert (entries_ok newLimiter b) as H0 by (intros k e; cbn; by rewrite lookup_empty).
  assert (StronglySorted Z.le (b :: map snd earlier)) as Hs1.
  { change (b :: map snd earlier ++ map snd calls) with ((b :: map snd earlier) ++ map snd calls) in Hs.
    by apply StronglySorted_app_1_l in Hs. }
  destruct (after_requests_ok earlier _ _ H0 Hs1) as (HL & HW & Hok).
  etrans; [eapply (admitted_budget ip t0); [| |by apply sorted_suffix|]|].
  - rewrite HL. done.
  - done.
  - by rewrite HW.
  - change requestsPerWindow with (limit newLimiter). rewrite <- HL. eapply budget_bound; [by rewrite HL|done].
Qed.

(** ** Reading keyrings *)

Section keyring_list.

(** The keyrings of an account in the order of their epochs. *)
Definition keyring_items (account : bytes) (d : ServerDB) : list keyring_item :=
  map (fun entry => mkRingItem entry.1.2 (Base64.EncodeToString (ring_ciphertext entry.2))
                      (writer_device_id entry.2) (ring_created_at entry.2))
    (fold_right insert_by_epoch []
       (List.filter (fun entry => bool_decide (entry.1.1 = account)) (map_to_list (keyrings d)))).

Lemma iterate_stops `{SE : ServerEnv} {A} (rows : list A) n : forall w,
  (forall t, statement_fails t = bool_decide (t = ticks w + n)%nat) ->
  exists w', iterate rows w = (Answer (take n rows), w').
Proof.
  revert n. induction rows as [|x rows IH]; intros n w Hf; cbn [iterate]; [rewrite take_nil; eauto|].
  rewrite Hf. destruct n as [|n]; [rewrite bool_decide_true by lia; eauto|].
  rewrite bool_decide_false by lia. destruct (IH n (step w)) as [w' ->].
  { intros t. rewrite Hf. cbn. by rewrite Nat.add_succ_r. }
  eauto.
Qed.

(** A keyring list that could only be read in part is answered as if it were
    complete: for every database and every number of rows there is a run in
    which the handler answers 200 with just those first rows. *)
Theorem getKeyring_truncates identity d n :
  exists (SE : ServerEnv) w',
    getKeyring (SE := SE) identity (mkServerWorld d [] 0) = (Answer (take n (keyring_items (IAccountID identity) d)), w').
Proof.
  pose (SE := {| server_now := fun _ => 0; statement_fails := fun t => bool_decide (t = 1 + n)%nat |}).
  exists SE. unfold getKeyring, select, hbind, sql. cbn [statement_fails SE ticks sdb].
  rewrite bool_decide_false by lia. cbv beta iota.
  match goal with |- context [iterate ?rows ?w] =>
    destruct (iterate_stops (SE := SE) rows n w (fun t => eq_refl)) as [w' E] end.
  exists w'. rewrite E. unfold keyring_items. by rewrite firstn_map.
Qed.
End keyring_list.

(** ** Witnesses *)

(** A relay without failures whose requests carry the bodies of one account, one
    recovered device and one pairing. *)
Definition sample_env : ServerEnv := {| server_now n := 1000 + Z.of_nat n; statement_fails _ := false |}.

Definition sample_box : bytes :=
  Base64.EncodeToString (str "YPBX" ++ Byte.x01 :: BigEndian.put 4 16 ++ replicate 40 Byte.x20).

Definition sample_secret : bytes := Base64.EncodeToString (replicate 24 Byte.x14).

Definition sample_public : bytes := ed25519_Public (@NewKeyFromSeed Sample.primitives sample_seed).

Definition sample_registration (key : bytes) : deviceRegistration :=
  mkRegistration (Base64.EncodeToString (replicate 16 Byte.x0a)) (Base64.EncodeToString key)
    (Base64.EncodeToString (replicate 32 Byte.x09)).

Definition sample_sync : sync_input := mkSyncInput 0 0 0 [sample_wire].

Definition sample_json : ServerJson := {|
  as_account _ := Some (mkAccountInput (Base64.EncodeToString (replicate 32 Byte.x08)) (sample_registration sample_public));
  as_join _ := Some (mkJoin sample_secret (sample_registration (replicate 32 Byte.x16)));
  as_keyring_box _ := Some sample_box;
  as_secret _ := Some sample_secret;
  as_sync _ := Some sample_sync;
  as_keyring _ := Some (1, sample_box)
|}.

Definition sample_account : bytes := Hex.EncodeToString (replicate 16 Byte.x01).
Definition sample_device : bytes := Hex.EncodeToString (replicate 16 Byte.x03).
Definition sample_second : bytes := Hex.EncodeToString (replicate 16 Byte.x12).
Definition sample_pairing : bytes := Hex.EncodeToString (replicate 16 Byte.x13).

Definition sample_entropy : bytes :=
  replicate 16 Byte.x01 ++ replicate 16 Byte.x03 ++ replicate 32 Byte.x04 ++
  replicate 16 Byte.x12 ++ replicate 32 Byte.x11 ++
  replicate 16 Byte.x13 ++ replicate 24 Byte.x14 ++ replicate 16 Byte.x17 ++ replicate 32 Byte.x18.

Definition sample_identity : deviceIdentity :=
  mkIdentity sample_device sample_account sample_public (replicate 32 Byte.x09) 1000.

Definition answered {A} (r : answer A) : bool := match r with Answer _ => true | Failed _ => false end.

Section witnesses.
#[local] Existing Instance Sample.primitives.
#[local] Existing Instance ascii_tables.
#[local] Existing Instance sample_env.
#[local] Existing Instance sample_json.
#[local] Instance server_header_codec : Codec Header := Sample.codec Header.

Lemma answered_run {A} (m : H A) w : answered (m w).1 = true -> exists a w', m w = (Answer a, w') /\ w' = (m w).2.
Proof. destruct (m w) as [[a|e] w']; [eauto|done]. Qed.

Definition request (method path : bytes) : Request := mkRequest method path [] [].

(** A registered account, then a second device, then a pairing up to its approval. *)
Definition world0 : ServerWorld := mkServerWorld empty_db sample_entropy 0.
Definition world1 : ServerWorld := (route (request POST (str "/v1/accounts")) world0).2.
Definition world2 : ServerWorld :=
  (route (request POST (str "/v1/accounts/" ++ sample_account ++ str "/recover")) world1).2.
Definition world3 : ServerWorld := (createPairing sample_identity world2).2.
Definition world4 : ServerWorld := (route (request PUT (str "/v1/pairings/" ++ sample_pairing)) world3).2.
Definition world5 : ServerWorld := (approvePairing sample_identity sample_pairing (Some sample_box) world4).2.

Lemma sample_known w v :
  devices (sdb w) !! sample_device = Some v ->
  bool_decide (dev_account_id v = sample_account) && bool_decide (dev_ed25519 v = sample_public) = true ->
  known (sdb w) sample_identity.
Proof. intros Hv Hc. bools. by exists v. Qed.

Ltac known_now :=
  match goal with |- known (sdb ?w) sample_identity =>
    destruct (devices (sdb w) !! sample_device) as [v|] eqn:E;
    [apply (sample_known w v E); revert E; vm_compute; intros [= <-]; reflexivity|exfalso; revert E; vm_compute; discriminate]
  end.

Lemma route_reachable w req : reachable (sdb w) -> reachable (sdb (route req w).2).
Proof. intros H. eapply rtc_r; [done|]. eapply (st_route _ _ req w). apply surjective_pairing. Qed.

Lemma route_steps w req : rtc server_step (sdb w) (sdb (route req w).2).
Proof. apply rtc_once. eapply (st_route _ _ req w). apply surjective_pairing. Qed.

Lemma world2_reachable : reachable (sdb world2).
Proof. unfold world2, world1. do 2 apply route_reachable. apply rtc_refl. Qed.

Lemma world2_known : known (sdb world2) sample_identity.
Proof. known_now. Qed.

Lemma createPairing_reachable w identity :
  reachable (sdb w) -> known (sdb w) identity -> reachable (sdb (createPairing identity w).2).
Proof. intros H Hk. eapply rtc_r; [done|]. eapply (st_createPairing _ identity w); [done|]. apply surjective_pairing. Qed.

Lemma approvePairing_reachable w identity id body :
  reachable (sdb w) -> known (sdb w) identity -> reachable (sdb (approvePairing identity id body w).2).
Proof. intros H Hk. eapply rtc_r; [done|]. eapply (st_approvePairing _ identity id body w); [done|]. apply surjective_pairing. Qed.

Lemma world4_known : known (sdb world4) sample_identity.
Proof. known_now. Qed.

Lemma world5_reachable : reachable (sdb world5).
Proof.
  apply approvePairing_reachable, world4_known. apply route_reachable.
  apply createPairing_reachable, world2_known. apply world2_reachable.
Qed.

Lemma relay_invariant_witness : linked 1 [] (rows_of sample_account sample_device (envelopes (sdb world5))) /\ server_ok (sdb world5).
Proof. pose proof (relay_invariant _ world5_reachable) as H. exact (conj (so_chains _ H _ _) H). Defined.

(** A run of the account from its second device on, every request with the token
    of the first one: an envelope and a keyring are stored and a pairing offered
    ([stocked]); the pairing is joined, approved and the second device revoked
    ([locked]); the pairing is claimed and the revocation asked for again. *)
Definition authorized (method path : bytes) : Request :=
  mkRequest method path (str "Bearer " ++ Base64.EncodeToString (replicate 32 Byte.x04)) [].

Definition serve (requests : list Request) (w : ServerWorld) : ServerWorld :=
  fold_left (fun w req => (route req w).2) requests w.

Lemma serve_steps requests : forall w, rtc server_step (sdb w) (sdb (serve requests w)).
Proof.
  induction requests as [|req requests IH]; intros w; [apply rtc_refl|]. etrans; [apply (route_steps w req)|apply IH].
Qed.

Lemma serve_reachable requests w : reachable (sdb w) -> reachable (sdb (serve requests w)).
Proof. unfold reachable. intros H. etrans; [exact H|apply serve_steps]. Qed.

Definition stocked : ServerWorld :=
  serve [authorized POST (str "/v1/sync"); authorized PUT (str "/v1/keyring"); authorized POST (str "/v1/pairings")] world2.

Definition locked : ServerWorld :=
  serve [request PUT (str "/v1/pairings/" ++ sample_pairing);
         authorized POST (str "/v1/pairings/" ++ sample_pairing ++ str "/approve");
         authorized DELETE (str "/v1/devices/" ++ sample_second)] stocked.

Definition finished : ServerWorld :=
  serve [request POST (str "/v1/pairings/" ++ sample_pairing ++ str "/claim");
         authorized DELETE (str "/v1/devices/" ++ sample_second)] locked.

(** What a reader of the tables sees of the run. *)
Definition seen (w : ServerWorld) : nat * bool * option pairing_state * option (option Z) :=
  (length (envelopes (sdb w)), bool_decide (is_Some (keyrings (sdb w) !! (sample_account, 1))),
   state <$> pairings (sdb w) !! sample_pairing, revoked_at <$> devices (sdb w) !! sample_second).

Lemma relay_append_only_witness :
  (seen world2 = (0%nat, false, None, Some None) /\
   exists t, seen stocked = (1%nat, true, Some created, Some None) /\
             seen locked = (1%nat, true, Some approved, Some (Some t)) /\
             seen finished = (1%nat, true, Some claimed, Some (Some t))) /\
  extends (sdb world2) (sdb stocked) /\ extends (sdb stocked) (sdb locked) /\ extends (sdb locked) (sdb finished).
Proof.
  split; [|split_and!].
  - split; [vm_compute; reflexivity|]. eexists. split_and!; vm_compute; reflexivity.
  - apply relay_append_only; [apply world2_reachable|apply serve_steps].
  - apply relay_append_only; [apply serve_reachable, world2_reachable|apply serve_steps].
  - apply relay_append_only; [do 2 apply serve_reachable; apply world2_reachable|apply serve_steps].
Defined.

Lemma revoked_device_locked_out_witness :
  exists w v, devices (sdb w) !! sample_second = Some v /\
    forall A (next : deviceIdentity -> H A) w1, sdb w1 = sdb w ->
      exists w2, requireAuth next (str "Bearer " ++ Base64.EncodeToString (replicate 32 Byte.x11)) w1
        = (Failed (mkFailure 401 "invalid_device_token"), w2) /\ sdb w2 = sdb w.
Proof.
  destruct (answered_run (revokeDevice sample_identity sample_second) world2) as (u & w & E & Hw); [vm_compute; reflexivity|].
  destruct (revoked_device_locked_out _ _ _ _ _ world2_reachable world2_known E) as (v & Hv & Hout).
  exists w, v. split; [done|]. intros A next w1 Hw1.
  apply (Hout (sdb w) (Base64.EncodeToString (replicate 32 Byte.x11))); [apply rtc_refl| |vm_compute; reflexivity|done].
  rewrite Hw in Hv. revert Hv. vm_compute. intros [= <-]. reflexivity.
Defined.

Lemma pairing_claimed_once_witness :
  exists c w, claimPairing sample_pairing (Some sample_secret) world5 = (Answer c, w) /\
    (exists e, (claimPairing sample_pairing (Some sample_secret) w).1 = Failed e).
Proof.
  destruct (answered_run (claimPairing sample_pairing (Some sample_secret)) world5) as (c & w & E & Hw); [vm_compute; reflexivity|].
  exists c, w. split; [exact E|].
  destruct (pairing_claimed_once _ _ _ _ _ world5_reachable E) as [_ Hagain].
  destruct (Hagain _ (Some sample_secret) w _ _ (rtc_refl _ _) (surjective_pairing _)) as [He _]. exact He.
Defined.

(** The second world with one uploaded envelope. *)
Definition world6 : ServerWorld := (syncEnvelopes sample_identity (Some sample_sync) world2).2.

Lemma syncEnvelopes_reachable w identity body :
  reachable (sdb w) -> known (sdb w) identity -> reachable (sdb (syncEnvelopes identity body w).2).
Proof. intros H Hk. eapply rtc_r; [done|]. eapply (st_syncEnvelopes _ identity body w); [done|]. apply surjective_pairing. Qed.

Lemma world6_reachable : reachable (sdb world6).
Proof. apply syncEnvelopes_reachable; [apply world2_reachable|apply world2_known]. Qed.

Lemma run_with {A} (f : A -> bool) (m : H A) w :
  match (m w).1 with Answer a => f a | Failed _ => false end = true -> exists a w', m w = (Answer a, w') /\ f a = true.
Proof. destruct (m w) as [[a|e] w']; [eauto|done]. Qed.

Lemma sample_sync_run :
  exists a w, syncEnvelopes sample_identity (Some sample_sync) world2 = (Answer a, w) /\ accepted_sequences a = [1].
Proof.
  destruct (run_with (fun a => bool_decide (accepted_sequences a = [1])) (syncEnvelopes sample_identity (Some sample_sync)) world2)
    as (a & w & E & Ha); [vm_compute; reflexivity|]. exists a, w. split; [exact E|]. by apply bool_decide_eq_true in Ha.
Qed.

Lemma sync_retry_accepted_witness :
  exists a w, syncEnvelopes sample_identity (Some sample_sync) world2 = (Answer a, w) /\
    accepted_sequences a = [1] /\
    forall a' w2, syncEnvelopes sample_identity (Some sample_sync) w = (Answer a', w2) -> In 1 (accepted_sequences a').
Proof.
  destruct sample_sync_run as (a & w & E & Ha). exists a, w. split; [exact E|]. split; [exact Ha|].
  destruct (sync_retry_accepted _ _ _ _ _ world2_reachable world2_known E) as (input & decoded & _ & _ & _ & Hagain).
  intros a' w2 E2. refine (Hagain _ w a' w2 (rtc_refl _ _) E2 1 _). rewrite Ha. left. reflexivity.
Defined.

Lemma sync_answer_page_witness :
  exists a w rest, syncEnvelopes sample_identity (Some sample_sync) world2 = (Answer a, w) /\
    rows_after sample_account (next_cursor a) (sdb w) = rest /\ (has_more a = false <-> rest = []).
Proof.
  destruct sample_sync_run as (a & w & E & Ha).
  destruct (sync_answer_page _ _ _ _ _ world2_reachable world2_known E) as (input & out & rest & _ & _ & _ & Hm & _ & _ & _ & Hrest).
  exists a, w, rest. exact (conj E (conj Hrest Hm)).
Defined.

Lemma pull_delivers_everything_witness :
  pull 2 sample_account 256 (sdb world6) 0 = Some (rows_after sample_account 0 (sdb world6)) /\
  length (rows_after sample_account 0 (sdb world6)) = 1%nat.
Proof.
  assert (length (rows_after sample_account 0 (sdb world6)) = 1%nat) as Hl by (vm_compute; reflexivity).
  split; [|exact Hl]. apply pull_delivers_everything; [apply world6_reachable|lia|]. rewrite Hl. lia.
Defined.

Lemma relay_accepts_client_envelope_witness :
  exists e, validateEnvelope sample_identity sample_wire world0 = (Answer e, world0) /\
    EnvelopeHash sample_sealed = Ok (d_recordHash e).
Proof.
  assert (exists header, canonicalHeader (EHeader sample_sealed) = Ok header /\
    ed25519_Verify (Ed25519Key sample_identity) (header ++ Ciphertext sample_sealed) (Signature sample_sealed) = true)
    as (header & Hc & Hv) by (eexists; split; [reflexivity|vm_compute; reflexivity]).
  destruct (relay_accepts_client_envelope sample_identity sample_sealed sample_wire header world0) as (e & He & _ & Hh);
    [reflexivity|reflexivity|vm_compute; reflexivity|exact Hc|exact Hv|].
  exists e. split; [exact He|exact Hh].
Defined.

Lemma rate_limit_bound_witness :
  admitted (str "10.0.0.1") (after_requests newLimiter [(str "10.0.0.1", 5)]) [(str "10.0.0.2", 7); (str "10.0.0.1", 9)] <= 480.
Proof.
  apply (rate_limit_bound (str "10.0.0.1") _ _ 6); [|repeat constructor; cbn; unfold rateWindow; lia].
  cbn. repeat first [apply SSorted_nil | apply SSorted_cons | apply Forall_nil_2 | apply Forall_cons_2 | lia].
Defined.

End witnesses.
