(* ===== verification/RelayStart.v ===== *)
(** * The start of the relay ([sync/internal/server/server.go], [New] and
    [initialize])

    The relay opens its database, configures it and applies the migrations that
    the ledger does not have yet, each in a transaction together with its ledger
    row.  What the scripts make of the schema is an argument ([exec_script]): SQL
    is not interpreted.  The environment decides which statements fail.
    [clientIP] names the address that the limiter counts. *)

From S2P Require Import Prelude Effects Encoding Sha256 Unicode Crypto Envelope Server.

(** ** The ledger *)

Record LedgerRow := mkLedgerRow { m_name : bytes; m_checksum : bytes; applied_at : Z }.

(** The schema with its data, and the table [schema_migrations] in the order of
    its rows; [None] before the table exists. *)
Record StartDB (Schema : Type) := mkStartDB { schema : Schema; ledger : option (list LedgerRow) }.
Arguments mkStartDB {Schema}.
Arguments schema {Schema}.
Arguments ledger {Schema}.

(** A file below [migrations] in the program, with what reading it gives. *)
Record MigrationFile := mkMigration { f_name : bytes; f_dir : bool; f_body : result bytes }.

(** [hex.EncodeToString(sha256.Sum256(body))] *)
Definition checksum (body : bytes) : bytes := Hex.EncodeToString (Sum256 body).

Definition ErrNoRows : error := errors_New "sql: no rows in result set".
Definition ErrDatabase : error := errors_New "database error".

(** The data source name: every connection gets the four settings. *)
Definition dsn_of (databasePath : bytes) : bytes :=
  let dsn := if negb (bool_decide (databasePath = str ":memory:")) && negb (HasPrefix databasePath (str "file:"))
             then str "file:" ++ databasePath else databasePath in
  let separator := if bool_decide (Byte.x3f ∈ dsn) then str "&" else str "?" in
  dsn ++ separator ++ str "_pragma=foreign_keys(ON)&_pragma=busy_timeout(5000)&_pragma=journal_mode(WAL)&_pragma=synchronous(NORMAL)".

Definition pragmas : list string :=
  ["PRAGMA journal_mode = WAL"; "PRAGMA synchronous = NORMAL"; "PRAGMA foreign_keys = ON"; "PRAGMA busy_timeout = 5000"].

Section start.
Context {Schema : Type} (exec_script : bytes -> Schema -> result Schema) `{SE : ServerEnv}.

Notation World := (StartDB Schema * nat)%type.

Definition statement {A} (f : StartDB Schema -> result (A * StartDB Schema)) : St World A := fun '(d, n) =>
  if statement_fails n then (Err ErrDatabase, (d, S n))
  else match f d with Ok (a, d') => (Ok a, (d', S n)) | Err e => (Err e, (d, S n)) end.

(** [s.now().UnixMilli()] *)
Definition now_millis : St World Z := fun '(d, n) => (Ok (server_now n), (d, S n)).

Definition rows (d : StartDB Schema) : list LedgerRow := default [] (ledger d).

Definition create_ledger (d : StartDB Schema) : result (unit * StartDB Schema) :=
  Ok (tt, mkStartDB (schema d) (Some (rows d))).

Definition recorded_checksum (name : bytes) (d : StartDB Schema) : result (bytes * StartDB Schema) :=
  match List.find (fun row => bool_decide (m_name row = name)) (rows d) with
  | Some row => Ok (m_checksum row, d)
  | None => Err ErrNoRows
  end.

(** The name is the primary key, and a checksum has 64 characters. *)
Definition insert_row (row : LedgerRow) (d : StartDB Schema) : result (unit * StartDB Schema) :=
  if bool_decide (m_name row ∈ map m_name (rows d)) || negb (len (m_checksum row) =? 64) then Err ErrDatabase
  else Ok (tt, mkStartDB (schema d) (Some (rows d ++ [row]))).

Definition run_body (body : bytes) (d : StartDB Schema) : result (unit * StartDB Schema) :=
  let! s := exec_script body (schema d) in Ok (tt, mkStartDB s (ledger d)).

(** The script and the row that records it, in one transaction. *)
Definition apply_migration (name body : bytes) : St World unit := fun '(d, n) =>
  if statement_fails n then (Err (Errorf_w "begin migration %s: %w" ErrDatabase), (d, S n))
  else
    match (do! _ := statement (run_body body) in
           do! now := now_millis in
           statement (insert_row (mkLedgerRow name (checksum body) now))) (d, S n) with
    | (Err e, (_, n')) => (Err (Errorf_w "apply migration %s: %w" e), (d, n'))
    | (Ok _, (d', n')) =>
        if statement_fails n' then (Err (Errorf_w "commit migration %s: %w" ErrDatabase), (d, S n'))
        else (Ok tt, (d', S n'))
    end.

Definition migrate (file : MigrationFile) : St World unit :=
  if f_dir file || negb (HasSuffix (f_name file) (str ".sql")) then ret tt
  else
    do! body := wrap_error "read migration %s: %w" (lift (f_body file)) in
    do! recorded := attempt (statement (recorded_checksum (f_name file))) in
    match recorded with
    | Ok recorded =>
        if bool_decide (recorded = checksum body) then ret tt
        else raise (Errorf_s "migration %s checksum mismatch" (f_name file))
    | Err e =>
        if negb (errors_Is e ErrNoRows) then raise (Errorf_w "read migration ledger %s: %w" e)
        else apply_migration (f_name file) body
    end.

Fixpoint for_each {A} (f : A -> St World unit) (l : list A) : St World unit :=
  match l with [] => ret tt | x :: rest => do! _ := f x in for_each f rest end.

(** [ReadDir] lists the files in the order of their names. *)
Definition initialize (files : result (list MigrationFile)) : St World unit :=
  do! _ := for_each (fun _ => wrap_error "configure sqlite: %w" (statement (fun d => Ok (tt, d)))) pragmas in
  do! _ := wrap_error "initialize migration ledger: %w" (statement create_ledger) in
  do! files := wrap_error "list migrations: %w" (lift files) in
  for_each migrate files.

(** [opened] is what [sql.Open] says to the data source name; of the server only
    the limiter changes later. *)
Definition New (opened : bytes -> result unit) (files : result (list MigrationFile)) (databasePath : bytes) : St World ipLimiter :=
  if bool_decide (databasePath = []) then lift (fail "database path is required")
  else
    do! _ := wrap_error "open sqlite: %w" (lift (opened (dsn_of databasePath))) in
    do! _ := initialize files in
    ret newLimiter.

End start.

(** ** The address of a client *)

(** The part before and after the last occurrence of a byte. *)
Fixpoint cut_last (c : byte) (s : bytes) : option (bytes * bytes) :=
  match s with
  | [] => None
  | x :: rest =>
      match cut_last c rest with
      | Some (before, after) => Some (x :: before, after)
      | None => if bool_decide (x = c) then Some ([], rest) else None
      end
  end.

Definition open_bracket : byte := Byte.x5b.
Definition close_bracket : byte := Byte.x5d.

(** [net.SplitHostPort], without its messages: a host in brackets ends right
    before the colon of the port and has none of its own, another host has no
    colon; no bracket is left over. *)
Definition SplitHostPort (hostport : bytes) : option (bytes * bytes) :=
  match cut_last Byte.x3a hostport with
  | None => None
  | Some (before, port) =>
      let plain s := bool_decide (open_bracket ∉ s) && bool_decide (close_bracket ∉ s) in
      if negb (plain port) then None
      else match before with
      | c :: inside =>
          if bool_decide (c = open_bracket) then
            match cut_last close_bracket inside with
            | Some (host, []) => if plain host then Some (host, port) else None
            | _ => None
            end
          else if bool_decide (Byte.x3a ∈ before) || negb (plain before) then None else Some (before, port)
      | [] => Some ([], port)
      end
  end.

Definition clientIP (remoteAddr : bytes) : bytes :=
  match SplitHostPort remoteAddr with Some (host, _) => host | None => remoteAddr end.

Example clientIP_cases :
  map clientIP [str "192.0.2.1:4711"; str "[2001:db8::1]:80"; str "2001:db8::1"; str "[::1]"; str "[a]b:1"; str ":9"] =
  [str "192.0.2.1"; str "2001:db8::1"; str "2001:db8::1"; str "[::1]"; str "[a]b:1"; str ""].
Proof. vm_compute. reflexivity. Qed.

(** ** What the ledger means *)

Section ledger.
Context {Schema : Type} (exec_script : bytes -> Schema -> result Schema) (schema0 : Schema).

(** The scripts one after the other. *)
Fixpoint run_scripts (bodies : list bytes) (s : Schema) : result Schema :=
  match bodies with [] => Ok s | body :: rest => let! s := exec_script body s in run_scripts rest s end.

Lemma run_scripts_app bodies bodies' s :
  run_scripts (bodies ++ bodies') s = (let! s := run_scripts bodies s in run_scripts bodies' s).
Proof. revert s. induction bodies as [|b l IH]; intros s; [done|]. cbn. destruct (exec_script b s); [apply IH|done]. Qed.

(** The schema is the one the scripts of the rows make, in the order of the
    rows, and no name has two rows. *)
Definition applied (d : StartDB Schema) (bodies : list bytes) : Prop :=
  map m_checksum (rows d) = map checksum bodies /\ NoDup (map m_name (rows d)) /\ run_scripts bodies schema0 = Ok (schema d).

(** From one database to a later one: rows are only added. *)
Definition advances (d d' : StartDB Schema) : Prop :=
  rows d `prefix_of` rows d' /\ forall bodies, applied d bodies -> exists more, applied d' (bodies ++ more).

#[local] Instance advances_preorder : PreOrder advances.
Proof.
  split.
  - intros d. split; [done|]. intros bodies H. exists []. by rewrite app_nil_r.
  - intros a b c [P1 H1] [P2 H2]. split; [by etrans|]. intros bodies [more [more' ?]%H2]%H1. exists (more ++ more'). by rewrite app_assoc.
Qed.

Lemma rows_Some (s : Schema) l : rows (mkStartDB s (Some l)) = l.
Proof. done. Qed.

Lemma advances_same d d' : rows d' = rows d -> schema d' = schema d -> advances d d'.
Proof.
  intros Hr Hs. split; [rewrite <- Hr; reflexivity|]. intros bodies H. exists []. rewrite app_nil_r. unfold applied. by rewrite Hr, Hs.
Qed.

(** The row of a migration. *)
Definition has_row (d : StartDB Schema) (name body : bytes) : Prop :=
  exists row, row ∈ rows d /\ m_name row = name /\ m_checksum row = checksum body.

Lemma has_row_advances d d' name body : advances d d' -> has_row d name body -> has_row d' name body.
Proof. intros [[more E] _] (row & H & ?). exists row. split; [rewrite E; apply elem_of_app; by left|done]. Qed.

Section runs.
Context `{SE : ServerEnv}.

Lemma statement_cases {A} (f : StartDB Schema -> result (A * StartDB Schema)) w r w' :
  statement f w = (r, w') ->
  (exists e, r = Err e /\ w'.1 = w.1 /\ (e = ErrDatabase \/ f w.1 = Err e)) \/ (exists a, r = Ok a /\ f w.1 = Ok (a, w'.1)).
Proof.
  destruct w as [d n]. unfold statement. cbn [fst]. destruct (statement_fails n); [intros [= <- <-]; left; cbn; eauto|].
  destruct (f d) as [[a d']|e] eqn:Ef; intros [= <- <-]; cbn; [right|left]; eauto.
Qed.

Lemma apply_migration_inv name body w r w' :
  apply_migration exec_script name body w = (r, w') ->
  (w'.1 = w.1 /\ exists e, r = Err e) \/ (r = Ok tt /\ advances w.1 w'.1 /\ has_row w'.1 name body).
Proof.
  destruct w as [d n]. unfold apply_migration. destruct (statement_fails n); [intros [= <- <-]; left; cbn; eauto|].
  destruct (bind _ _ _) as [r1 [d' n']] eqn:E. destruct r1 as [[]|e]; [|intros [= <- <-]; left; cbn; eauto].
  destruct (statement_fails n'); intros [= <- <-]; [left; cbn; eauto|]. right. cbn [fst]. split; [done|].
  apply bind_cases in E as [(e & _ & [=])|([] & [d1 n1] & E1 & E)]. apply statement_cases in E1 as [(e & [=] & _)|([] & _ & Hb)].
  apply bind_cases in E as [(e & _ & [=])|(now & [d2 n2] & [= <- <- <-] & E)].
  apply statement_cases in E as [(e & [=] & _)|([] & _ & Hi)]. cbn [fst] in *.
  unfold run_body in Hb. destruct (exec_script body (schema d)) as [s|] eqn:Es; [|done]. injection Hb as <-.
  unfold insert_row in Hi. cbn [schema m_name m_checksum] in Hi. change (rows (mkStartDB s (ledger d))) with (rows d) in Hi.
  destruct (bool_decide _ || _) eqn:Eb; [done|]. injection Hi as <-. apply orb_false_iff in Eb as [Hn%bool_decide_eq_false _].
  split; [split|].
  - by eexists.
  - intros bodies (H1 & H2 & H3). exists [body]. split_and!.
    + by rewrite rows_Some, !map_app, H1.
    + rewrite rows_Some, map_app. apply NoDup_app. split_and!; [done| |apply NoDup_singleton].
      intros x Hx ->%list_elem_of_singleton. done.
    + rewrite run_scripts_app, H3. cbn. by rewrite Es.
  - eexists. split; [apply elem_of_app; right; by apply list_elem_of_singleton|done].
Qed.

(** What a file asks for is there. *)
Definition satisfied (d : StartDB Schema) (file : MigrationFile) : Prop :=
  f_dir file = false -> HasSuffix (f_name file) (str ".sql") = true -> exists body, f_body file = Ok body /\ has_row d (f_name file) body.

Lemma migrate_inv file w r w' :
  migrate exec_script file w = (r, w') -> advances w.1 w'.1 /\ (r = Ok tt -> satisfied w'.1 file).
Proof.
  unfold migrate, satisfied. destruct (f_dir file); [intros [= <- <-]; split; [done|by intros _ [=]]|]. cbn [orb].
  destruct (HasSuffix _ _); cbn [negb]; [|intros [= <- <-]; split; [done|by intros _ _ [=]]].
  intros H. apply bind_cases in H as [(e & H & ->)|(body & w1 & H1 & H)].
  { apply wrap_error_cases in H as [(? & _ & [=])|(? & [= _ <-] & _)]. split; [done|by intros [=]]. }
  apply wrap_error_cases in H1 as [(? & [= Hbody <-] & [= <-])|(? & _ & [=])].
  apply bind_cases in H as [(e & (? & _ & [=])%attempt_inv & _)|(recorded & w1 & (r1 & H1 & [= ->])%attempt_inv & H)].
  apply statement_cases in H1 as [(e & -> & Hd & He)|(sum & -> & Hf)].
  - destruct (errors_Is e ErrNoRows) eqn:En; cbn [negb] in H; [|injection H as <- <-; rewrite Hd; split; [done|by intros [=]]].
    apply apply_migration_inv in H as [[-> [e' ->]]|(-> & Ha & Hr)]; rewrite Hd in *; split; try done; eauto.
  - unfold recorded_checksum in Hf. destruct (List.find _ _) as [row|] eqn:Ef; [|done]. injection Hf as <- Hd.
    apply find_some in Ef as [Hin%list_elem_of_In Hname%bool_decide_eq_true]. destruct (bool_decide _) eqn:Es in H; injection H as <- <-.
    + apply bool_decide_eq_true in Es. rewrite <- Hd. split; [done|]. intros _ _ _. exists body. split; [done|]. by exists row.
    + rewrite <- Hd. split; [done|by intros [=]].
Qed.

Lemma for_migrations_inv files : forall w r w',
  for_each (migrate exec_script) files w = (r, w') -> advances w.1 w'.1 /\ (r = Ok tt -> Forall (satisfied w'.1) files).
Proof.
  induction files as [|file files IH]; intros w r w' H; cbn in H; [injection H as <- <-; by split|].
  apply bind_cases in H as [(e & [? _]%migrate_inv & ->)|([] & w1 & [A1 S1]%migrate_inv & [A2 S2]%IH)]; [by split|].
  split; [by etrans|]. intros Hr. constructor; [|by apply S2]. intros Hd Hs. destruct (S1 eq_refl Hd Hs) as (body & ? & ?).
  exists body. split; [done|]. by eapply has_row_advances.
Qed.

Lemma configure_inv (l : list string) : forall (w : StartDB Schema * nat) r w',
  for_each (fun _ => wrap_error "configure sqlite: %w" (statement (fun d => Ok (tt, d)))) l w = (r, w') -> w'.1 = w.1.
Proof.
  induction l as [|s l IH]; intros w r w' H; cbn in H; [by injection H as _ <-|].
  assert (forall r1 w1, wrap_error "configure sqlite: %w" (statement (fun d => Ok (tt, d))) w = (r1, w1) -> w1.1 = w.1) as Hone.
  { intros r1 w1 [(? & H1 & _)|(? & H1 & _)]%wrap_error_cases; by apply statement_cases in H1 as [(? & _ & ? & _)|(? & _ & [= _ ?])]. }
  apply bind_cases in H as [(e & ?%Hone & _)|([] & w1 & <-%Hone & H)]; [done|]. by eapply IH.
Qed.

Lemma New_inv opened files path w r w' :
  New exec_script opened files path w = (r, w') ->
  advances w.1 w'.1 /\ (is_Ok r = true -> exists l, files = Ok l /\ Forall (satisfied w'.1) l).
Proof.
  unfold New. destruct (bool_decide _); [intros [= <- <-]; split; [done|by intros [=]]|]. intros H.
  apply bind_cases in H as [(e & H & ->)|([] & w1 & H1 & H)].
  { apply wrap_error_cases in H as [(? & _ & [=])|(? & [= _ <-] & _)]. by split. }
  apply wrap_error_cases in H1 as [(? & [= _ <-] & _)|(? & _ & [=])].
  assert (forall r2 w2, initialize exec_script files w = (r2, w2) -> advances w.1 w2.1 /\
    (r2 = Ok tt -> exists l, files = Ok l /\ Forall (satisfied w2.1) l)) as Hinit; last first.
  { apply bind_cases in H as [(e & [? _]%Hinit & ->)|([] & w2 & [A S]%Hinit & [= <- <-])]; [by split|]. split; [done|]. by intros _; apply S. }
  clear. intros r w' H. unfold initialize in H.
  apply bind_cases in H as [(e & H%configure_inv & ->)|([] & w1 & E1%configure_inv & H)]; [by rewrite H|]. rewrite <- E1.
  apply bind_cases in H as [(e & H & ->)|([] & w2 & H1 & H)].
  { apply wrap_error_cases in H as [(? & _ & [=])|(? & H & _)]. apply statement_cases in H as [(? & _ & -> & _)|(? & [=] & _)]. by split. }
  apply wrap_error_cases in H1 as [(? & H1 & _)|(? & _ & [=])]. apply statement_cases in H1 as [(? & [=] & _)|(? & _ & [= _ Hd])].
  assert (advances w1.1 w2.1) as A1 by (rewrite <- Hd; by apply advances_same).
  apply bind_cases in H as [(e & H & ->)|(l & w3 & H1 & H)].
  { apply wrap_error_cases in H as [(? & _ & [=])|(? & [= _ <-] & _)]. by split. }
  apply wrap_error_cases in H1 as [(? & [= -> <-] & [= <-])|(? & _ & [=])].
  apply for_migrations_inv in H as [A2 S2]. split; [by etrans|]. intros ->. exists l. split; [done|by apply S2].
Qed.

(** A file that is satisfied is passed over. *)
Lemma migrate_satisfied file d n :
  (forall n, statement_fails n = false) -> NoDup (map m_name (rows d)) -> satisfied d file ->
  exists n', migrate exec_script file (d, n) = (Ok tt, (d, n')).
Proof.
  intros Hq Hnd Hs. unfold migrate, satisfied in *. destruct (f_dir file); [by eexists|]. cbn [orb].
  destruct (HasSuffix _ _); cbn [negb]; [|by eexists]. destruct (Hs eq_refl eq_refl) as (body & -> & row & Hin & Hname & Hsum).
  rewrite (bind_ok _ _ _ body (d, n)) by done.
  assert (recorded_checksum (f_name file) d = Ok (checksum body, d)) as Hrec.
  { unfold recorded_checksum. destruct (List.find _ _) as [row'|] eqn:Ef.
    - apply find_some in Ef as [Hin'%list_elem_of_In Hname'%bool_decide_eq_true].
      apply list_elem_of_lookup in Hin as [i Hi]. apply list_elem_of_lookup in Hin' as [j Hj].
      assert (i = j) as <-; [|rewrite Hi in Hj; injection Hj as <-; by rewrite Hsum].
      apply (NoDup_lookup (map m_name (rows d)) i j (f_name file)); [done|rewrite list_lookup_fmap, Hi; cbn; by f_equal|rewrite list_lookup_fmap, Hj; cbn; by f_equal].
    - apply list_elem_of_In in Hin. apply (find_none _ _ Ef) in Hin. cbn in Hin. by rewrite bool_decide_true in Hin. }
  rewrite (bind_ok _ _ _ (Ok (checksum body)) (d, S n)) by (unfold attempt, statement; by rewrite Hq, Hrec).
  rewrite bool_decide_true by done. by eexists.
Qed.

Lemma New_satisfied opened l path d n :
  (forall n, statement_fails n = false) -> NoDup (map m_name (rows d)) -> Forall (satisfied d) l ->
  path <> [] -> opened (dsn_of path) = Ok tt ->
  exists d' n', New exec_script opened (Ok l) path (d, n) = (Ok newLimiter, (d', n')) /\ schema d' = schema d /\ rows d' = rows d.
Proof.
  intros Hq Hnd Hl Hp Ho. set (d1 := mkStartDB (schema d) (Some (rows d))). exists d1.
  assert (forall files, Forall (satisfied d1) files -> forall n, exists n', for_each (migrate exec_script) files (d1, n) = (Ok tt, (d1, n'))) as Hfor.
  { induction files as [|file files IH]; intros Hf k; [by eexists|]. apply Forall_cons_1 in Hf as [Hf Hfs]. cbn.
    destruct (migrate_satisfied file d1 k Hq Hnd Hf) as [k' E]. destruct (IH Hfs k') as [k2 E2]. exists k2. by rewrite (bind_ok _ _ _ _ _ E). }
  destruct (Hfor l Hl (S (S (S (S (S n)))))) as [n' E]. exists n'. split; [|done]. unfold New. rewrite bool_decide_false by done.
  unfold initialize, pragmas, for_each at 1, bind, wrap_error, lift, ret. rewrite Ho. unfold statement. rewrite !Hq. cbn. fold d1.
  by rewrite E.
Qed.

End runs.

(** The starts of any versions of the program under any failures. *)
Inductive start_step : StartDB Schema -> StartDB Schema -> Prop :=
  | one_start (SE : ServerEnv) opened files path d n r d' n' :
      New exec_script opened files path (d, n) = (r, (d', n')) -> start_step d d'.

Lemma starts_advance d d' : rtc start_step d d' -> advances d d'.
Proof. induction 1 as [d|d d1 d' Hstep _ IH]; [done|]. etrans; [|exact IH]. destruct Hstep as [SE opened files path d n r d1 n' H]. by apply New_inv in H as [? _]. Qed.

(** C26: every migration is applied exactly once.  However often the relay was
    started, with whichever versions of its migrations and whichever statements
    failing: the schema is what the scripts recorded in the ledger make of the
    empty one, each run once and in the order of the rows, and no name has two
    rows.  When a start succeeds, the ledger still begins with the rows it had,
    and has every script of this program under its name with its checksum; and
    the same program starts again, without failures, without changing the
    schema or the ledger. *)
Theorem migrations_exactly_once `{SE : ServerEnv} (opened : bytes -> result unit) files (path : bytes)
    (d d' : StartDB Schema) (n n' : nat) limiter :
  rtc start_step (mkStartDB schema0 None) d -> New exec_script opened files path (d, n) = (Ok limiter, (d', n')) ->
  (exists bodies, applied d' bodies) /\ rows d `prefix_of` rows d' /\
  exists l, files = Ok l /\ Forall (satisfied d') l /\
    forall (SE' : ServerEnv) k, (forall i, statement_fails (ServerEnv := SE') i = false) ->
      exists d2 k2, New (SE := SE') exec_script opened files path (d', k) = (Ok newLimiter, (d2, k2)) /\
        schema d2 = schema d' /\ rows d2 = rows d'.
Proof.
  intros Hreach Hnew. assert (applied (mkStartDB schema0 None) []) as H0 by (split_and!; [done|constructor|done]).
  apply starts_advance in Hreach as [_ Ha]. destruct (Ha _ H0) as [bodies Hb].
  pose proof (New_inv _ _ _ _ _ _ Hnew) as [[Hpre Ha'] Hs]. cbn [fst] in *. destruct (Ha' _ Hb) as [more Hm].
  destruct (Hs eq_refl) as (l & -> & Hl). split; [by eexists|]. split; [done|]. exists l. split_and!; [done..|]. intros SE' k Hq.
  apply New_satisfied; try done; [by destruct Hm as (_ & ? & _)| |].
  - intros ->. unfold New in Hnew. by rewrite bool_decide_true in Hnew.
  - unfold New in Hnew. destruct (bool_decide _); [done|]. apply bind_cases in Hnew as [(e & _ & [=])|([] & w1 & H1 & _)].
    by apply wrap_error_cases in H1 as [(? & [= -> _] & [= <-])|(? & _ & [=])].
Qed.

End ledger.

(** Two migrations; the first start fails while it records the second. *)
Definition sample_files : result (list MigrationFile) :=
  Ok [mkMigration (str "001_init.sql") false (Ok (str "CREATE TABLE a(x)"));
      mkMigration (str "002_more.sql") false (Ok (str "CREATE TABLE b(y)"));
      mkMigration (str "README.md") false (Ok (str "notes"))].

Definition sample_env (failing : nat -> bool) : ServerEnv :=
  {| server_now := fun n => 1700000000000 + Z.of_nat n; statement_fails := failing |}.

Definition sample_exec (body : bytes) (s : list bytes) : result (list bytes) := Ok (s ++ [body]).

Definition sample_start (failing : nat -> bool) (d : StartDB (list bytes)) :=
  New (SE := sample_env failing) sample_exec (fun _ => Ok tt) sample_files (str "/data/relay.db") (d, 0%nat).

Definition half_started : StartDB (list bytes) := (sample_start (fun n => bool_decide (n = 15%nat)) (mkStartDB [] None)).2.1.

Lemma migrations_exactly_once_witness :
  exists d' n', length (rows half_started) = 1%nat /\ length (rows d') = 2%nat /\
    sample_start (fun _ => false) half_started = (Ok newLimiter, (d', n')) /\
    (exists bodies, applied sample_exec [] d' bodies) /\ rows half_started `prefix_of` rows d'.
Proof.
  eexists _, _. split; [vm_compute; reflexivity|]. split; cycle 1.
  - split; [vm_compute; reflexivity|].
    destruct (migrations_exactly_once (SE := sample_env (fun _ => false)) sample_exec [] (fun _ => Ok tt) sample_files (str "/data/relay.db")
      half_started (sample_start (fun _ => false) half_started).2.1 0 (sample_start (fun _ => false) half_started).2.2 newLimiter) as (H1 & H2 & _).
    + apply rtc_once. eapply (one_start _ (sample_env (fun n => bool_decide (n = 15%nat))) (fun _ => Ok tt) sample_files (str "/data/relay.db") _ 0%nat).
      vm_compute. reflexivity.
    + vm_compute. reflexivity.
    + split; [exact H1|exact H2].
  - vm_compute. reflexivity.
Defined.
