(* ===== verification/ClientRelay.v ===== *)
(** * The client and the relay together

    The transport of the client is the relay's router, with a network that may
    lose the request or the answer.  The client's checkpoint and the relay's
    chain of the device stay in step, whatever is lost and whichever statement
    fails on either side; an upload is stored exactly once. *)

From S2P Require Import Prelude Encoding Sha256 Unicode Endpoint Crypto Envelope Server ServerFacts ServerProps.
From S2P Require Import Boxes Crdt Phrase LocalStore LocalStoreFacts SyncState StoreProps Client ClientFacts.

(** ** Chains *)

Lemma find_filter {A} (p q : A -> bool) l : find (fun x => p x && q x) l = find q (List.filter p l).
Proof. induction l as [|x l IH]; cbn; [done|]. destruct (p x); cbn; [by destruct (q x)|done]. Qed.

Lemma find_row_rows account device seq d :
  find_row account device seq d = find (fun r => device_seq r =? seq) (rows_of account device (envelopes d)).
Proof. unfold find_row, rows_of. by rewrite find_filter. Qed.

Section chains.
Context `{SE : ServerEnv} `{P : Primitives} `{U : UnicodeTables} `{CH : Codec Header}.

(** The record a chain ends with is found under its number, and none is found
    under the next one. *)
Lemma find_row_end account device d seq hash :
  server_ok d -> chain_end account device d = (seq, hash) ->
  find_row account device (seq + 1) d = None /\
  (1 <= seq -> exists r, find_row account device seq d = Some r /\ record_hash r = hash).
Proof.
  intros Hok Hend. pose proof (so_chains _ Hok account device) as Hl. rewrite !find_row_rows.
  rewrite (chain_end_linked _ _ _ Hl) in Hend. set (rows := rows_of account device (envelopes d)) in *.
  injection Hend as Hseq Hhash.
  assert (forall r, In r rows -> exists i, rows !! i = Some r /\ device_seq r = 1 + Z.of_nat i) as Hin.
  { intros r [i Hi]%list_elem_of_In%list_elem_of_lookup_1. exists i. split; [done|]. by eapply linked_seq. }
  split.
  - destruct (find _ rows) as [r|] eqn:Ef; [|done]. apply find_some in Ef as [(i & Hi & Hs)%Hin Hq]. bools.
    apply lookup_lt_Some in Hi. unfold len in Hseq. lia.
  - intros Hpos. destruct (last rows) as [r|] eqn:El.
    2: { apply last_None in El. rewrite El in Hseq. change (len (@nil EnvelopeRow)) with 0 in Hseq. lia. }
    rewrite last_lookup in El. destruct (find (fun x => device_seq x =? seq) rows) as [x|] eqn:Ef.
    + apply find_some in Ef as [(i & Hi & Hs)%Hin Hq]. bools. exists x. split; [done|].
      assert (i = pred (length rows)) as -> by (pose proof (lookup_lt_Some _ _ _ Hi); unfold len in Hseq; lia). congruence.
    + exfalso. eapply find_none in Ef; [|by eapply list_elem_of_In, list_elem_of_lookup_2]. bools. apply Ef.
      rewrite (linked_seq _ _ _ _ _ Hl El). pose proof (lookup_lt_Some _ _ _ El). unfold len in Hseq. lia.
Qed.

(** A record continues the chain, or is already its end. *)
Definition fits (identity : deviceIdentity) (e : decodedEnvelope) (d : ServerDB) : Prop :=
  chain_end (IAccountID identity) (ID identity) d = (d_seq e - 1, d_previousHash e) \/
  chain_end (IAccountID identity) (ID identity) d = (d_seq e, d_recordHash e).

Lemma chain_end_snoc identity e now d :
  server_ok d -> chain_end (IAccountID identity) (ID identity) d = (d_seq e - 1, d_previousHash e) ->
  chain_end (IAccountID identity) (ID identity)
    (with_envelopes d (envelopes d ++ [with_cursor (last_cursor d + 1)
       (mkRow 0 (IAccountID identity) (ID identity) (d_seq e) (WVersion (d_wire e)) (d_objectID e)
          (WKeyEpoch (d_wire e)) (d_previousHash e) (d_nonce e) (d_ciphertext e) (d_signature e)
          (d_recordHash e) now)]) (last_cursor d + 1)) = (d_seq e, d_recordHash e).
Proof.
  intros Hok Hend. pose proof (so_chains _ Hok (IAccountID identity) (ID identity)) as Hl.
  rewrite (chain_end_linked _ _ _ Hl) in Hend. injection Hend as Hseq Hhash.
  assert (linked 1 [] (rows_of (IAccountID identity) (ID identity) (envelopes d ++ [with_cursor (last_cursor d + 1)
       (mkRow 0 (IAccountID identity) (ID identity) (d_seq e) (WVersion (d_wire e)) (d_objectID e)
          (WKeyEpoch (d_wire e)) (d_previousHash e) (d_nonce e) (d_ciphertext e) (d_signature e)
          (d_recordHash e) now)]))) as Hl'.
  { rewrite rows_of_snoc. cbn. rewrite !bool_decide_true by done. cbn. apply linked_snoc. cbn.
    split_and!; [done|lia|by rewrite Hhash]. }
  rewrite chain_end_linked by exact Hl'. cbn [envelopes with_envelopes]. rewrite rows_of_snoc. cbn -[len].
  rewrite !bool_decide_true by done. cbn -[len]. rewrite last_snoc, len_app. cbn. f_equal. rewrite Hseq.
  change (len [_]) with 1. lia.
Qed.

(** A fitting record is stored once and accepted; a failing statement changes nothing. *)
Lemma upload_one_fits identity e w r w' :
  server_ok (sdb w) -> 1 <= d_seq e -> fits identity e (sdb w) -> upload_one identity e w = (r, w') ->
  (exists f, r = Failed f) /\ sdb w' = sdb w \/
  r = Answer (inl (d_seq e)) /\
    chain_end (IAccountID identity) (ID identity) (sdb w') = (d_seq e, d_recordHash e).
Proof.
  intros Hok Hpos Hfit H. unfold upload_one in H.
  apply hbind_inv in H as [(existing & w1 & E1 & H)|(f & E1 & ->)];
    apply select_inv in E1 as [Hd1 E1]; [|left; eauto].
  destruct E1 as [[? [=]]|[= ->]]. rewrite <- Hd1 in *. clear w Hd1. destruct Hfit as [Hfit|Hfit].
  2: { destruct (find_row_end _ _ _ _ _ Hok Hfit) as [_ Hf]. destruct (Hf Hpos) as (row & Hrow & Hh).
       rewrite Hrow, Hh, bool_decide_true in H by done. injection H as <- <-. by right. }
  destruct (find_row_end _ _ _ _ _ Hok Hfit) as [Hnone _]. replace (d_seq e - 1 + 1) with (d_seq e) in Hnone by lia.
  rewrite Hnone in H.
  apply hbind_inv in H as [(last_ & w2 & E2 & H)|(f & E2 & ->)];
    apply select_inv in E2 as [Hd2 E2]; [|left; eauto].
  destruct E2 as [[? [=]]|[= ->]]. rewrite <- Hd2 in *. clear w1 Hd2.
  assert (match greatest_seq (rows_of (IAccountID identity) (ID identity) (envelopes (sdb w2))) with
          | Some r => device_seq r | None => 0 end = d_seq e - 1) as Hs
    by (unfold chain_end in Hfit; destruct (greatest_seq _); injection Hfit as ? ?; lia).
  assert (match greatest_seq (rows_of (IAccountID identity) (ID identity) (envelopes (sdb w2))) with
          | Some r => record_hash r | None => [] end = d_previousHash e) as Hp
    by (unfold chain_end in Hfit; destruct (greatest_seq _); by injection Hfit as ? ?).
  rewrite Hs, Hp, (proj2 (Z.eqb_eq _ _)), bool_decide_true in H by (done || lia). cbn [negb] in H.
  apply hbind_inv in H as [(now & w3 & [= <- <-] & H)|(? & [=] & _)].
  apply hbind_inv in H as [(u & w4 & E4 & H)|(f & E4 & ->)].
  - injection H as <- <-. apply sql_inv in E4 as [(? & [=] & _)|([] & _ & ->%insert_envelope_Some)].
    right. split; [done|]. by apply chain_end_snoc.
  - apply sql_inv in E4 as [(? & _ & ->)|(? & [=] & _)]. left. eauto.
Qed.

Lemma chain_end_envelopes account device d d' :
  envelopes d' = envelopes d -> chain_end account device d' = chain_end account device d.
Proof. intros H. unfold chain_end. by rewrite H. Qed.

(** A request that uploads at most one record: [None] is an empty upload. *)
Definition single (identity : deviceIdentity) (wires : list WireEnvelope) (upload : option decodedEnvelope) : Prop :=
  match upload with
  | Some e => exists wire, wires = [wire] /\ genuine identity e /\ 1 <= d_seq e /\
      forall w, validateEnvelope identity wire w = (Answer e, w)
  | None => wires = []
  end.

Definition uploads (upload : option decodedEnvelope) : list decodedEnvelope :=
  match upload with Some e => [e] | None => [] end.

Lemma single_validated identity wires upload w :
  single identity wires upload ->
  validate_all identity wires w = (Answer (uploads upload), w) /\
  unique_batch (sort_by_seq (uploads upload)) = ([], uploads upload) /\ Forall (genuine identity) (uploads upload).
Proof.
  destruct upload as [e|]; cbn; [|by intros ->]. intros (wire & -> & Hg & _ & Hv). split; [|split; [done|by constructor]].
  cbn [validate_all]. by rewrite (hbind_Answer _ _ _ _ _ (Hv w)).
Qed.

Lemma upload_all_fits identity upload w r w' :
  server_ok (sdb w) -> match upload with Some e => 1 <= d_seq e /\ fits identity e (sdb w) | None => True end ->
  upload_all identity (uploads upload) w = (r, w') ->
  (exists f, r = Failed f) \/
  r = Answer (map d_seq (uploads upload), []) /\
    match upload with
    | Some e => chain_end (IAccountID identity) (ID identity) (sdb w') = (d_seq e, d_recordHash e)
    | None => sdb w' = sdb w
    end.
Proof.
  intros Hok Hf H. destruct upload as [e|]; cbn in H; [|injection H as <- <-; by right]. destruct Hf as [Hpos Hfit].
  apply hbind_inv in H as [(o & w1 & E & H)|(f & E & ->)]; [|left; eauto].
  apply upload_one_fits in E as [[[? [=]] _]|[[= ->] Hend]]; [|done..].
  right. injection H as <- <-. done.
Qed.

Lemma syncEnvelopes_single identity input upload w r w' :
  server_ok (sdb w) -> known (sdb w) identity -> single identity (i_envelopes input) upload ->
  match upload with Some e => fits identity e (sdb w) | None => True end ->
  syncEnvelopes identity (Some input) w = (r, w') ->
  extends (sdb w) (sdb w') /\ server_ok (sdb w') /\
  ((exists f, r = Failed f) /\ sdb w' = sdb w \/
   exists a, r = Answer a /\ accepted_sequences a = map d_seq (uploads upload) /\ rejected_sequences a = [] /\
     match upload with
     | Some e => chain_end (IAccountID identity) (ID identity) (sdb w') = (d_seq e, d_recordHash e)
     | None => chain_end (IAccountID identity) (ID identity) (sdb w')
               = chain_end (IAccountID identity) (ID identity) (sdb w)
     end).
Proof.
  intros Hok Hk Hsingle Hfit H. pose proof H as [Hw _]%syncEnvelopes_inv; [|done..].
  split; [by apply writes_extend|]. split; [by eapply writes_ok|].
  destruct (single_validated _ _ _ w Hsingle) as (Hval & Hbatch & Hgen). unfold syncEnvelopes in H.
  cbn [require] in H. unfold hbind at 1, hret at 1 in H. unfold refuse_if at 1, hbind at 1 in H.
  destruct (_ || _ || _) eqn:E1 in H; [left; injection H as <- <-; eauto|].
  unfold hret at 1 in H. cbn zeta in H. unfold refuse_if at 1, hbind at 1 in H.
  destruct (_ || _) eqn:E2 in H; [left; injection H as <- <-; eauto|].
  unfold hret at 1 in H. rewrite (hbind_Answer _ _ _ _ _ Hval), Hbatch in H.
  apply in_tx_inv in H as [(f & -> & Hd)|(a & w1 & w2 & -> & Hd1 & H & ->)]; [left; eauto|right].
  assert (match upload with Some e => 1 <= d_seq e /\ fits identity e (sdb w1) | None => True end) as Hf1.
  { rewrite Hd1. destruct upload as [e|]; [|done]. by destruct Hsingle as (_ & _ & _ & ? & _). }
  assert (server_ok (sdb w1)) as Hok1 by (by rewrite Hd1). assert (known (sdb w1) identity) as Hk1 by (by rewrite Hd1).
  apply sync_tx_inv in H as [_ Hres]; [|done..].
  destruct (Hres a eq_refl) as (acc & rej & w3 & outgoing & Eup & Hacc & Hrej & Henv & _).
  apply upload_all_fits in Eup as [[? [=]]|([= -> ->] & Hend)]; [|done..].
  exists a. split_and!; [done|done|done|]. destruct upload as [e|].
  - by rewrite (chain_end_envelopes _ _ _ _ Henv).
  - rewrite (chain_end_envelopes _ _ _ _ Henv), Hend. by rewrite Hd1.
Qed.

End chains.

(** ** Text that JSON keeps *)

Lemma base64_ascii l : Ascii.is_ascii (Base64.EncodeToString l) = true.
Proof.
  assert (forall s vs, Base64.sextets s = Some vs -> Ascii.is_ascii s = true) as Hs.
  { induction s as [|c s IH]; intros vs H; [done|]. cbn [Base64.sextets] in H.
    assert (u8 c < 128 /\ exists vs', Base64.sextets s = Some vs') as [Hc [vs' Hvs]].
    { unfold Base64.is_newline in H. destruct (_ || _) eqn:En.
      - split; [|eauto]. apply orb_true_iff in En as [E|E]; bools; lia.
      - destruct (Base64.sextet c) as [v|] eqn:Ec; [|done]. destruct (Base64.sextets s); [|done]. split; [|eauto].
        unfold Base64.sextet in Ec. repeat case_match; bools; try done; lia. }
    unfold Ascii.is_ascii in *. cbn [forallb]. rewrite (IH _ Hvs), (proj2 (Z.ltb_lt _ _)) by done. done. }
  pose proof (base64_decode_encode l) as H. unfold Base64.DecodeString in H.
  destruct (Base64.sextets _) eqn:E; [|done]. by eapply Hs.
Qed.

Lemma hex_ascii l : Ascii.is_ascii (Hex.EncodeToString l) = true.
Proof. eapply hex_decode_ascii, hex_decode_encode. Qed.

(** All strings of the envelope are ASCII. *)
Definition wire_text (w : WireEnvelope) : bool :=
  Ascii.is_ascii (WDeviceID w) && Ascii.is_ascii (WObjectID w) && Ascii.is_ascii (WPreviousHash w)
  && Ascii.is_ascii (WNonce w) && Ascii.is_ascii (WCiphertext w) && Ascii.is_ascii (WSignature w).

Lemma ToWire_text env wire : ToWire env = Ok wire -> wire_text wire = true.
Proof.
  intros (_ & _ & ->)%ToWire_Ok. unfold wire_text. cbn. rewrite hex_ascii, !base64_ascii. done.
Qed.

(** ** The network *)

(** How the relay writes its answers. *)
Class RelayJson := { encode_reply : Server.payload -> bytes; encode_failure : string -> bytes }.

(** Client and relay use the same JSON fields: a request of text fields is read
    as it was written, a staged envelope survives the trip, and of an answer
    the client reads the numbers the relay wrote; the field of an error object
    is unknown to the strict decoder of an answer. *)
Class WireAgreement (CJ : ClientJson) (SJ : ServerJson) (RJ : RelayJson) : Prop := {
  wire_roundtrips : forall wire b, wire_text wire = true -> marshal_wire wire = Ok b -> unmarshal_wire b = Ok wire;
  request_agrees : forall q b, forallb wire_text (QEnvelopes q) = true -> encode_sync q = Ok b ->
    as_sync b = Some (mkSyncInput (QCursor q) (QAckCursor q) (QLimit q) (QEnvelopes q));
  answer_agrees : forall a response eof, decode_sync (encode_reply (SyncAnswer a)) = Some (response, eof) ->
    AcceptedSequences response = accepted_sequences a /\
    map JDeviceSequence (RejectedSequences response) = map r_seq (rejected_sequences a);
  failure_refused : forall c, decode_sync (encode_failure c) = None
}.

Definition network_error : error := errors_New "connection reset".

Section composition.
Context `{E : Environment} `{P : Primitives} {PL : PrimitiveLaws P} `{U : UnicodeTables}.
Context `{J : Codec Phrase} {JL : JsonLaws J} `{CH : Codec Header}.
Context `{CP : Codec PhrasePayload} {PD : PayloadDecoder CP}.
Context `{SE : ServerEnv} `{CJ : ClientJson} `{SJ : ServerJson} `{RJ : RelayJson} {WA : WireAgreement CJ SJ RJ}.

(** The path of a request under the base of an endpoint, without the query. *)
Fixpoint before_query (s : bytes) : bytes :=
  match s with
  | [] => []
  | c :: rest => if u8 c =? 63 then [] else c :: before_query rest
  end.

(** The relay behind a network that may lose the request or the reply. *)
Definition relay_transport (relay : Endpoint) (lost_request lost_reply : bool) (req : HttpRequest) (w : ServerWorld)
    : result HttpResponse * ServerWorld :=
  match strip_prefix (Scheme (base relay) ++ str "://" ++ EscapedHost (base relay)) (ReqURL req) with
  | None => (Err network_error, w)
  | Some target =>
      let path := before_query target in
      if lost_request then (Err network_error, w)
      else
        let '(answer, w) := route (mkRequest (ReqMethod req) path (default [] (ReqAuthorization req))
                                     (default [] (ReqBody req))) w in
        if lost_reply then (Err network_error, w)
        else (Ok (match answer with
                  | Answer (status, payload) => mkHttpResponse status (encode_reply payload) None
                  | Failed f => mkHttpResponse (status f) (encode_failure (code f)) None
                  end), w)
  end.

(** The relay sees the path the client asked for. *)
Lemma relay_path relay :
  exists target, strip_prefix (Scheme (base relay) ++ str "://" ++ EscapedHost (base relay))
    (resolve relay (str "/v1/sync")) = Some target /\ before_query target = str "/v1/sync".
Proof.
  eexists. split.
  - unfold resolve. cbn zeta. rewrite <- (strip_prefix_self (Scheme (base relay) ++ str "://" ++ EscapedHost (base relay))).
    f_equal. by rewrite <- !app_assoc.
  - by destruct (_ || _).
Qed.

Lemma route_sync auth body w :
  route (mkRequest Client.POST (str "/v1/sync") auth body) w =
  requireAuth (fun identity => reply 200 SyncAnswer (syncEnvelopes identity (as_sync body))) auth w.
Proof. reflexivity. Qed.

(** What is read from a response that fits the limit. *)
Lemma read_limited_all response payload :
  read_limited (maxResponseBytes + 1) response = Ok payload -> len payload <= maxResponseBytes ->
  ResError response = None -> payload = ResBody response.
Proof.
  unfold read_limited. intros El Hlen Hre. rewrite Hre in El. destruct (_ <=? _) eqn:Ele; [|by injection El].
  injection El as <-. bools. unfold len in *. rewrite length_take in Hlen. unfold maxResponseBytes in *. lia.
Qed.

(** What a call through the transport does to the remote state, and what its
    value comes from. *)
Lemma doJSON_inv {R T} (transport : HttpRequest -> R -> result HttpResponse * R) client method path token encoded
    (output : bytes -> option (T * bool)) status remote r remote' :
  doJSON transport client method path token (Some encoded) output status remote = (r, remote') ->
  (exists e, r = Err e) /\ remote' = remote \/
  exists body answer, encoded = Ok body /\
    transport (mkHttpRequest method (resolve (endpoint client) path)
      (if bool_decide (token = []) then None else Some (str "Bearer " ++ token)) (Some body)) remote = (answer, remote') /\
    forall v, r = Ok v -> exists response, answer = Ok response /\ StatusCode response = status /\
      (ResError response = None -> output (ResBody response) = Some (v, true)).
Proof.
  unfold doJSON. intros H. destruct encoded as [body|e]; [|left; injection H as <- <-; eauto].
  destruct (_ && _); [left; injection H as <- <-; eauto|].
  destruct (transport _ remote) as [[response|e] remote1] eqn:Et; right; injection H as <- <-;
    exists body; eexists; (split; [done|]); (split; [exact Et|]); [|done].
  intros v Hv. exists response. split; [done|].
  destruct (read_limited _ response) as [payload|] eqn:El; [|done].
  rewrite Z.gtb_ltb in Hv. destruct (maxResponseBytes <? len payload) eqn:Es; [done|].
  destruct (negb (StatusCode response =? status)) eqn:Est; [done|]. bools. split; [done|]. intros Hre.
  rewrite <- (read_limited_all _ _ El Es Hre). by destruct (output payload) as [[v' []]|]; simplify_eq.
Qed.

(** ** The chain of the client and the chain of the relay *)

Definition account_text (session : Session) : bytes := Hex.EncodeToString (SAccountID session).
Definition device_text (session : Session) : bytes := Hex.EncodeToString (SessionDeviceID session).

(** A session as registration leaves it: identifiers of 16 bytes, a key pair,
    and a token that fits into a header. *)
Definition session_ok (session : Session) : Prop :=
  len (SAccountID session) = 16 /\ len (SessionDeviceID session) = 16 /\
  (exists seed, len seed = SeedSize /\ SSigningPrivate session = NewKeyFromSeed seed) /\
  bearer (str "Bearer " ++ SDeviceToken session) = Some (SDeviceToken session).

(** The relay knows the device, and its chain ends where the client's checkpoint
    says, or one record further, at the staged upload. *)
Record in_step (session : Session) (cp : Checkpoint) (d : ServerDB) : Prop := {
  is_sound : server_ok d;
  is_enrolled : exists v, devices d !! device_text session = Some v /\
    token_hash v = digest (SDeviceToken session) /\ dev_account_id v = account_text session /\
    dev_ed25519 v = ed25519_Public (SSigningPrivate session);
  is_staged : forall u, cp_staged cp = Some u ->
    DeviceSequence u = cp_sequence cp /\ genuine_upload session (cp_hash cp) u;
  is_chain : chain_end (account_text session) (device_text session) d = (cp_sequence cp - 1, cp_hash cp) \/
    exists u, cp_staged cp = Some u /\
      chain_end (account_text session) (device_text session) d = (DeviceSequence u, UEnvelopeHash u)
}.

Lemma in_step_authenticated session cp d identity :
  in_step session cp d -> device_by_token (digest (SDeviceToken session)) d = Some identity ->
  ID identity = device_text session /\ IAccountID identity = account_text session /\
  Ed25519Key identity = ed25519_Public (SSigningPrivate session) /\ known d identity.
Proof.
  intros Hin H. destruct (is_enrolled _ _ _ Hin) as (v & Hv & Ht & Ha & Hk). unfold device_by_token in H.
  destruct (List.filter _ _) as [|[id v'] l] eqn:Ef; [done|]. injection H as <-.
  assert (In (id, v') (List.filter (fun entry => bool_decide (token_hash entry.2 = digest (SDeviceToken session))
    && bool_decide (revoked_at entry.2 = None)) (map_to_list (devices d)))) as Hf by (rewrite Ef; by left).
  apply List.filter_In in Hf as [Hf Hc]. apply list_elem_of_In, elem_of_map_to_list in Hf. cbn in Hc. bools.
  assert (id = device_text session) as -> by (eapply (so_tokens _ (is_sound _ _ _ Hin)); eauto; congruence).
  assert (v' = v) as -> by congruence. cbn. split_and!; try done. by exists v.
Qed.

(** The relay reads from a staged upload the record the client staged. *)
Definition same_upload (cp : Checkpoint) (upload : option decodedEnvelope) : Prop :=
  match cp_staged cp, upload with
  | Some u, Some e => d_seq e = DeviceSequence u /\ d_recordHash e = UEnvelopeHash u /\ d_previousHash e = cp_hash cp
  | None, None => True
  | _, _ => False
  end.

Lemma genuine_validated session identity previous u :
  session_ok session -> ID identity = device_text session -> IAccountID identity = account_text session ->
  Ed25519Key identity = ed25519_Public (SSigningPrivate session) -> genuine_upload session previous u ->
  exists wire e, unmarshal_wire (Wire u) = Ok wire /\ wire_text wire = true /\ 1 <= d_seq e /\
    genuine identity e /\ (forall w, validateEnvelope identity wire w = (Answer e, w)) /\
    d_seq e = DeviceSequence u /\ d_recordHash e = UEnvelopeHash u /\ d_previousHash e = previous.
Proof.
  intros (Hla & Hld & (seed & Hseed & Hpriv) & _) Hid Hacc Hkey
    (env & wire & header & Ga & Gd & Gs & Gp & Gw & Gm & Gh & Gc & Gsig).
  pose proof (ToWire_text _ _ Gw) as Htext.
  assert (ed25519_Verify (Ed25519Key identity) (header ++ Ciphertext env) (Signature env) = true) as Hver
    by (rewrite Hkey, Gsig, Hpriv; by apply verify_sign).
  assert (IAccountID identity = Hex.EncodeToString (AccountID (EHeader env))) as Hacc' by (by rewrite Ga).
  assert (ID identity = Hex.EncodeToString (DeviceID (EHeader env))) as Hid' by (by rewrite Gd).
  destruct (validateEnvelope_client identity env wire header (mkServerWorld empty_db [] 0) Hacc' Hid' Gw Gc Hver)
    as (e & Hval & Hup & Hhash).
  assert (hex_id (IAccountID identity) /\ hex_id (ID identity)) as [Hx1 Hx2]
    by (rewrite Hacc, Hid; split; eexists; split; done).
  destruct (validateEnvelope_inv _ _ _ _ _ Hx1 Hx2 Hval) as (_ & Hg & Hdw).
  apply ToWire_Ok in Gw as ((_ & _ & _ & _ & _ & Hseq & _) & _ & Hw).
  assert (d_seq e = DeviceSeq (EHeader env)) as He by (by rewrite <- Hup).
  exists wire, e. split_and!; try done.
  - by apply wire_roundtrips.
  - rewrite He. lia.
  - intros w. by eapply validateEnvelope_pure.
  - congruence.
  - congruence.
  - rewrite <- Gp, <- Hup. done.
Qed.

Lemma request_single session identity cp d request :
  session_ok session -> in_step session cp d -> ID identity = device_text session ->
  IAccountID identity = account_text session -> Ed25519Key identity = ed25519_Public (SSigningPrivate session) ->
  request_of cp = Ok request ->
  exists upload, single identity (QEnvelopes request) upload /\ forallb wire_text (QEnvelopes request) = true /\
    same_upload cp upload /\ match upload with Some e => fits identity e d | None => True end.
Proof.
  intros Hs Hin Hid Hacc Hkey H. unfold request_of, round_request in H. cbn in H. unfold same_upload, single.
  destruct (cp_staged cp) as [u|] eqn:Eu; [|injection H as <-; by exists None].
  destruct (is_staged _ _ _ Hin _ Eu) as [Hseq Hg].
  destruct (genuine_validated _ _ _ _ Hs Hid Hacc Hkey Hg) as (wire & e & Hun & Ht & Hpos & Hgen & Hval & He1 & He2 & He3).
  rewrite Hun in H. destruct (_ || _); [done|]. injection H as <-. exists (Some e). cbn. rewrite Ht. split_and!; try done.
  - by exists wire.
  - unfold fits. rewrite Hid, Hacc. destruct (is_chain _ _ _ Hin) as [Hc|(u' & Hu' & Hc)].
    + left. rewrite Hc, He1, He3, Hseq. done.
    + right. assert (u' = u) as -> by congruence. by rewrite Hc, He1, He2.
Qed.

(** The relay's chain after the staged record was stored is the one the client
    commits to. *)
Lemma in_step_commit session cp d d' :
  in_step session cp d -> server_ok d' -> extends d d' ->
  (forall u, cp_staged cp = Some u ->
     chain_end (account_text session) (device_text session) d' = (DeviceSequence u, UEnvelopeHash u)) ->
  (cp_staged cp = None -> chain_end (account_text session) (device_text session) d'
     = chain_end (account_text session) (device_text session) d) ->
  in_step session cp d' /\ in_step session (commit cp) d'.
Proof.
  intros Hin Hok Hext Hsome Hnone. pose proof Hin as [_ (v & Hv & Ht & Ha & Hk) Hst Hch].
  destruct (ext_devices _ _ Hext _ _ Hv) as (v' & Hv' & []).
  assert (exists v, devices d' !! device_text session = Some v /\ token_hash v = digest (SDeviceToken session) /\
    dev_account_id v = account_text session /\ dev_ed25519 v = ed25519_Public (SSigningPrivate session)) as Henr
    by (exists v'; split_and!; congruence).
  unfold commit. destruct (cp_staged cp) as [u|] eqn:Eu.
  - specialize (Hsome u eq_refl). split; split; try done.
    + by rewrite Eu.
    + right. eauto.
    + left. cbn. rewrite Hsome. f_equal. lia.
  - assert (in_step session cp d'); [|done]. split; try done.
    + by rewrite Eu.
    + rewrite (Hnone eq_refl). by rewrite Eu.
Qed.

(** Whoever the relay takes the session for is the device of the session. *)
Lemma authenticate_session session cp w identity w' :
  session_ok session -> in_step session cp (sdb w) ->
  authenticate (str "Bearer " ++ SDeviceToken session) w = (Answer identity, w') ->
  sdb w' = sdb w /\ ID identity = device_text session /\ IAccountID identity = account_text session /\
  Ed25519Key identity = ed25519_Public (SSigningPrivate session) /\ known (sdb w) identity.
Proof.
  intros (_ & _ & _ & Hbearer) Hin H. unfold authenticate in H. rewrite Hbearer in H. cbn [require] in H.
  apply hbind_inv in H as [(tok & w2 & [= <- <-] & H)|(? & [=] & _)].
  apply hbind_inv in H as [(found & w3 & Esql & H)|(? & _ & [=])]. apply require_inv in H as [-> ->].
  apply sql_inv in Esql as [(? & [=] & _)|(o & [= <-] & [= Hfound Hd])].
  split; [done|]. by apply (in_step_authenticated _ cp).
Qed.

(** What the router makes of the request of a round. *)
Lemma route_sync_single session cp request body w answer w' :
  session_ok session -> in_step session cp (sdb w) -> request_of cp = Ok request -> encode_sync request = Ok body ->
  route (mkRequest Client.POST (str "/v1/sync") (str "Bearer " ++ SDeviceToken session) body) w = (answer, w') ->
  in_step session cp (sdb w') /\
  forall status payload, answer = Answer (status, payload) -> exists a, payload = SyncAnswer a /\
    rejected_sequences a = [] /\
    accepted_sequences a = match cp_staged cp with Some u => [DeviceSequence u] | None => [] end /\
    in_step session (commit cp) (sdb w').
Proof.
  intros Hs Hin Hreq Henc H. rewrite route_sync in H. unfold requireAuth in H.
  assert (forall w1, sdb w1 = sdb w -> in_step session cp (sdb w1)) as Hstay by (by intros ? ->).
  apply hbind_inv in H as [(identity & w1 & Eauth & H)|(f & Eauth & ->)].
  2: { apply authenticate_known in Eauth as [Hd _]. split; [by apply Hstay|done]. }
  destruct (authenticate_session _ _ _ _ _ Hs Hin Eauth) as (Hd1 & Hid & Hacc & Hkey & Hknown).
  rewrite <- Hd1 in Hin, Hknown.
  destruct (request_single _ _ _ _ _ Hs Hin Hid Hacc Hkey Hreq) as (upload & Hsingle & Htext & Hsame & Hfit).
  rewrite (request_agrees _ _ Htext Henc) in H. set (input := mkSyncInput _ _ _ _) in H.
  change (QEnvelopes request) with (i_envelopes input) in Hsingle.
  assert (exists r1 w2, syncEnvelopes identity (Some input) w1 = (r1, w2) /\ sdb w' = sdb w2 /\
    forall status payload, answer = Answer (status, payload) -> exists a, r1 = Answer a /\ payload = SyncAnswer a)
    as (r1 & w2 & Esync & -> & Hans).
  { unfold reply in H. apply hbind_inv in H as [(a & w2 & E1 & [= <- <-])|(f & E1 & ->)]; eexists _, _;
      (split; [exact E1|]); (split; [done|]); [|done]. intros ? ? [= <- <-]. eauto. }
  destruct (syncEnvelopes_single _ _ _ _ _ _ (is_sound _ _ _ Hin) Hknown Hsingle Hfit Esync) as (Hext & Hok & Hcase).
  rewrite Hid, Hacc in Hcase. destruct Hcase as [[[f ->] ->]|(a & -> & Hacd & Hrej & Hend)].
  { split; [done|]. intros ? ? (a & [=] & _)%Hans. }
  destruct (in_step_commit session cp (sdb w1) (sdb w2) Hin Hok Hext) as [H1 H2].
  - intros u Hu. unfold same_upload in Hsame. rewrite Hu in Hsame. destruct upload as [e|]; [|done].
    destruct Hsame as (S1 & S2 & _). by rewrite Hend, S1, S2.
  - intros Hn. unfold same_upload in Hsame. rewrite Hn in Hsame. by destruct upload as [e|].
  - split; [done|]. intros ? ? (a' & [= <-] & ->)%Hans. exists a. split_and!; try done. rewrite Hacd.
    unfold same_upload in Hsame. destruct (cp_staged cp) as [u|], upload as [e|]; try done. cbn. by destruct Hsame as [-> _].
Qed.

(** A call of the client through the network to the relay. *)
Lemma relay_call session client lost_request lost_reply cp request w answer w' :
  session_ok session -> in_step session cp (sdb w) -> request_of cp = Ok request ->
  Sync (relay_transport (endpoint client) lost_request lost_reply) client (SDeviceToken session) request w
    = (answer, w') ->
  in_step session cp (sdb w') /\
  forall response, answer = Ok response -> acknowledged response cp /\ in_step session (commit cp) (sdb w').
Proof.
  intros Hs Hin Hreq H. unfold Sync in H. destruct (_ || _) eqn:Eg; [injection H as <- <-; by split|].
  assert (bool_decide (SDeviceToken session = []) = false) as Htok by (by bools; apply bool_decide_false).
  unfold answered in H. destruct (doJSON _ _ _ _ _ _ _ _ _) as [r1 w1] eqn:Ed. injection H as Hr <-.
  apply doJSON_inv in Ed as [[[e ->] ->]|(body & reply & Henc & Htr & Hval)]; [split; [done|by subst]|].
  unfold relay_transport in Htr. cbn [ReqURL ReqMethod ReqAuthorization ReqBody] in Htr.
  destruct (relay_path (endpoint client)) as (target & Htarget & Hpath).
  rewrite Htok, Htarget in Htr. cbn [default] in Htr. cbn zeta in Htr. rewrite Hpath in Htr.
  assert (forall e, reply = Err e -> forall response, answer <> Ok response) as Hlost.
  { intros e -> response ->. destruct r1 as [v|]; [|done]. by destruct (Hval v eq_refl) as (? & ? & _). }
  destruct lost_request; [injection Htr as <- <-; split; [done|]; intros ? ?; by exfalso; eapply Hlost|].
  destruct (route _ w) as [ans w2] eqn:Er. unfold id in Er.
  destruct (route_sync_single _ _ _ _ _ _ _ Hs Hin Hreq Henc Er) as [Hin2 Hans].
  assert (w1 = w2) as -> by (destruct lost_reply; by injection Htr).
  split; [done|]. intros response ->. destruct r1 as [v|e]; [|done].
  destruct (Hval v eq_refl) as (resp & -> & Hst & Hout).
  destruct lost_reply; [done|]. injection Htr as Hresp.
  destruct ans as [[status payload]|f]; subst resp; cbn [ResError ResBody] in Hout;
    specialize (Hout eq_refl); [|by rewrite failure_refused in Hout].
  destruct (Hans _ _ eq_refl) as (a & -> & Hrej & Hacc & Hin3). split; [|done].
  destruct (answer_agrees _ _ _ Hout) as [Ha Hj]. cbn [rbind] in Hr.
  destruct (_ || _) in Hr; [done|]. injection Hr as ->. unfold acknowledged. rewrite Ha, Hacc.
  split; [|done]. rewrite Hrej in Hj. by apply map_eq_nil in Hj.
Qed.

(** ** Theorems *)

(** C18: the upload of a client that is in step with the relay is confirmed: when
    the answer to the request of a round reaches the client, the relay has
    accepted exactly the staged record, rejected nothing, and its chain ends
    with that record; in particular a retry after a lost answer is confirmed
    too, and an honest relay never reports a conflict, a gap or a wrong hash. *)
Theorem upload_confirmed session client lost_request lost_reply cp request w response w' :
  session_ok session -> in_step session cp (sdb w) -> request_of cp = Ok request ->
  Sync (relay_transport (endpoint client) lost_request lost_reply) client (SDeviceToken session) request w
    = (Ok response, w') ->
  acknowledged response cp /\ check_upload (cp_staged cp) response = Ok tt /\
  (forall u, cp_staged cp = Some u ->
     chain_end (account_text session) (device_text session) (sdb w') = (DeviceSequence u, UEnvelopeHash u)).
Proof.
  intros Hs Hin Hreq H. destruct (relay_call _ _ _ _ _ _ _ _ _ Hs Hin Hreq H) as [_ Hack].
  destruct (Hack response eq_refl) as [Ha Hin2]. split; [done|]. split; [by apply check_upload_Ok|].
  intros u Hu. destruct (is_chain _ _ _ Hin2) as [Hc|(u' & Hu' & _)]; unfold commit in *; rewrite Hu in *; [|done].
  cbn in Hc. rewrite Hc. f_equal. lia.
Qed.

Lemma staging_in_step session cp cp1 d : in_step session cp d -> staging session cp cp1 -> in_step session cp1 d.
Proof.
  intros Hin [->|(u & Hn & Hseq & Hg & ->)]; [done|]. pose proof Hin as [H1 H2 H3 H4]. split; try done.
  - intros u' [= <-]. done.
  - left. destruct H4 as [H4|(u' & Hu' & _)]; [done|congruence].
Qed.

Lemma advance_in_step session cp d cursor : in_step session cp d -> in_step session (advance cp cursor) d.
Proof. intros [H1 H2 H3 H4]. by split. Qed.

Lemma round_in_step session client lost_request lost_reply cp w r cp' w' payloads :
  session_ok session -> in_step session cp (sdb w) ->
  round (relay_transport (endpoint client) lost_request lost_reply) client session cp w r cp' w' payloads ->
  in_step session cp' (sdb w').
Proof.
  intros Hs Hin H. destruct H as [e cp1 Hst|e cp1 rq a w2 Hst Hrq Hsy|e cp1 rq resp w2 ps m Hst Hrq Hsy _ _ _
    |e cp1 rq resp w2 ps Hst Hrq Hsy _ _|cp1 rq resp w2 ps acked Hst Hrq Hsy _ _];
    pose proof (staging_in_step _ _ _ _ Hin Hst) as Hin1; [done|..];
    destruct (relay_call _ _ _ _ _ _ _ _ _ Hs Hin1 Hrq Hsy) as [Hin2 Hack]; [done|done|..].
  - by destruct (Hack _ eq_refl).
  - apply advance_in_step. by destruct (Hack _ eq_refl).
Qed.

(** C1: client and relay stay in step.  Starting from a client whose checkpoint
    fits the relay's chain of its device, a round leaves them fitting again,
    whatever statement fails on either side and whether the request, the answer
    or neither is lost: the relay's chain ends where the checkpoint says or
    exactly at the staged upload, so no record is uploaded twice and none is
    skipped. *)
Theorem client_relay_in_step (worker : Worker) (client : Client) store lost_request lost_reply
    (s : Net ServerWorld) r s' cp :
  ValidString (deviceID store) = true -> (forall n, in_i64 (now_at n)) ->
  WClient worker = Some client -> WStore worker = Some store ->
  store_inv store (db (local s)) -> checkpoint store (db (local s)) = Some cp ->
  session_ok (WSession worker) -> in_step (WSession worker) cp (sdb (remote s)) ->
  SyncOnce (relay_transport (endpoint client) lost_request lost_reply) worker s = (r, s') ->
  exists cp', checkpoint store (db (local s')) = Some cp' /\ in_step (WSession worker) cp' (sdb (remote s')).
Proof.
  intros Hdev Hclk Hc Hst Hinv Hcp Hs Hin H.
  destruct (SyncOnce_inv _ store Hdev Hclk _ _ _ _ _ _ Hc Hst Hinv Hcp H) as (_ & cp' & payloads & Hr & Hcp' & _).
  exists cp'. split; [done|]. by eapply round_in_step.
Qed.

End composition.
