(* ===== verification/ClientSample.v ===== *)
(** * A client and a relay at work

    Concrete instances of every parameter: sample primitives and codecs, the
    relay of [ServerProps] with one registered device, a local store with one
    saved phrase, and the network between them.  The theorems about the client
    are applied to it. *)

From S2P Require Import Prelude Encoding Sha256 Unicode Endpoint Crypto Envelope Server ServerFacts ServerProps.
From S2P Require Import Boxes Crdt Phrase LocalStore LocalStoreFacts SyncState StoreProps Client ClientFacts ClientProps ClientRelay.

(** ** Codecs *)

(** A self-delimiting binary format of one type. *)
Record format (T : Type) := mkFormat {
  fput : T -> bytes;
  fget : bytes -> option (T * bytes);
  fget_fput : forall x rest, fget (fput x ++ rest) = Some (x, rest)
}.
Arguments fput {T}.
Arguments fget {T}.
Arguments fget_fput {T}.

Fixpoint split_bits (s : bytes) : option (positive * bytes) :=
  match s with
  | [] => None
  | b :: t =>
      if bool_decide (b = Byte.x02) then Some (xH, t)
      else match split_bits t with
           | Some (q, rest) => Some (if bool_decide (b = Byte.x00) then xO q else xI q, rest)
           | None => None
           end
  end.

Lemma split_put_bits p rest : split_bits (Sample.put_bits p ++ rest) = Some (p, rest).
Proof. induction p as [p IH|p IH|]; cbn; rewrite ?IH; done. Qed.

Definition number : format Z.
Proof.
  refine (mkFormat _ (fun z => Sample.put_bits (encode z))
    (fun s => match split_bits s with
              | Some (p, rest) => match decode p with Some z => Some (z, rest) | None => None end
              | None => None
              end) _).
  intros x rest. by rewrite split_put_bits, decode_encode.
Defined.

Definition blob : format bytes.
Proof.
  refine (mkFormat _ (fun b => fput number (len b) ++ b)
    (fun s => match fget number s with
              | Some (n, rest) => Some (take (Z.to_nat n) rest, drop (Z.to_nat n) rest)
              | None => None
              end) _).
  intros x rest. rewrite <- app_assoc, (fget_fput number). unfold len. rewrite Nat2Z.id.
  by rewrite take_app_length, drop_app_length.
Defined.

Definition both {A B} (a : format A) (b : format B) : format (A * B).
Proof.
  refine (mkFormat _ (fun p => fput a p.1 ++ fput b p.2)
    (fun s => match fget a s with
              | Some (x, rest) => match fget b rest with Some (y, rest) => Some ((x, y), rest) | None => None end
              | None => None
              end) _).
  intros [x y] rest. rewrite <- app_assoc, (fget_fput a), (fget_fput b). done.
Defined.

Definition through {A B} (a : format A) (f : B -> A) (g : A -> B) (H : forall x, g (f x) = x) : format B.
Proof.
  refine (mkFormat _ (fun x => fput a (f x))
    (fun s => match fget a s with Some (x, rest) => Some (g x, rest) | None => None end) _).
  intros x rest. by rewrite (fget_fput a), H.
Defined.

Fixpoint get_many {A} (a : format A) (n : nat) (s : bytes) : option (list A * bytes) :=
  match n with
  | O => Some ([], s)
  | S n => match fget a s with
           | Some (x, rest) => match get_many a n rest with Some (l, rest) => Some (x :: l, rest) | None => None end
           | None => None
           end
  end.

Definition many {A} (a : format A) : format (list A).
Proof.
  refine (mkFormat _ (fun l => fput number (len l) ++ concat (map (fput a) l))
    (fun s => match fget number s with Some (n, rest) => get_many a (Z.to_nat n) rest | None => None end) _).
  intros l rest. rewrite <- app_assoc, (fget_fput number). unfold len. rewrite Nat2Z.id.
  induction l as [|x l IH]; cbn; [done|]. by rewrite <- app_assoc, (fget_fput a), IH.
Defined.

Definition flag : format bool.
Proof. refine (through number (fun b : bool => if b then 1 else 0) (fun z => z =? 1) _). by intros []. Defined.

Definition wire_format : format WireEnvelope.
Proof.
  refine (through (both (both (both number number) (both number number)) (both (both (both blob blob) (both blob blob)) (both blob blob)))
    (fun w => (((WVersion w, WDeviceSeq w), (WKeyEpoch w, WCursor w)),
               (((WDeviceID w, WObjectID w), (WPreviousHash w, WNonce w)), (WCiphertext w, WSignature w))))
    (fun '(((a, c), (e, j)), (((b, d), (f, g)), (h, i))) => mkWire a b c d e f g h i j) _).
  by intros [].
Defined.

Definition request_format : format SyncRequest.
Proof.
  refine (through (both (both number number) (both number (many wire_format)))
    (fun q => ((QCursor q, QAckCursor q), (QLimit q, QEnvelopes q)))
    (fun '((a, b), (c, d)) => mkSyncRequest a b c d) _).
  by intros [].
Defined.

Definition rejection_format : format SyncRejection.
Proof.
  refine (through (both number blob) (fun j => (JDeviceSequence j, JCode j)) (fun '(a, b) => mkSyncRejection a b) _).
  by intros [].
Defined.

Definition response_format : format SyncResponse.
Proof.
  refine (through (both (both (many number) (many rejection_format)) (both (many wire_format) (both number (both flag number))))
    (fun r => ((AcceptedSequences r, RejectedSequences r), (SEnvelopes r, (NextCursor r, (SHasMore r, CurrentKeyEpoch r)))))
    (fun '((a, b), (c, (d, (e, f)))) => mkSyncResponse a b c d e f) _).
  by intros [].
Defined.

Definition header_format : format Header.
Proof.
  refine (through (both (both (both number number) number) (both (both blob blob) (both blob (both blob blob))))
    (fun h => (((Version h, KeyEpoch h), DeviceSeq h),
               ((AccountID h, HObjectID h), (DeviceID h, (PreviousHash h, Nonce h)))))
    (fun '(((v, k), s), ((a, o), (d, (p, n)))) => mkHeader v a o k d s p n) _).
  by intros [].
Defined.

Definition clock_format : format HLC.
Proof.
  refine (through (both number (both number blob)) (fun c => (WallMillis c, (Counter c, Node c)))
    (fun '(w, (c, n)) => mkHLC w c n) _).
  by intros [].
Defined.

(** Maps as their entries; the missing map as a flag. *)
Definition counts_format : format (option (gmap bytes Z)).
Proof.
  refine (through (both flag (many (both blob number)))
    (fun m : option (gmap bytes Z) => (bool_decide (is_Some m), map_to_list (default ∅ m)))
    (fun '(present, l) => if present then Some (list_to_map l) else None) _).
  intros [m|]; cbn; [|done]. by rewrite list_to_map_to_list.
Defined.

Definition state_format : format PhraseState.
Proof.
  refine (through (both (both blob counts_format) (both (both flag clock_format) (both flag (both clock_format number))))
    (fun s => ((ObjectID s, Counts s), ((Value (Pinned s), Clock (Pinned s)),
               (Present (presence s), (PClock (presence s), Generation (presence s))))))
    (fun '((o, c), ((v, k), (p, (q, g)))) => mkPhraseState o c (mkLWWBool v k) (mkPresence p q g)) _).
  by intros [? ? [] []].
Defined.

Definition payload_format : format PhrasePayload.
Proof.
  refine (through (both (both blob blob) (both blob (both number state_format)))
    (fun p => ((PText p, PPinyin p), (PSource p, (PLastUsedDay p, State p))))
    (fun '((t, y), (s, (d, st))) => mkPayload t y s d st) _).
  by intros [].
Defined.

(** A whole text in a format. *)
Definition read_all {T} (f : format T) (b : bytes) : option T :=
  match fget f b with Some (x, _) => Some x | None => None end.

Lemma read_write {T} (f : format T) x : read_all f (fput f x) = Some x.
Proof. unfold read_all. rewrite <- (app_nil_r (fput f x)). by rewrite (fget_fput f). Qed.

#[export] Instance header_codec : Codec Header := {|
  Marshal h := Ok (fput header_format h);
  Unmarshal b := match read_all header_format b with Some h => Ok h | None => fail "cbor: cannot unmarshal" end;
  encodable _ := true
|}.

(** A payload decoder that keeps the ranges of the Go types. *)
Definition hlc_check (c : HLC) : bool :=
  ValidString (Node c) && (MinInt64 <=? WallMillis c) && (WallMillis c <=? MaxInt64)
  && (0 <=? Counter c) && (Counter c <=? MaxUint32).

Definition payload_check (p : PhrasePayload) : bool :=
  let entries := map_to_list (default ∅ (Counts (State p))) in
  forallb (fun e => ValidString e.1 && (0 <=? e.2) && (e.2 <=? MaxUint64)) entries
  && (0 <=? Generation (presence (State p))) && (Generation (presence (State p)) <=? MaxUint64)
  && ValidString (PText p) && ValidString (PPinyin p) && ValidString (PSource p)
  && ValidString (ObjectID (State p)) && hlc_check (Clock (Pinned (State p))) && hlc_check (PClock (presence (State p))).

Lemma hlc_check_ok c : hlc_check c = true -> hlc_ok c.
Proof. unfold hlc_check, hlc_ok, in_i64, in_u32. intros H. bools. split_and!; done. Qed.

Lemma payload_check_ok p : payload_check p = true -> payload_input_ok p.
Proof.
  unfold payload_check. intros H. bools.
  assert (forall d c, default ∅ (Counts (State p)) !! d = Some c -> ValidString d = true /\ in_u64 c) as He.
  { intros d c Hd. match goal with H : forallb _ _ = true |- _ => rewrite forallb_forall in H;
      specialize (H (d, c) ltac:(by apply list_elem_of_In, elem_of_map_to_list)) end.
    cbn in *. bools. by split. }
  unfold payload_input_ok, state_utf8. split_and!; try done.
  - intros d c Hd. by eapply He.
  - intros d [c Hc]. by eapply He.
  - by apply hlc_check_ok.
  - by apply hlc_check_ok.
Qed.

#[export] Instance payload_codec : Codec PhrasePayload := {|
  Marshal p := Ok (fput payload_format p);
  Unmarshal b :=
    match read_all payload_format b with
    | Some p => if payload_check p then Ok p else fail "cbor: cannot unmarshal"
    | None => fail "cbor: cannot unmarshal"
    end;
  encodable := payload_check
|}.

#[export] Instance payload_decoder : PayloadDecoder payload_codec.
Proof.
  intros b p H. unfold Unmarshal, payload_codec in H. destruct (read_all payload_format b) as [q|]; [|done].
  destruct (payload_check q) eqn:E; [|done]. injection H as <-. by apply payload_check_ok.
Qed.

(** The JSON texts of both sides. *)
Definition response_of (a : sync_answer) : SyncResponse :=
  mkSyncResponse (accepted_sequences a)
    (map (fun j => mkSyncRejection (r_seq j) (str (r_code j))) (rejected_sequences a))
    (a_envelopes a) (next_cursor a) (has_more a) (current_key_epoch a).

#[export] Instance client_json : ClientJson := {|
  encode_registration _ := Ok [];
  encode_keyring _ _ := Ok [];
  encode_sync q := Ok (fput request_format q);
  decode_account _ := None;
  decode_epoch _ := None;
  decode_keyrings _ := None;
  decode_sync b := match read_all response_format b with Some r => Some (r, true) | None => None end;
  decode_error _ := None;
  marshal_wire w := Ok (fput wire_format w);
  unmarshal_wire b := match read_all wire_format b with Some w => Ok w | None => fail "unexpected end of JSON input" end
|}.

#[export] Instance relay_reads : ServerJson := {|
  as_account := @as_account sample_json;
  as_join := @as_join sample_json;
  as_keyring_box := @as_keyring_box sample_json;
  as_secret := @as_secret sample_json;
  as_sync b := match read_all request_format b with
               | Some q => Some (mkSyncInput (QCursor q) (QAckCursor q) (QLimit q) (QEnvelopes q))
               | None => None
               end;
  as_keyring := @as_keyring sample_json
|}.

#[export] Instance relay_writes : RelayJson := {|
  encode_reply p := match p with SyncAnswer a => fput response_format (response_of a) | _ => [] end;
  encode_failure _ := []
|}.

#[export] Instance sample_agreement : WireAgreement client_json relay_reads relay_writes.
Proof.
  split.
  - unfold marshal_wire, unmarshal_wire, client_json. intros wire b _ H.
    assert (b = fput wire_format wire) as -> by congruence. by rewrite read_write.
  - unfold encode_sync, as_sync, client_json, relay_reads. intros q b _ H.
    assert (b = fput request_format q) as -> by congruence. by rewrite read_write.
  - unfold decode_sync, encode_reply, client_json, relay_writes. intros a response eof. rewrite read_write.
    intros [= <- <-]. split; [done|]. cbn. by rewrite map_map.
  - done.
Qed.

(** ** A round *)

Section run.
#[local] Existing Instance Sample.primitives.
#[local] Existing Instance Sample.primitive_laws.
#[local] Existing Instance ascii_tables.
#[local] Existing Instance StoreProps.quiet.
#[local] Existing Instance StoreProps.phrase_codec.
#[local] Existing Instance StoreProps.phrase_codec_laws.
#[local] Existing Instance ServerProps.sample_env.

Definition sample_client : Client := mkClient (mkEndpoint
  (mkURL (str "https") false (str "relay.example") (str "relay.example") [] [] false [] [])).

Definition sample_session : Session :=
  mkSession (replicate 16 Byte.x01) Phrase.sample_device (Base64.EncodeToString (replicate 32 Byte.x04)) 1
    {[ 1 := sample_key ]} (NewKeyFromSeed sample_seed)
    {[ Hex.EncodeToString Phrase.sample_device := sample_public ]}.

Definition sample_worker : Worker := mkWorker (Some sample_client) (Some sample_store) sample_session.

(** One account with the device at the relay. *)
Definition registered : ServerWorld := (route (SE := sample_env) (SJ := sample_json) (request POST (str "/v1/accounts")) world0).2.

(** One saved phrase on the device. *)
Definition before : Net ServerWorld := mkNet saved registered (replicate 8000 Byte.x07).

Definition deliver (lost_request lost_reply : bool) : HttpRequest -> ServerWorld -> result HttpResponse * ServerWorld :=
  relay_transport (endpoint sample_client) lost_request lost_reply.

(** A round whose answer is lost, and the round after it. *)
Definition unheard : result Result * Net ServerWorld := SyncOnce (deliver false true) sample_worker before.
Definition retried : result Result * Net ServerWorld := SyncOnce (deliver false false) sample_worker unheard.2.

Definition cp0 : Checkpoint := mkCheckpoint 0 1 [] None.

Lemma cp0_saved : checkpoint sample_store (db (local before)) = Some cp0.
Proof. vm_compute. reflexivity. Qed.

Lemma sample_session_ok : session_ok sample_session.
Proof.
  split; [reflexivity|]. split; [reflexivity|]. split; [by exists sample_seed|]. vm_compute. reflexivity.
Qed.

Lemma registered_sound : server_ok (sdb registered).
Proof.
  apply reachable_ok. unfold reachable. apply rtc_once.
  refine (st_route _ _ (request POST (str "/v1/accounts")) world0 _ registered _). apply surjective_pairing.
Qed.

Lemma registered_device :
  match devices (sdb registered) !! device_text sample_session with
  | Some v => bool_decide (token_hash v = digest (SDeviceToken sample_session))
              && bool_decide (dev_account_id v = account_text sample_session)
              && bool_decide (dev_ed25519 v = ed25519_Public (SSigningPrivate sample_session))
  | None => false
  end = true.
Proof. vm_compute. reflexivity. Qed.

Lemma before_in_step : in_step sample_session cp0 (sdb (remote before)).
Proof.
  split.
  - exact registered_sound.
  - pose proof registered_device as H. cbn [remote before].
    destruct (devices (sdb registered) !! device_text sample_session) as [v|]; [|discriminate H].
    exists v. split; [reflexivity|]. bools. by split_and!.
  - intros u Hu. discriminate Hu.
  - left. vm_compute. reflexivity.
Qed.

Lemma sync_round_refines_witness :
  store_inv sample_store (db (local retried.2)) /\ exists cp cp' payloads,
    round (deliver false false) sample_client sample_session cp (remote unheard.2) retried.1
      cp' (remote retried.2) payloads /\ checkpoint sample_store (db (local retried.2)) = Some cp'.
Proof.
  destruct (sync_round_refines (deliver false true) sample_store sample_text quiet_readings sample_worker sample_client
    before unheard.1 unheard.2 cp0 eq_refl eq_refl saved_inv cp0_saved (surjective_pairing _))
    as (Hinv & cp1 & ps & _ & Hcp & _).
  destruct (sync_round_refines (deliver false false) sample_store sample_text quiet_readings sample_worker sample_client
    unheard.2 retried.1 retried.2 cp1 eq_refl eq_refl Hinv Hcp (surjective_pairing _))
    as (Hinv2 & cp2 & ps2 & Hround & Hcp2 & _).
  split; [exact Hinv2|]. exists cp1, cp2, ps2. split; [exact Hround|exact Hcp2].
Defined.

Lemma sync_round_checkpoint_witness :
  exists cp', checkpoint sample_store (db (local unheard.2)) = Some cp' /\ 0 <= cp_cursor cp' /\
    (forall e, unheard.1 = Err e -> cp_cursor cp' = 0).
Proof.
  destruct (sync_round_checkpoint (deliver false true) sample_store sample_text quiet_readings sample_worker sample_client
    before unheard.1 unheard.2 cp0 eq_refl eq_refl saved_inv cp0_saved (surjective_pairing _))
    as (cp' & Hcp & Hle & Herr & _).
  exists cp'. split; [exact Hcp|]. split; [exact Hle|exact Herr].
Defined.

Definition drained : (list Result * option error) * Net ServerWorld := SyncUntilIdle (deliver false false) sample_worker 4 before.

Lemma sync_until_idle_bounded_witness :
  ready sample_store (db (local drained.2)) /\ len drained.1.1 <= 4 /\
  (drained.1.2 = None -> outbox (db (local drained.2)) = []).
Proof.
  destruct (sync_until_idle_bounded (deliver false false) sample_store sample_text quiet_readings sample_worker sample_client
    4 before drained.1.1 drained.1.2 drained.2 eq_refl eq_refl) as (Hr & _ & Hl & Hidle).
  - split; [exact saved_inv|]. exists cp0. exact cp0_saved.
  - change (drained = (drained.1.1, drained.1.2, drained.2)). by destruct drained as [[? ?] ?].
  - split; [exact Hr|]. split; [exact Hl|]. intros Hn. destruct (Hidle Hn) as (result & _ & _ & Ho). exact Ho.
Defined.

Lemma client_relay_in_step_witness :
  exists cp', checkpoint sample_store (db (local unheard.2)) = Some cp' /\
    in_step sample_session cp' (sdb (remote unheard.2)).
Proof.
  exact (client_relay_in_step sample_worker sample_client sample_store false true before unheard.1 unheard.2 cp0
    sample_text quiet_readings eq_refl eq_refl saved_inv cp0_saved sample_session_ok before_in_step (surjective_pairing _)).
Defined.

(** A round that fails because its request, or only its answer, was lost leaves
    the upload staged and both sides in step. *)
Definition failed_round (lost_request lost_reply : bool) : Net ServerWorld :=
  (SyncOnce (deliver lost_request lost_reply) sample_worker before).2.

Lemma failed_round_in_step lost_request lost_reply :
  let s := failed_round lost_request lost_reply in
  exists cp, checkpoint sample_store (db (local s)) = Some cp /\ in_step sample_session cp (sdb (remote s)).
Proof.
  destruct (SyncOnce_inv (deliver lost_request lost_reply) sample_store sample_text quiet_readings sample_worker sample_client
    before _ _ cp0 eq_refl eq_refl saved_inv cp0_saved (surjective_pairing _)) as (_ & cp & payloads & Hr & Hcp & _).
  exists cp. split; [exact Hcp|].
  exact (round_in_step _ _ _ _ _ _ _ _ _ _ sample_session_ok before_in_step Hr).
Qed.

(** The end of the device's chain at the relay. *)
Definition relay_end (s : Net ServerWorld) : Z * bytes :=
  chain_end (account_text sample_session) (device_text sample_session) (sdb (remote s)).

(** The next request of a device with a staged upload is answered, by a relay
    whose chain of the device has [n] records. *)
Definition heard (n : Z) (s : Net ServerWorld) : bool :=
  (fun local remote =>
     ((chain_end (account_text sample_session) (device_text sample_session) (sdb remote)).1 =? n) &&
     match checkpoint sample_store (db local) with
     | Some cp =>
         match cp_staged cp, request_of cp with
         | Some _, Ok rq =>
             match Sync (deliver false false) sample_client (SDeviceToken sample_session) rq remote with
             | (Ok _, _) => true
             | _ => false
             end
         | _, _ => false
         end
     | None => false
     end) (local s) (remote s).

Lemma heard_inv n s : heard n s = true ->
  (relay_end s).1 = n /\
  exists cp u rq response w, checkpoint sample_store (db (local s)) = Some cp /\ cp_staged cp = Some u /\
    request_of cp = Ok rq /\
    Sync (deliver false false) sample_client (SDeviceToken sample_session) rq (remote s) = (Ok response, w).
Proof.
  unfold heard, relay_end. cbv beta. intros [Hn%Z.eqb_eq H]%andb_true_iff. split; [done|].
  destruct (checkpoint _ _) as [cp|]; [|done].
  destruct (cp_staged cp) as [u|] eqn:Hu; [|done]. destruct (request_of cp) as [rq|] eqn:Hrq; [|done].
  destruct (Sync _ _ _ _ _) as [[response|e] w] eqn:E; [|done]. by exists cp, u, rq, response, w.
Qed.

Definition confirmation (s : Net ServerWorld) : Prop :=
  exists cp u rq response w, checkpoint sample_store (db (local s)) = Some cp /\ cp_staged cp = Some u /\
    request_of cp = Ok rq /\
    Sync (deliver false false) sample_client (SDeviceToken sample_session) rq (remote s) = (Ok response, w) /\
    acknowledged response cp /\ check_upload (Some u) response = Ok tt /\
    chain_end (account_text sample_session) (device_text sample_session) (sdb w) = (DeviceSequence u, UEnvelopeHash u).

(** The record is confirmed when the relay first sees it, after a lost request,
    and when it is sent a second time, after a lost answer. *)
Lemma upload_confirmed_witness :
  ((relay_end (failed_round true false)).1 = 0 /\ confirmation (failed_round true false)) /\
  ((relay_end (failed_round false true)).1 = 1 /\ confirmation (failed_round false true)).
Proof.
  assert (forall n lost_request lost_reply, heard n (failed_round lost_request lost_reply) = true ->
    (relay_end (failed_round lost_request lost_reply)).1 = n /\ confirmation (failed_round lost_request lost_reply)) as Hboth.
  { intros n lost_request lost_reply H.
    destruct (heard_inv _ _ H) as (Hn & cp & u & rq & response & w & Hcp & Hu & Hrq & E). split; [exact Hn|].
    destruct (failed_round_in_step lost_request lost_reply) as (cp' & Hcp' & Hin). cbv zeta in Hcp', Hin.
    rewrite Hcp in Hcp'. injection Hcp' as <-.
    destruct (upload_confirmed sample_session sample_client false false cp rq (remote (failed_round lost_request lost_reply))
      response w sample_session_ok Hin Hrq E) as (Hack & Hok & Hend).
    rewrite Hu in Hok. exists cp, u, rq, response, w. split_and!; auto. }
  split; apply Hboth; vm_compute; reflexivity.
Defined.

(** *** A relay that delivers one envelope *)

Definition remote_envelope : Envelope :=
  match Seal sample_key (mkHeader 0 (replicate 16 Byte.x01) sample_oid 1 Phrase.sample_device 1 [] [])
          remote_payload (NewKeyFromSeed sample_seed) (replicate 1100 Byte.x07) with
  | Ok (env, _) => env
  | Err _ => mkEnvelope (mkHeader 0 [] [] 0 [] 0 [] []) [] []
  end.

Definition delivery : HttpResponse :=
  match ToWire remote_envelope with
  | Ok w => mkHttpResponse 200 (fput response_format (mkSyncResponse [] []
              [mkWire (WVersion w) (Hex.EncodeToString Phrase.sample_device) (WDeviceSeq w) (WObjectID w) (WKeyEpoch w)
                 (WPreviousHash w) (WNonce w) (WCiphertext w) (WSignature w) 7] 7 false 1)) None
  | Err _ => mkHttpResponse 500 [] None
  end.

Definition fresh : Net unit := mkNet sample_world tt [].
Definition downloaded : result Result * Net unit := SyncOnce (fun _ _ => (Ok delivery, tt)) sample_worker fresh.

Lemma downloaded_phrase :
  bool_decide (is_Some (abs sample_store (db (local downloaded.2)) !! sample_oid)) = true.
Proof. vm_compute. reflexivity. Qed.

Lemma cp0_fresh : checkpoint sample_store (db (local fresh)) = Some cp0.
Proof. vm_compute. reflexivity. Qed.

Lemma relay_cannot_inject_witness :
  exists payload, trusted sample_session payload /\ validatePayloadObject payload (idKey sample_store) = Ok sample_oid.
Proof.
  refine (proj2 (relay_cannot_inject _ sample_store sample_text quiet_readings sample_worker
    sample_client fresh downloaded.1 downloaded.2 cp0 sample_oid eq_refl eq_refl sample_world_inv cp0_fresh
    (surjective_pairing _) _)).
  intros Heq. pose proof downloaded_phrase as Hd. rewrite Heq in Hd. vm_compute in Hd. discriminate Hd.
Defined.
End run.
