(* ===== verification/Agent.v ===== *)
(** * The desktop agent ([desktopagent/agent.go], [desktopagent/secret_store.go])

    The agent loads the credential bundle from the secret store of the operating
    system, opens the encrypted database, builds a session and drains the queue
    with the sync worker.  The secret store and the relay calls of account
    creation are interfaces of the source ([SecretStore], [AccountRelay]): they
    are records of operations over a state of their own, and the HTTP client is
    an instance of the latter. *)

From S2P Require Import Prelude Encoding Unicode Bech32m Endpoint Crypto Envelope Boxes Credentials.
From S2P Require Import Crdt Phrase LocalStore SyncState Client.

(** ** Interfaces *)

Definition ErrSecretNotFound : error := errors_New "YunPin credential not found".
Definition ErrNotExist : error := errors_New "file does not exist".

Record SecretStore (S : Type) := mkSecretStore {
  Load : bytes -> S -> result bytes * S;
  Save : bytes -> bytes -> S -> result unit * S
}.
Arguments Load {S}.
Arguments Save {S}.
Arguments mkSecretStore {S}.

(** What a secret store promises: a record that was saved is what is loaded. *)
Class SecretLaws {S} (secrets : SecretStore S) : Prop :=
  load_saved : forall profile value s s',
    Save secrets profile value s = (Ok tt, s') -> (Load secrets profile s').1 = Ok value.

Record AccountRelay (R : Type) := mkAccountRelay {
  relay_CreateAccount : AccountRegistration -> R -> result AccountCredentials * R;
  relay_PutKeyring : bytes -> Z -> SealedBox -> R -> result unit * R
}.
Arguments relay_CreateAccount {R}.
Arguments relay_PutKeyring {R}.
Arguments mkAccountRelay {R}.

(** The HTTP client as an account relay. *)
Definition client_relay `{UnicodeTables} `{ClientJson} {R}
    (transport : HttpRequest -> R -> result HttpResponse * R) (client : Client) : AccountRelay R :=
  mkAccountRelay (CreateAccount transport client) (PutKeyring transport client).

(** ** Profiles *)

Definition profile_character (r : Z) : bool :=
  ((97 <=? r) && (r <=? 122)) || ((65 <=? r) && (r <=? 90)) || ((48 <=? r) && (r <=? 57))
  || (r =? 45) || (r =? 95) || (r =? 46).

Definition validateProfile (profile : bytes) : result unit :=
  if (len profile <? 1) || (len profile >? 64) then
    fail "profile must contain between 1 and 64 characters"
  else if negb (forallb (fun '(character, _) => profile_character character) (runes profile)) then
    fail "profile contains an unsafe character"
  else Ok tt.

(** ** Computations of the agent *)

(** The secret store, the local database with the random source, and the remote
    state. *)
Record Desktop (S R : Type) := mkDesktop { vault : S; net : Net R }.
Arguments mkDesktop {S R}.
Arguments vault {S R}.
Arguments net {S R}.

Definition D (S R A : Type) : Type := Desktop S R -> result A * Desktop S R.

Definition dret {S R A} (a : A) : D S R A := fun s => (Ok a, s).
Definition dlift {S R A} (r : result A) : D S R A := fun s => (r, s).
Definition dbind {S R A B} (m : D S R A) (f : A -> D S R B) : D S R B := fun s =>
  match m s with (Ok a, s') => f a s' | (Err e, s') => (Err e, s') end.
Definition in_vault {S R A} (m : S -> result A * S) : D S R A := fun s =>
  let '(r, v) := m (vault s) in (r, mkDesktop v (net s)).
Definition in_net {S R A} (m : W R A) : D S R A := fun s =>
  let '(r, n) := m (net s) in (r, mkDesktop (vault s) n).

(** [fmt.Errorf(format, err)] around a failing call. *)
Definition dwrap {S R A} (format : string) (m : D S R A) : D S R A := fun s =>
  match m s with (Err e, s') => (Err (Errorf_w format e), s') | done => done end.

Declare Scope agent_scope.
Delimit Scope agent_scope with agent.
Notation "'run!' x := m 'in' k" := (dbind m (fun x => k))
  (at level 10, x pattern, m at level 100, k at level 200) : agent_scope.
#[global] Open Scope agent_scope.

(** ** Sessions *)

(** Hexadecimal texts of different devices differ, so the order in which the
    table is walked does not matter. *)
Definition sessionFromBundle `{Primitives} (bundle : CredentialBundleV1) : Session :=
  mkSession (BAccountID bundle) (BDeviceID bundle) (BDeviceToken bundle) (BCurrentEpoch bundle)
    (BEpochKeys bundle) (NewKeyFromSeed (BSigningSeed bundle))
    (kmap Hex.EncodeToString (BVerificationKeys bundle)).

Definition zeroBytes (value : bytes) : bytes := replicate (length value) Byte.x00.

(** Every table entry is cleared and deleted; the epoch number stays. *)
Definition zeroSession (session : Session) : Session :=
  mkSession (zeroBytes (SAccountID session)) (zeroBytes (SessionDeviceID session)) [] (SKeyEpoch session)
    (fold_left (fun keys epoch => delete epoch (alter zeroBytes epoch keys))
       (map fst (map_to_list (SEpochKeys session))) (SEpochKeys session))
    (zeroBytes (SSigningPrivate session))
    (fold_left (fun keys device => delete device (alter zeroBytes device keys))
       (map fst (map_to_list (SVerificationKeys session))) (SVerificationKeys session)).

(** ** Account creation *)

Record InitAccountOptions (S : Type) := mkInitOptions {
  OSecrets : option (SecretStore S);
  OProfile : bytes;
  ODatabasePath : bytes;
  ORandom : bool;  (* whether a random source is given *)
  OInitializeStore : option (bytes -> bytes -> bytes -> bytes -> M unit)
}.
Arguments mkInitOptions {S}.
Arguments OSecrets {S}.
Arguments OProfile {S}.
Arguments ODatabasePath {S}.
Arguments ORandom {S}.
Arguments OInitializeStore {S}.

Record InitAccountResult := mkInitResult { AccountIDHex : bytes; RecoveryKeyText : bytes }.

Definition preflightDatabasePath `{Files} (path : bytes) : result unit :=
  if bool_decide (path = []) || negb (IsAbs path) then fail "local database path must be absolute"
  else match Lstat path with
  | Ok _ => fail "local database already exists"
  | Err e =>
      if negb (errors_Is e ErrNotExist) then Err (Errorf_w "inspect local database path: %w" e) else Ok tt
  end.

(** [MkdirAll] of the directory of a path. *)
Class Directories := make_directory : bytes -> result unit.

Definition initializeEncryptedStore `{Environment} `{UnicodeTables} `{Files} `{Directories}
    (path dataKey objectIDKey deviceID : bytes) : M unit :=
  do! _ := lift (preflightDatabasePath path) in
  do! _ := wrap_error "create local database directory: %w" (lift (make_directory path)) in
  do! _ := OpenForDevice path dataKey objectIDKey deviceID in
  Close.

(** Reads of the given lengths, in this order. *)
Fixpoint fillRandom (destinations : list Z) (source : bytes) : result (list bytes * bytes) :=
  match destinations with
  | [] => Ok ([], source)
  | size :: rest =>
      match ReadFull size source with
      | Err e => Err (Errorf_w "generate account secret: %w" e)
      | Ok (value, source) =>
          let! (values, source) := fillRandom rest source in
          Ok (value :: values, source)
      end
  end.

Definition InitAccount {S R} : D S R InitAccountResult :=
  dlift (fail "account creation is disabled until the relay supports rollback-safe provisioning").

(** A slice copied into an array of 16 bytes when the length fits. *)
Definition fixed_id (id : bytes) : bytes := if len id =? 16 then id else replicate 16 Byte.x00.

(** [copy] of a slice into an array of [size] bytes. *)
Definition copy_into (size : nat) (value : bytes) : bytes :=
  take size value ++ replicate (size - length value) Byte.x00.

(** The credential bundle of a new account. *)
Definition new_bundle (account : AccountCredentials) (keys : DeviceKeys)
    (localDataKey objectIDKey epochKey : bytes) : CredentialBundleV1 :=
  let device := fixed_id (ADeviceID account) in
  mkBundle CredentialBundleVersion (fixed_id (AAccountID account)) device (ADeviceToken account)
    (copy_into 32 (take 32 (Ed25519Private keys))) (copy_into 32 (X25519Private keys))
    (copy_into 32 localDataKey) (copy_into 32 objectIDKey) 1
    {[ 1 := copy_into 32 epochKey ]} {[ device := copy_into 32 (Ed25519Public keys) ]}.

Section provisioning.
Context `{E : Environment} `{P : Primitives} `{U : UnicodeTables} `{CR : Codec RecoveryPackage}.
Context `{FS : Files} `{DIR : Directories} {S R : Type}.

(** Nothing is saved for the profile yet. *)
Definition preflight_profile (secrets : SecretStore S) (profile : bytes) : D S R unit := fun s =>
  let '(r, v) := Load secrets profile (vault s) in
  (match r with
   | Ok _ => fail "profile is already initialized"
   | Err e => if negb (errors_Is e ErrSecretNotFound) then Err (Errorf_w "preflight OS credential store: %w" e)
              else Ok tt
   end, mkDesktop v (net s)).

Definition initAccountForSyntheticProtocolTest (relay : option (AccountRelay R)) (options : InitAccountOptions S)
    : D S R InitAccountResult :=
  match relay, OSecrets options with
  | Some relay, Some secrets =>
      run! _ := dlift (validateProfile (OProfile options)) in
      run! _ := preflight_profile secrets (OProfile options) in
      if negb (ORandom options) then dlift (fail "cryptographic random source is required")
      else
      run! initializer :=
        match OInitializeStore options with
        | Some initializer => dret initializer
        | None =>
            run! _ := dlift (preflightDatabasePath (ODatabasePath options)) in
            dret initializeEncryptedStore
        end in
      run! keys := dwrap "generate device keys: %w" (in_net (on_random NewDeviceKeys)) in
      run! secret := in_net (on_random (fillRandom [32; 32; 32; 32; 32])) in
      match secret with
      | [recoveryKey; epochKey; objectIDKey; localDataKey; deviceNameCiphertext] =>
          run! (_, recoveryAuthentication) := dlift (DeriveRecoveryKeys recoveryKey) in
          run! account := dwrap "create sync account: %w" (in_net (on_network (relay_CreateAccount relay
            (mkAccountRegistration recoveryAuthentication
               (mkDeviceRegistration deviceNameCiphertext (Ed25519Public keys) (X25519Public keys)))))) in
          run! keyring := in_net (on_random (SealRecoveryPackage recoveryKey
            (mkRecoveryPackage (AAccountID account) 1 epochKey objectIDKey))) in
          run! _ := dwrap "store recovery keyring: %w"
            (in_net (on_network (relay_PutKeyring relay (ADeviceToken account) 1 keyring))) in
          run! _ := dwrap "initialize encrypted local database: %w"
            (in_net (on_store (initializer (ODatabasePath options) localDataKey objectIDKey
                                 (Hex.EncodeToString (ADeviceID account))))) in
          run! encoded := dwrap "assemble device credential: %w"
            (dlift (EncodeCredentialBundle (new_bundle account keys localDataKey objectIDKey epochKey))) in
          run! _ := dwrap "commit device credential: %w" (in_vault (Save secrets (OProfile options) encoded)) in
          run! recoveryText := dlift (EncodeRecoveryKey recoveryKey) in
          dret (mkInitResult (Hex.EncodeToString (AAccountID account)) recoveryText)
      | _ => dlift (fail "cryptographic random source is required")
      end
  | _, _ => dlift (fail "account relay and OS secret store are required")
  end.

End provisioning.

(** ** The agent *)

Record Agent (S : Type) := mkAgent {
  Secrets : option (SecretStore S); Profile : bytes; EndpointConfigPath : bytes; DatabasePath : bytes;
  MaxRounds : Z
}.
Arguments mkAgent {S}.
Arguments Secrets {S}.
Arguments Profile {S}.
Arguments EndpointConfigPath {S}.
Arguments DatabasePath {S}.
Arguments MaxRounds {S}.

Record Status := mkStatus {
  Ready : bool; CredentialVersion : Z; EndpointConfigured : bool; DatabasePresent : bool
}.

Record SyncSummary := mkSummary { Rounds : Z; SumUploaded : Z; SumDownloaded : Z; SumCursor : Z }.

Definition loadBundle `{Primitives} {S} (agent : Agent S) (v : S) : result CredentialBundleV1 * S :=
  match Secrets agent with
  | None => (fail "OS secret store is required", v)
  | Some secrets =>
      match validateProfile (Profile agent) with
      | Err e => (Err e, v)
      | Ok _ =>
          let '(r, v) := Load secrets (Profile agent) v in
          (let! encoded := r in DecodeCredentialBundle encoded, v)
      end
  end.

Definition agent_Status `{Primitives} `{UnicodeTables} `{UrlParser} `{Files} `{ConfigJson} {S}
    (agent : Agent S) (v : S) : result Status * S :=
  let '(r, v) := loadBundle agent v in
  (let! bundle := r in
   let! _ := LoadEndpointConfig (EndpointConfigPath agent) in
   if bool_decide (DatabasePath agent = []) || negb (IsAbs (DatabasePath agent)) then
     fail "encrypted local database path must be absolute"
   else match Lstat (DatabasePath agent) with
   | Err e => Err (Errorf_w "inspect encrypted local database: %w" e)
   | Ok info =>
       if negb (IsRegular info) || IsSymlink info then fail "encrypted local database must be a regular file"
       else Ok (mkStatus true (BVersion bundle) true true)
   end, v).

(** The sums of a run; there are at most 1024 rounds of at most 256 envelopes. *)
Definition add_result (summary : SyncSummary) (result : Result) : SyncSummary :=
  mkSummary (Rounds summary) (SumUploaded summary + (if Uploaded result then 1 else 0))
    (SumDownloaded summary + Downloaded result) (RCursor result).

Definition summarize (results : list Result) : SyncSummary :=
  fold_left add_result results (mkSummary (len results) 0 0 0).

Section agent.
Context `{E : Environment} `{P : Primitives} `{U : UnicodeTables} `{J : Codec Phrase}.
Context `{CH : Codec Header} `{CP : Codec PhrasePayload} `{CJ : ClientJson}.
Context `{UP : UrlParser} `{FS : Files} `{CF : ConfigJson} {S R : Type}.
Variable transport : HttpRequest -> R -> result HttpResponse * R.

(** The worker on an open store; [defer store.Close()] runs whatever happened,
    and its error is dropped. *)
Definition drain (worker : Worker) (maxRounds : Z) : W R SyncSummary := fun s =>
  let '((results, err), s) := SyncUntilIdle transport worker maxRounds s in
  let '(_, s) := on_store Close s in
  (match err with Some e => Err e | None => Ok (summarize results) end, s).

Definition agent_SyncOnce (agent : Agent S) : D S R SyncSummary :=
  run! bundle := in_vault (loadBundle agent) in
  run! endpoint := dlift (LoadEndpointConfig (EndpointConfigPath agent)) in
  if bool_decide (DatabasePath agent = []) || negb (IsAbs (DatabasePath agent)) then
    dlift (fail "encrypted local database path must be absolute")
  else
  if match Lstat (DatabasePath agent) with
     | Err _ => true
     | Ok info => negb (IsRegular info) || IsSymlink info
     end then dlift (fail "encrypted local database must be an existing regular file")
  else
  run! store := in_net (on_store (OpenForDevice (DatabasePath agent) (BLocalDataKey bundle)
                                    (BObjectIDKey bundle) (DeviceIDHex bundle))) in
  let session := sessionFromBundle bundle in
  let maxRounds := if MaxRounds agent =? 0 then 32 else MaxRounds agent in
  in_net (drain (mkWorker (Some (mkClient endpoint)) (Some store) session) maxRounds).

End agent.
