(* ===== verification/AgentProps.v ===== *)
(** * Properties of the desktop agent

    The session made of stored credentials is always one the worker and the
    relay accept; a run of the agent keeps the store sound and its summary tells
    what happened to the checkpoint; a provisioned device can be recovered. *)

From S2P Require Import Prelude Encoding Unicode Bech32m Endpoint Crypto Envelope Boxes Credentials.
From S2P Require Import Crdt Phrase LocalStore LocalStoreFacts SyncState StoreProps Server.
From S2P Require Import Client ClientFacts ClientProps ClientRelay Agent.

(** ** Sessions *)

#[local] Existing Instance hex_encode_inj.

(** A token of the relay's alphabet is plain ASCII without spaces. *)
Lemma token_ascii c : token_character c = true -> 45 <= u8 c < 128.
Proof. unfold token_character. rewrite !orb_true_iff, !andb_true_iff. lia. Qed.

Lemma drop_spaces_none l : Forall (fun x : Z * bytes => IsSpace x.1 = false) l -> drop_spaces l = l.
Proof. destruct 1 as [|[r c] l Hx _]; [done|]. cbn in *. by rewrite Hx. Qed.

Lemma TrimSpace_token s : forallb token_character s = true -> TrimSpace s = s.
Proof.
  intros H. assert (Forall (fun c => 45 <= u8 c < 128) s) as Hs.
  { apply Forall_forall. intros c Hc. rewrite forallb_forall in H. apply token_ascii, H. by apply list_elem_of_In. }
  unfold TrimSpace. rewrite runes_ascii.
  2: { apply forallb_forall. intros c Hc%list_elem_of_In. rewrite Forall_forall in Hs. apply Hs in Hc. lia. }
  assert (Forall (fun x : Z * bytes => IsSpace x.1 = false) (map (fun c => (u8 c, [c])) s)) as Hsp.
  { apply Forall_map. eapply Forall_impl; [exact Hs|]. cbn. intros c Hc. unfold IsSpace. lia. }
  rewrite (drop_spaces_none _ Hsp), drop_spaces_none, reverse_involutive by (by apply Forall_reverse).
  unfold join_chunks. rewrite map_map. cbn [snd]. clear. induction s as [|c s IH]; cbn; [done|]. by rewrite IH.
Qed.

Lemma bearer_token s :
  s <> [] -> forallb token_character s = true -> bearer (str "Bearer " ++ s) = Some s.
Proof.
  intros Hne H. unfold bearer. rewrite strip_prefix_self.
  replace (existsb _ s) with false.
  - rewrite (TrimSpace_token _ H). by rewrite bool_decide_false.
  - symmetry. apply not_true_iff_false. intros (c & Hin & Hc)%existsb_exists. bools. subst c.
    rewrite forallb_forall in H. apply H in Hin. discriminate Hin.
Qed.

Section sessions.
Context `{P : Primitives} {PL : PrimitiveLaws P}.

Lemma session_valid bundle :
  bundle_typed bundle -> Validate bundle = Ok tt -> validate (sessionFromBundle bundle) = Ok tt.
Proof.
  intros Ht Hv%Validate_inv. unfold validate, sessionFromBundle, epoch_key, verification_key.
  cbn [SAccountID SessionDeviceID SDeviceToken SKeyEpoch SEpochKeys SSigningPrivate SVerificationKeys].
  rewrite (typed_account _ Ht), (typed_device _ Ht), NewKeyFromSeed_len, Z.gtb_ltb by apply Ht.
  destruct (valid_current _ Hv) as [Hc1 Hc2]. rewrite !(proj2 (Z.ltb_ge _ _)) by done.
  rewrite bool_decide_false by (intros Htok; pose proof (valid_token _ Hv) as Hl; rewrite Htok in Hl; unfold len in Hl; cbn in Hl; lia).
  rewrite !Z.eqb_refl. cbn [orb negb].
  destruct (valid_current_key _ Hv) as [key Hkey]. rewrite Hkey. cbn [default id].
  destruct (typed_epochs _ Ht _ _ Hkey) as [_ Hlen]. cbn [snd] in Hlen. rewrite Hlen, Z.eqb_refl. cbn [negb].
  rewrite (lookup_kmap Hex.EncodeToString), (valid_self _ Hv). cbn [default id].
  destruct (typed_devices _ Ht _ _ (valid_self _ Hv)) as [_ Hpub]. cbn [snd] in Hpub. rewrite Hpub. rewrite Z.eqb_refl.
  rewrite bool_decide_true by done. cbn [negb orb].
  replace (forallb trusted_entry _) with true; [done|]. symmetry. apply forallb_forall.
  intros [device k] Hin%list_elem_of_In%elem_of_map_to_list.
  apply (lookup_kmap_Some Hex.EncodeToString) in Hin as (d & -> & Hd).
  destruct (typed_devices _ Ht _ _ Hd) as [Hdl Hkl]. cbn [fst snd] in *. unfold trusted_entry. cbn [fst snd].
  rewrite hex_decode_encode, Hdl, Hkl, bool_decide_true by done. done.
Qed.

Lemma session_accepted bundle :
  bundle_typed bundle -> Validate bundle = Ok tt -> session_ok (sessionFromBundle bundle).
Proof.
  intros Ht Hv%Validate_inv. split_and!; try by apply Ht.
  - exists (BSigningSeed bundle). split; [by apply Ht|done].
  - apply bearer_token; [|by apply Hv]. intros Htok. pose proof (valid_token _ Hv) as Hl.
    cbn in Htok. rewrite Htok in Hl. unfold len in Hl. cbn in Hl. lia.
Qed.

End sessions.

(** Walking a table and deleting every entry leaves it empty. *)
Lemma delete_all {K V} `{Countable K} (f : K -> gmap K V -> gmap K V) (m : gmap K V) :
  (forall k m k', k' <> k -> f k m !! k' = m !! k') ->
  fold_left (fun keys k => delete k (f k keys)) (map fst (map_to_list m)) m = ∅.
Proof.
  intros Hf. assert (forall ks m' k, fold_left (fun keys k => delete k (f k keys)) ks m' !! k =
    if decide (k ∈ ks) then None else m' !! k) as Hl.
  { induction ks as [|k0 ks IH]; intros m' k; cbn; [done|]. rewrite IH.
    destruct (decide (k ∈ ks)), (decide (k ∈ k0 :: ks)) as [Hin|Hin]; try done; [by destruct Hin; right| |].
    - apply elem_of_cons in Hin as [->|?]; [|done]. by rewrite lookup_delete_eq.
    - assert (k <> k0) by (intros ->; apply Hin; by left). by rewrite lookup_delete_ne, Hf by done. }
  apply map_eq. intros k. rewrite Hl, lookup_empty. case_decide as Hk; [done|].
  apply eq_None_not_Some. intros [v Hv]. apply Hk, list_elem_of_fmap. exists (k, v).
  split; [done|]. by apply elem_of_map_to_list.
Qed.

(** After [zeroSession] no key and no token is left. *)
Lemma zeroSession_clears session :
  zeroSession session =
    mkSession (zeroBytes (SAccountID session)) (zeroBytes (SessionDeviceID session)) [] (SKeyEpoch session) ∅
      (zeroBytes (SSigningPrivate session)) ∅.
Proof.
  unfold zeroSession. by rewrite !(delete_all (fun k => alter zeroBytes k)) by (intros; by apply lookup_alter_ne).
Qed.

(** ** Opening the store *)

Lemma wrap_error_inv {A} format (m : M A) w r w' :
  wrap_error format m w = (r, w') ->
  (exists a, m w = (Ok a, w') /\ r = Ok a) \/ (exists e, m w = (Err e, w') /\ r = Err (Errorf_w format e)).
Proof.
  unfold wrap_error. destruct (m w) as [[a|e] w1]; intros H; injection H as <- <-; [left|right]; eauto.
Qed.

(** The checkpoint of a database that was never used for synchronisation. *)
Definition fresh_checkpoint : Checkpoint := mkCheckpoint 0 1 [] None.

Section opening.
Context `{E : Environment} `{P : Primitives} {PL : PrimitiveLaws P} `{U : UnicodeTables} `{J : Codec Phrase}.

Definition bound_to (store : Store) (d d' : Database) : Prop :=
  d' = d \/ sync_state d = None /\ d' = with_sync d (Some (new_sync_row (deviceID store))).

Lemma initialize_inv store w r w' :
  syncEnabled store = true -> initialize store w = (r, w') ->
  bound_to store (db w) (db w') /\
  (r = Ok tt -> exists row, sync_state (db w') = Some row /\ sync_device_id row = deviceID store).
Proof.
  intros Hen H. unfold initialize, bound_to in *. rewrite Hen in H.
  step_run H; apply wrap_error_inv in Hrun as [(a1 & Hs & Ha)|(e1 & Hs & Ha)]; try done;
    apply statement_inv in Hs as [(_ & e2 & He & Hd)|(_ & b & He & Hd)]; try done;
    [|subst; split; [by left|done]].
  injection Hd as _ Hd. rewrite Hd in *. clear Hd.
  step_run H; apply wrap_error_inv in Hrun as [(a2 & Hs & Ha2)|(e2 & Hs & Ha2)]; try done;
    apply statement_inv in Hs as [(_ & e3 & He2 & Hd2)|(_ & b2 & He2 & Hd2)]; try done;
    [|subst; rewrite Hd2; split; [by left|done]].
  assert (db w1 = db w0 \/ sync_state (db w0) = None /\ db w1 = with_sync (db w0) (Some (new_sync_row (deviceID store))))
    as Hb by (destruct (sync_state (db w0)); [|destruct (negb _)]; injection Hd2 as _ <-; auto).
  step_run H; apply wrap_error_inv in Hrun as [(x3 & Hs & Ha3)|(y3 & Hs & Ha3)]; try done;
    apply query_inv in Hs as (Hd3 & _ & Hq); [|subst; rewrite Hd3; by split].
  destruct Hq as [[? [=]]|[= ->]]. injection Ha3 as ->.
  destruct (sync_state (db w1)) as [row|] eqn:Erow; [|injection H as <- <-; rewrite Hd3; by split].
  destruct (negb _) eqn:En in H; injection H as <- <-; rewrite Hd3; (split; [done|]); [done|].
  intros _. exists row. by bools.
Qed.

Lemma OpenForDevice_inv path dataKey idKey device w r w' :
  OpenForDevice path dataKey idKey device w = (r, w') ->
  let store := mkStore dataKey idKey device true in
  bound_to store (db w) (db w') /\ (db w' <> db w -> validSyncDeviceID device = true) /\
  (forall opened, r = Ok opened -> opened = store /\
     exists row, sync_state (db w') = Some row /\ sync_device_id row = device).
Proof.
  intros H store. unfold OpenForDevice, openStore in H.
  destruct (negb (validSyncDeviceID device)) eqn:Ev; [injection H as <- <-; split_and!; [by left|done|done]|].
  destruct (bool_decide _); [injection H as <- <-; split_and!; [by left|done|done]|].
  destruct (negb _ || _); [injection H as <- <-; split_and!; [by left|done|done]|].
  fold store in H. step_run H; apply initialize_inv in Hrun as [Hb Hok]; try done; split_and!; try done; bools; try done.
  - by injection H as <- <-.
  - intros opened Ho. injection H as <- <-. destruct a. injection Ho as <-. split; [done|by apply Hok].
  - by subst.
Qed.

(** A database that was opened is sound, and has a checkpoint of the device. *)
Lemma bound_inv store d d' :
  bound_to store d d' -> (d' <> d -> validSyncDeviceID (deviceID store) = true) -> store_inv store d ->
  store_inv store d' /\ outbox d' = outbox d /\ abs store d' = abs store d.
Proof.
  intros [->|[Hn ->]] Hv [Hd Hs]; [by split_and!|]. split_and!; try done. split; [by apply with_sync_ok|].
  assert (len (deviceID store) = 32) as Hl.
  { assert (with_sync d (Some (new_sync_row (deviceID store))) <> d) as (id & Hid & ->)%Hv%validSyncDeviceID_spec
      by (intros Heq; apply (f_equal sync_state) in Heq; cbn in Heq; congruence).
    pose proof (hex_decode_len _ _ (hex_decode_encode id)). lia. }
  intros row [= <-]. split; [|done]. unfold row_check, new_sync_row. cbn [sync_device_id]. rewrite Hl. reflexivity.
Qed.

Lemma bound_checkpoint store d d' row :
  bound_to store d d' -> sync_ok d' -> sync_state d' = Some row -> sync_device_id row = deviceID store ->
  exists cp, checkpoint store d' = Some cp /\ default fresh_checkpoint (checkpoint store d) = cp.
Proof.
  intros Hb Hok Hrow Hid. assert (own_row (deviceID store) d' = Some row) as Hown by (by apply own_row_Some).
  destruct (checkpoint_row store _ _ Hok Hown) as (prepared & Hcp & _). eexists. split; [exact Hcp|].
  destruct Hb as [->|[Hn ->]]; [by rewrite Hcp|].
  unfold checkpoint at 1, own_row. rewrite Hn. cbn [default]. unfold checkpoint in Hcp. rewrite Hown in Hcp.
  injection Hrow as <-. cbn in Hcp. by injection Hcp as <-.
Qed.

End opening.

(** ** A run of the agent *)

Definition uploads (results : list Result) : Z := len (List.filter Uploaded results).
Definition downloads (results : list Result) : Z := fold_left (fun n r => n + Downloaded r) results 0.

Lemma summarize_spec results :
  summarize results = mkSummary (len results) (uploads results) (downloads results)
                        (from_option RCursor 0 (last results)).
Proof.
  unfold summarize, downloads, uploads. generalize (len results). intros n.
  assert (forall l u d c, fold_left add_result l (mkSummary n u d c) =
    mkSummary n (u + len (List.filter Uploaded l)) (fold_left (fun n r => n + Downloaded r) l d)
      (from_option RCursor c (last l))) as Hf.
  { induction l as [|x l IH]; intros u d c; cbn [fold_left List.filter].
    - cbn. f_equal. unfold len. cbn. lia.
    - unfold add_result at 2. cbn [Rounds SumUploaded SumDownloaded]. rewrite IH. f_equal.
      + destruct (Uploaded x); rewrite ?len_cons; lia.
      + rewrite last_cons. by destruct (last l). }
  rewrite Hf. f_equal.
Qed.

Section runs.
Context `{E : Environment} `{P : Primitives} {PL : PrimitiveLaws P} `{U : UnicodeTables}.
Context `{J : Codec Phrase} {JL : JsonLaws J} `{CH : Codec Header}.
Context `{CP : Codec PhrasePayload} {PD : PayloadDecoder CP} `{CJ : ClientJson} {R : Type}.
Variable transport : HttpRequest -> R -> result HttpResponse * R.
Hypothesis clock_readings : forall n, in_i64 (now_at n).

(** The rounds of a drain: how far the checkpoint got. *)
Lemma sync_rounds_counts store worker client rounds : forall results (s : Net R) results' err s' cp,
  ValidString (deviceID store) = true -> WClient worker = Some client -> WStore worker = Some store ->
  store_inv store (db (local s)) -> checkpoint store (db (local s)) = Some cp ->
  sync_rounds transport worker rounds results s = ((results', err), s') ->
  store_inv store (db (local s')) /\
  exists more cp', results' = results ++ more /\ checkpoint store (db (local s')) = Some cp' /\
    cp_cursor cp <= cp_cursor cp' /\ (length more <= rounds)%nat /\
    cp_sequence cp + uploads more <= cp_sequence cp' <= cp_sequence cp + uploads more + 1 /\
    (err = None -> outbox (db (local s')) = [] /\ cp_staged cp' = None /\
       cp_sequence cp' = cp_sequence cp + uploads more /\
       exists result, last more = Some result /\ cp_cursor cp' = RCursor result).
Proof.
  induction rounds as [|rounds IH]; intros results s results' err s' cp Hdev Hc Hs Hinv Hcp H; cbn [sync_rounds] in H.
  { injection H as <- <- <-. split; [done|]. exists [], cp. rewrite app_nil_r. unfold uploads, len. cbn.
    split_and!; try done; lia. }
  destruct (SyncOnce transport worker s) as [[result|e] s1] eqn:E1;
    pose proof (SyncOnce_inv transport store Hdev clock_readings _ _ _ _ _ _ Hc Hs Hinv Hcp E1)
      as (Hinv1 & cp1 & payloads & Hround & Hcp1 & _).
  2: { injection H as <- <- <-. split; [done|]. exists [], cp1. rewrite app_nil_r.
       destruct (round_checkpoint transport _ _ _ _ _ _ _ _ (fun u => staged_sequence store _ _ u Hinv Hcp) Hround)
         as (Hle & _ & _ & Hseq). unfold uploads, len. cbn.
       assert (cp_sequence cp <= cp_sequence cp1 <= cp_sequence cp + 1)
         by (destruct Hseq as [(-> & _)|(u & ? & ? & _ & _ & _ & _ & _ & -> & _)]; lia).
       split_and!; try done; lia. }
  destruct (round_reports transport _ _ _ _ _ _ _ _ (fun u => staged_sequence store _ _ u Hinv Hcp) Hround)
    as (Hseq & Hcur & Hst & Hle & _).
  assert (forall more, uploads (result :: more) = (if Uploaded result then 1 else 0) + uploads more) as Hup
    by (intros more; unfold uploads; cbn; destruct (Uploaded result); rewrite ?len_cons; lia).
  assert (uploads [] = 0) as Hup0 by done.
  destruct (on_store PendingEventCount s1) as [q s2] eqn:E2.
  pose proof E2 as ((Hd & _ & Hq)%query_inv & _ & _)%on_store_inv. rewrite <- Hd in Hinv1, Hcp1.
  destruct q as [pending|e].
  2: { injection H as <- <- <-. split; [done|]. exists [result], cp1. rewrite Hup, Hup0.
       split_and!; try done; try lia. cbn. lia. }
  destruct Hq as [[? [=]]|[= ->]]. destruct (negb (HasMore result) && _) eqn:Ei.
  - injection H as <- <- <-. split; [done|]. exists [result], cp1. rewrite Hup, Hup0.
    split_and!; try done; try lia; [cbn; lia|]. intros _. bools. split_and!; try done; [|lia|by exists result].
    rewrite Hd. destruct (outbox (db (local s1))); [done|]. rewrite len_cons in *. pose proof (len_nonneg l). lia.
  - destruct (IH _ _ _ _ _ _ Hdev Hc Hs Hinv1 Hcp1 H) as (Hi & more & cp' & -> & Hcp' & Hle' & Hl & Hb & Hidle).
    split; [done|]. exists (result :: more), cp'. rewrite <- app_assoc, Hup.
    split_and!; try done; try lia; [cbn; lia|]. intros He.
    destruct (Hidle He) as (H1 & H2 & H3 & res & Hlast & H4). split_and!; try done; [lia|].
    exists res. by rewrite last_cons, Hlast.
Qed.

(** A drain on an open store. *)
Lemma drain_inv store worker client maxRounds (s : Net R) r s' cp :
  ValidString (deviceID store) = true -> WClient worker = Some client -> WStore worker = Some store ->
  store_inv store (db (local s)) -> checkpoint store (db (local s)) = Some cp ->
  drain transport worker maxRounds s = (r, s') ->
  store_inv store (db (local s')) /\
  (forall summary, r = Ok summary -> exists cp', checkpoint store (db (local s')) = Some cp' /\
     cp_sequence cp' = cp_sequence cp + SumUploaded summary /\ cp_cursor cp' = SumCursor summary /\
     cp_cursor cp <= cp_cursor cp' /\ cp_staged cp' = None /\ outbox (db (local s')) = [] /\
     1 <= Rounds summary <= 1024).
Proof.
  intros Hdev Hc Hs Hinv Hcp H. unfold drain in H.
  destruct (SyncUntilIdle transport worker maxRounds s) as [[results err] s1] eqn:E1.
  destruct (on_store Close s1) as [x s2] eqn:E2.
  apply on_store_inv in E2 as ((Hd & _)%query_inv & _). injection H as <- <-. rewrite Hd.
  unfold SyncUntilIdle in E1. rewrite Z.gtb_ltb in E1. destruct (_ || _) eqn:Eb.
  { injection E1 as <- <- <-. by split. }
  bools. destruct (sync_rounds_counts _ _ _ _ _ _ _ _ _ _ Hdev Hc Hs Hinv Hcp E1)
    as (Hi & more & cp' & Hmore & Hcp' & Hle & Hl & Hb & Hidle). cbn [app] in Hmore. subst results.
  split; [done|]. intros summary Hok. destruct err as [e|]; [done|]. injection Hok as <-.
  destruct (Hidle eq_refl) as (H1 & H2 & H3 & res & H4 & H5). exists cp'. rewrite summarize_spec, H4. cbn.
  split_and!; try done.
  - destruct more; [done|]. rewrite len_cons. pose proof (len_nonneg more). lia.
  - unfold len. lia.
Qed.

End runs.

Lemma dbind_inv {S R A B} (m : D S R A) (f : A -> D S R B) s r s' :
  dbind m f s = (r, s') ->
  (exists a s1, m s = (Ok a, s1) /\ f a s1 = (r, s')) \/ (exists e, m s = (Err e, s') /\ r = Err e).
Proof.
  unfold dbind. destruct (m s) as [[a|e] s1]; intros H; [left; eauto|right]. injection H as <- <-. eauto.
Qed.

Lemma in_net_inv {S R A} (m : W R A) (s : Desktop S R) r s' :
  in_net m s = (r, s') -> m (net s) = (r, net s') /\ vault s' = vault s.
Proof. unfold in_net. destruct (m (net s)) as [r1 n1]. by intros [= <- <-]. Qed.

Lemma in_vault_inv {S R A} (m : S -> result A * S) (s : Desktop S R) r s' :
  in_vault m s = (r, s') -> m (vault s) = (r, vault s') /\ net s' = net s.
Proof. unfold in_vault. destruct (m (vault s)) as [r1 n1]. by intros [= <- <-]. Qed.

Lemma dlift_inv {S R A} (x : result A) (s : Desktop S R) r s' : dlift x s = (r, s') -> x = r /\ s' = s.
Proof. by intros [= <- <-]. Qed.

Lemma dwrap_inv {S R A} format (m : D S R A) s r s' :
  dwrap format m s = (r, s') ->
  (exists a, m s = (Ok a, s') /\ r = Ok a) \/ (exists e, m s = (Err e, s') /\ r = Err (Errorf_w format e)).
Proof.
  unfold dwrap. destruct (m s) as [[a|e] s1]; intros H; injection H as <- <-; [left|right]; eauto.
Qed.

Ltac agent_step H :=
  lazymatch type of H with
  | dbind _ _ _ = _ =>
      let a := fresh "a" in let s1 := fresh "s" in let H1 := fresh "Hrun" in let e := fresh "e" in
      apply dbind_inv in H as [(a & s1 & H1 & H)|(e & H1 & H)]
  end.

Lemma ValidString_hex id : ValidString (Hex.EncodeToString id) = true.
Proof. eapply ascii_valid, hex_decode_ascii, hex_decode_encode. Qed.

(** The store the agent opens with a bundle. *)
Definition agent_store (bundle : CredentialBundleV1) : Store :=
  mkStore (BLocalDataKey bundle) (BObjectIDKey bundle) (DeviceIDHex bundle) true.

Section agent_properties.
Context `{E : Environment} `{P : Primitives} {PL : PrimitiveLaws P} `{U : UnicodeTables}.
Context `{J : Codec Phrase} {JL : JsonLaws J} `{CH : Codec Header}.
Context `{CP : Codec PhrasePayload} {PD : PayloadDecoder CP} `{CJ : ClientJson}.
Context `{UP : UrlParser} `{FS : Files} `{CF : ConfigJson} {S R : Type}.
Variable transport : HttpRequest -> R -> result HttpResponse * R.
Hypothesis clock_readings : forall n, in_i64 (now_at n).

(** C32: stored credentials always make a session that works.  Whatever record
    the secret store delivers, if it decodes then the session built from it
    passes the worker's validation, its token survives the trip through the
    authorization header, its key pair signs for the verification key it
    trusts, and its device identifier is one the local store accepts. *)
Theorem credentials_make_session (encoded : bytes) (bundle : CredentialBundleV1) :
  DecodeCredentialBundle encoded = Ok bundle ->
  validate (sessionFromBundle bundle) = Ok tt /\ session_ok (sessionFromBundle bundle) /\
  verification_key (sessionFromBundle bundle) (DeviceIDHex bundle)
    = ed25519_Public (SSigningPrivate (sessionFromBundle bundle)) /\
  validSyncDeviceID (DeviceIDHex bundle) = true.
Proof.
  intros (Ht & Hv & _)%DecodeCredentialBundle_inv. split_and!.
  - by apply session_valid.
  - by apply session_accepted.
  - apply Validate_inv in Hv. unfold verification_key, sessionFromBundle, DeviceIDHex. cbn.
    by rewrite (lookup_kmap Hex.EncodeToString), (valid_self _ Hv).
  - apply validSyncDeviceID_spec. exists (BDeviceID bundle). split; [by apply Ht|done].
Qed.

Lemma agent_SyncOnce_inv (agent : Agent S) (s : Desktop S R) r s' bundle :
  (loadBundle agent (vault s)).1 = Ok bundle -> store_inv (agent_store bundle) (db (local (net s))) ->
  agent_SyncOnce transport agent s = (r, s') ->
  store_inv (agent_store bundle) (db (local (net s'))) /\
  (forall summary, r = Ok summary ->
     let cp := default fresh_checkpoint (checkpoint (agent_store bundle) (db (local (net s)))) in
     exists cp', checkpoint (agent_store bundle) (db (local (net s'))) = Some cp' /\
       cp_sequence cp' = cp_sequence cp + SumUploaded summary /\ cp_cursor cp' = SumCursor summary /\
       cp_cursor cp <= cp_cursor cp' /\ cp_staged cp' = None /\ outbox (db (local (net s'))) = [] /\
       1 <= Rounds summary <= 1024).
Proof.
  intros Hload Hinv H. unfold agent_SyncOnce in H.
  agent_step H; apply in_vault_inv in Hrun as [Hb Hn]; rewrite Hb in Hload; cbn in Hload; [|done].
  injection Hload as ->. rewrite <- Hn in *. clear Hb Hn.
  agent_step H; apply dlift_inv in Hrun as [_ ->]; [|subst; by split].
  destruct (_ || _); [injection H as <- <-; by split|].
  destruct (match Lstat _ with Ok _ => _ | Err _ => _ end); [injection H as <- <-; by split|].
  agent_step H; apply in_net_inv in Hrun as [(Hopen & _)%on_store_inv _];
    apply OpenForDevice_inv in Hopen as (Hb & Hv & Hok);
    destruct (bound_inv (agent_store bundle) _ _ Hb Hv Hinv) as (Hinv1 & _ & _); [|subst; by split].
  destruct (Hok _ eq_refl) as (-> & row & Hrow & Hid).
  destruct (bound_checkpoint (agent_store bundle) _ _ _ Hb (proj2 Hinv1) Hrow Hid) as (cp & Hcp & Hdef).
  apply in_net_inv in H as [H _]. rewrite Hdef.
  eapply drain_inv; [exact clock_readings| | | |exact Hinv1|exact Hcp|exact H]; [apply ValidString_hex|reflexivity..].
Qed.

(** A run loads the bundle once. *)
Lemma agent_SyncOnce_vault (agent : Agent S) (s : Desktop S R) r s' :
  agent_SyncOnce transport agent s = (r, s') -> vault s' = (loadBundle agent (vault s)).2.
Proof.
  intros H. unfold agent_SyncOnce in H. agent_step H; apply in_vault_inv in Hrun as [Hb _]; rewrite Hb; [cbn [snd]|done].
  agent_step H; apply dlift_inv in Hrun as [_ ->]; [|done].
  destruct (_ || _); [by injection H as _ <-|]. destruct (match Lstat _ with Ok _ => _ | Err _ => _ end); [by injection H as _ <-|].
  assert (forall A (m : W R A) (x : Desktop S R) r x', in_net m x = (r, x') -> vault x' = vault x) as Hnet
    by (intros A m x r' x'; unfold in_net; destruct (m (net x)); by intros [= _ <-]).
  agent_step H; apply Hnet in Hrun; [|done]. by apply Hnet in H as ->.
Qed.

(** Whatever is loaded, a sound database stays sound. *)
Lemma agent_SyncOnce_sound (agent : Agent S) (s : Desktop S R) r s' bundle :
  (forall b, (loadBundle agent (vault s)).1 = Ok b -> b = bundle) -> store_inv (agent_store bundle) (db (local (net s))) ->
  agent_SyncOnce transport agent s = (r, s') -> store_inv (agent_store bundle) (db (local (net s'))).
Proof.
  intros Hb Hinv H. destruct (loadBundle agent (vault s)).1 as [b|] eqn:Hload.
  - rewrite (Hb b eq_refl) in Hload. by apply (agent_SyncOnce_inv agent s r s' bundle).
  - unfold agent_SyncOnce in H. agent_step H; apply in_vault_inv in Hrun as [Hrun Hn]; rewrite Hrun in Hload; [done|by rewrite Hn].
Qed.

(** C15: a run of the agent tells the truth.  Whatever the relay answers and
    whichever statement fails, the database stays sound; when the run reports
    success, its summary counts exactly the records by which the device's chain
    grew, its cursor is the persisted one, nothing is staged or waiting any
    more, and between one and 1024 rounds were made. *)
Theorem agent_sync_once (agent : Agent S) (s : Desktop S R) r s' bundle :
  (loadBundle agent (vault s)).1 = Ok bundle -> store_inv (agent_store bundle) (db (local (net s))) ->
  agent_SyncOnce transport agent s = (r, s') ->
  store_inv (agent_store bundle) (db (local (net s'))) /\
  (forall summary, r = Ok summary ->
     let cp := default fresh_checkpoint (checkpoint (agent_store bundle) (db (local (net s)))) in
     exists cp', checkpoint (agent_store bundle) (db (local (net s'))) = Some cp' /\
       cp_sequence cp' = cp_sequence cp + SumUploaded summary /\ cp_cursor cp' = SumCursor summary /\
       cp_cursor cp <= cp_cursor cp' /\ cp_staged cp' = None /\ outbox (db (local (net s'))) = [] /\
       1 <= Rounds summary <= 1024).
Proof. apply agent_SyncOnce_inv. Qed.

End agent_properties.

(** ** Provisioning *)

Lemma copy_into_id size value : length value = size -> copy_into size value = value.
Proof. intros <-. unfold copy_into. by rewrite take_ge, Nat.sub_diag, app_nil_r. Qed.

Lemma fillRandom_lens sizes : forall source values rest,
  Forall (fun n => 0 <= n) sizes -> fillRandom sizes source = Ok (values, rest) -> map len values = sizes.
Proof.
  induction sizes as [|n sizes IH]; intros source values rest Hn H; cbn in H; [by injection H as <- _|].
  apply Forall_cons in Hn as [Hn Hns]. destruct (ReadFull n source) as [[v src]|e] eqn:Er; [|done].
  invert_ok. destruct a as [vs src']. invert_ok. cbn. apply ReadFull_len in Er as [-> _]; [|done].
  f_equal. by eapply IH.
Qed.

Section provisioning_facts.
Context `{E : Environment} `{P : Primitives} {PL : PrimitiveLaws P} `{U : UnicodeTables}.

Lemma NewDeviceKeys_inv source keys rest :
  NewDeviceKeys source = Ok (keys, rest) ->
  exists seed, len seed = 32 /\ Ed25519Private keys = NewKeyFromSeed seed /\
    Ed25519Public keys = ed25519_Public (NewKeyFromSeed seed) /\ len (X25519Private keys) = 32.
Proof.
  unfold NewDeviceKeys. intros H. invert_ok. destruct a as [private s1]. invert_ok. destruct a0 as [seed s2]. invert_ok.
  apply ReadFull_len in Hok as [Hp _]; [|done]. apply ReadFull_len in Hok1 as [Hs _]; [|done]. by exists seed.
Qed.

(** The bundle of a new account, when the relay's identifiers are proper. *)
Lemma new_bundle_typed account keys seed localDataKey objectIDKey epochKey :
  len seed = 32 -> Ed25519Private keys = NewKeyFromSeed seed ->
  Ed25519Public keys = ed25519_Public (NewKeyFromSeed seed) -> len (X25519Private keys) = 32 ->
  len localDataKey = 32 -> len objectIDKey = 32 -> len epochKey = 32 ->
  let bundle := new_bundle account keys localDataKey objectIDKey epochKey in
  bundle_typed bundle /\ BSigningSeed bundle = seed /\ BLocalDataKey bundle = localDataKey /\
  BObjectIDKey bundle = objectIDKey /\ BEpochKeys bundle = {[ 1 := epochKey ]} /\
  BVerificationKeys bundle = {[ BDeviceID bundle := ed25519_Public (NewKeyFromSeed seed) ]}.
Proof.
  intros Hs He Hp Hx Hl Ho Hk bundle. subst bundle. unfold new_bundle.
  assert (len (ed25519_Public (NewKeyFromSeed seed)) = 32) as Hpl.
  { unfold ed25519_Public. pose proof (NewKeyFromSeed_len seed Hs) as Hn. unfold len, PrivateKeySize in *.
    rewrite length_drop. lia. }
  rewrite He, Hp, NewKeyFromSeed_seed by done. unfold len in Hs, Hx, Hl, Ho, Hk, Hpl.
  rewrite !copy_into_id by lia. cbn. split_and!; try done.
  assert (forall id, len (fixed_id id) = 16) as Hid by (intros id; unfold fixed_id; destruct (len id =? 16) eqn:El; bools; [done|reflexivity]).
  split; cbn; try apply Hid; try (unfold len; lia); try done.
  - intros e k [<- <-]%lookup_singleton_Some. split; [done|]. unfold len. cbn. lia.
  - intros d k [<- <-]%lookup_singleton_Some. split; [apply Hid|]. unfold len. cbn. lia.
Qed.

(** Identifiers that were not copied are refused. *)
Lemma new_bundle_ids account keys localDataKey objectIDKey epochKey :
  Validate (new_bundle account keys localDataKey objectIDKey epochKey) = Ok tt ->
  fixed_id (AAccountID account) = AAccountID account /\ fixed_id (ADeviceID account) = ADeviceID account.
Proof.
  unfold Validate. cbn [new_bundle BVersion BAccountID BDeviceID]. intros H. change (negb (_ =? _)) with false in H.
  cbn iota in H. destruct (allZero (fixed_id (AAccountID account)) || _) eqn:Ez; [done|]. bools. unfold fixed_id in *.
  destruct (len (AAccountID account) =? 16), (len (ADeviceID account) =? 16); done.
Qed.

End provisioning_facts.

Lemma dbind_Ok {S R A B} (m : D S R A) (f : A -> D S R B) s b s' :
  dbind m f s = (Ok b, s') -> exists a s1, m s = (Ok a, s1) /\ f a s1 = (Ok b, s').
Proof. intros [H|(e & _ & [=])]%dbind_inv. done. Qed.

Lemma dwrap_Ok {S R A} format (m : D S R A) s a s' : dwrap format m s = (Ok a, s') -> m s = (Ok a, s').
Proof. intros [(? & ? & [= ->])|(? & ? & [=])]%dwrap_inv. done. Qed.

Section provisioning_properties.
Context `{E : Environment} `{P : Primitives} {PL : PrimitiveLaws P} `{U : UnicodeTables}.
Context `{CR : Codec RecoveryPackage} {CRL : CodecLaws RecoveryPackage CR} `{FS : Files} `{DIR : Directories} {S R : Type}.
Variable relay : AccountRelay R.
Variable secrets : SecretStore S.
Context {SL : SecretLaws secrets}.
Hypothesis packages_encodable : forall package : RecoveryPackage, encodable package = true.

Tactic Notation "provision_step" hyp(H) ident(a) ident(s1) ident(Hrun) :=
  apply dbind_Ok in H as (a & s1 & Hrun & H).

(** What is drawn, registered, stored and saved in a successful run. *)
Lemma provisioning_inv options (s : Desktop S R) result s' :
  OSecrets options = Some secrets ->
  initAccountForSyntheticProtocolTest (Some relay) options s = (Ok result, s') ->
  exists keys recoveryKey epochKey objectIDKey localDataKey registration account keyring encoded r1 v source rest,
    len recoveryKey = 32 /\ len epochKey = 32 /\ len objectIDKey = 32 /\ len localDataKey = 32 /\
    (exists source rest, NewDeviceKeys source = Ok (keys, rest)) /\
    REd25519PublicKey (RDevice registration) = Ed25519Public keys /\
    relay_CreateAccount relay registration (remote (net s)) = (Ok account, r1) /\
    relay_PutKeyring relay (ADeviceToken account) 1 keyring r1 = (Ok tt, remote (net s')) /\
    SealRecoveryPackage recoveryKey (mkRecoveryPackage (AAccountID account) 1 epochKey objectIDKey) source
      = Ok (keyring, rest) /\
    EncodeCredentialBundle (new_bundle account keys localDataKey objectIDKey epochKey) = Ok encoded /\
    Save secrets (OProfile options) encoded v = (Ok tt, vault s') /\
    EncodeRecoveryKey recoveryKey = Ok (RecoveryKeyText result) /\
    AccountIDHex result = Hex.EncodeToString (AAccountID account).
Proof.
  intros Hsec H. unfold initAccountForSyntheticProtocolTest in H. rewrite Hsec in H.
  provision_step H u0 s0 Hrun. apply dlift_inv in Hrun as [_ ->].
  provision_step H u1 s1 Hrun. unfold preflight_profile in Hrun. destruct (Load secrets _ _) as [r0 v0]. injection Hrun as _ <-.
  destruct (negb (ORandom options)); [done|]. provision_step H init s1 Hrun.
  assert (net s1 = net s) as Hnet0.
  { destruct (OInitializeStore options); [by injection Hrun as <- <-|].
    apply dbind_Ok in Hrun as (? & ? & [_ ->]%dlift_inv & Hrun). by injection Hrun as <- <-. }
  clear Hrun. provision_step H keys s2 Hrun.
  apply dwrap_Ok, in_net_inv in Hrun as [(Hl1 & Hr1 & [[? [=]]|(? & [= <-] & Hkeys)])%on_random_inv Hv1].
  provision_step H secret s3 Hrun.
  apply in_net_inv in Hrun as [(Hl2 & Hr2 & [[? [=]]|(? & [= <-] & Hfill)])%on_random_inv Hv2].
  apply fillRandom_lens in Hfill; [|repeat constructor; lia].
  destruct secret as [|recoveryKey [|epochKey [|objectIDKey [|localDataKey [|label [|? ?]]]]]]; try done.
  injection Hfill as L1 L2 L3 L4 L5.
  provision_step H derived s4 Hrun. destruct derived as [x authentication]. apply dlift_inv in Hrun as [_ ->].
  provision_step H account s5 Hrun. apply dwrap_Ok, in_net_inv in Hrun as [(Hcreate & Hl3 & _)%on_network_inv Hv3].
  provision_step H keyring s6 Hrun.
  apply in_net_inv in Hrun as [(Hl4 & Hr4 & [[? [=]]|(? & [= <-] & Hseal)])%on_random_inv Hv4].
  provision_step H u2 s7 Hrun. apply dwrap_Ok, in_net_inv in Hrun as [(Hput & Hl5 & _)%on_network_inv Hv5].
  provision_step H u3 s8 Hrun. apply dwrap_Ok, in_net_inv in Hrun as [(_ & Hr6 & _)%on_store_inv Hv6].
  provision_step H encoded s9 Hrun. apply dwrap_Ok, dlift_inv in Hrun as [Henc ->].
  provision_step H u4 s10 Hrun. apply dwrap_Ok, in_vault_inv in Hrun as [Hsave Hn7].
  provision_step H text s11 Hrun. apply dlift_inv in Hrun as [Htext ->]. injection H as <- <-.
  repeat match goal with u : unit |- _ => destruct u end.
  exists keys, recoveryKey, epochKey, objectIDKey, localDataKey, (mkAccountRegistration authentication
    (mkDeviceRegistration label (Ed25519Public keys) (X25519Public keys))), account, keyring, encoded,
    (remote (net s5)), (vault s8), (source (net s5)), (source (net s6)).
  rewrite Hr2, Hr1, Hnet0 in Hcreate. rewrite Hr4 in Hput. rewrite Hn7, Hr6. split_and!; try done. eauto.
Qed.

(** C16: a provisioned account can be used and recovered.  When provisioning
    succeeds, the credential record in the secret store loads and decodes to a
    bundle of the created account and device, signing with the key that was
    registered; and the displayed recovery text alone gives back the recovery
    key, which opens the keyring deposited at the relay to the account, the
    epoch key and the object key the bundle holds. *)
Theorem provisioned_account_recoverable (options : InitAccountOptions S) (s : Desktop S R) result s' :
  OSecrets options = Some secrets ->
  initAccountForSyntheticProtocolTest (Some relay) options s = (Ok result, s') ->
  exists registration account r1 keyring recoveryKey encoded bundle epochKey,
    relay_CreateAccount relay registration (remote (net s)) = (Ok account, r1) /\
    relay_PutKeyring relay (ADeviceToken account) 1 keyring r1 = (Ok tt, remote (net s')) /\
    (Load secrets (OProfile options) (vault s')).1 = Ok encoded /\ DecodeCredentialBundle encoded = Ok bundle /\
    BAccountID bundle = AAccountID account /\ BDeviceID bundle = ADeviceID account /\
    BDeviceToken bundle = ADeviceToken account /\ BEpochKeys bundle !! 1 = Some epochKey /\
    ed25519_Public (NewKeyFromSeed (BSigningSeed bundle)) = REd25519PublicKey (RDevice registration) /\
    AccountIDHex result = Hex.EncodeToString (BAccountID bundle) /\
    (forall lower upper, DecodeRecoveryKey lower upper (RecoveryKeyText result) = Ok recoveryKey) /\
    OpenRecoveryPackage recoveryKey keyring
      = Ok (mkRecoveryPackage (BAccountID bundle) (BCurrentEpoch bundle) epochKey (BObjectIDKey bundle)).
Proof.
  intros Hsec H. destruct (provisioning_inv _ _ _ _ Hsec H) as (keys & recoveryKey & epochKey & objectIDKey &
    localDataKey & registration & account & keyring & encoded & r1 & v & source & rest & L1 & L2 & L3 & L4 &
    (src & rst & (seed & Hseed & Hpriv & Hpub & Hx)%NewDeviceKeys_inv) & Hreg & Hcreate & Hput & Hseal & Henc &
    Hsave & Htext & Hhex).
  destruct (new_bundle_typed account keys seed localDataKey objectIDKey epochKey) as (Ht & B1 & B2 & B3 & B4 & B5); try done.
  assert (Validate (new_bundle account keys localDataKey objectIDKey epochKey) = Ok tt) as Hv
    by (unfold EncodeCredentialBundle in Henc; invert_ok; by destruct a).
  destruct (new_bundle_ids _ _ _ _ _ Hv) as [Ha Hd].
  destruct (EncodeCredentialBundle_total _ Ht Hv) as [Henc' _]. rewrite Henc in Henc'. injection Henc' as ->.
  exists registration, account, r1, keyring, recoveryKey, (credential_record (new_bundle account keys localDataKey objectIDKey epochKey)),
    (new_bundle account keys localDataKey objectIDKey epochKey), epochKey.
  split_and!; try done.
  - by apply (load_saved _ _ v).
  - by apply DecodeCredentialBundle_encoded.
  - rewrite B4. by rewrite lookup_singleton_eq.
  - rewrite B1, Hreg. done.
  - rewrite Hhex. f_equal. cbn. by rewrite Ha.
  - intros lower upper. by apply DecodeRecoveryKey_encoded.
  - rewrite B3. cbn. rewrite Ha. eapply OpenRecoveryPackage_sealed; [done|exact Hseal].
Qed.

End provisioning_properties.
