(* ===== verification/AgentSample.v ===== *)
(** * An agent at work

    Concrete instances of the agent's parameters: a secret store with one slot,
    a file system with one database and one configuration, a relay that has
    nothing to deliver, and a relay that opens accounts. *)

From S2P Require Import Prelude Encoding Unicode Bech32m Endpoint Crypto Envelope Boxes Credentials.
From S2P Require Import Crdt Phrase LocalStore SyncState StoreProps Client ClientFacts ClientRelay ClientSample.
From S2P Require Import Agent AgentProps.

Section witnesses.
#[local] Existing Instance Sample.primitives.
#[local] Existing Instance Sample.primitive_laws.
#[local] Existing Instance ascii_tables.
#[local] Existing Instance StoreProps.quiet.
#[local] Existing Instance StoreProps.phrase_codec.
#[local] Existing Instance StoreProps.phrase_codec_laws.

Lemma credentials_make_session_witness :
  validate (sessionFromBundle sample_bundle) = Ok tt /\ session_ok (sessionFromBundle sample_bundle).
Proof.
  destruct (credentials_make_session sample_record sample_bundle sample_record_decodes) as (Hv & Ho & _).
  split; [exact Hv|exact Ho].
Defined.

(** ** Synchronising *)

(** One slot for one profile. *)
Definition slot : SecretStore (option bytes) :=
  mkSecretStore
    (fun _ s => (match s with Some value => Ok value | None => Err ErrSecretNotFound end, s))
    (fun _ value _ => (Ok tt, Some value)).

#[local] Instance slot_laws : SecretLaws slot.
Proof. intros profile value s s' [= <-]. reflexivity. Qed.

Definition config_path : bytes := str "/etc/yunpin/endpoint.json".
Definition database_path : bytes := str "/var/yunpin/store.db".

#[local] Instance sample_files : Files := {|
  windows := false;
  Lstat path := if bool_decide (path = config_path) || bool_decide (path = database_path)
                then Ok (mkFileInfo true false 64 384 7) else Err (Errorf_w "lstat: %w" ErrNotExist);
  OpenFile _ := Ok (mkFile (Ok (mkFileInfo true false 64 384 7)) (str "https://relay.example") None);
  IsAbs path := bool_decide (head path = Some (byte_of_Z 47))
|}.
#[local] Instance sample_config : ConfigJson := fun text => Some (mkEndpointConfig text (mkPolicy false), true).
#[local] Instance sample_urls : UrlParser := fun raw =>
  if bool_decide (raw = str "https://relay.example") then Some (base (endpoint sample_client)) else None.

Definition sample_agent : Agent (option bytes) := mkAgent (Some slot) (str "default") config_path database_path 0.

(** A relay without news. *)
Definition silent (req : HttpRequest) (_ : unit) : result HttpResponse * unit :=
  (Ok (mkHttpResponse 200 (fput response_format (mkSyncResponse [] [] [] 0 false 0)) None), tt).

Definition desktop0 : Desktop (option bytes) unit :=
  mkDesktop (Some sample_record) (mkNet (mkWorld empty_database [] 0) tt []).

Definition synced : result SyncSummary * Desktop (option bytes) unit := agent_SyncOnce silent sample_agent desktop0.

Lemma synced_ok : synced.1 = Ok (mkSummary 1 0 0 0).
Proof. vm_compute. reflexivity. Qed.

Lemma desktop0_bundle : (loadBundle sample_agent (vault desktop0)).1 = Ok sample_bundle.
Proof. vm_compute. reflexivity. Qed.

Lemma agent_sync_once_witness :
  store_inv (agent_store sample_bundle) (db (local (net synced.2))) /\
  exists cp', checkpoint (agent_store sample_bundle) (db (local (net synced.2))) = Some cp' /\
    cp_sequence cp' = 1 /\ cp_cursor cp' = 0 /\ cp_staged cp' = None.
Proof.
  destruct (agent_sync_once silent quiet_readings sample_agent desktop0 synced.1 synced.2 sample_bundle
    desktop0_bundle (empty_database_inv _) (surjective_pairing _)) as [Hinv Hok].
  split; [exact Hinv|]. destruct (Hok _ synced_ok) as (cp' & Hcp & H1 & H2 & _ & H4 & _).
  exists cp'. split; [exact Hcp|]. split; [exact H1|]. split; [exact H2|exact H4].
Defined.

(** ** Provisioning *)

Definition package_format : format RecoveryPackage.
Proof.
  refine (through (both (both blob number) (both blob blob))
    (fun p => ((RAccountID p, CurrentEpoch p), (EpochKey p, ObjectIDKey p)))
    (fun '((a, c), (e, o)) => mkRecoveryPackage a c e o) _).
  by intros [].
Defined.

#[local] Instance package_codec : Codec RecoveryPackage := {|
  Marshal p := Ok (fput package_format p);
  Unmarshal b := match read_all package_format b with Some p => Ok p | None => fail "cbor: cannot unmarshal" end;
  encodable _ := true
|}.
#[local] Instance package_laws : CodecLaws RecoveryPackage package_codec.
Proof.
  split; unfold Marshal, Unmarshal, package_codec; [eauto|]. intros p b _ Hb. 
  assert (b = fput package_format p) as -> by congruence. by rewrite read_write.
Qed.

#[local] Instance sample_directories : Directories := fun _ => Ok tt.

Definition sample_account : AccountCredentials :=
  mkAccountCredentials (replicate 16 Byte.x01) (replicate 16 Byte.x02) (str "sample_device_token-0").

(** A relay that remembers the keyrings it was given. *)
Definition accounts : AccountRelay (list SealedBox) :=
  mkAccountRelay (fun _ boxes => (Ok sample_account, boxes)) (fun _ _ box boxes => (Ok tt, box :: boxes)).

Definition new_options : InitAccountOptions (option bytes) :=
  mkInitOptions (Some slot) (str "default") (str "/var/yunpin/new.db") true None.

Definition new_desktop : Desktop (option bytes) (list SealedBox) :=
  mkDesktop None (mkNet (mkWorld empty_database [] 0) [] (replicate 400 Byte.x07)).

Definition provisioned := initAccountForSyntheticProtocolTest (Some accounts) new_options new_desktop.

Lemma provisioned_ok : is_Ok provisioned.1 = true.
Proof. vm_compute. reflexivity. Qed.

Lemma provisioned_account_recoverable_witness :
  exists result keyring recoveryKey bundle package, provisioned.1 = Ok result /\
    BAccountID bundle = replicate 16 Byte.x01 /\
    (forall lower upper, DecodeRecoveryKey lower upper (RecoveryKeyText result) = Ok recoveryKey) /\
    OpenRecoveryPackage recoveryKey keyring = Ok package /\ RAccountID package = BAccountID bundle.
Proof.
  pose proof provisioned_ok as Hok. destruct provisioned as [[result|e] after] eqn:Erun; [|discriminate Hok].
  destruct (provisioned_account_recoverable (CR := package_codec) accounts slot (fun _ => eq_refl) new_options new_desktop result after
    eq_refl Erun) as (registration & account & r1 & keyring & recoveryKey & encoded & bundle & epochKey & Hc & _ & _ & _ &
      Ha & _ & _ & _ & _ & _ & Hd & Hopen).
  exists result, keyring, recoveryKey, bundle, (mkRecoveryPackage (BAccountID bundle) (BCurrentEpoch bundle) epochKey (BObjectIDKey bundle)).
  split; [reflexivity|]. split; [|split; [exact Hd|split; [exact Hopen|reflexivity]]].
  rewrite Ha. injection Hc as <- _. reflexivity.
Defined.

End witnesses.
