(* ===== verification/Runner.v ===== *)
(** * The periodic runner ([desktopagent/runner.go])

    The loop that synchronises in the background.  Durations are nanoseconds in
    an [int64].  What happens outside the loop in one turn (whether the context
    is cancelled, what the random source yields for the jitter, whether waiting
    is interrupted) is a [Turn]; a run is followed along a list of turns, and
    reports one event and one delay per synchronisation. *)

From S2P Require Import Prelude Agent.

Definition Second : Z := 1000000000.
Definition Minute : Z := 60 * Second.

Record RunEvent := mkRunEvent { Code : bytes; Successful : bool; Summary : SyncSummary }.

Record RunOptions := mkRunOptions { Interval : Z; MinBackoff : Z; MaxBackoff : Z }.

Definition or_default (value fallback : Z) : Z := if value =? 0 then fallback else value.

Definition defaults (options : RunOptions) : result RunOptions :=
  let interval := or_default (Interval options) Minute in
  let minBackoff := or_default (MinBackoff options) (5 * Second) in
  let maxBackoff := or_default (MaxBackoff options) (15 * Minute) in
  if (interval <? Second) || (minBackoff <? Second) || (maxBackoff <? minBackoff) then
    fail "agent timing configuration is invalid"
  else Ok (mkRunOptions interval minBackoff maxBackoff).

(** [draw] is the number [rand.Int] yields below 21, if it does not fail. *)
Definition jitter (draw : option Z) (duration : Z) : Z :=
  match draw with
  | None => duration
  | Some value => Z.quot (wrap_i64 (duration * (90 + value))) 100
  end.

Definition next_backoff (options : RunOptions) (backoff : Z) : Z :=
  if backoff <? Z.quot (MaxBackoff options) 2 then wrap_i64 (backoff * 2) else MaxBackoff options.

Record Turn := mkTurn { cancelled : bool; draw : option Z; interrupted : bool }.

(** The loop has returned, or it goes on after the turns that were looked at. *)
Inductive Progress := Stopped | Running.

Definition no_summary : SyncSummary := mkSummary 0 0 0 0.

Section runner.
Context {T : Type}.
Variable syncNow : T -> result SyncSummary * T.

Fixpoint run_turns (options : RunOptions) (backoff : Z) (turns : list Turn) (s : T)
    : list (RunEvent * Z) * Progress * T :=
  match turns with
  | [] => ([], Running, s)
  | turn :: rest =>
      if cancelled turn then ([], Stopped, s)
      else
        let '(outcome, s) := syncNow s in
        let '(delay, event, backoff) :=
          match outcome with
          | Ok summary => (Interval options, mkRunEvent (str "sync_complete") true summary, MinBackoff options)
          | Err _ => (backoff, mkRunEvent (str "sync_failed") false no_summary, next_backoff options backoff)
          end in
        let entry := (event, jitter (draw turn) delay) in
        if interrupted turn then ([entry], Stopped, s)
        else
          let '(trace, progress, s) := run_turns options backoff rest s in
          (entry :: trace, progress, s)
  end.

(** [lock] is what acquiring the process lock gives. *)
Definition runLoop (lock : result unit) (options : RunOptions) (turns : list Turn) (s : T)
    : result (list (RunEvent * Z) * Progress) * T :=
  match defaults options with
  | Err e => (Err e, s)
  | Ok options =>
      match lock with
      | Err e => (Err e, s)
      | Ok _ =>
          let '(trace, progress, s) := run_turns options (MinBackoff options) turns s in
          (Ok (trace, progress), s)
      end
  end.

End runner.

(** [Agent.Run] *)
Definition Run {S R} (syncOnce : D S R SyncSummary) (lock : result unit) (options : RunOptions)
    (turns : list Turn) (s : Desktop S R) : result (list (RunEvent * Z) * Progress) * Desktop S R :=
  runLoop syncOnce lock options turns s.

(** ** The delays *)

(** The pause after [k] failures in a row have already been waited for. *)
Definition backoff_after (options : RunOptions) (k : nat) : Z :=
  match k with
  | O => MinBackoff options
  | S k' =>
      if MinBackoff options * 2 ^ Z.of_nat k' <? MaxBackoff options / 2
      then MinBackoff options * 2 ^ Z.of_nat k else MaxBackoff options
  end.

Definition timing_ok (options : RunOptions) : Prop :=
  Second <= Interval options /\ Second <= MinBackoff options <= MaxBackoff options.

Lemma backoff_after_range options k :
  timing_ok options -> MinBackoff options <= backoff_after options k <= MaxBackoff options.
Proof.
  intros (_ & Hmin & Hmax). unfold Second in *. destruct k as [|k]; cbn [backoff_after]; [lia|].
  destruct (_ <? _) eqn:Eb; bools; [|lia]. rewrite Nat2Z.inj_succ, Z.pow_succ_r by lia.
  pose proof (Z.pow_pos_nonneg 2 (Z.of_nat k) ltac:(lia) ltac:(lia)). split; [nia|].
  pose proof (Z.mul_div_le (MaxBackoff options) 2 ltac:(lia)). lia.
Qed.

(** One more failure. *)
Lemma backoff_after_S options k :
  timing_ok options -> MaxBackoff options <= MaxInt64 ->
  next_backoff options (backoff_after options k) = backoff_after options (S k).
Proof.
  intros Ht Hm. pose proof (backoff_after_range options k Ht) as Hr. destruct Ht as (_ & Hmin & Hmax).
  unfold Second in *. unfold next_backoff. rewrite Z.quot_div_nonneg by lia.
  pose proof (Z.mul_div_le (MaxBackoff options) 2 ltac:(lia)) as Hd.
  assert (backoff_after options k < MaxBackoff options / 2 -> wrap_i64 (backoff_after options k * 2) = backoff_after options k * 2)
    as Hw by (intros; apply wrap_i64_id; unfold in_i64, MinInt64; lia).
  destruct (backoff_after options k <? _) eqn:Eb; bools.
  - rewrite Hw by done. destruct k as [|k]; cbn [backoff_after] in *; [rewrite Z.mul_1_r, (proj2 (Z.ltb_lt _ _)) by done; done|].
    destruct (MinBackoff options * 2 ^ Z.of_nat k <? _) eqn:E2; [|lia].
    rewrite (proj2 (Z.ltb_lt _ _)) by done. rewrite !Nat2Z.inj_succ, !Z.pow_succ_r by lia. lia.
  - destruct k as [|k]; cbn [backoff_after] in *; [by rewrite Z.mul_1_r, (proj2 (Z.ltb_ge _ _))|].
    destruct (MinBackoff options * 2 ^ Z.of_nat k <? _) eqn:E2; [by rewrite (proj2 (Z.ltb_ge _ _))|]. bools.
    rewrite (proj2 (Z.ltb_ge _ _)); [done|]. rewrite Nat2Z.inj_succ, Z.pow_succ_r by lia.
    pose proof (Z.pow_pos_nonneg 2 (Z.of_nat k) ltac:(lia) ltac:(lia)). nia.
Qed.

(** A delay within ten percent of a duration. *)
Definition about (duration delay : Z) : Prop := duration * 90 / 100 <= delay <= duration * 110 / 100.

Definition draw_ok (draw : option Z) : Prop := forall value, draw = Some value -> 0 <= value < 21.

(** The longest duration that can be jittered. *)
Definition longest : Z := MaxInt64 / 110.

Lemma jitter_about draw duration :
  draw_ok draw -> 0 <= duration <= longest -> about duration (jitter draw duration).
Proof.
  intros Hd Hr. unfold longest, MaxInt64 in Hr. unfold about. destruct draw as [value|]; cbn [jitter].
  - specialize (Hd value eq_refl). rewrite wrap_i64_id by (unfold in_i64, MinInt64, MaxInt64; mlia).
    rewrite Z.quot_div_nonneg by nia. split; apply Z.div_le_mono; nia.
  - split; mlia.
Qed.

(** What the trace of a run has to look like: after a success the interval,
    after the [k+1]-st failure in a row the [k]-th backoff. *)
Fixpoint paced (options : RunOptions) (k : nat) (trace : list (RunEvent * Z)) : Prop :=
  match trace with
  | [] => True
  | (event, delay) :: rest =>
      about (if Successful event then Interval options else backoff_after options k) delay /\
      900000000 <= delay /\
      paced options (if Successful event then O else S k) rest
  end.

Section pacing.
Context {T : Type}.
Variable syncNow : T -> result SyncSummary * T.

Lemma run_turns_paced options turns : forall k (s : T) trace progress s',
  timing_ok options -> Interval options <= longest -> MaxBackoff options <= longest ->
  Forall (fun turn => draw_ok (draw turn)) turns ->
  run_turns syncNow options (backoff_after options k) turns s = (trace, progress, s') ->
  paced options k trace.
Proof.
  induction turns as [|turn turns IH]; intros k s trace progress s' Ht Hi Hm Hd H; cbn [run_turns] in H.
  { by injection H as <- _ _. }
  apply Forall_cons in Hd as [Hd1 Hd]. destruct (cancelled turn); [by injection H as <- _ _|].
  destruct (syncNow s) as [outcome s1]. pose proof (backoff_after_range options k Ht) as Hb.
  assert (MaxBackoff options <= MaxInt64) as Hmax by (unfold longest, MaxInt64 in *; mlia).
  assert (forall base, Second <= base <= longest ->
    about base (jitter (draw turn) base) /\ 900000000 <= jitter (draw turn) base) as Hj.
  { intros base Hbase. unfold Second in *. pose proof (jitter_about (draw turn) base Hd1 ltac:(lia)) as Ha.
    split; [done|]. unfold about in Ha. mlia. }
  pose proof Ht as (Hint & Hmin & _). rewrite (backoff_after_S _ _ Ht Hmax) in H.
  destruct outcome as [summary|e]; (destruct (interrupted turn);
    [injection H as <- _ _; cbn [paced Successful]; destruct (Hj (Interval options) ltac:(lia));
     destruct (Hj (backoff_after options k) ltac:(lia)); by split_and!|]).
  - destruct (run_turns _ _ _ turns s1) as [[trace1 p1] s2] eqn:E1. injection H as <- _ _. cbn [paced Successful].
    destruct (Hj (Interval options) ltac:(lia)). split_and!; try done. by eapply (IH O).
  - destruct (run_turns _ _ _ turns s1) as [[trace1 p1] s2] eqn:E1. injection H as <- _ _. cbn [paced Successful].
    destruct (Hj (backoff_after options k) ltac:(lia)). split_and!; try done. by eapply (IH (S k)).
Qed.

(** What every synchronisation keeps is kept by the loop. *)
Lemma run_turns_keeps (I : T -> Prop) options turns : forall backoff (s : T) trace progress s',
  (forall s r s', I s -> syncNow s = (r, s') -> I s') -> I s ->
  run_turns syncNow options backoff turns s = (trace, progress, s') -> I s'.
Proof.
  induction turns as [|turn turns IH]; intros backoff s trace progress s' Hstep Hs H; cbn [run_turns] in H; [by injection H as _ _ <-|].
  destruct (cancelled turn); [by injection H as _ _ <-|]. destruct (syncNow s) as [outcome s1] eqn:E1. pose proof (Hstep _ _ _ Hs E1) as H1.
  destruct (match outcome with Ok _ => _ | Err _ => _ end) as [[delay event] backoff'].
  destruct (interrupted turn); [by injection H as _ _ <-|].
  destruct (run_turns _ _ _ turns s1) as [[trace1 p1] s2] eqn:E2. injection H as _ _ <-. by eapply IH.
Qed.

(** A run either ends before the first synchronisation or is the loop. *)
Lemma runLoop_inv lock options turns (s : T) r s' :
  runLoop syncNow lock options turns s = (r, s') ->
  (exists e, r = Err e /\ s' = s /\ (lock = Ok tt -> defaults options = Err e)) \/
  (exists options' trace progress, lock = Ok tt /\ defaults options = Ok options' /\ r = Ok (trace, progress) /\
     run_turns syncNow options' (MinBackoff options') turns s = (trace, progress, s')).
Proof.
  unfold runLoop. destruct (defaults options) as [options'|e]; [|intros [= <- <-]; left; eauto].
  destruct lock as [[]|e]; [|intros [= <- <-]; left; exists e; by split_and!].
  destruct (run_turns _ _ _ _ _) as [[trace progress] s1] eqn:E. intros [= <- <-]. right. by exists options', trace, progress.
Qed.

Lemma defaults_inv options options' :
  defaults options = Ok options' ->
  timing_ok options' /\ Interval options' = or_default (Interval options) Minute /\
  MinBackoff options' = or_default (MinBackoff options) (5 * Second) /\
  MaxBackoff options' = or_default (MaxBackoff options) (15 * Minute).
Proof.
  unfold defaults. intros H. cbn zeta in H. destruct (_ || _ || _) eqn:Eb; [done|]. injection H as <-. bools.
  unfold timing_ok. cbn. split_and!; done.
Qed.

(** C37: the pace of the background loop.  When the interval and the longest
    backoff are at most [MaxInt64 / 110] nanoseconds (about 2.6 years; the jitter
    of longer ones overflows, see [jitter_overflows]) and a random draw is below
    21 or fails, every pause of every run is within ten percent of the interval after a
    success, and of an exponential backoff after a failure: the shortest pause
    doubled with every further failure in a row, never above the longest, and
    back to the shortest after a success.  No pause is shorter than nine tenths
    of a second, so the relay is never flooded. *)
Theorem run_paced (lock : result unit) (options : RunOptions) (turns : list Turn) (s : T) trace progress s' :
  or_default (Interval options) Minute <= longest -> or_default (MaxBackoff options) (15 * Minute) <= longest ->
  Forall (fun turn => draw_ok (draw turn)) turns ->
  runLoop syncNow lock options turns s = (Ok (trace, progress), s') ->
  exists options', defaults options = Ok options' /\ paced options' O trace /\
    forall k, MinBackoff options' <= backoff_after options' k <= MaxBackoff options'.
Proof.
  intros Hi Hm Hd H. unfold runLoop in H. destruct (defaults options) as [options'|] eqn:Ed; [|done].
  destruct lock; [|done]. destruct (run_turns _ _ _ _ _) as [[t p] s1] eqn:Er. injection H as <- <- <-.
  destruct (defaults_inv _ _ Ed) as (Ht & Hi' & _ & Hm'). exists options'. split; [done|]. split.
  - eapply (run_turns_paced options' turns O); rewrite ?Hi', ?Hm'; done.
  - intros k. by apply backoff_after_range.
Qed.

End pacing.

(** The jitter of a long interval overflows.  A duration between about
    three and a quarter and five and a third years is a valid interval, but
    whatever the random source yields the product wraps around to a negative
    number, so the loop does not wait at all. *)
Theorem jitter_overflows (duration value : Z) :
  MaxInt64 / 90 < duration <= MaxUint64 / 110 -> 0 <= value < 21 ->
  defaults (mkRunOptions duration 0 0) = Ok (mkRunOptions duration (5 * Second) (15 * Minute)) /\
  jitter (Some value) duration <= 0.
Proof.
  intros Hd Hv. unfold MaxInt64, MaxUint64 in Hd.
  assert (9223372036854775807 < duration * (90 + value) <= 18446744073709551615) as Hp by mlia.
  split.
  - unfold defaults, or_default, Minute, Second. cbn [Interval MinBackoff MaxBackoff].
    replace (duration =? 0) with false by (symmetry; apply Z.eqb_neq; mlia). change (0 =? 0) with true. cbn iota.
    replace (duration <? 1000000000) with false by (symmetry; apply Z.ltb_ge; mlia). reflexivity.
  - cbn [jitter]. assert (wrap_i64 (duration * (90 + value)) = duration * (90 + value) - 2 ^ 64) as ->.
    { unfold wrap_i64. rewrite <- (Z.mod_unique_pos _ (2 ^ 64) 1 (duration * (90 + value) + 2 ^ 63 - 2 ^ 64)); lia. }
    apply Z.le_trans with (Z.quot 0 100); [|done]. apply Z.quot_le_mono; lia.
Qed.

(** ** Examples *)

(** A success, three failures and a success. *)
Definition sample_turns : list Turn := replicate 5 (mkTurn false (Some 10) false).

Definition sample_sync (n : nat) : result SyncSummary * nat :=
  (match n with
   | O | 4%nat => Ok (mkSummary 1 0 0 0)
   | _ => fail "sync relay request failed"
   end, S n).

Definition sample_run := Eval vm_compute in runLoop sample_sync (Ok tt) (mkRunOptions 0 0 0) sample_turns O.

Lemma run_paced_witness :
  exists trace, sample_run = (Ok (trace, Running), 5%nat) /\
    map snd trace = map (fun n => n * Second) [60; 5; 10; 20; 60] /\
    exists options', defaults (mkRunOptions 0 0 0) = Ok options' /\ paced options' O trace /\
      forall k, MinBackoff options' <= backoff_after options' k <= MaxBackoff options'.
Proof.
  eexists. split; [reflexivity|]. split; [reflexivity|].
  apply (run_paced sample_sync (Ok tt) (mkRunOptions 0 0 0) sample_turns O _ Running 5%nat).
  - vm_compute. discriminate.
  - vm_compute. discriminate.
  - apply Forall_replicate. intros value [= <-]. lia.
  - vm_compute. reflexivity.
Defined.

(** 30000 hours. *)
Lemma jitter_overflows_witness :
  defaults (mkRunOptions (30000 * 60 * Minute) 0 0) =
    Ok (mkRunOptions (30000 * 60 * Minute) (5 * Second) (15 * Minute)) /\
  jitter (Some 10) (30000 * 60 * Minute) <= 0.
Proof. apply jitter_overflows; [vm_compute; split; [reflexivity|discriminate]|lia]. Defined.
