(* ===== verification/ReplayEvent.v ===== *)
(** * Events of the replay laboratory ([replaylab/event.go])

    The bounded interchange record between an input method and the laboratory,
    and its validation.  [encoding/json] on the record is the class [EventJson],
    the RFC 3339 form of times the class [TimeFormat]; an instant is the number
    of nanoseconds since the epoch. *)

From S2P Require Import Prelude Encoding Unicode Crypto.

(** ** Records *)

Definition EventVersionV1 : bytes := str "yunpin.replay.event.v1".
Definition MaxEventBytes : Z := 8 * 1024.
Definition MaxCandidates : Z := 8.
Definition MaxEpisodes : Z := 1000000.
Definition maxInputBytes : Z := 512.
Definition maxPinyinBytes : Z := 512.
Definition maxCandidateBytes : Z := 256.
Definition maxCommitBytes : Z := 2048.
Definition maxEditCount : Z := 1024.
Definition maxDropCount : Z := 2 ^ 40.

(** [type EventType string] with its constants; any other text is a value of
    the type too. *)
Inductive EventType :=
  | EventComposition | EventSelect | EventCommit | EventBackspace | EventDelete | EventAbort
  | EventPause | EventResume | EventDropCount | EventOther (text : bytes).

#[export] Instance EventType_eq_dec : EqDecision EventType.
Proof. solve_decision. Defined.

Definition type_text (t : EventType) : bytes :=
  match t with
  | EventComposition => str "composition_snapshot"
  | EventSelect => str "select"
  | EventCommit => str "commit"
  | EventBackspace => str "backspace"
  | EventDelete => str "delete"
  | EventAbort => str "abort"
  | EventPause => str "pause"
  | EventResume => str "resume"
  | EventDropCount => str "drop_count"
  | EventOther text => text
  end.

Record CandidateV1 := mkCandidate { CText : bytes; IsCorrection : bool; Highlighted : bool }.

Record CompositionV1 := mkComposition {
  RawInput : bytes; NormalizedPinyin : bytes; CaretByte : Z; ExactPathAvailable : bool;
  Candidates : list CandidateV1
}.

Record SelectionV1 := mkSelection { Rank : Z; SelText : bytes }.
Record CommitV1 := mkCommit { CommitText : bytes; CommitSource : bytes }.
Record FinalTextV1 := mkFinal { FinText : bytes; Scope : bytes; Confidence : bytes }.

Record EventV1 := mkEvent {
  EvVersion : bytes; SessionID : bytes; EpisodeID : bytes; Seq : Z; MonotonicUS : Z; UTC : bytes;
  Kind : EventType; Composition : option CompositionV1; Selection : option SelectionV1;
  Commit : option CommitV1; EditCount : Z; DropCount : Z; FinalText : option FinalTextV1
}.

(** ** Parameters *)

(** [time.Parse(time.RFC3339Nano, s)]: the instant and whether its location is
    UTC; and [t.UTC().Format(time.RFC3339Nano)]. *)
Class TimeFormat := {
  time_Parse : bytes -> option (Z * bool);
  canonicalUTC : Z -> bytes
}.

(** What the text of an instant promises: different instants have different
    texts, and the years 0 to 9999 can be read back from at most 30 bytes. *)
Class TimeLaws (T : TimeFormat) := {
  readable : Z -> bool;
  canonical_inj : forall t u, canonicalUTC t = canonicalUTC u -> t = u;
  parse_canonical : forall t, readable t = true -> time_Parse (canonicalUTC t) = Some (t, true);
  canonical_len : forall t, readable t = true -> len (canonicalUTC t) <= 30;
  parse_readable : forall s t, time_Parse s = Some (t, true) -> canonicalUTC t = s -> readable t = true
}.

(** What follows the first JSON value of a text: nothing, another value, or
    something that is no JSON. *)
Inductive Trailing := AtEOF | AnotherValue | TrailingError (e : error).

Class EventJson := {
  marshal_event : EventV1 -> result bytes;
  decode_event : bytes -> result (EventV1 * Trailing)
}.

(** ** Validation *)

(** [strings.ContainsRune(value, 0)] *)
Definition contains_nul (value : bytes) : bool := existsb (fun b => u8 b =? 0) value.

Definition validateText (name value : bytes) (maxBytes : Z) (allowEmpty : bool) : result unit :=
  if negb (ValidString value) then Err (Errorf_s "%s is not valid UTF-8" name)
  else if negb allowEmpty && bool_decide (value = []) then Err (Errorf_s "%s must not be empty" name)
  else if len value >? maxBytes then
    Err (Errorf_args "%s is %d bytes; maximum is %d" [inr name; inl (len value); inl maxBytes])
  else if contains_nul value then Err (Errorf_s "%s contains NUL" name)
  else Ok tt.

(** 32 lower-case hexadecimal digits. *)
Definition hex_character (r : Z) : bool := ((48 <=? r) && (r <=? 57)) || ((97 <=? r) && (r <=? 102)).

Definition validID (value : bytes) : bool :=
  if negb (len value =? 32) then false
  else forallb (fun '(char, _) => hex_character char) (runes value).

(** [utf8.RuneStart] *)
Definition RuneStart (b : byte) : bool := negb (Z.land (u8 b) 192 =? 128).

(** [fmt.Sprintf("%d", n)] for the indices used here. *)
Definition Sprintf_d (n : Z) : bytes := [byte_of_Z (48 + n)].

Fixpoint validate_candidates (index : Z) (highlighted : Z) (candidates : list CandidateV1) : result Z :=
  match candidates with
  | [] => Ok highlighted
  | candidate :: rest =>
      let! _ := validateText (str "candidate[" ++ Sprintf_d index ++ str "].text") (CText candidate)
                  maxCandidateBytes false in
      validate_candidates (index + 1) (if Highlighted candidate then highlighted + 1 else highlighted) rest
  end.

Definition validate_composition (composition : CompositionV1) : result unit :=
  let! _ := validateText (str "raw_input") (RawInput composition) maxInputBytes true in
  let! _ := validateText (str "normalized_pinyin") (NormalizedPinyin composition) maxPinyinBytes true in
  let caret := CaretByte composition in
  if (caret <? 0) || (caret >? len (RawInput composition)) then fail "caret_byte is outside raw_input"
  else if (caret >? 0) && negb (caret =? len (RawInput composition))
          && negb (RuneStart (nth (Z.to_nat caret) (RawInput composition) Byte.x00)) then
    fail "caret_byte splits a UTF-8 code point"
  else if len (Candidates composition) >? MaxCandidates then
    Err (Errorf_args "candidate count %d exceeds maximum %d" [inl (len (Candidates composition)); inl MaxCandidates])
  else
    let! highlighted := validate_candidates 0 0 (Candidates composition) in
    if highlighted >? 1 then fail "at most one candidate may be highlighted" else Ok tt.

Definition validate_final (final : FinalTextV1) : result unit :=
  let! _ := validateText (str "final_text.text") (FinText final) maxCommitBytes false in
  if negb (one_of (Scope final) ["composition"; "clause"; "episode"]) then
    Err (Errorf_s "unsupported final_text scope %q" (Scope final))
  else if negb (one_of (Confidence final) ["observed"; "user_confirmed"; "inferred"]) then
    Err (Errorf_s "unsupported final_text confidence %q" (Confidence final))
  else Ok tt.

Definition is_some {A} (x : option A) : bool := match x with Some _ => true | None => false end.

(** The payloads and counters an event type allows. *)
Definition unexpected (event : EventV1) (allowComposition allowSelection allowCommit allowFinal : bool)
    : result unit :=
  if (negb allowComposition && is_some (Composition event)) || (negb allowSelection && is_some (Selection event))
     || (negb allowCommit && is_some (Commit event)) || (negb allowFinal && is_some (FinalText event)) then
    Err (Errorf_s "event type %q contains an unsupported payload" (type_text (Kind event)))
  else Ok tt.

Definition validateTypeShape (event : EventV1) : result unit :=
  let counters := negb (EditCount event =? 0) || negb (DropCount event =? 0) in
  match Kind event with
  | EventComposition =>
      reject_if (negb (is_some (Composition event)) || is_some (Selection event) || is_some (Commit event)
                 || is_some (FinalText event) || counters)
        "composition_snapshot requires only composition"
  | EventSelect =>
      reject_if (negb (is_some (Composition event)) || negb (is_some (Selection event)) || is_some (Commit event)
                 || is_some (FinalText event) || counters)
        "select requires composition and selection only"
  | EventCommit =>
      match Composition event, Commit event, FinalText event with
      | Some _, Some commit, Some final =>
          if counters then fail "commit requires composition, commit, and final_text"
          else reject_if (negb (bool_decide (CommitText commit = FinText final)))
                 "commit text and final_text text must match"
      | _, _, _ => fail "commit requires composition, commit, and final_text"
      end
  | EventBackspace | EventDelete =>
      if (EditCount event =? 0) || (EditCount event >? maxEditCount) || negb (DropCount event =? 0) then
        Err (Errorf_args "%s requires edit_count between 1 and %d" [inr (type_text (Kind event)); inl maxEditCount])
      else unexpected event true false false false
  | EventAbort =>
      if counters then fail "abort does not accept counters" else unexpected event true false false false
  | EventPause | EventResume =>
      if counters then Err (Errorf_s "%s does not accept counters" (type_text (Kind event)))
      else unexpected event false false false false
  | EventDropCount =>
      if (DropCount event =? 0) || (DropCount event >? maxDropCount) || negb (EditCount event =? 0) then
        Err (Errorf_d "drop_count requires drop_count between 1 and %d" maxDropCount)
      else unexpected event false false false false
  | EventOther text => Err (Errorf_s "unsupported event type %q" text)
  end.

(** A selection names a candidate of its composition. *)
Definition selection_at (composition : CompositionV1) (selection : SelectionV1) : option CandidateV1 :=
  Candidates composition !! Z.to_nat (Rank selection - 1).

Definition validate_selection (event : EventV1) : result unit :=
  match Selection event with
  | None => Ok tt
  | Some selection =>
      match Composition event with
      | None => fail "selection requires a composition snapshot"
      | Some composition =>
          if (Rank selection <? 1) || (Rank selection >? len (Candidates composition)) then
            fail "selection rank is outside the candidate snapshot"
          else match selection_at composition selection with
          | Some candidate =>
              reject_if (negb (bool_decide (SelText selection = CText candidate)))
                "selection text does not match its candidate rank"
          | None => fail "selection rank is outside the candidate snapshot"
          end
      end
  end.

Definition validate_commit (event : EventV1) : result unit :=
  match Commit event with
  | None => Ok tt
  | Some commit =>
      let! _ := validateText (str "commit text") (CommitText commit) maxCommitBytes false in
      if negb (one_of (CommitSource commit) ["candidate"; "raw"; "prediction"; "unknown"]) then
        Err (Errorf_s "unsupported commit source %q" (CommitSource commit))
      else Ok tt
  end.

(** [fmt.Errorf(format, err)] around a failing check. *)
Definition wrapped {A} (format : string) (r : result A) : result A :=
  match r with Err e => Err (Errorf_w format e) | Ok a => Ok a end.

Section event.
Context `{T : TimeFormat} `{EJ : EventJson}.

Definition isCanonicalUTC (value : bytes) : bool :=
  match time_Parse value with
  | Some (parsed, utc) => utc && bool_decide (canonicalUTC parsed = value)
  | None => false
  end.

Definition too_long {A} (size : Z) : result A :=
  Err (Errorf_args "encoded event is %d bytes; maximum is %d" [inl size; inl MaxEventBytes]).

Definition Validate (event : EventV1) : result unit :=
  if negb (bool_decide (EvVersion event = EventVersionV1)) then
    Err (Errorf_s "unsupported event version %q" (EvVersion event))
  else if negb (validID (SessionID event)) || negb (validID (EpisodeID event)) then
    fail "session_id and episode_id must be 32 lowercase hexadecimal characters"
  else if Seq event =? 0 then fail "seq must start at 1"
  else if negb (isCanonicalUTC (UTC event)) then
    fail "utc must be canonical RFC3339Nano in UTC (ending in Z)"
  else
    let! _ := match Composition event with
              | None => Ok tt
              | Some composition => wrapped "composition: %w" (validate_composition composition)
              end in
    let! _ := validate_selection event in
    let! _ := validate_commit event in
    let! _ := match FinalText event with None => Ok tt | Some final => validate_final final end in
    let! _ := validateTypeShape event in
    let! encoded := wrapped "measure event: %w" (marshal_event event) in
    if len encoded >? MaxEventBytes then too_long (len encoded) else Ok tt.

Definition DecodeEventV1 (line : bytes) : result EventV1 :=
  if len line =? 0 then fail "empty event"
  else if len line >? MaxEventBytes then
    Err (Errorf_args "event is %d bytes; maximum is %d" [inl (len line); inl MaxEventBytes])
  else
    let! (event, trailing) := wrapped "decode event v1: %w" (decode_event line) in
    match trailing with
    | AnotherValue => fail "event contains trailing JSON value"
    | TrailingError e => Err (Errorf_w "decode trailing data: %w" e)
    | AtEOF => let! _ := Validate event in Ok event
    end.

Definition EncodeEventV1 (event : EventV1) : result bytes :=
  let! _ := Validate event in
  let! encoded := wrapped "encode event v1: %w" (marshal_event event) in
  if len encoded >? MaxEventBytes then too_long (len encoded) else Ok encoded.

End event.

(** [NewID]: sixteen random bytes in hexadecimal. *)
Definition NewID (source : bytes) : result (bytes * bytes) :=
  match ReadFull 16 source with
  | Err e => Err (Errorf_w "generate random id: %w" e)
  | Ok (raw, source) => Ok (Hex.EncodeToString raw, source)
  end.

(** Sixteen bytes in hexadecimal are an identifier. *)
Lemma hex_digit_character n : 0 <= n < 16 -> hex_character (u8 (Hex.digit n)) = true /\ u8 (Hex.digit n) < 128.
Proof.
  intros H. assert (n ∈ seqZ 0 16) as Hn by (apply elem_of_seqZ; lia). clear H. revert n Hn. apply Forall_forall.
  repeat constructor.
Qed.

Lemma hex_characters raw : Forall (fun b => hex_character (u8 b) = true /\ u8 b < 128) (Hex.EncodeToString raw).
Proof.
  induction raw as [|b l IH]; [constructor|]. unfold Hex.EncodeToString in *. cbn [flat_map app].
  pose proof (u8_range b). repeat constructor; try done; apply hex_digit_character; mlia.
Qed.

Lemma validID_hex raw : len raw = 16 -> validID (Hex.EncodeToString raw) = true.
Proof.
  intros Hl. unfold validID. rewrite len_hex_encode, Hl. cbn [negb Z.eqb].
  pose proof (proj1 (Forall_forall _ _) (hex_characters raw)) as Hf.
  rewrite runes_ascii by (apply forallb_forall; intros b Hb%list_elem_of_In; apply Z.ltb_lt; by apply Hf).
  apply forallb_forall. intros [char c] (b & [= <- <-] & Hb%list_elem_of_In)%in_map_iff. by apply Hf.
Qed.

(** An identifier has only hexadecimal digits. *)
Lemma hex_characters_of s : forallb (fun '(char, _) => hex_character char) (runes s) = true -> Forall (fun b => hex_character (u8 b) = true) s.
Proof. apply low_runes. intros r. unfold hex_character. intros [Hr|Hr]%orb_prop; bools; lia. Qed.

Lemma validID_characters id : validID id = true -> len id = 32 /\ Forall (fun b => hex_character (u8 b) = true) id.
Proof.
  unfold validID. intros H. destruct (negb (len id =? 32)) eqn:El; [done|]. bools. split; [done|]. by apply hex_characters_of.
Qed.

(** What is assumed of [encoding/json] on an event: a valid event survives the
    trip, its text has no line break, and a resume event is short. *)
Class EventJsonLaws (T : TimeFormat) (EJ : EventJson) : Prop := {
  decode_marshalled : forall event text,
    Validate event = Ok tt -> marshal_event event = Ok text -> decode_event text = Ok (event, AtEOF);
  marshalled_line : forall event text,
    marshal_event event = Ok text -> text <> [] /\ Forall (fun b => u8 b <> 10 /\ u8 b <> 13) text;
  marshal_resume : forall session episode seq mono utc,
    validID session = true -> validID episode = true -> len utc <= 30 -> in_u64 seq -> in_u64 mono ->
    exists text, marshal_event (mkEvent EventVersionV1 session episode seq mono utc EventResume None None None 0 0 None) = Ok text
      /\ len text <= MaxEventBytes
}.

(** ** Lines of a log *)

Definition newline : byte := Byte.x0a.

(** [bufio.ScanLines]: the lines of a text, without a carriage return at their
    end; a last line needs no newline. *)
Definition drop_cr (line : bytes) : bytes :=
  match last line with
  | Some c => if u8 c =? 13 then take (length line - 1) line else line
  | None => line
  end.

Fixpoint split_lines (line text : bytes) : list bytes :=
  match text with
  | [] => if bool_decide (line = []) then [] else [line]
  | c :: rest => if bool_decide (c = newline) then line :: split_lines [] rest else split_lines (line ++ [c]) rest
  end.

Definition ErrTooLong : error := errors_New "bufio.Scanner: token too long".

(** The loop over a [bufio.Scanner] with a buffer of [MaxEventBytes + 1]: every
    line is handed on until one fails or does not fit. *)
Fixpoint for_lines {A} (accept : A -> bytes -> result A) (too_long : error -> error) (state : A) (lines : list bytes)
    : result A :=
  match lines with
  | [] => Ok state
  | line :: rest =>
      if len line >? MaxEventBytes then Err (too_long ErrTooLong)
      else let! state := accept state (drop_cr line) in for_lines accept too_long state rest
  end.

Section lines.
Context `{T : TimeFormat} {TL : TimeLaws T} `{EJ : EventJson}.

(** A canonical text stands for the instant it was made of. *)
Lemma canonical_instant u : isCanonicalUTC (canonicalUTC u) = true -> time_Parse (canonicalUTC u) = Some (u, true) /\ readable u = true.
Proof.
  unfold isCanonicalUTC. destruct (time_Parse (canonicalUTC u)) as [[t []]|] eqn:Ep; [|done..]. cbn [andb]. intros H.
  apply bool_decide_eq_true in H. apply canonical_inj in H as Heq. subst t. split; [done|]. by eapply parse_readable.
Qed.

End lines.

(** Appending a line to a text that ends with a newline appends it to its
    lines. *)
Definition ends_line (text : bytes) : Prop := text = [] \/ exists t, text = t ++ [newline].

Lemma split_lines_line pre line rest :
  newline ∉ line -> split_lines pre (line ++ newline :: rest) = (pre ++ line) :: split_lines [] rest.
Proof.
  revert pre. induction line as [|c line IH]; intros pre Hn; cbn; [by rewrite bool_decide_true, app_nil_r|].
  apply not_elem_of_cons in Hn as [Hc Hn]. rewrite bool_decide_false by done. rewrite IH by done. by rewrite <- app_assoc.
Qed.

Lemma split_lines_complete text : forall pre line,
  ends_line text -> pre = [] \/ text <> [] -> newline ∉ line ->
  split_lines pre (text ++ line ++ [newline]) = split_lines pre text ++ [line].
Proof.
  induction text as [|c text IH]; intros pre line Ht Hpre Hn.
  - destruct Hpre as [->|?]; [|done]. cbn [app]. by rewrite split_lines_line.
  - cbn. assert (ends_line text) as Ht'.
    { destruct Ht as [?|[t Ht]]; [done|]. destruct t as [|d t]; [injection Ht as _ ->; by left|].
      injection Ht as _ ->. right. eauto. }
    destruct (bool_decide (c = newline)) eqn:Ec; bools.
    + cbn. f_equal. apply IH; [done|by left|done].
    + apply IH; [done| |done]. right. intros ->. destruct Ht as [?|[[|d t] Ht]]; [done|by injection Ht|].
      injection Ht as _ Ht. by destruct t.
Qed.
