(* ===== verification/ReplaySequence.v ===== *)
(** * The order of a replay session ([replaylab/sequence.go])

    [Accept] checks one event against the state of the stream and gives the next
    state.  In the source the state holds a reference to the set of episodes
    seen; the copy [Accept] works on shares it with the original, which matters
    to callers that keep the original ([shared_with]).  The streams that are
    accepted are characterised by [accepted_stream]. *)

From S2P Require Import Prelude Encoding Unicode ReplayEvent.

Record SequenceState := mkSequence {
  SeqSession : bytes; LastEpisodeID : bytes; LastSeq : Z; LastMonotonicUS : Z; LastUTC : Z;
  Paused : bool; EpisodeClosed : bool;
  SeenEpisodes : option (gset bytes)  (* [nil] before the first event *)
}.

(** The zero value. *)
Definition no_sequence : SequenceState := mkSequence [] [] 0 0 0 false false None.

(** The original after [Accept] gave [after] on a copy of [before]: an insertion
    into the set is visible through both. *)
Definition shared_with (before after : SequenceState) : SequenceState :=
  mkSequence (SeqSession before) (LastEpisodeID before) (LastSeq before) (LastMonotonicUS before)
    (LastUTC before) (Paused before) (EpisodeClosed before)
    (match SeenEpisodes before with None => None | Some _ => SeenEpisodes after end).

Definition is_kind (event : EventV1) (kinds : list EventType) : bool := bool_decide (Kind event ∈ kinds).

Section sequence.
Context `{T : TimeFormat} `{EJ : EventJson}.

Definition utc_of (event : EventV1) : Z :=
  match time_Parse (UTC event) with Some (utc, _) => utc | None => 0 end.

(** The checks against the session. *)
Definition check_session (state : SequenceState) (event : EventV1) : result bytes :=
  if bool_decide (SeqSession state = []) then
    if negb (Seq event =? 1) then fail "the first event in a session must have seq 1"
    else if negb (is_kind event [EventResume]) then fail "the first event in a session must be resume"
    else Ok (SessionID event)
  else
    if negb (bool_decide (SessionID event = SeqSession state)) then
      fail "event session_id does not match the active session"
    else if negb (Seq event =? wrap_u64 (LastSeq state + 1)) then
      Err (Errorf_args "event seq %d is not the expected %d" [inl (Seq event); inl (wrap_u64 (LastSeq state + 1))])
    else if MonotonicUS event <? LastMonotonicUS state then fail "monotonic_us moved backwards"
    else if utc_of event <? LastUTC state then fail "utc moved backwards"
    else Ok (SeqSession state).

(** The checks against the episode. *)
Definition check_episode (state : SequenceState) (event : EventV1) (newEpisode : bool) : result unit :=
  let started := negb (bool_decide (LastEpisodeID state = [])) in
  let! _ :=
    match SeenEpisodes state with
    | Some seen =>
        if newEpisode then
          if bool_decide (EpisodeID event ∈ seen) then fail "episode_id was already closed and cannot be reused"
          else if Z.of_nat (size seen) >=? MaxEpisodes then
            Err (Errorf_d "session exceeds the maximum %d episodes" MaxEpisodes)
          else Ok tt
        else Ok tt
    | None => Ok tt
    end in
  if newEpisode && started && negb (EpisodeClosed state) && negb (Paused state) then
    fail "episode_id changed before commit, abort, or pause"
  else if newEpisode && started && negb (is_kind event [EventComposition; EventResume]) then
    fail "a new episode_id must start with composition_snapshot or resume"
  else if negb newEpisode && EpisodeClosed state && negb (is_kind event [EventPause; EventDropCount]) then
    fail "a closed episode_id cannot receive more input events"
  else if Paused state && negb (is_kind event [EventResume; EventDropCount]) then
    fail "only resume or drop_count is accepted while paused"
  else Ok tt.

(** The effect on the life cycle: whether the session is paused and the episode
    closed afterwards. *)
Definition life_cycle (state : SequenceState) (event : EventV1) (newEpisode : bool) : result (bool * bool) :=
  match Kind event with
  | EventResume =>
      if negb (LastSeq state =? 0) && negb (Paused state) then
        fail "resume is only valid at session start or after pause"
      else if negb (LastSeq state =? 0) && negb newEpisode then
        fail "resume after pause must start a new episode_id"
      else Ok (false, false)
  | EventPause =>
      if Paused state then fail "session is already paused" else Ok (true, true)
  | EventCommit | EventAbort => Ok (Paused state, true)
  | EventComposition | EventSelect | EventBackspace | EventDelete =>
      Ok (Paused state, if newEpisode then false else EpisodeClosed state)
  | EventDropCount => Ok (Paused state, EpisodeClosed state)
  | EventOther text => Err (Errorf_s "unsupported event type %q" text)
  end.

Definition Accept (state : SequenceState) (event : EventV1) : result SequenceState :=
  let! _ := Validate event in
  let! session := check_session state event in
  let newEpisode := bool_decide (LastEpisodeID state = []) || negb (bool_decide (EpisodeID event = LastEpisodeID state)) in
  let! _ := check_episode state event newEpisode in
  let! (paused, closed) := life_cycle state event newEpisode in
  Ok (mkSequence session (EpisodeID event) (Seq event) (MonotonicUS event) (utc_of event) paused closed
        (if newEpisode then Some ({[EpisodeID event]} ∪ default ∅ (SeenEpisodes state)) else SeenEpisodes state)).

Fixpoint accept_all (state : SequenceState) (events : list EventV1) : result SequenceState :=
  match events with
  | [] => Ok state
  | event :: rest => let! state := Accept state event in accept_all state rest
  end.

Lemma accept_all_app state events events' :
  accept_all state (events ++ events') = (let! state := accept_all state events in accept_all state events').
Proof.
  revert state. induction events as [|e events IH]; intros state; [done|]. cbn. destruct (Accept state e); [|done]. apply IH.
Qed.

End sequence.

(** ** Accepted streams *)

(** The events after which an episode takes no more input. *)
Definition closing (kind : EventType) : bool :=
  match kind with EventCommit | EventAbort | EventPause => true | _ => false end.

(** The rules of a stream, on the list of its events. *)
Record well_ordered `{TimeFormat} (events : list EventV1) : Prop := {
  (* numbered from one without gaps, all of one session *)
  wo_seq : forall i e, events !! i = Some e -> Seq e = Z.of_nat i + 1;
  wo_session : forall i j e f, events !! i = Some e -> events !! j = Some f -> SessionID e = SessionID f;
  (* both clocks never move backwards *)
  wo_time : forall i j e f, (i <= j)%nat -> events !! i = Some e -> events !! j = Some f ->
    MonotonicUS e <= MonotonicUS f /\ utc_of e <= utc_of f;
  (* the events of an episode are contiguous: no identifier comes back *)
  wo_block : forall i j k e f g, (i <= j <= k)%nat ->
    events !! i = Some e -> events !! j = Some f -> events !! k = Some g ->
    EpisodeID e = EpisodeID g -> EpisodeID f = EpisodeID e;
  (* an episode starts with a snapshot or a resume *)
  wo_start : forall i e, events !! i = Some e ->
    (forall j f, (j < i)%nat -> events !! j = Some f -> EpisodeID f <> EpisodeID e) ->
    Kind e = EventComposition \/ Kind e = EventResume;
  (* after a commit, an abort or a pause it takes only a pause or a loss report *)
  wo_closed : forall i j e f, (i < j)%nat -> events !! i = Some e -> events !! j = Some f ->
    EpisodeID e = EpisodeID f -> closing (Kind e) = true -> Kind f = EventPause \/ Kind f = EventDropCount;
  (* after a pause and before the next resume only losses are reported *)
  wo_paused : forall i j e f, (i < j)%nat -> events !! i = Some e -> events !! j = Some f -> Kind e = EventPause ->
    (forall k g, (i < k < j)%nat -> events !! k = Some g -> Kind g <> EventResume) ->
    Kind f = EventResume \/ Kind f = EventDropCount
}.

(** What the state knows about the events so far. *)
Record summarizes `{TimeFormat} (events : list EventV1) (state : SequenceState) : Prop := {
  sm_length : len events <= MaxUint64;
  sm_seq : LastSeq state = len events;
  sm_last : match last events with
            | None => state = no_sequence
            | Some e => SeqSession state = SessionID e /\ LastEpisodeID state = EpisodeID e /\
                        LastMonotonicUS state = MonotonicUS e /\ LastUTC state = utc_of e /\
                        SessionID e <> [] /\ EpisodeID e <> [] /\
                        SeenEpisodes state = Some (list_to_set (map EpisodeID events))
            end;
  sm_closed : forall i e, events !! i = Some e -> EpisodeID e = LastEpisodeID state -> closing (Kind e) = true ->
    EpisodeClosed state = true;
  sm_paused : forall i e, events !! i = Some e -> Kind e = EventPause ->
    (forall k g, (i < k)%nat -> events !! k = Some g -> Kind g <> EventResume) -> Paused state = true
}.

Lemma validID_nonempty id : validID id = true -> id <> [].
Proof. by intros H ->. Qed.

Lemma is_kind_true event kinds : is_kind event kinds = true <-> Kind event ∈ kinds.
Proof. unfold is_kind. by rewrite bool_decide_eq_true. Qed.

Section order.
Context `{T : TimeFormat} `{EJ : EventJson}.

Lemma Validate_ids event u :
  Validate event = Ok u -> SessionID event <> [] /\ EpisodeID event <> [] /\ Seq event <> 0.
Proof.
  unfold Validate. intros H. destruct (negb (bool_decide _)); [done|].
  destruct (negb (validID (SessionID event)) || _) eqn:Ei; [done|].
  destruct (Seq event =? 0) eqn:Es; [done|]. bools. split_and!; try done; by apply validID_nonempty.
Qed.

(** The new state after an accepted event, and everything that was checked. *)
Lemma Accept_inv state event state' :
  Accept state event = Ok state' ->
  exists session paused closed,
    let new := bool_decide (LastEpisodeID state = []) || negb (bool_decide (EpisodeID event = LastEpisodeID state)) in
    Validate event = Ok tt /\ check_session state event = Ok session /\ check_episode state event new = Ok tt /\
    life_cycle state event new = Ok (paused, closed) /\
    state' = mkSequence session (EpisodeID event) (Seq event) (MonotonicUS event) (utc_of event) paused closed
      (if new then Some ({[EpisodeID event]} ∪ default ∅ (SeenEpisodes state)) else SeenEpisodes state).
Proof.
  unfold Accept. intros H. invert_ok. destruct a2 as [paused closed]. invert_ok. destruct a, a1.
  exists a0, paused, closed. done.
Qed.

Lemma check_session_first event session :
  check_session no_sequence event = Ok session -> session = SessionID event /\ Seq event = 1 /\ Kind event = EventResume.
Proof.
  unfold check_session. rewrite bool_decide_true by done. intros H. invert_ok. bools.
  split_and!; try done. apply is_kind_true in Heqb0. set_solver.
Qed.

Lemma check_session_next state event session :
  SeqSession state <> [] -> check_session state event = Ok session ->
  session = SeqSession state /\ SessionID event = SeqSession state /\ Seq event = wrap_u64 (LastSeq state + 1) /\
  LastMonotonicUS state <= MonotonicUS event /\ LastUTC state <= utc_of event.
Proof.
  intros Hs. unfold check_session. rewrite bool_decide_false by done. intros H. invert_ok. by bools.
Qed.

Lemma check_episode_inv state event new :
  LastEpisodeID state <> [] -> check_episode state event new = Ok tt ->
  (new = true -> (forall seen, SeenEpisodes state = Some seen -> EpisodeID event ∉ seen) /\
     (EpisodeClosed state = true \/ Paused state = true) /\ (Kind event = EventComposition \/ Kind event = EventResume)) /\
  (new = false -> EpisodeClosed state = true -> Kind event = EventPause \/ Kind event = EventDropCount) /\
  (Paused state = true -> Kind event = EventResume \/ Kind event = EventDropCount).
Proof.
  intros Hl. unfold check_episode. rewrite bool_decide_false by done. cbn [negb]. intros H. invert_ok.
  rewrite andb_true_r in *.
  assert (forall kinds, is_kind event kinds = true -> Kind event ∈ kinds) as Hk by (intros; by apply is_kind_true).
  split_and!.
  - intros ->. split_and!.
    + intros seen Hseen. rewrite Hseen in Hok. invert_ok. by bools.
    + destruct (EpisodeClosed state), (Paused state); auto.
    + destruct (is_kind event [EventComposition; EventResume]) eqn:Ek; [apply Hk in Ek; set_solver|done].
  - intros -> Hc. rewrite Hc in *. destruct (is_kind event [EventPause; EventDropCount]) eqn:Ek; [apply Hk in Ek; set_solver|done].
  - intros Hp. rewrite Hp in *. destruct (is_kind event [EventResume; EventDropCount]) eqn:Ek; [apply Hk in Ek; set_solver|done].
Qed.

Lemma life_cycle_inv state event new paused closed :
  life_cycle state event new = Ok (paused, closed) ->
  (closing (Kind event) = true -> closed = true) /\ (new = false -> EpisodeClosed state = true -> Kind event <> EventResume -> closed = true) /\
  (Kind event = EventPause -> paused = true) /\ (Kind event <> EventResume -> Paused state = true -> paused = true).
Proof.
  unfold life_cycle. intros H. destruct (Kind event); invert_ok; cbn; split_and!; try done; try (by intros ->).
Qed.

(** Everything an accepted event satisfies relative to the events before it. *)
Lemma accepted_next events state event state' e0 :
  summarizes events state -> last events = Some e0 -> Accept state event = Ok state' ->
  let new := negb (bool_decide (EpisodeID event = EpisodeID e0)) in
  Validate event = Ok tt /\ Seq event = len events + 1 /\ len events + 1 <= MaxUint64 /\
  SessionID event = SessionID e0 /\ MonotonicUS e0 <= MonotonicUS event /\ utc_of e0 <= utc_of event /\
  (new = true -> EpisodeID event ∉ map EpisodeID events /\ (Kind event = EventComposition \/ Kind event = EventResume)) /\
  (new = false -> EpisodeClosed state = true -> Kind event = EventPause \/ Kind event = EventDropCount) /\
  (Paused state = true -> Kind event = EventResume \/ Kind event = EventDropCount) /\
  (closing (Kind event) = true -> EpisodeClosed state' = true) /\
  (new = false -> EpisodeClosed state = true -> EpisodeClosed state' = true) /\
  (Kind event = EventPause -> Paused state' = true) /\ (Kind event <> EventResume -> Paused state = true -> Paused state' = true) /\
  SeqSession state' = SessionID event /\ LastEpisodeID state' = EpisodeID event /\ LastSeq state' = Seq event /\
  LastMonotonicUS state' = MonotonicUS event /\ LastUTC state' = utc_of event /\
  SeenEpisodes state' = Some (list_to_set (map EpisodeID (events ++ [event]))).
Proof.
  intros [Hlen Hseq Hlast _ _] He0 (session & paused & closed & Hv & Hs & Hep & Hl & ->)%Accept_inv. rewrite He0 in Hlast.
  destruct Hlast as (L1 & L2 & L3 & L4 & L5 & L6 & L7). pose proof (Validate_ids _ _ Hv) as (V1 & V2 & V3).
  assert (bool_decide (LastEpisodeID state = []) || negb (bool_decide (EpisodeID event = LastEpisodeID state))
    = negb (bool_decide (EpisodeID event = EpisodeID e0))) as Hnew
    by (by rewrite L2, (bool_decide_false (EpisodeID e0 = []))).
  cbn zeta in Hep, Hl. rewrite Hnew in *. clear Hnew.
  apply check_session_next in Hs as (-> & S1 & S2 & S3 & S4); [|by rewrite L1].
  apply check_episode_inv in Hep as (E1 & E2 & E3); [|by rewrite L2].
  apply life_cycle_inv in Hl as (C1 & C2 & C3 & C4). cbn [SeqSession LastEpisodeID LastSeq LastMonotonicUS LastUTC Paused EpisodeClosed SeenEpisodes].
  assert (Seq event = len events + 1 /\ len events + 1 <= MaxUint64) as [Q1 Q2].
  { rewrite S2, Hseq in *. destruct (Z.eq_dec (len events) MaxUint64) as [Em|]; [rewrite Em in V3; by vm_compute in V3|].
    pose proof (len_nonneg events). split; [|lia]. apply wrap_u64_id. unfold in_u64. lia. }
  rewrite L1, L3, L4, L7 in *. split_and!; try done; try congruence; try (by destruct (bool_decide _)).
  - intros [H1 [_ H2]]%E1. split; [|done]. intros Hin. apply (H1 _ eq_refl). by apply elem_of_list_to_set.
  - intros Hn Hc. apply C2; [done..|]. intros Hr. destruct (E2 Hn Hc); congruence.
  - rewrite map_app. destruct (bool_decide _) eqn:Eb; cbn [negb default id map].
    + f_equal. bools. apply set_eq. intros x. rewrite !elem_of_list_to_set, elem_of_app. cbn. rewrite list_elem_of_singleton.
      split; [auto|]. intros [?| ->]; [done|]. rewrite Eb. apply list_elem_of_fmap. exists e0. split; [done|].
      by apply last_Some_elem_of.
    + f_equal. apply set_eq. intros x. rewrite elem_of_union, elem_of_singleton, !elem_of_list_to_set, elem_of_app.
      cbn. rewrite list_elem_of_singleton. tauto.
Qed.

(** The first event. *)
Lemma accepted_first event state' :
  Accept no_sequence event = Ok state' ->
  Seq event = 1 /\ Kind event = EventResume /\ SessionID event <> [] /\ EpisodeID event <> [] /\
  state' = mkSequence (SessionID event) (EpisodeID event) 1 (MonotonicUS event) (utc_of event) false false
    (Some {[EpisodeID event]}).
Proof.
  intros (session & paused & closed & Hv & Hs & _ & Hl & ->)%Accept_inv.
  apply check_session_first in Hs as (-> & Hq & Hk). pose proof (Validate_ids _ _ Hv) as (V1 & V2 & _).
  unfold life_cycle in Hl. rewrite Hk in Hl. cbn in Hl. injection Hl as <- <-. rewrite Hq.
  cbn [LastEpisodeID no_sequence SeenEpisodes default]. rewrite (bool_decide_true ([] = [])) by done. cbn [orb].
  by rewrite union_empty_r_L.
Qed.

Lemma last_lookup_len {A} (l : list A) x : last l = Some x -> l !! (length l - 1)%nat = Some x.
Proof. rewrite last_lookup. by replace (pred (length l)) with (length l - 1)%nat by lia. Qed.

Lemma summarizes_step events state event state' :
  summarizes events state -> Accept state event = Ok state' -> summarizes (events ++ [event]) state'.
Proof.
  intros Hsum Hacc. destruct (last events) as [e0|] eqn:He0.
  - destruct (accepted_next _ _ _ _ _ Hsum He0 Hacc) as (Hv & Q1 & Q2 & S1 & S2 & S3 & N1 & N2 & P1 & C1 & C2 & P2 & P3 & R1 & R2 & R3 & R4 & R5 & R6).
    pose proof (Validate_ids _ _ Hv) as (V1 & V2 & _). destruct Hsum as [_ _ Hlast Hclosed Hpaused]. rewrite He0 in Hlast.
    destruct Hlast as (L1 & L2 & _). split.
    + rewrite len_app. change (len [event]) with 1. lia.
    + rewrite R3, Q1, len_app. done.
    + rewrite last_snoc. split_and!; try done.
    + intros i e Hi Hid Hc. rewrite R2 in Hid. apply lookup_snoc_Some in Hi as [[_ Hi]|[_ <-]]; [|by apply C1].
      destruct (bool_decide (EpisodeID event = EpisodeID e0)) eqn:Eb; bools.
      * apply C2; [done|]. eapply Hclosed; [exact Hi| |done]. by rewrite L2, <- Eb.
      * exfalso. apply N1; [done|]. apply list_elem_of_fmap. exists e. split; [done|]. by eapply list_elem_of_lookup_2.
    + intros i e Hi Hk Hno. apply lookup_snoc_Some in Hi as [[Hlt Hi]|[_ <-]]; [|by apply P2].
      assert (Kind event <> EventResume) as Hnr by (eapply (Hno (length events)); [lia|]; by apply lookup_snoc_Some; right).
      apply P3; [done|]. eapply Hpaused; [exact Hi|done|]. intros k g Hk' Hg. eapply Hno; [exact Hk'|]. by apply lookup_app_l_Some.
  - apply last_None in He0 as ->. destruct Hsum as [_ _ Hlast _ _]. cbn in Hlast. subst state.
    apply accepted_first in Hacc as (Q & K & V1 & V2 & ->). split; cbn; try done.
    + split_and!; try done. f_equal. set_solver.
    + intros i e Hi%list_lookup_singleton_Some. destruct Hi as [-> <-]. rewrite K. done.
    + intros i e Hi%list_lookup_singleton_Some. destruct Hi as [-> <-]. rewrite K. done.
Qed.

Lemma ordered_step events state event state' :
  well_ordered events -> summarizes events state -> Accept state event = Ok state' -> well_ordered (events ++ [event]).
Proof.
  intros Hord Hsum Hacc. destruct (last events) as [e0|] eqn:He0.
  - destruct (accepted_next _ _ _ _ _ Hsum He0 Hacc) as (_ & Q1 & _ & S1 & S2 & S3 & N1 & N2 & P1 & _).
    pose proof (last_lookup_len _ _ He0) as Hl0. destruct Hsum as [_ _ Hlast Hclosed Hpaused]. rewrite He0 in Hlast.
    destruct Hlast as (_ & L2 & _). destruct Hord as [O1 O2 O3 O4 O5 O6 O7].
    assert (forall i e, events !! i = Some e -> (i <= length events - 1)%nat) as Hle
      by (intros i e Hi%lookup_lt_Some; lia).
    assert (forall i e, events !! i = Some e -> EpisodeID e = EpisodeID event -> EpisodeID event = EpisodeID e0) as Hsame.
    { intros i e Hi Heq. destruct (bool_decide (EpisodeID event = EpisodeID e0)) eqn:Eb; bools; [done|].
      exfalso. apply N1; [done|]. apply list_elem_of_fmap. exists e. split; [done|]. by eapply list_elem_of_lookup_2. }
    assert (EpisodeID event = EpisodeID e0 -> negb (bool_decide (EpisodeID event = EpisodeID e0)) = false) as Hold
      by (intros; by rewrite bool_decide_true).
    split.
    + intros i e [[_ Hi]|[-> <-]]%lookup_snoc_Some; [by apply O1|]. rewrite Q1. unfold len. lia.
    + intros i j e f [[_ Hi]|[-> <-]]%lookup_snoc_Some [[_ Hj]|[-> <-]]%lookup_snoc_Some; try done; [exact (O2 _ _ _ _ Hi Hj)| |];
        rewrite S1; [exact (O2 _ _ _ _ Hi Hl0)|exact (O2 _ _ _ _ Hl0 Hj)].
    + intros i j e f Hij [[Hlt Hi]|[-> <-]]%lookup_snoc_Some [[Hlt' Hj]|[-> <-]]%lookup_snoc_Some; try lia; [exact (O3 _ _ _ _ Hij Hi Hj)|].
      destruct (O3 _ _ _ _ (Hle _ _ Hi) Hi Hl0). lia.
    + intros i j k e f g Hijk [[Hi' Hi]|[-> <-]]%lookup_snoc_Some [[Hj' Hj]|[-> <-]]%lookup_snoc_Some
        [[Hk' Hk]|[-> <-]]%lookup_snoc_Some Heq; try lia; try done; [exact (O4 _ _ _ _ _ _ Hijk Hi Hj Hk Heq)|].
      pose proof (Hsame _ _ Hi Heq) as H0. eapply (O4 i j (length events - 1)%nat); [|done..|congruence].
      split; [lia|by eapply Hle].
    + intros i e [[Hi' Hi]|[-> <-]]%lookup_snoc_Some Hfresh.
      * eapply O5; [exact Hi|]. intros j f Hj Hf. eapply Hfresh; [exact Hj|]. by apply lookup_app_l_Some.
      * apply N1. apply negb_true_iff, bool_decide_false. intros Heq.
        eapply (Hfresh (length events - 1)%nat e0); [apply lookup_lt_Some in Hl0; lia|by apply lookup_app_l_Some|done].
    + intros i j e f Hij [[Hi' Hi]|[-> <-]]%lookup_snoc_Some [[Hj' Hj]|[-> <-]]%lookup_snoc_Some Heq Hc; try lia; [exact (O6 _ _ _ _ Hij Hi Hj Heq Hc)|].
      pose proof (Hsame _ _ Hi Heq) as H0. apply N2; [by apply Hold|]. eapply Hclosed; [exact Hi| |done]. congruence.
    + intros i j e f Hij [[Hi' Hi]|[-> <-]]%lookup_snoc_Some [[Hj' Hj]|[-> <-]]%lookup_snoc_Some Hk Hno; try lia.
      * eapply (O7 i j); try done. intros k g Hkk Hg. eapply Hno; [exact Hkk|]. by apply lookup_app_l_Some.
      * apply P1. eapply Hpaused; [exact Hi|done|]. intros k g Hik Hg. eapply (Hno k).
        -- apply lookup_lt_Some in Hg. lia.
        -- by apply lookup_app_l_Some.
  - apply last_None in He0 as ->. destruct Hsum as [_ _ Hlast _ _]. cbn in Hlast. subst state.
    apply accepted_first in Hacc as (Q & K & V1 & V2 & _). cbn [app].
    split; intros *; rewrite ?list_lookup_singleton_Some; intros; destruct_and?; subst; try lia; try done. by right.
Qed.

(** The rules and the summary hold along every accepted list. *)
Lemma accept_all_ordered events : forall state,
  accept_all no_sequence events = Ok state -> well_ordered events /\ summarizes events state.
Proof.
  induction events as [|event events IH] using rev_ind; intros state H.
  - injection H as <-. split; split; cbn; try done; intros *; by rewrite ?lookup_nil.
  - rewrite accept_all_app in H. invert_ok. cbn in H. invert_ok. destruct (IH _ Hok) as [Ho Hs].
    split; [by eapply ordered_step|by eapply summarizes_step].
Qed.

Lemma accept_all_summarizes events state : accept_all no_sequence events = Ok state -> summarizes events state.
Proof. intros H. by apply accept_all_ordered. Qed.

(** C14: which streams are accepted.  When every event of a list was accepted in
    turn, the list is one session numbered from one without gaps, both clocks
    never move backwards, the events of an episode are contiguous and no
    identifier is reused, an episode starts with a snapshot or a resume and takes
    no input after it was committed, aborted or paused, and between a pause and
    the next resume only losses are reported. *)
Theorem accepted_stream (events : list EventV1) (state : SequenceState) :
  accept_all no_sequence events = Ok state -> well_ordered events /\ summarizes events state.
Proof. apply accept_all_ordered. Qed.

End order.
