(* ===== verification/ReplayReport.v ===== *)
(** * The report of a replay session ([replaylab/report.go])

    The analyzer reads the events of a session one by one and keeps only counts
    and one episode.  Counters of type [int] cannot overflow below 2^63 events
    and are integers here; the [uint64] sums wrap.  The mean rank, a [float64]
    quotient, is the pair of its numerator and denominator; with fewer than 2^52
    selections comparing the rounded quotient with 1.5 is comparing the exact
    one. *)

From S2P Require Import Prelude Encoding Unicode Crdt ReplayEvent ReplaySequence.

Record Report := mkReport {
  RVersion : bytes; RSessionID : bytes; EventCount : Z; NativeEventCount : Z; EpisodeCount : Z;
  CommitCount : Z; BackspaceCount : Z; DeleteCount : Z; DroppedEventCount : Z; EditedEpisodeCount : Z;
  CandidateSelections : Z; SelectionRankHistogram : gmap bytes Z; MeanSelectionRank : Z * Z;
  ExactPathCorrectionFirstCount : Z; SamePinyinRerankCount : Z; SamePinyinAfterEditReplaceCount : Z;
  Suggestions : list bytes
}.

Record episodeReportState := mkEpisodeState {
  edited : bool; selectionObserved : bool; lastComposition : option CompositionV1;
  beforeEditPinyin : bytes; beforeEditText : bytes; alreadyCountedEdit : bool
}.

Definition no_episode : episodeReportState := mkEpisodeState false false None [] [] false.

Record Analyzer := mkAnalyzer {
  report : Report; sequence : SequenceState; currentEpisodeID : bytes;
  currentEpisode : episodeReportState; selectionRankSum : Z; finished : bool
}.

Definition NewAnalyzer : Analyzer :=
  mkAnalyzer (mkReport (str "yunpin.replay.report.v1") [] 0 0 0 0 0 0 0 0 0 ∅ (0, 1) 0 0 0 [])
    no_sequence [] no_episode 0 false.

(** ** Looking at compositions *)

Definition hasOrdinaryCandidate (candidates : list CandidateV1) : bool :=
  existsb (fun candidate => negb (IsCorrection candidate)) candidates.

Definition highlightedText (composition : CompositionV1) : bytes :=
  match List.find Highlighted (Candidates composition) with Some candidate => CText candidate | None => [] end.

Fixpoint first_highlighted (index : Z) (candidates : list CandidateV1) : Z :=
  match candidates with
  | [] => 0
  | candidate :: rest => if Highlighted candidate then index + 1 else first_highlighted (index + 1) rest
  end.

Definition highlightedRank (composition : option CompositionV1) : Z :=
  match composition with None => 0 | Some composition => first_highlighted 0 (Candidates composition) end.

Definition isSamePinyinRerank (event : EventV1) : bool :=
  match Composition event, Selection event with
  | Some composition, Some selection =>
      if negb (ExactPathAvailable composition) || (Rank selection <=? 1) then false
      else match selection_at composition selection, Candidates composition with
      | Some selected, first :: _ => negb (IsCorrection selected) && negb (IsCorrection first)
      | _, _ => false
      end
  | _, _ => false
  end.

(** A snapshot that puts a correction before the ordinary candidates. *)
Definition correction_first (event : EventV1) : bool :=
  match Kind event, Composition event with
  | EventComposition, Some composition =>
      ExactPathAvailable composition
      && match Candidates composition with
         | first :: second :: rest => IsCorrection first && hasOrdinaryCandidate (second :: rest)
         | _ => false
         end
  | _, _ => false
  end.

Definition markFirstEdit (state : episodeReportState) (composition : option CompositionV1) : episodeReportState :=
  let marked pinyin text :=
    mkEpisodeState true (selectionObserved state) (lastComposition state) pinyin text true in
  if alreadyCountedEdit state then
    mkEpisodeState true (selectionObserved state) (lastComposition state) (beforeEditPinyin state)
      (beforeEditText state) true
  else match (match composition with Some c => Some c | None => lastComposition state end) with
  | None => marked (beforeEditPinyin state) (beforeEditText state)
  | Some composition =>
      let text := highlightedText composition in
      marked (NormalizedPinyin composition)
        (match Candidates composition with
         | first :: _ => if bool_decide (text = []) then CText first else text
         | [] => text
         end)
  end.

(** ** Counting *)

Definition count_if (condition : bool) (n : Z) : Z := if condition then n + 1 else n.

(** [histogram[key]++] *)
Definition increment (key : bytes) (histogram : gmap bytes Z) : gmap bytes Z :=
  <[key := default 0 (histogram !! key) + 1]> histogram.

(** The rank a select event or a commit contributes, if any. *)
Definition observed_rank (state : episodeReportState) (event : EventV1) : option Z :=
  match Kind event with
  | EventSelect => match Selection event with Some selection => Some (Rank selection) | None => None end
  | EventCommit =>
      if negb (selectionObserved state) && (highlightedRank (Composition event) >? 0)
      then Some (highlightedRank (Composition event)) else None
  | _ => None
  end.

(** A commit that replaces the text before the first edit under the same
    pinyin. *)
Definition replaced_after_edit (state : episodeReportState) (event : EventV1) : bool :=
  match Kind event, Composition event, FinalText event with
  | EventCommit, Some composition, Some final =>
      edited state && bool_decide (NormalizedPinyin composition = beforeEditPinyin state)
      && negb (bool_decide (beforeEditText state = [])) && negb (bool_decide (FinText final = beforeEditText state))
  | _, _, _ => false
  end.

Definition is_edit (event : EventV1) : bool :=
  match Kind event with EventBackspace | EventDelete => true | _ => false end.

(** The episode state after an event. *)
Definition observe (state : episodeReportState) (event : EventV1) : episodeReportState :=
  let state :=
    match Composition event with
    | Some composition => mkEpisodeState (edited state) (selectionObserved state) (Some composition)
                            (beforeEditPinyin state) (beforeEditText state) (alreadyCountedEdit state)
    | None => state
    end in
  match Kind event with
  | EventSelect => mkEpisodeState (edited state) true (lastComposition state) (beforeEditPinyin state)
                     (beforeEditText state) (alreadyCountedEdit state)
  | EventBackspace | EventDelete => markFirstEdit state (Composition event)
  | _ => state
  end.

Definition finishEpisode (current : bytes) (state : episodeReportState) (count : Z) : Z :=
  count_if (negb (bool_decide (current = [])) && edited state) count.

Section analyzer.
Context `{T : TimeFormat} `{EJ : EventJson}.

Definition analyzer_Accept (analyzer : Analyzer) (event : EventV1) : result Analyzer :=
  if finished analyzer then fail "analyzer is already finished"
  else match Accept (sequence analyzer) event with
  | Err e => Err (Errorf_w "event %d: %w" e)
  | Ok sequence =>
      let r := report analyzer in
      let changed := negb (bool_decide (EpisodeID event = currentEpisodeID analyzer)) in
      let before := if changed then no_episode else currentEpisode analyzer in
      let rank := observed_rank before event in
      let kind k := bool_decide (Kind event = k) in
      Ok (mkAnalyzer
            (mkReport (RVersion r) (if bool_decide (RSessionID r = []) then SessionID event else RSessionID r)
               (EventCount r + 1) (NativeEventCount r) (count_if changed (EpisodeCount r))
               (count_if (kind EventCommit) (CommitCount r))
               (if kind EventBackspace then wrap_u64 (BackspaceCount r + EditCount event) else BackspaceCount r)
               (if kind EventDelete then wrap_u64 (DeleteCount r + EditCount event) else DeleteCount r)
               (if kind EventDropCount then wrap_u64 (DroppedEventCount r + DropCount event) else DroppedEventCount r)
               (if changed then finishEpisode (currentEpisodeID analyzer) (currentEpisode analyzer) (EditedEpisodeCount r)
                else EditedEpisodeCount r)
               (count_if (is_some rank) (CandidateSelections r))
               (match rank with
                | Some rank => increment (Sprintf_d rank) (SelectionRankHistogram r)
                | None => SelectionRankHistogram r
                end)
               (MeanSelectionRank r)
               (count_if (correction_first event) (ExactPathCorrectionFirstCount r))
               (count_if (kind EventSelect && isSamePinyinRerank event) (SamePinyinRerankCount r))
               (count_if (replaced_after_edit before event) (SamePinyinAfterEditReplaceCount r))
               (Suggestions r))
            sequence (if changed then EpisodeID event else currentEpisodeID analyzer) (observe before event)
            (selectionRankSum analyzer + default 0 rank) false)
  end.

Fixpoint analyze_all (analyzer : Analyzer) (events : list EventV1) : result Analyzer :=
  match events with
  | [] => Ok analyzer
  | event :: rest => let! analyzer := analyzer_Accept analyzer event in analyze_all analyzer rest
  end.

(** *** Suggestions *)

(** [sort.Strings] *)
Fixpoint insert_text (text : bytes) (l : list bytes) : list bytes :=
  match l with
  | [] => [text]
  | other :: rest => if str_lt other text then other :: insert_text text rest else text :: l
  end.

Definition sort_texts (l : list bytes) : list bytes := fold_right insert_text [] l.

Definition no_events_text : bytes :=
  str "No events are available; connect a dedicated IME sidecar or experiment harness before drawing conclusions.".
Definition exact_path_text : bytes :=
  str "Keep every viable exact/non-correction path ahead of typo-correction candidates; add these exposures as ranking golden tests.".
Definition same_pinyin_text : bytes :=
  str "Treat same-pinyin wording changes as phrase segmentation or personal-language-model learning, not keyboard typo expansion.".
Definition edited_text : bytes :=
  str "Review edited episodes first and turn repeated backspace/retype trajectories into synthetic regression cases before changing production ranking.".
Definition rank_text : bytes :=
  str "Candidate choices are frequently below rank 1; prefer bounded personal reranking over adding more generated candidates.".
Definition loss_text : bytes :=
  str "Trace loss was reported; increase the future native bounded ring capacity before trusting frequency estimates.".
Definition no_signal_text : bytes :=
  str "No deterministic regression signal crossed the current thresholds; collect more dedicated IME episodes without changing ranking yet.".

Definition suggest_if (condition : bool) (text : bytes) : list bytes := if condition then [text] else [].

(** [mean > 1.5] *)
Definition mean_above (mean : Z * Z) : bool := 2 * mean.1 >? 3 * mean.2.

Definition buildSuggestions (r : Report) : list bytes :=
  let suggestions :=
    suggest_if (ExactPathCorrectionFirstCount r >? 0) exact_path_text
    ++ suggest_if ((SamePinyinRerankCount r >? 0) || (SamePinyinAfterEditReplaceCount r >? 0)) same_pinyin_text
    ++ suggest_if (EditedEpisodeCount r >? 0) edited_text
    ++ suggest_if (mean_above (MeanSelectionRank r)) rank_text
    ++ suggest_if (DroppedEventCount r >? 0) loss_text in
  sort_texts (if bool_decide (suggestions = []) then [no_signal_text] else suggestions).

Definition with_summary (r : Report) (editedEpisodes : Z) (mean : Z * Z) (suggestions : list bytes) : Report :=
  mkReport (RVersion r) (RSessionID r) (EventCount r) (NativeEventCount r) (EpisodeCount r) (CommitCount r)
    (BackspaceCount r) (DeleteCount r) (DroppedEventCount r) editedEpisodes (CandidateSelections r)
    (SelectionRankHistogram r) mean (ExactPathCorrectionFirstCount r) (SamePinyinRerankCount r)
    (SamePinyinAfterEditReplaceCount r) suggestions.

Definition Finish (analyzer : Analyzer) : Report * Analyzer :=
  if finished analyzer then (report analyzer, analyzer)
  else
    let r := report analyzer in
    let editedEpisodes := finishEpisode (currentEpisodeID analyzer) (currentEpisode analyzer) (EditedEpisodeCount r) in
    let mean := if CandidateSelections r >? 0 then (selectionRankSum analyzer, CandidateSelections r)
                else MeanSelectionRank r in
    let summed := with_summary r editedEpisodes mean (Suggestions r) in
    let final := with_summary r editedEpisodes mean
                   (if EventCount r =? 0 then [no_events_text] else buildSuggestions summed) in
    (final, mkAnalyzer final (sequence analyzer) (currentEpisodeID analyzer) (currentEpisode analyzer)
              (selectionRankSum analyzer) true).

Definition Analyze (events : list EventV1) : result Report :=
  let! analyzer := analyze_all NewAnalyzer events in
  Ok (Finish analyzer).1.

End analyzer.

(** ** What the counts mean *)

Definition tally (p : EventV1 -> bool) (events : list EventV1) : Z := len (List.filter p events).
Definition of_kind (k : EventType) (event : EventV1) : bool := bool_decide (Kind event = k).

(** The [uint64] sum of a field over the events of a kind. *)
Definition sum_of (k : EventType) (f : EventV1 -> Z) (events : list EventV1) : Z :=
  fold_left (fun n event => if of_kind k event then wrap_u64 (n + f event) else n) events 0.

Definition episodes_of (events : list EventV1) : gset bytes := list_to_set (map EpisodeID events).
Definition edited_of (events : list EventV1) : gset bytes := episodes_of (List.filter is_edit events).

(** The sum of a histogram. *)
Definition total (histogram : gmap bytes Z) : Z := map_fold (fun _ n acc => n + acc) 0 histogram.

Lemma tally_snoc p events event : tally p (events ++ [event]) = count_if (p event) (tally p events).
Proof.
  unfold tally, count_if. rewrite List.filter_app, len_app. cbn. destruct (p event); [done|]. unfold len. cbn. lia.
Qed.

Lemma sum_of_snoc k f events event :
  sum_of k f (events ++ [event]) = if of_kind k event then wrap_u64 (sum_of k f events + f event) else sum_of k f events.
Proof. unfold sum_of. by rewrite fold_left_app. Qed.

Lemma episodes_of_snoc events event : episodes_of (events ++ [event]) = episodes_of events ∪ {[EpisodeID event]}.
Proof. unfold episodes_of. rewrite map_app, list_to_set_app_L. cbn. by rewrite union_empty_r_L. Qed.

Lemma edited_of_snoc events event :
  edited_of (events ++ [event]) = if is_edit event then edited_of events ∪ {[EpisodeID event]} else edited_of events.
Proof.
  unfold edited_of. rewrite List.filter_app. cbn. destruct (is_edit event); [apply episodes_of_snoc|by rewrite app_nil_r].
Qed.

Lemma edited_of_subset events : edited_of events ⊆ episodes_of events.
Proof.
  intros x. unfold edited_of, episodes_of. rewrite !elem_of_list_to_set. intros (e & -> & He)%list_elem_of_fmap.
  apply list_elem_of_In in He as [He _]%filter_In. apply list_elem_of_fmap. exists e. split; [done|]. by apply list_elem_of_In.
Qed.

Lemma total_insert key n histogram : histogram !! key = None -> total (<[key := n]> histogram) = n + total histogram.
Proof. intros H. unfold total. rewrite map_fold_insert_L; [done|intros; lia|done]. Qed.

Lemma total_increment key histogram : total (increment key histogram) = total histogram + 1.
Proof.
  unfold increment. destruct (histogram !! key) as [n|] eqn:E; cbn [default id].
  - rewrite <- (insert_delete_id histogram key n E) at 2. rewrite <- insert_delete_eq.
    rewrite !total_insert by apply lookup_delete_eq. lia.
  - rewrite total_insert by done. lia.
Qed.

Lemma first_highlighted_range candidates : forall index,
  first_highlighted index candidates = 0 \/ index < first_highlighted index candidates <= index + len candidates.
Proof.
  induction candidates as [|c l IH]; intros index; cbn [first_highlighted]; [by left|].
  rewrite len_cons. pose proof (len_nonneg l). destruct (Highlighted c); [right; lia|].
  destruct (IH (index + 1)); [by left|right; lia].
Qed.

Section analysis.
Context `{T : TimeFormat} `{EJ : EventJson}.

(** A rank that is counted lies between 1 and 8. *)
Lemma observed_rank_range state event rank :
  Validate event = Ok tt -> observed_rank state event = Some rank -> 1 <= rank <= MaxCandidates.
Proof.
  unfold Validate. intros Hv Hr. destruct (negb _); [done|]. destruct (_ || _); [done|].
  destruct (Seq event =? 0); [done|]. destruct (negb _); [done|].
  apply rbind_Ok in Hv as (u1 & Hcomp & Hv). apply rbind_Ok in Hv as (u2 & Hsel & _).
  assert (forall c, Composition event = Some c -> len (Candidates c) <= MaxCandidates) as Hmax.
  { intros c Hc. rewrite Hc in Hcomp. unfold wrapped in Hcomp. destruct (validate_composition c) as [u|] eqn:Ev; [|done].
    unfold validate_composition in Ev. invert_ok. rewrite Z.gtb_ltb in *. by bools. }
  unfold observed_rank in Hr. destruct (Kind event); try done.
  - destruct (Selection event) as [selection|] eqn:Es; [|done]. injection Hr as <-.
    unfold validate_selection in Hsel. rewrite Es in Hsel. destruct (Composition event) as [c|] eqn:Ec; [|done].
    invert_ok. rewrite Z.gtb_ltb in *. bools. specialize (Hmax _ eq_refl). lia.
  - destruct (_ && _) eqn:Eb; [|done]. injection Hr as <-. apply andb_true_iff in Eb as [_ Eb]. rewrite Z.gtb_ltb in Eb. bools.
    unfold highlightedRank in *. destruct (Composition event) as [c|]; [|lia]. specialize (Hmax _ eq_refl).
    destruct (first_highlighted_range (Candidates c) 0); lia.
Qed.

Lemma observe_edited state event : edited (observe state event) = edited state || is_edit event.
Proof.
  unfold observe, is_edit, markFirstEdit. destruct (Composition event), (Kind event); cbn; rewrite ?orb_false_r, ?orb_true_r; try done;
    repeat case_match; done.
Qed.

(** The analyzer after a list of events. *)
Record analyzed (events : list EventV1) (a : Analyzer) : Prop := {
  an_open : finished a = false;
  an_sequence : accept_all no_sequence events = Ok (sequence a);
  an_count : EventCount (report a) = len events;
  an_current : currentEpisodeID a = from_option EpisodeID [] (last events);
  an_episodes : EpisodeCount (report a) = Z.of_nat (size (episodes_of events));
  an_commits : CommitCount (report a) = tally (of_kind EventCommit) events;
  an_backspaces : BackspaceCount (report a) = sum_of EventBackspace EditCount events;
  an_deletes : DeleteCount (report a) = sum_of EventDelete EditCount events;
  an_drops : DroppedEventCount (report a) = sum_of EventDropCount DropCount events;
  an_edited : edited (currentEpisode a) = bool_decide (currentEpisodeID a ∈ edited_of events);
  an_edits : EditedEpisodeCount (report a) = Z.of_nat (size (edited_of events ∖ {[currentEpisodeID a]}));
  an_exact : ExactPathCorrectionFirstCount (report a) = tally correction_first events;
  an_rerank : SamePinyinRerankCount (report a) = tally (fun e => of_kind EventSelect e && isSamePinyinRerank e) events;
  an_histogram : total (SelectionRankHistogram (report a)) = CandidateSelections (report a);
  an_ranks : CandidateSelections (report a) <= selectionRankSum a <= MaxCandidates * CandidateSelections (report a);
  an_selections : 0 <= CandidateSelections (report a)
}.

Lemma analyzed_nil : analyzed [] NewAnalyzer.
Proof.
  split; try done; cbn; unfold edited_of, episodes_of; cbn; rewrite ?size_empty, ?difference_empty_l_L, ?size_empty;
    try done.
Qed.

(** The current episode is the last one, and it is new exactly when the event
    changes it. *)
Lemma analyzed_fresh events a event state' :
  analyzed events a -> Accept (sequence a) event = Ok state' -> EpisodeID event <> currentEpisodeID a ->
  EpisodeID event ∉ episodes_of events.
Proof.
  intros Ha Hacc Hne. rewrite (an_current _ _ Ha) in Hne. pose proof (an_sequence _ _ Ha) as Hs.
  apply accept_all_summarizes in Hs. destruct (last events) as [e0|] eqn:Hl.
  - destruct (accepted_next _ _ _ _ _ Hs Hl Hacc) as (_ & _ & _ & _ & _ & _ & Hnew & _). cbn in Hne.
    unfold episodes_of. rewrite elem_of_list_to_set. apply Hnew. by rewrite bool_decide_false.
  - apply last_None in Hl as ->. unfold episodes_of. cbn. set_solver.
Qed.

Lemma analyzed_current events a : analyzed events a -> events <> [] -> currentEpisodeID a ∈ episodes_of events.
Proof.
  intros Ha Hne. rewrite (an_current _ _ Ha). destruct (last events) as [e0|] eqn:Hl; [|by apply last_None in Hl].
  cbn. unfold episodes_of. apply elem_of_list_to_set, list_elem_of_fmap. exists e0. split; [done|]. by apply last_Some_elem_of.
Qed.

(** Closing the current episode in the count of edited ones. *)
Lemma finish_edited events a :
  analyzed events a ->
  finishEpisode (currentEpisodeID a) (currentEpisode a) (EditedEpisodeCount (report a)) = Z.of_nat (size (edited_of events)).
Proof.
  intros Ha. rewrite (an_edits _ _ Ha). unfold finishEpisode, count_if. rewrite (an_edited _ _ Ha).
  destruct (bool_decide (currentEpisodeID a ∈ edited_of events)) eqn:Eb; bools.
  - assert (currentEpisodeID a <> []) as Hne.
    { intros Hn. assert (events <> []) as Hev by (intros ->; set_solver). rewrite (an_current _ _ Ha) in Hn.
      destruct (last events) as [e0|] eqn:Hl; [|by apply last_None in Hl].
      pose proof (accept_all_summarizes _ _ (an_sequence _ _ Ha)) as [_ _ Hlast _ _]. rewrite Hl in Hlast. by destruct Hlast as (_ & _ & _ & _ & _ & He & _). }
    rewrite (bool_decide_false (_ = [])) by done. cbn [negb andb].
    rewrite (size_difference (edited_of events) {[currentEpisodeID a]}), size_singleton by set_solver.
    assert (size ({[currentEpisodeID a]} : gset bytes) <= size (edited_of events))%nat as Hle by (apply subseteq_size; set_solver).
    rewrite size_singleton in Hle. lia.
  - rewrite andb_false_r. f_equal. f_equal. set_solver.
Qed.

(** The counts of episodes and edited episodes after one more event. *)
Lemma episode_counts events a event state' :
  analyzed events a -> Accept (sequence a) event = Ok state' ->
  let changed := negb (bool_decide (EpisodeID event = currentEpisodeID a)) in
  let before := if changed then no_episode else currentEpisode a in
  count_if changed (EpisodeCount (report a)) = Z.of_nat (size (episodes_of (events ++ [event]))) /\
  edited (observe before event) = bool_decide (EpisodeID event ∈ edited_of (events ++ [event])) /\
  (if changed then finishEpisode (currentEpisodeID a) (currentEpisode a) (EditedEpisodeCount (report a))
   else EditedEpisodeCount (report a)) = Z.of_nat (size (edited_of (events ++ [event]) ∖ {[EpisodeID event]})).
Proof.
  intros Ha Hacc. rewrite (an_episodes _ _ Ha), episodes_of_snoc, edited_of_snoc.
  destruct (bool_decide (EpisodeID event = currentEpisodeID a)) eqn:Eb; cbn [negb]; cbn zeta; bools; unfold count_if.
  - assert (events <> []) as Hne.
    { intros ->. rewrite (an_current _ _ Ha) in Eb. cbn in Eb.
      destruct (Accept_inv _ _ _ Hacc) as (? & ? & ? & Hv & _). by destruct (Validate_ids _ _ Hv) as (_ & ? & _). }
    pose proof (analyzed_current _ _ Ha Hne) as Hin. rewrite Eb. split_and!.
    + do 2 f_equal. set_solver.
    + rewrite observe_edited, (an_edited _ _ Ha). destruct (is_edit event); [|by rewrite orb_false_r].
      rewrite orb_true_r. symmetry. apply bool_decide_true. set_solver.
    + rewrite (an_edits _ _ Ha). do 2 f_equal. destruct (is_edit event); set_solver.
  - pose proof (analyzed_fresh _ _ _ _ Ha Hacc Eb) as Hfresh. pose proof (edited_of_subset events) as Hsub. split_and!.
    + rewrite size_union, size_singleton by set_solver. lia.
    + rewrite observe_edited. cbn [edited no_episode orb]. destruct (is_edit event); symmetry; [apply bool_decide_true|apply bool_decide_false]; set_solver.
    + rewrite (finish_edited _ _ Ha). do 2 f_equal. destruct (is_edit event); set_solver.
Qed.

Lemma analyzed_step events a event a' :
  analyzed events a -> analyzer_Accept a event = Ok a' -> analyzed (events ++ [event]) a'.
Proof.
  intros Ha H. unfold analyzer_Accept in H. rewrite (an_open _ _ Ha) in H.
  destruct (Accept (sequence a) event) as [state'|] eqn:Hacc; [|done]. injection H as <-.
  destruct (episode_counts _ _ _ _ Ha Hacc) as (H1 & H2 & H3).
  assert (Validate event = Ok tt) as Hv by (by destruct (Accept_inv _ _ _ Hacc) as (? & ? & ? & Hv & _)).
  assert ((if negb (bool_decide (EpisodeID event = currentEpisodeID a)) then EpisodeID event else currentEpisodeID a)
    = EpisodeID event) as Hcur by (destruct (bool_decide _) eqn:Eb; cbn; by bools).
  destruct Ha as [A1 A2 A3 A4 A5 A6 A7 A8 A9 A10 A11 A12 A13 A14 A15 A16].
  split; cbn [finished sequence report currentEpisodeID currentEpisode selectionRankSum EventCount EpisodeCount CommitCount
    BackspaceCount DeleteCount DroppedEventCount EditedEpisodeCount CandidateSelections SelectionRankHistogram
    ExactPathCorrectionFirstCount SamePinyinRerankCount]; rewrite ?Hcur; try done.
  - rewrite accept_all_app, A2. cbn. by rewrite Hacc.
  - rewrite A3, len_app. done.
  - by rewrite last_snoc.
  - by rewrite tally_snoc, A6.
  - by rewrite sum_of_snoc, A7.
  - by rewrite sum_of_snoc, A8.
  - by rewrite sum_of_snoc, A9.
  - by rewrite tally_snoc, A12.
  - by rewrite tally_snoc, A13.
  - destruct (observed_rank _ event); cbn [is_some count_if]; [|done]. rewrite total_increment. lia.
  - destruct (observed_rank _ event) as [rank|] eqn:Er; cbn [is_some count_if default id]; [|lia].
    apply observed_rank_range in Er; [|done]. unfold MaxCandidates in *. lia.
  - unfold count_if. destruct (is_some _); lia.
Qed.

Lemma analyze_all_analyzed events : forall done a a',
  analyzed done a -> analyze_all a events = Ok a' -> analyzed (done ++ events) a'.
Proof.
  induction events as [|event events IH]; intros done a a' Ha H; cbn in H; [injection H as <-; by rewrite app_nil_r|].
  invert_ok. rewrite (cons_middle event done events), app_assoc. eapply IH; [|exact H]. by eapply analyzed_step.
Qed.

(** C22: the report says what the events say.  The streaming analyzer, which keeps
    only one episode, counts exactly the events, the different episodes and the
    different episodes with an edit, the commits, and the sums of the counters;
    the histogram adds up to the number of selections; and the mean rank is a
    quotient between one and eight. *)
Theorem report_counts (events : list EventV1) (r : Report) :
  Analyze events = Ok r ->
  EventCount r = len events /\ EpisodeCount r = Z.of_nat (size (episodes_of events)) /\
  EditedEpisodeCount r = Z.of_nat (size (edited_of events)) /\
  CommitCount r = tally (of_kind EventCommit) events /\
  BackspaceCount r = sum_of EventBackspace EditCount events /\ DeleteCount r = sum_of EventDelete EditCount events /\
  DroppedEventCount r = sum_of EventDropCount DropCount events /\
  ExactPathCorrectionFirstCount r = tally correction_first events /\
  SamePinyinRerankCount r = tally (fun e => of_kind EventSelect e && isSamePinyinRerank e) events /\
  total (SelectionRankHistogram r) = CandidateSelections r /\
  (0 < CandidateSelections r -> exists sum, MeanSelectionRank r = (sum, CandidateSelections r) /\
     CandidateSelections r <= sum <= 8 * CandidateSelections r).
Proof.
  unfold Analyze. intros H. invert_ok. pose proof (analyze_all_analyzed _ [] _ _ analyzed_nil Hok) as Ha. cbn [app] in Ha.
  pose proof (finish_edited _ _ Ha) as Hf. unfold Finish. rewrite (an_open _ _ Ha). cbn [fst with_summary EventCount EpisodeCount
    EditedEpisodeCount CommitCount BackspaceCount DeleteCount DroppedEventCount ExactPathCorrectionFirstCount SamePinyinRerankCount
    SelectionRankHistogram CandidateSelections MeanSelectionRank]. rewrite Hf.
  split_and!; try by apply Ha. { done. }
  intros Hpos. exists (selectionRankSum a). split; [by rewrite Z.gtb_ltb, (proj2 (Z.ltb_lt _ _))|].
  pose proof (an_ranks _ _ Ha). unfold MaxCandidates in *. lia.
Qed.

End analysis.
