(* ===== verification/ReplayNative.v ===== *)
(** * Native frames ([replaylab/native.go])

    Frames written by the input method carry no session, no episode and no
    sequence number; the converter supplies them.  The stream it makes is read by
    the analyzer.  The file is its contents: the lines of [bufio.Scanner]. *)

From S2P Require Import Prelude Encoding Sha256 Unicode Crdt ReplayEvent ReplaySequence ReplayReport.

Definition NativeEventVersionV1 : bytes := str "yunpin.replay.native.v1".

Record NativeFrameV1 := mkFrame {
  NVersion : bytes; NMonotonicUS : Z; UTCUnixUS : Z; NType : EventType;
  NComposition : option CompositionV1; NSelection : option SelectionV1; NEditCount : Z; NDropCount : Z;
  NFinalText : bytes
}.

(** The strict JSON decoder on one frame. *)
Class NativeJson := decode_frame : bytes -> result (NativeFrameV1 * Trailing).

(** The selection names a candidate of the frame's composition. *)
Definition selection_matches (frame : NativeFrameV1) (selection : SelectionV1) : bool :=
  match NComposition frame with
  | None => false
  | Some composition =>
      negb ((Rank selection <? 1) || (Rank selection >? len (Candidates composition)))
      && match selection_at composition selection with
         | Some candidate => bool_decide (SelText selection = CText candidate)
         | None => false
         end
  end.

Definition validate_frame (frame : NativeFrameV1) : result unit :=
  if negb (bool_decide (NVersion frame = NativeEventVersionV1)) then
    Err (Errorf_s "unsupported native frame version %q" (NVersion frame))
  else if UTCUnixUS frame =? 0 then fail "native utc_unix_us must be greater than zero"
  else
    let! _ := match NComposition frame with
              | None => Ok tt
              | Some composition => wrapped "native composition: %w" (validate_composition composition)
              end in
    let! _ := match NSelection frame with
              | None => Ok tt
              | Some selection => reject_if (negb (selection_matches frame selection))
                                    "native selection does not match its candidate snapshot"
              end in
    let composed := is_some (NComposition frame) in
    let selected := is_some (NSelection frame) in
    let edits := negb (NEditCount frame =? 0) in
    let drops := negb (NDropCount frame =? 0) in
    let final := negb (bool_decide (NFinalText frame = [])) in
    match NType frame with
    | EventComposition =>
        reject_if (negb composed || selected || edits || drops || final)
          "native composition_snapshot has an invalid payload"
    | EventSelect =>
        reject_if (negb composed || negb selected || edits || drops || final) "native select has an invalid payload"
    | EventCommit =>
        if negb composed || selected || edits || drops then fail "native commit has an invalid payload"
        else validateText (str "native final_text") (NFinalText frame) maxCommitBytes false
    | EventBackspace | EventDelete =>
        if negb composed || selected || negb edits || (NEditCount frame >? maxEditCount) || drops || final then
          Err (Errorf_s "native %s has an invalid payload" (type_text (NType frame)))
        else Ok tt
    | EventAbort =>
        reject_if (negb composed || selected || edits || drops || final) "native abort has an invalid payload"
    | EventDropCount =>
        reject_if (composed || selected || edits || negb drops || (NDropCount frame >? maxDropCount) || final)
          "native drop_count has an invalid payload"
    | EventPause | EventResume | EventOther _ =>
        Err (Errorf_s "native frame type %q is unsupported" (type_text (NType frame)))
    end.

Definition DecodeNativeFrameV1 `{NativeJson} (line : bytes) : result NativeFrameV1 :=
  if (len line =? 0) || (len line >? MaxEventBytes) then
    Err (Errorf_args "native frame size %d is outside 1..%d" [inl (len line); inl MaxEventBytes])
  else
    let! (frame, trailing) := wrapped "decode native frame: %w" (decode_frame line) in
    match trailing with
    | AnotherValue => fail "native frame contains trailing JSON"
    | TrailingError e => Err e
    | AtEOF => let! _ := validate_frame frame in Ok frame
    end.

(** ** The converter *)

(** The zero [time.Time]: the first of January of the year 1. *)
Definition zero_time : Z := -62135596800 * 1000000000.

Record NativeEventConverter := mkConverter {
  sessionID : bytes; seq : Z; mono : Z; utc : Z; episode : bytes; counter : Z; closed : bool
}.

Definition NewNativeEventConverter (session : bytes) : result NativeEventConverter :=
  if negb (validID session) then fail "native converter requires a valid session id"
  else Ok (mkConverter session 0 0 zero_time [] 0 false).

(** [fmt.Sprintf("%d", n)] of a [uint64]; twenty digits are enough. *)
Fixpoint decimal_digits (fuel : nat) (n : Z) : bytes :=
  match fuel with
  | O => []
  | S fuel => (if n <? 10 then [] else decimal_digits fuel (n / 10)) ++ [byte_of_Z (48 + n mod 10)]
  end.

(** The identifier of the [n]-th episode of a session. *)
Definition episode_text (session : bytes) (n : Z) : bytes :=
  Hex.EncodeToString (take 16 (Sum256 (session ++ str ":" ++ decimal_digits 20 n))).

Definition nextEpisode (c : NativeEventConverter) : NativeEventConverter :=
  let counter := wrap_u64 (counter c + 1) in
  mkConverter (sessionID c) (seq c) (mono c) (utc c) (episode_text (sessionID c) counter) counter (closed c).

(** [time.UnixMicro(int64(us)).UTC()] *)
Definition UnixMicro (us : Z) : Z := wrap_i64 us * 1000.

Section convert.
Context `{T : TimeFormat} `{EJ : EventJson}.

(** The event that opens a session. *)
Definition opening_event (c : NativeEventConverter) : EventV1 :=
  mkEvent EventVersionV1 (sessionID c) (episode c) (seq c) (mono c) (canonicalUTC (utc c)) EventResume
    None None None 0 0 None.

Definition commit_of (frame : NativeFrameV1) : option CommitV1 :=
  match NType frame with
  | EventCommit =>
      let highlighted := match NComposition frame with Some composition => highlightedText composition | None => [] end in
      Some (mkCommit (NFinalText frame)
              (if bool_decide (highlighted = NFinalText frame) then str "candidate" else str "unknown"))
  | _ => None
  end.

Definition final_of (frame : NativeFrameV1) : option FinalTextV1 :=
  match NType frame with
  | EventCommit => Some (mkFinal (NFinalText frame) (str "composition") (str "observed"))
  | _ => None
  end.

(** The event of a frame. *)
Definition frame_event (c : NativeEventConverter) (frame : NativeFrameV1) : EventV1 :=
  mkEvent EventVersionV1 (sessionID c) (episode c) (seq c) (mono c) (canonicalUTC (utc c)) (NType frame)
    (NComposition frame) (NSelection frame) (commit_of frame) (NEditCount frame) (NDropCount frame) (final_of frame).

(** The converter changes before the event is validated, and stays changed when
    that fails. *)
Definition Convert (c : NativeEventConverter) (frame : NativeFrameV1) : result (list EventV1) * NativeEventConverter :=
  match validate_frame frame with
  | Err e => (Err e, c)
  | Ok _ =>
      let frameUTC := UnixMicro (UTCUnixUS frame) in
      let frameUTC := if negb (utc c =? zero_time) && (frameUTC <? utc c) then utc c else frameUTC in
      let frameMono := if negb (seq c =? 0) && (NMonotonicUS frame <=? mono c)
                       then wrap_u64 (mono c + 1) else NMonotonicUS frame in
      let '(converted, c, frameMono) :=
        if seq c =? 0 then
          let c := nextEpisode c in
          let c := mkConverter (sessionID c) 1 frameMono frameUTC (episode c) (counter c) (closed c) in
          ([opening_event c], c, wrap_u64 (frameMono + 1))
        else ([], c, frameMono) in
      let c :=
        if closed c && negb (bool_decide (NType frame = EventDropCount)) then
          let c := nextEpisode c in
          mkConverter (sessionID c) (seq c) (mono c) (utc c) (episode c) (counter c) false
        else c in
      let c := mkConverter (sessionID c) (wrap_u64 (seq c + 1)) frameMono frameUTC (episode c) (counter c) (closed c) in
      let event := frame_event c frame in
      match Validate event with
      | Err e => (Err (Errorf_w "convert native frame: %w" e), c)
      | Ok _ =>
          (Ok (converted ++ [event]),
           match NType frame with
           | EventCommit | EventAbort =>
               mkConverter (sessionID c) (seq c) (mono c) (utc c) (episode c) (counter c) true
           | _ => c
           end)
      end
  end.

(** All frames of a spool. *)
Fixpoint convert_all (c : NativeEventConverter) (frames : list NativeFrameV1) : result (list EventV1 * NativeEventConverter) :=
  match frames with
  | [] => Ok ([], c)
  | frame :: rest =>
      match Convert c frame with
      | (Err e, _) => Err e
      | (Ok events, c) => let! (more, c) := convert_all c rest in Ok (events ++ more, c)
      end
  end.

(** ** Analysing a spool *)

(** One line: decode, convert, analyze; the number of frames is counted. *)
Definition native_line `{NativeJson} (state : NativeEventConverter * Analyzer * Z) (line : bytes)
    : result (NativeEventConverter * Analyzer * Z) :=
  let '(c, analyzer, frames) := state in
  let! frame := wrapped "native frame line %d: %w" (DecodeNativeFrameV1 line) in
  match Convert c frame with
  | (Err e, _) => Err (Errorf_w "native frame line %d: %w" e)
  | (Ok events, c) => let! analyzer := analyze_all analyzer events in Ok (c, analyzer, frames + 1)
  end.

Definition with_frames (r : Report) (frames : Z) : Report :=
  mkReport (RVersion r) (RSessionID r) (EventCount r) frames (EpisodeCount r) (CommitCount r)
    (BackspaceCount r) (DeleteCount r) (DroppedEventCount r) (EditedEpisodeCount r) (CandidateSelections r)
    (SelectionRankHistogram r) (MeanSelectionRank r) (ExactPathCorrectionFirstCount r) (SamePinyinRerankCount r)
    (SamePinyinAfterEditReplaceCount r) (Suggestions r).

(** [contents] is the spool file, [err] the error its reading ended with, if any. *)
Definition analyzeNativeFile `{NativeJson} (contents : bytes) (err : option error) (session : bytes) : result Report :=
  let! c := NewNativeEventConverter session in
  let! (_, analyzer, frames) :=
    for_lines native_line (Errorf_w "read native spool: %w") (c, NewAnalyzer, 0) (split_lines [] contents) in
  match err with
  | Some e => Err (Errorf_w "read native spool: %w" e)
  | None => Ok (with_frames (Finish analyzer).1 frames)
  end.

End convert.

(** ** The converted stream *)

(** Whether the frame ends its episode. *)
Definition ends_episode (frame : NativeFrameV1) : bool :=
  match NType frame with EventCommit | EventAbort => true | _ => false end.

(** Every episode but the first starts with a snapshot: after a commit or an
    abort, loss reports aside, the next frame is one. *)
Fixpoint snapshots_first (closed : bool) (frames : list NativeFrameV1) : bool :=
  match frames with
  | [] => true
  | frame :: rest =>
      if bool_decide (NType frame = EventDropCount) then snapshots_first closed rest
      else (negb closed || bool_decide (NType frame = EventComposition)) && snapshots_first (ends_episode frame) rest
  end.

(** The number of episodes that end. *)
Definition ended (frames : list NativeFrameV1) : Z := len (List.filter ends_episode frames).

(** The identifiers of the first [n] episodes. *)
Definition episode_ids (session : bytes) (n : Z) : list bytes := map (episode_text session) (seqZ 1 n).

(** The converter and the reader of its stream agree. *)
Record in_step (c : NativeEventConverter) (s : SequenceState) : Prop := {
  is_session : SeqSession s = sessionID c;
  is_episode : LastEpisodeID s = episode c;
  is_seq : LastSeq s = seq c;
  is_mono : LastMonotonicUS s = mono c;
  is_utc : LastUTC s = utc c;
  is_paused : Paused s = false;
  is_closed : EpisodeClosed s = closed c;
  is_seen : SeenEpisodes s = Some (list_to_set (episode_ids (sessionID c) (counter c)));
  is_text : episode c = episode_text (sessionID c) (counter c);
  is_counter : 1 <= counter c;
  is_valid : validID (sessionID c) = true;
  is_positive : 0 < seq c;
  is_dated : 0 < utc c
}.

Lemma episode_text_valid session n : validID (episode_text session n) = true.
Proof.
  apply validID_hex. pose proof (len_Sum256 (session ++ str ":" ++ decimal_digits 20 n)) as H. unfold len in *.
  rewrite length_take. lia.
Qed.

(** The converter after its number of episodes was raised for a frame, and after
    the frame was numbered and dated. *)
Definition enter (c : NativeEventConverter) (frame : NativeFrameV1) : NativeEventConverter :=
  if closed c && negb (bool_decide (NType frame = EventDropCount)) then
    let c := nextEpisode c in mkConverter (sessionID c) (seq c) (mono c) (utc c) (episode c) (counter c) false
  else c.

Definition stamp (c : NativeEventConverter) (m u : Z) : NativeEventConverter :=
  mkConverter (sessionID c) (wrap_u64 (seq c + 1)) m u (episode c) (counter c) (closed c).

Definition leave (c : NativeEventConverter) (frame : NativeFrameV1) : NativeEventConverter :=
  mkConverter (sessionID c) (seq c) (mono c) (utc c) (episode c) (counter c) (closed c || ends_episode frame).

Section stream.
Context `{T : TimeFormat} {TL : TimeLaws T} `{EJ : EventJson} {EL : EventJsonLaws T EJ}.

(** A converted frame: the event it made, after the opening event if it is the
    first of the session. *)
Lemma Convert_later c frame es c' :
  seq c <> 0 -> 0 < utc c -> 0 < UTCUnixUS frame <= MaxInt64 -> Convert c frame = (Ok es, c') ->
  let u := Z.max (UTCUnixUS frame * 1000) (utc c) in
  let m := if NMonotonicUS frame <=? mono c then wrap_u64 (mono c + 1) else NMonotonicUS frame in
  let c2 := stamp (enter c frame) m u in
  validate_frame frame = Ok tt /\ Validate (frame_event c2 frame) = Ok tt /\ es = [frame_event c2 frame] /\ c' = leave c2 frame.
Proof.
  intros Hs Hu Hf. unfold Convert. destruct (validate_frame frame) as [[]|] eqn:Evf; [|done].
  unfold UnixMicro. rewrite (wrap_i64_id (UTCUnixUS frame)) by (unfold in_i64, MinInt64; lia).
  rewrite (proj2 (Z.eqb_neq _ _) Hs). cbn [negb andb].
  rewrite (proj2 (Z.eqb_neq (utc c) zero_time)) by (unfold zero_time; lia). cbn [negb andb].
  replace (if UTCUnixUS frame * 1000 <? utc c then utc c else UTCUnixUS frame * 1000)
    with (Z.max (UTCUnixUS frame * 1000) (utc c)) by (destruct (Z.ltb_spec (UTCUnixUS frame * 1000) (utc c)); lia).
  cbv zeta. fold (enter c frame). unfold stamp, leave, ends_episode.
  destruct (Validate _) as [[]|] eqn:Ev; [|done]. intros [= <- <-]. split_and!; [done..|].
  destruct (NType frame); by rewrite ?orb_false_r, ?orb_true_r.
Qed.

Lemma Convert_first c frame es c' :
  seq c = 0 -> utc c = zero_time -> closed c = false -> 0 < UTCUnixUS frame <= MaxInt64 -> Convert c frame = (Ok es, c') ->
  let u := UTCUnixUS frame * 1000 in
  let c1 := mkConverter (sessionID c) 1 (NMonotonicUS frame) u (episode (nextEpisode c)) (wrap_u64 (counter c + 1)) false in
  let c2 := stamp c1 (wrap_u64 (NMonotonicUS frame + 1)) u in
  validate_frame frame = Ok tt /\ Validate (frame_event c2 frame) = Ok tt /\ es = [opening_event c1; frame_event c2 frame] /\ c' = leave c2 frame.
Proof.
  intros Hs Hu Hc Hf. unfold Convert. destruct (validate_frame frame) as [[]|] eqn:Evf; [|done].
  unfold UnixMicro. rewrite (wrap_i64_id (UTCUnixUS frame)) by (unfold in_i64, MinInt64; lia).
  rewrite Hs, Hu. cbn [negb andb Z.eqb]. rewrite Z.eqb_refl. cbn [negb andb closed nextEpisode]. rewrite Hc. cbn [andb].
  cbv zeta. unfold stamp, leave, ends_episode. cbn [sessionID seq mono utc episode counter closed].
  destruct (Validate _) as [[]|] eqn:Ev; [|done]. intros [= <- <-]. split_and!; [done..|].
  destruct (NType frame); by rewrite ?orb_false_r, ?orb_true_r.
Qed.

(** The kinds a frame can have. *)
Lemma native_kind frame :
  validate_frame frame = Ok tt -> NType frame <> EventPause /\ NType frame <> EventResume /\ (forall t, NType frame <> EventOther t).
Proof.
  unfold validate_frame. intros H. invert_ok. destruct (NType frame); split_and!; try done; intros ?; done.
Qed.

Lemma Validate_utc event u : UTC event = canonicalUTC u -> Validate event = Ok tt -> utc_of event = u /\ readable u = true.
Proof.
  intros Hu Hv. unfold Validate in Hv. rewrite Hu in Hv. destruct (negb (bool_decide _)); [done|]. destruct (_ || _); [done|].
  destruct (Seq event =? 0); [done|]. destruct (negb (isCanonicalUTC _)) eqn:Ec; [done|]. bools.
  apply canonical_instant in Ec as [Ep Er]. unfold utc_of. by rewrite Hu, Ep.
Qed.

Lemma episode_ids_snoc session n : 0 <= n -> episode_ids session (n + 1) = episode_ids session n ++ [episode_text session (n + 1)].
Proof.
  intros H. unfold episode_ids. rewrite seqZ_app by lia. rewrite map_app. cbn.
  by replace (1 + n) with (n + 1) by lia.
Qed.

Lemma enter_fields c frame :
  sessionID (enter c frame) = sessionID c /\ seq (enter c frame) = seq c.
Proof. unfold enter. by destruct (_ && _). Qed.

Lemma frame_session c s frame m u :
  let event := frame_event (stamp (enter c frame) m u) frame in
  in_step c s -> mono c <= m -> utc c <= u -> seq c < MaxUint64 -> Validate event = Ok tt ->
  check_session s event = Ok (sessionID c).
Proof.
  intros event [I1 I2 I3 I4 I5 I6 I7 I8 I9 I10 I11 I12 I13] Hm Hu Hseq Hv.
  destruct (enter_fields c frame) as [E1 E2]. pose proof (Validate_utc event u eq_refl Hv) as [Hue _].
  unfold check_session. rewrite I1, bool_decide_false by (by apply validID_nonempty). rewrite Hue, I3, I4, I5.
  cbn [event frame_event SessionID Seq MonotonicUS stamp sessionID seq mono]. rewrite E1, E2, bool_decide_true, Z.eqb_refl by done.
  cbn [negb]. rewrite (proj2 (Z.ltb_ge m (mono c))), (proj2 (Z.ltb_ge u (utc c))) by done. done.
Qed.

(** The episode of a frame: a fresh one after a commit or an abort. *)
Lemma frame_episode c s frame :
  in_step c s -> counter c < MaxEpisodes -> NoDup (episode_ids (sessionID c) (counter c + 1)) ->
  let fresh := closed c && negb (bool_decide (NType frame = EventDropCount)) in
  LastEpisodeID s <> [] /\ negb (bool_decide (episode (enter c frame) = LastEpisodeID s)) = fresh /\
  counter (enter c frame) = counter c + (if fresh then 1 else 0) /\
  episode (enter c frame) = episode_text (sessionID c) (counter (enter c frame)) /\
  closed (enter c frame) = (if fresh then false else closed c) /\
  (if fresh then episode (enter c frame) ∉ episode_ids (sessionID c) (counter c) else True).
Proof.
  intros [I1 I2 I3 I4 I5 I6 I7 I8 I9 I10 I11 I12 I13] Hc Hnd.
  assert (counter c + 1 <= MaxUint64) by (unfold MaxEpisodes, MaxUint64 in *; lia).
  assert (LastEpisodeID s <> []) as Hne by (rewrite I2, I9; apply validID_nonempty, episode_text_valid).
  unfold enter. destruct (_ && _); cbn [nextEpisode episode counter closed sessionID].
  - rewrite wrap_u64_id by (unfold in_u64; lia). rewrite episode_ids_snoc in Hnd by lia. apply NoDup_app in Hnd as (_ & Hd & _).
    assert (episode_text (sessionID c) (counter c + 1) ∉ episode_ids (sessionID c) (counter c)) as Hnot.
    { intros Hin. exact (Hd _ Hin (list_elem_of_here _ _)). }
    split_and!; try done. rewrite bool_decide_false; [done|]. rewrite I2, I9. intros Heq. apply Hnot. rewrite Heq.
    apply list_elem_of_fmap_2, elem_of_seqZ. lia.
  - split_and!; [done|by rewrite I2, bool_decide_true|lia|done..].
Qed.

Lemma ids_set_size session n : NoDup (episode_ids session n) -> 0 <= n ->
  Z.of_nat (size (list_to_set (episode_ids session n) : gset bytes)) = n.
Proof.
  intros Hnd Hn. rewrite size_list_to_set by done. unfold episode_ids. rewrite length_map, length_seqZ. lia.
Qed.

(** The reader's state after a frame it accepted. *)
Lemma in_step_after c s frame m u seen :
  in_step c s -> mono c <= m -> utc c <= u -> seq c < MaxUint64 -> counter c < MaxEpisodes ->
  NoDup (episode_ids (sessionID c) (counter c + 1)) ->
  seen = (if closed c && negb (bool_decide (NType frame = EventDropCount))
          then {[episode (enter c frame)]} ∪ list_to_set (episode_ids (sessionID c) (counter c))
          else list_to_set (episode_ids (sessionID c) (counter c))) ->
  in_step (leave (stamp (enter c frame) m u) frame)
    (mkSequence (sessionID c) (episode (enter c frame)) (wrap_u64 (seq (enter c frame) + 1)) m u false
       (closed (enter c frame) || ends_episode frame) (Some seen)).
Proof.
  intros Hin Hm Hu Hseq Hcount Hnd ->. pose proof (frame_episode c s frame Hin Hcount Hnd) as (E1 & E2 & E3 & E4 & E5 & E6).
  destruct (enter_fields c frame) as [F1 F2]. destruct Hin as [I1 I2 I3 I4 I5 I6 I7 I8 I9 I10 I11 I12 I13].
  split; cbn [leave stamp SeqSession LastEpisodeID LastSeq LastMonotonicUS LastUTC Paused EpisodeClosed SeenEpisodes
    sessionID episode seq mono utc closed counter]; rewrite ?F1, ?F2; try done.
  - rewrite E4, E3. destruct (_ && _); [|by rewrite Z.add_0_r]. rewrite episode_ids_snoc by lia.
    f_equal. apply set_eq. intros x. rewrite elem_of_union, elem_of_singleton, !elem_of_list_to_set, elem_of_app, list_elem_of_singleton. tauto.
  - rewrite E3. destruct (_ && _); lia.
  - rewrite wrap_u64_id by (unfold in_u64; lia). lia.
  - lia.
Qed.

(** One frame read by the sequence check: it is accepted unless it opens an
    episode without being a snapshot. *)
Lemma accept_frame c s frame m u :
  let c2 := stamp (enter c frame) m u in
  let event := frame_event c2 frame in
  in_step c s -> mono c <= m -> utc c <= u -> seq c < MaxUint64 -> counter c < MaxEpisodes ->
  NoDup (episode_ids (sessionID c) (counter c + 1)) -> validate_frame frame = Ok tt -> Validate event = Ok tt ->
  if bool_decide (NType frame = EventDropCount) || negb (closed c) || bool_decide (NType frame = EventComposition)
  then exists s', Accept s event = Ok s' /\ in_step (leave c2 frame) s'
  else exists e, Accept s event = Err e.
Proof.
  intros c2 event Hin Hm Hu Hseq Hcount Hnd Hvf Hv.
  apply native_kind in Hvf as (K1 & K2 & K3). pose proof (Validate_utc event u eq_refl Hv) as [Hue _].
  pose proof (frame_session _ _ _ _ _ Hin Hm Hu Hseq Hv) as Hs. fold c2 event in Hs.
  pose proof (frame_episode c s frame Hin Hcount Hnd) as (E1 & E2 & E3 & E4 & E5 & E6).
  destruct (enter_fields c frame) as [F1 F2]. pose proof (proj1 (proj1 (NoDup_app _ _)
    ltac:(rewrite <- episode_ids_snoc; [exact Hnd|destruct Hin; lia]))) as Hnd0.
  pose proof Hin as [I1 I2 I3 I4 I5 I6 I7 I8 I9 I10 I11 I12 I13].
  unfold Accept. rewrite Hv. cbn [rbind]. rewrite Hs. cbn [rbind].
  change (EpisodeID event) with (episode (enter c frame)). rewrite E2, (bool_decide_false (LastEpisodeID s = [])) by done.
  cbn [orb]. unfold check_episode, life_cycle, is_kind. change (EpisodeID event) with (episode (enter c frame)).
  change (Kind event) with (NType frame). rewrite (bool_decide_false (LastEpisodeID s = [])) by done.
  change (Seq event) with (wrap_u64 (seq (enter c frame) + 1)). change (MonotonicUS event) with m. rewrite Hue, I6, I7, I8. cbn [negb andb default].
  pose proof (fun seen => in_step_after c s frame m u seen Hin Hm Hu Hseq Hcount Hnd) as Hafter.
  rewrite (ids_set_size _ _ Hnd0) by lia. unfold id. fold c2 in Hafter. rewrite E5 in Hafter. unfold ends_episode in Hafter.
  destruct (closed c) eqn:Hcl, (bool_decide (NType frame = EventDropCount)) eqn:Hdr; cbn [andb negb orb rbind] in *.
  - bools. rewrite Hdr in *. eexists. split; [done|by apply Hafter].
  - rewrite (bool_decide_false (_ ∈ list_to_set _)) by (by rewrite elem_of_list_to_set).
    rewrite Z.geb_leb, (proj2 (Z.leb_gt _ _) Hcount). cbn [rbind]. bools.
    destruct (NType frame) eqn:Hk; try done; cbn; try by eexists.
    eexists. split; [done|by apply Hafter].
  - bools. rewrite Hdr in *. eexists. split; [done|by apply Hafter].
  - destruct (NType frame) eqn:Hk; try done; try (by destruct (K3 text)); (eexists; split; [done|by apply Hafter]).
Qed.

(** The opening event is accepted whenever the first frame is dated in the
    range that can be written. *)
Lemma opening_valid c :
  validID (sessionID c) = true -> validID (episode c) = true -> seq c = 1 -> in_u64 (mono c) -> readable (utc c) = true ->
  Validate (opening_event c) = Ok tt.
Proof.
  intros Hs He Hq Hm Hr. unfold Validate. cbn [opening_event EvVersion SessionID EpisodeID Seq UTC Composition Kind].
  rewrite bool_decide_true, Hs, He, Hq by done. cbn [negb orb Z.eqb]. unfold isCanonicalUTC.
  rewrite (parse_canonical _ Hr), bool_decide_true by done. cbn.
  destruct (marshal_resume (sessionID c) (episode c) (seq c) (mono c) (canonicalUTC (utc c))) as (text & Ht & Hl); try done.
  - by apply canonical_len.
  - rewrite Hq. unfold in_u64, MaxUint64. lia.
  - unfold opening_event. rewrite Ht. cbn. by rewrite Z.gtb_ltb, (proj2 (Z.ltb_ge _ _) Hl).
Qed.

Lemma opening_accepted c :
  validID (sessionID c) = true -> episode c = episode_text (sessionID c) 1 -> seq c = 1 -> counter c = 1 -> closed c = false ->
  in_u64 (mono c) -> readable (utc c) = true -> 0 < utc c ->
  exists s, Accept no_sequence (opening_event c) = Ok s /\ in_step c s.
Proof.
  intros Hs He Hq Hc Hcl Hm Hr Hu.
  assert (validID (episode c) = true) as Hv by (rewrite He; apply episode_text_valid).
  pose proof (opening_valid c Hs Hv Hq Hm Hr) as Ho. pose proof (Validate_utc (opening_event c) (utc c) eq_refl Ho) as [Hut _].
  unfold Accept. rewrite Ho. cbn [rbind]. unfold check_session, check_episode, life_cycle, is_kind.
  rewrite Hut. cbn [opening_event SessionID EpisodeID Seq MonotonicUS Kind no_sequence SeqSession LastEpisodeID SeenEpisodes LastSeq
    EpisodeClosed Paused]. rewrite Hq. rewrite !(bool_decide_true ([] = [])) by done. cbn.
  eexists. split; [done|]. split; cbn; try done; try congruence; try lia.
  by rewrite Hc, He.
Qed.

(** What is asked of the frames: clocks at most [2^63] and dates after 1970 began. *)
Definition frame_bounds (frame : NativeFrameV1) : Prop :=
  0 <= NMonotonicUS frame <= 2 ^ 63 /\ 0 < UTCUnixUS frame <= MaxInt64.

Definition b2z (b : bool) : Z := if b then 1 else 0.

(** The reader takes the events [es] of frames that leave the converter at [c']
    exactly when every episode starts with a snapshot. *)
Definition read_as (s : SequenceState) (es : list EventV1) (c' : NativeEventConverter) (ordered : bool) : Prop :=
  if ordered then exists s', accept_all s es = Ok s' /\ in_step c' s' else exists e, accept_all s es = Err e.

(** The rest of a session fits: its numbers do not wrap and its [n] episode
    identifiers differ. *)
Record fits (n : Z) (c : NativeEventConverter) (frames : list NativeFrameV1) : Prop := {
  fits_frames : Forall frame_bounds frames;
  fits_mono : mono c <= 2 ^ 63 + seq c;
  fits_seq : seq c + len frames <= 2 ^ 62;
  fits_counter : counter c + b2z (closed c) + ended frames < n;
  fits_max : n <= MaxEpisodes;
  fits_ids : NoDup (episode_ids (sessionID c) n)
}.

Lemma episode_ids_prefix session n k : 0 <= k <= n -> NoDup (episode_ids session n) -> NoDup (episode_ids session k).
Proof.
  intros Hk. unfold episode_ids. replace n with (k + (n - k)) by lia. rewrite seqZ_app by lia. rewrite map_app.
  by intros [? _]%NoDup_app.
Qed.

Lemma ended_cons frame frames : ended (frame :: frames) = b2z (ends_episode frame) + ended frames.
Proof. unfold ended. cbn. destruct (ends_episode frame); [by rewrite len_cons|done]. Qed.

Lemma ended_nonneg frames : 0 <= ended frames.
Proof. apply len_nonneg. Qed.

Lemma b2z_nonneg b : 0 <= b2z b.
Proof. by destruct b. Qed.

(** One frame, and the rest after it. *)
Lemma frame_then_rest n c s frame frames m u more c' :
  let c2 := stamp (enter c frame) m u in
  in_step c s -> fits n c (frame :: frames) -> mono c <= m <= 2 ^ 63 + (seq c + 1) -> utc c <= u ->
  validate_frame frame = Ok tt -> Validate (frame_event c2 frame) = Ok tt ->
  (forall s', in_step (leave c2 frame) s' -> fits n (leave c2 frame) frames ->
     read_as s' more c' (snapshots_first (closed (leave c2 frame)) frames)) ->
  read_as s (frame_event c2 frame :: more) c' (snapshots_first (closed c) (frame :: frames)).
Proof.
  intros c2 Hin [[Hb1 Hb]%Forall_cons Hm Hs Hn Hmax Hnd] Hmm Hu Hvf Hv Hrest.
  rewrite len_cons in Hs. rewrite ended_cons in Hn. pose proof (len_nonneg frames). pose proof (ended_nonneg frames).
  pose proof Hin as [_ _ _ _ _ _ _ _ _ I10 _ I12 _].
  pose proof (b2z_nonneg (closed c)). pose proof (b2z_nonneg (ends_episode frame)).
  pose proof (accept_frame c s frame m u Hin) as Hacc. cbn zeta in Hacc. fold c2 in Hacc.
  specialize (Hacc (proj1 Hmm) Hu ltac:(unfold MaxUint64; lia) ltac:(lia)
    ltac:(eapply episode_ids_prefix; [|exact Hnd]; lia) Hvf Hv).
  pose proof (frame_episode c s frame Hin ltac:(lia) ltac:(eapply episode_ids_prefix; [|exact Hnd]; lia))
    as (_ & _ & E3 & _ & E5 & _).
  destruct (enter_fields c frame) as [F1 F2].
  assert (fits n (leave c2 frame) frames) as Hfit.
  { split; cbn [leave c2 stamp mono seq counter closed sessionID]; rewrite ?F1, ?F2, ?E3, ?E5; try done.
    - rewrite wrap_u64_id by (unfold in_u64, MaxUint64; lia). lia.
    - rewrite wrap_u64_id by (unfold in_u64, MaxUint64; lia). lia.
    - destruct (bool_decide (NType frame = EventDropCount)) eqn:Hd; [bools; unfold ends_episode in *; rewrite Hd in *|];
        destruct (closed c), (ends_episode frame); cbn in *; lia. }
  assert (closed (leave c2 frame) = if bool_decide (NType frame = EventDropCount) then closed c else ends_episode frame) as Hcl.
  { cbn [leave c2 stamp closed]. rewrite E5.
    destruct (bool_decide (NType frame = EventDropCount)) eqn:Hd; [bools; unfold ends_episode; rewrite Hd|];
      by destruct (closed c). }
  cbn [snapshots_first]. rewrite Hcl in Hrest. unfold read_as in *.
  destruct (bool_decide (NType frame = EventDropCount)) eqn:Hd; cbn [orb] in Hacc.
  - destruct Hacc as (s' & Ha & Hin'). specialize (Hrest s' Hin' Hfit). cbn. by rewrite Ha.
  - destruct (negb (closed c) || bool_decide (NType frame = EventComposition)) eqn:Ho; cbn [andb].
    + destruct Hacc as (s' & Ha & Hin'). specialize (Hrest s' Hin' Hfit). cbn. by rewrite Ha.
    + destruct Hacc as (e & Ha). exists e. cbn. by rewrite Ha.
Qed.

Lemma convert_all_accepted n frames : forall c s es c',
  in_step c s -> fits n c frames -> convert_all c frames = Ok (es, c') ->
  read_as s es c' (snapshots_first (closed c) frames).
Proof.
  induction frames as [|frame frames IH]; intros c s es c' Hin Hfit H.
  { injection H as <- <-. exists s. done. }
  cbn in H. destruct (Convert c frame) as [[events|e] c2] eqn:Ec; [|done]. invert_ok. destruct a as [more c3]. invert_ok.
  pose proof Hin as [I1 I2 I3 I4 I5 I6 I7 I8 I9 I10 I11 I12 I13]. pose proof Hfit as [Hb Hm Hs _ _ _].
  apply Forall_cons in Hb as [[Hb1 Hb2] _]. pose proof (len_nonneg frames). rewrite len_cons in Hs.
  apply Convert_later in Ec as (Hvf & Hv & -> & ->); [|lia..]. cbn [app].
  eapply frame_then_rest; [exact Hin|exact Hfit| |lia|exact Hvf|exact Hv|intros s' Hin' Hfit'; by apply IH].
  destruct (Z.leb_spec (NMonotonicUS frame) (mono c)); [|lia].
  rewrite wrap_u64_id by (unfold in_u64, MaxUint64; lia). lia.
Qed.

(** C23: a native spool is read back exactly when no snapshot was lost.  When the
    frames of a session convert (their clocks at most [2^63], their dates after
    the start of 1970, fewer than [2^60] of them, at least two episodes fewer than
    [MaxEpisodes] ended, the identifiers of the episodes distinct), the stream of
    events the converter makes is accepted, and ends with the converter's own
    counters, if every episode after the first starts with a snapshot; if a
    commit or an abort is followed by any other frame that is not a loss report,
    the stream is rejected although every frame of it was converted. *)
Theorem native_stream_accepted (session : bytes) (c c' : NativeEventConverter) (frame : NativeFrameV1)
    (frames : list NativeFrameV1) (es : list EventV1) :
  NewNativeEventConverter session = Ok c -> convert_all c (frame :: frames) = Ok (es, c') ->
  Forall frame_bounds (frame :: frames) -> len frames < 2 ^ 60 -> ended (frame :: frames) + 2 <= MaxEpisodes ->
  NoDup (episode_ids session (ended (frame :: frames) + 2)) ->
  read_as no_sequence es c' (snapshots_first false (frame :: frames)).
Proof.
  unfold NewNativeEventConverter. intros Hc H Hb Hlen Hmax Hnd. destruct (negb (validID session)) eqn:Hs; [done|]. bools.
  injection Hc as <-. cbn in H. destruct (Convert _ frame) as [[events|e] c2] eqn:Ec; [|done]. invert_ok. destruct a as [more c3]. invert_ok.
  pose proof Hb as [[Hb1 Hb2] _]%Forall_cons. apply Convert_first in Ec as (Hvf & Hv & -> & ->); [|done..].
  cbn [sessionID nextEpisode episode counter] in *. set (c1 := mkConverter _ 1 _ _ _ _ _) in *.
  destruct (opening_accepted c1) as (s & Ha & Hin); try done; cbn [c1 mono utc].
  { unfold in_u64, MaxUint64. lia. } { refine (proj2 (Validate_utc _ _ _ Hv)). done. } { lia. }
  assert (read_as s (frame_event (stamp (enter c1 frame) (wrap_u64 (NMonotonicUS frame + 1)) (UTCUnixUS frame * 1000)) frame :: more) c'
    (snapshots_first (closed c1) (frame :: frames))) as Hread.
  { apply (frame_then_rest (ended (frame :: frames) + 2)); try done; cbn [c1 mono utc seq].
    - split; try done; cbn [c1 mono seq counter closed b2z]; rewrite ?len_cons; try lia.
      change (wrap_u64 (0 + 1)) with 1. lia.
    - rewrite wrap_u64_id by (unfold in_u64, MaxUint64; lia). lia.
    - intros s' Hin' Hfit'. by apply (convert_all_accepted (ended (frame :: frames) + 2)). }
  unfold read_as in *. cbn [app accept_all]. rewrite Ha. exact Hread.
Qed.

End stream.
