(* ===== verification/ReplayDisk.v ===== *)
(** * Paths and files of the replay laboratory

    What [replaylab/store.go] uses of [path/filepath] and [os], for Unix: the
    lexical operations on paths, and a file system whose calls can fail.  The
    path helpers of the source ([safeRoot], [insideGitWorktree], [writeFull],
    [replaceFile]) are at the end.  The contents of a
    directory are the paths below it.  A symbolic link is seen by [Lstat] only;
    [entries] gives what the link leads to. *)

From S2P Require Import Prelude Effects Encoding Unicode Crypto ReplayEvent.

(** ** [path/filepath] *)

Fixpoint join_slash (parts : list bytes) : bytes :=
  match parts with
  | [] => []
  | [part] => part
  | part :: rest => part ++ slash :: join_slash rest
  end.

Definition dot : bytes := str ".".
Definition dotdot : bytes := str "..".

(** The elements of a clean path, the last one first. *)
Fixpoint clean_parts (rooted : bool) (out parts : list bytes) : list bytes :=
  match parts with
  | [] => out
  | part :: rest =>
      if bool_decide (part = []) || bool_decide (part = dot) then clean_parts rooted out rest
      else if bool_decide (part = dotdot) then
        match out with
        | [] => clean_parts rooted (if rooted then [] else [dotdot]) rest
        | top :: below =>
            clean_parts rooted (if bool_decide (top = dotdot) then dotdot :: out else below) rest
        end
      else clean_parts rooted (part :: out) rest
  end.

Definition IsAbs (path : bytes) : bool := HasPrefix path [slash].

Definition Clean (path : bytes) : bytes :=
  let rooted := IsAbs path in
  let parts := rev (clean_parts rooted [] (split_path path)) in
  if rooted then slash :: join_slash parts
  else if bool_decide (parts = []) then dot else join_slash parts.

(** Empty leading elements are ignored. *)
Fixpoint Join (elements : list bytes) : bytes :=
  match elements with
  | [] => []
  | element :: rest => if bool_decide (element = []) then Join rest else Clean (join_slash elements)
  end.

(** Everything up to the last separator, cleaned. *)
Definition Dir (path : bytes) : bytes :=
  match removelast (split_path path) with
  | [] => Clean []
  | parts => Clean (join_slash parts ++ [slash])
  end.

(** The last element, without trailing separators. *)
Definition Base (path : bytes) : bytes :=
  if bool_decide (path = []) then dot
  else default [slash] (last (List.filter (fun part => negb (bool_decide (part = []))) (split_path path))).

(** From the last dot of the last element. *)
Fixpoint after_dot (name : bytes) : option bytes :=
  match name with
  | [] => None
  | c :: rest =>
      match after_dot rest with
      | Some ext => Some ext
      | None => if bool_decide ([c] = dot) then Some name else None
      end
  end.

Definition Ext (path : bytes) : bytes := default [] (after_dot (default [] (last (split_path path)))).

(** [strings.TrimPrefix] *)
Definition TrimPrefix (s prefix : bytes) : bytes := default s (strip_prefix prefix s).

(** ** The file system *)

Inductive Entry := Directory | Regular (contents : bytes).

Record Disk := mkDisk {
  entries : gmap bytes Entry; links : gset bytes; entropy : bytes; calls : nat
}.

Inductive Call :=
  | CStat | CMkdirAll | COpen | CRead | CWrite | CSync | CClose | CRename | CRemove | CRemoveAll.

(** What the machine does: which calls fail, how many bytes a failing read or
    write transfers, what a failing [RemoveAll] leaves, the clock and the
    directories of the process. *)
Class Machine := {
  fault : Call -> bytes -> nat -> option error;
  transferred : nat -> nat;
  survives : nat -> bytes -> bool;
  clock : nat -> Z;
  UserHomeDir : result bytes;
  Getwd : result bytes
}.

Definition ErrNotExist : error := errors_New "file does not exist".
Definition ErrExist : error := errors_New "file already exists".
Definition ENOTDIR : error := errors_New "not a directory".
Definition EISDIR : error := errors_New "is a directory".
Definition ErrShortWrite : error := errors_New "short write".

Definition tick (d : Disk) : Disk := mkDisk (entries d) (links d) (entropy d) (S (calls d)).
Definition set_entries (d : Disk) (e : gmap bytes Entry) : Disk := mkDisk e (links d) (entropy d) (calls d).

Section disk.
Context `{OS : Machine}.

(** A call that does nothing when it fails. *)
Definition syscall {A} (c : Call) (path : bytes) (f : gmap bytes Entry -> result (A * gmap bytes Entry)) : St Disk A := fun d =>
  match fault c path (calls d) with
  | Some e => (Err e, tick d)
  | None =>
      match f (entries d) with
      | Ok (a, files) => (Ok a, tick (set_entries d files))
      | Err e => (Err e, tick d)
      end
  end.

(** [time.Now] *)
Definition Now : St Disk Z := fun d => (Ok (clock (calls d)), tick d).

Definition new_id : St Disk bytes := fun d =>
  match NewID (entropy d) with
  | Ok (id, rest) => (Ok id, mkDisk (entries d) (links d) rest (calls d))
  | Err e => (Err e, d)
  end.

(** [os.Stat] and [os.Lstat]: whether the path is a directory or a link. *)
Definition Stat (path : bytes) : St Disk Entry :=
  syscall CStat path (fun files => match files !! path with Some e => Ok (e, files) | None => Err ErrNotExist end).

Definition Lstat (path : bytes) : St Disk bool := fun d =>
  syscall CStat path (fun files =>
    match files !! path with Some _ => Ok (bool_decide (path ∈ links d), files) | None => Err ErrNotExist end) d.

(** [os.MkdirAll]: the path and everything above it. *)
Fixpoint prefixes (above : list bytes) (parts : list bytes) : list bytes :=
  match parts with
  | [] => []
  | part :: rest => (slash :: join_slash (above ++ [part])) :: prefixes (above ++ [part]) rest
  end.

Fixpoint make_all (files : gmap bytes Entry) (paths : list bytes) : result (unit * gmap bytes Entry) :=
  match paths with
  | [] => Ok (tt, files)
  | path :: rest =>
      match files !! path with
      | Some Directory => make_all files rest
      | Some (Regular _) => Err ENOTDIR
      | None => make_all (<[path := Directory]> files) rest
      end
  end.

Definition MkdirAll (path : bytes) : St Disk unit :=
  syscall CMkdirAll path (fun files => make_all files (prefixes [] (tail (split_path path)))).

(** [os.Open] and the reads up to the end: the bytes, and the error the reading
    ends with if it is not the end of the file. *)
Definition ReadFile (path : bytes) : St Disk (bytes * option error) :=
  do! contents := syscall COpen path (fun files =>
    match files !! path with
    | Some (Regular contents) => Ok (Some contents, files)
    | Some Directory => Ok (None, files)
    | None => Err ErrNotExist
    end) in
  fun d => (Ok match contents, fault CRead path (calls d) with
               | None, _ => ([], Some EISDIR)
               | Some text, Some e => (take (transferred (calls d)) text, Some e)
               | Some text, None => (text, None)
               end, tick d).

(** [os.OpenFile] for writing: [exclusive] is [O_CREATE|O_EXCL], otherwise
    [O_CREATE|O_APPEND]. *)
Definition OpenWrite (exclusive : bool) (path : bytes) : St Disk unit :=
  syscall COpen path (fun files =>
    match files !! path with
    | Some Directory => Err EISDIR
    | Some (Regular _) => if exclusive then Err ErrExist else Ok (tt, files)
    | None =>
        match files !! Dir path with
        | Some Directory => Ok (tt, <[path := Regular []]> files)
        | Some (Regular _) => Err ENOTDIR
        | None => Err ErrNotExist
        end
    end).

Definition append_to (path data : bytes) (files : gmap bytes Entry) : gmap bytes Entry :=
  match files !! path with
  | Some (Regular contents) => <[path := Regular (contents ++ data)]> files
  | _ => files
  end.

(** [File.Write] at the end of the file: everything, or an error and less. *)
Definition Write (path data : bytes) : St Disk (Z * option error) := fun d =>
  match fault CWrite path (calls d) with
  | None => (Ok (len data, None), tick (set_entries d (append_to path data (entries d))))
  | Some e =>
      let part := take (transferred (calls d)) data in
      (Ok (len part, Some e), tick (set_entries d (append_to path part (entries d))))
  end.

Definition File_Sync (path : bytes) : St Disk unit := syscall CSync path (fun files => Ok (tt, files)).
Definition File_Close (path : bytes) : St Disk unit := syscall CClose path (fun files => Ok (tt, files)).
Definition Remove (path : bytes) : St Disk unit := syscall CRemove path (fun files => Ok (tt, delete path files)).

(** [os.Rename] onto a file. *)
Definition Rename (source destination : bytes) : St Disk unit :=
  syscall CRename destination (fun files =>
    match files !! source, files !! destination with
    | None, _ => Err ErrNotExist
    | Some _, Some Directory => Err EISDIR
    | Some e, _ => Ok (tt, <[destination := e]> (delete source files))
    end).

(** The path or something below it. *)
Definition below (path other : bytes) : bool := HasPrefix (other ++ [slash]) (path ++ [slash]).

Definition RemoveAll (path : bytes) : St Disk unit := fun d =>
  match fault CRemoveAll path (calls d) with
  | None => (Ok tt, tick (set_entries d (filter (fun '(p, _) => below path p = false) (entries d))))
  | Some e =>
      (Err e, tick (set_entries d (filter (fun '(p, _) => below path p && negb (survives (calls d) p) = false) (entries d))))
  end.

(** [filepath.Abs] *)
Definition Abs (path : bytes) : result bytes :=
  if IsAbs path then Ok (Clean path) else let! wd := Getwd in Ok (Join [wd; path]).

(** ** The helpers of the source *)

(** The loop hands [Write] what is left until nothing is; every round without
    an error shortens it, so its length bounds the rounds. *)
Fixpoint write_loop (rounds : nat) (path data : bytes) : St Disk unit :=
  match rounds with
  | O => ret tt
  | S rounds =>
      if bool_decide (data = []) then ret tt
      else
        do! (written, err) := Write path data in
        match err with
        | Some e => raise e
        | None => if written =? 0 then raise ErrShortWrite else write_loop rounds path (drop (Z.to_nat written) data)
        end
  end.

Definition writeFull (path data : bytes) : St Disk unit := write_loop (S (length data)) path data.

Definition replaceFile (source destination : bytes) : St Disk unit := Rename source destination.

(** [syncDirectory] ignores every error and changes nothing. *)
Definition syncDirectory (directory : bytes) : St Disk unit :=
  do! _ := attempt (syscall COpen directory (fun files => Ok (tt, files))) in ret tt.

(** [os.Stat] of [.git] in the directory and in everything above it; a path has
    fewer parents than bytes. *)
Fixpoint worktree_above (rounds : nat) (directory : bytes) : St Disk bool :=
  match rounds with
  | O => ret false
  | S rounds =>
      do! found := attempt (Stat (Join [directory; str ".git"])) in
      if is_Ok found then ret true
      else if bool_decide (Dir directory = directory) then ret false
      else worktree_above rounds (Dir directory)
  end.

Definition insideGitWorktree (path : bytes) : St Disk bool :=
  do! info := attempt (Stat path) in
  let directory :=
    match info with
    | Ok (Regular _) => Dir path
    | Ok Directory | Err _ => if bool_decide (Ext path = []) then path else Dir path
    end in
  worktree_above (S (length directory)) directory.

(** [strings.FieldsFunc] at both kinds of separators. *)
Definition backslash : byte := Byte.x5c.

Fixpoint path_fields (field : bytes) (s : bytes) : list bytes :=
  match s with
  | [] => if bool_decide (field = []) then [] else [field]
  | c :: rest =>
      if bool_decide (c = slash) || bool_decide (c = backslash) then
        (if bool_decide (field = []) then [] else [field]) ++ path_fields [] rest
      else path_fields (field ++ [c]) rest
  end.

(** On Unix there is no volume name. *)
Definition safeRoot (root : bytes) : St Disk bytes :=
  if bool_decide (TrimSpace root = []) then lift (fail "lab root must not be empty")
  else
    do! abs := wrap_error "resolve lab root: %w" (lift (Abs (Clean root))) in
    if bool_decide (abs = [slash]) || bool_decide (abs = []) || bool_decide (abs = dot) then
      lift (fail "refusing filesystem root as lab root")
    else if match UserHomeDir with
            | Ok home => match Abs (Clean home) with Ok home => bool_decide (abs = home) | Err _ => bool_decide (abs = []) end
            | Err _ => false
            end then
      lift (fail "refusing the user home directory as lab root")
    else if len (path_fields [] (TrimPrefix abs [slash])) <? 2 then lift (fail "lab root path is too broad")
    else
      do! inside := insideGitWorktree abs in
      if inside : bool then lift (fail "lab root must be outside every Git worktree") else ret abs.

End disk.

(** The path operations on the cases of the documentation of [path/filepath]. *)
Example Clean_cases :
  map Clean [str "a/c"; str "a//c"; str "a/c/."; str "a/c/b/.."; str "/../a/c"; str "/../a/b/../././/c"; str ""; str "/"; str "../../x"] =
  [str "a/c"; str "a/c"; str "a/c"; str "a/c"; str "/a/c"; str "/a/c"; str "."; str "/"; str "../../x"].
Proof. vm_compute. reflexivity. Qed.

Example Dir_Base_Ext_cases :
  map Dir [str "/foo/bar/baz.js"; str "/foo/bar/baz/"; str "/dirty//path///"; str "dev.txt"; str "/"; str ""] =
    [str "/foo/bar"; str "/foo/bar/baz"; str "/dirty/path"; str "."; str "/"; str "."] /\
  map Base [str "/foo/bar/baz.js"; str "/foo/bar/baz/"; str "dev.txt"; str "/"; str ""] =
    [str "baz.js"; str "baz"; str "dev.txt"; str "/"; str "."] /\
  map Ext [str "index"; str "index.js"; str "main.test.js"; str "a.b/c"] = [str ""; str ".js"; str ".js"; str ""].
Proof. vm_compute. done. Qed.

(** ** Clean paths *)

(** An element that stands for itself. *)
Record simple (part : bytes) : Prop := {
  simple_nonempty : part <> [];
  simple_dot : part <> dot;
  simple_dotdot : part <> dotdot;
  simple_slash : slash ∉ part
}.

(** An absolute path of such elements. *)
Definition path_of (parts : list bytes) : bytes := slash :: join_slash parts.

Lemma HasPrefix_spec s p : HasPrefix s p = true <-> exists t, s = p ++ t.
Proof.
  unfold HasPrefix. rewrite bool_decide_eq_true. split.
  - intros [t H]. exists t. by apply strip_prefix_inv.
  - intros [t ->]. exists t. apply strip_prefix_self.
Qed.

Lemma split_path_plain part : slash ∉ part -> split_path part = [part].
Proof.
  induction part as [|c part IH]; intros H; [done|]. apply not_elem_of_cons in H as [Hc H]. cbn.
  rewrite bool_decide_false by congruence. by rewrite IH.
Qed.

Lemma split_path_app part rest : slash ∉ part -> split_path (part ++ slash :: rest) = part :: split_path rest.
Proof.
  induction part as [|c part IH]; intros H; cbn; [done|]. apply not_elem_of_cons in H as [Hc H].
  rewrite bool_decide_false by congruence. by rewrite IH.
Qed.

Lemma join_slash_cons part rest : rest <> [] -> join_slash (part :: rest) = part ++ slash :: join_slash rest.
Proof. by destruct rest. Qed.

Lemma join_slash_app l1 l2 : l1 <> [] -> l2 <> [] -> join_slash (l1 ++ l2) = join_slash l1 ++ slash :: join_slash l2.
Proof.
  intros H1 H2. induction l1 as [|part l1 IH]; [done|]. destruct l1 as [|q l1]; [by apply join_slash_cons|].
  change ((part :: q :: l1) ++ l2) with (part :: (q :: l1) ++ l2). rewrite !join_slash_cons by done.
  rewrite IH by done. by rewrite <- app_assoc.
Qed.

Lemma split_join parts : parts <> [] -> Forall (fun part => slash ∉ part) parts -> split_path (join_slash parts) = parts.
Proof.
  induction parts as [|part parts IH]; intros Hne H; [done|]. apply Forall_cons in H as [Hp H].
  destruct parts as [|q parts]; [by apply split_path_plain|]. rewrite join_slash_cons by done.
  rewrite split_path_app by done. by rewrite IH.
Qed.

Lemma split_path_of parts : parts <> [] -> Forall simple parts -> split_path (path_of parts) = [] :: parts.
Proof.
  intros Hne H. unfold path_of. cbn. f_equal. apply split_join; [done|]. eapply Forall_impl; [exact H|]. by intros p [].
Qed.

Lemma clean_simple rooted parts : forall out,
  Forall simple parts -> clean_parts rooted out parts = rev parts ++ out.
Proof.
  induction parts as [|part parts IH]; intros out H; [done|]. apply Forall_cons in H as [[H1 H2 H3 H4] H]. cbn.
  rewrite !bool_decide_false by done. cbn. rewrite IH by done. by rewrite <- app_assoc.
Qed.

(** Empty elements at the end of a list do not count. *)
Lemma clean_parts_app rooted l1 l2 : forall out,
  clean_parts rooted out (l1 ++ l2) = clean_parts rooted (clean_parts rooted out l1) l2.
Proof.
  induction l1 as [|part l1 IH]; intros out; [done|]. cbn [app clean_parts].
  destruct (bool_decide (part = []) || bool_decide (part = dot)); [apply IH|].
  destruct (bool_decide (part = dotdot)); [|apply IH]. destruct out; apply IH.
Qed.

Lemma Clean_path_of parts : parts <> [] -> Forall simple parts -> Clean (path_of parts) = path_of parts.
Proof.
  intros Hne H. unfold Clean. change (IsAbs (path_of parts)) with (IsAbs ([slash] ++ join_slash parts)).
  replace (IsAbs _) with true by (symmetry; apply HasPrefix_spec; eauto). rewrite split_path_of by done. cbn.
  rewrite clean_simple by done. by rewrite app_nil_r, rev_involutive.
Qed.

Lemma Clean_relative parts : parts <> [] -> Forall simple parts -> IsAbs (join_slash parts) = false /\ Clean (join_slash parts) = join_slash parts.
Proof.
  intros Hne H. assert (Forall (fun part => slash ∉ part) parts) as Hns by (eapply Forall_impl; [exact H|]; by intros p []).
  assert (IsAbs (join_slash parts) = false) as Ha.
  { destruct (IsAbs _) eqn:E; [|done]. apply HasPrefix_spec in E as [t Ht]. cbn in Ht.
    pose proof (split_join parts Hne Hns) as Hs. rewrite Ht in Hs. cbn in Hs. subst parts. apply Forall_cons in H as [[] _]. done. }
  split; [done|]. unfold Clean. rewrite Ha, split_join, clean_simple by done. rewrite app_nil_r, rev_involutive.
  by rewrite bool_decide_false.
Qed.

Lemma Join_path_of parts rest :
  parts <> [] -> rest <> [] -> Forall simple parts -> Forall simple rest ->
  Join [path_of parts; join_slash rest] = path_of (parts ++ rest).
Proof.
  intros H1 H2 H3 H4. cbn. replace (slash :: join_slash parts ++ slash :: join_slash rest) with (path_of (parts ++ rest)).
  - apply Clean_path_of; [by destruct parts|]. by apply Forall_app.
  - unfold path_of. by rewrite join_slash_app.
Qed.

Lemma Dir_path_of parts part : parts <> [] -> Forall simple (parts ++ [part]) -> Dir (path_of (parts ++ [part])) = path_of parts.
Proof.
  intros H1 H2. unfold Dir. rewrite split_path_of by (try done; by destruct parts).
  rewrite app_comm_cons, removelast_last. apply Forall_app in H2 as [H2 _].
  replace (join_slash ([] :: parts) ++ [slash]) with (path_of (parts ++ [[]])).
  - unfold Clean. change (IsAbs (path_of (parts ++ [[]]))) with (IsAbs ([slash] ++ join_slash (parts ++ [[]]))).
    replace (IsAbs _) with true by (symmetry; apply HasPrefix_spec; eauto). unfold path_of. cbn [split_path].
    rewrite bool_decide_true by done. rewrite split_join.
    + cbn [clean_parts]. rewrite bool_decide_true by done. cbn [orb]. rewrite clean_parts_app, (clean_simple true parts []) by done. cbn.
      by rewrite app_nil_r, rev_involutive.
    + by destruct parts.
    + apply Forall_app. split; [eapply Forall_impl; [exact H2|]; by intros p []|]. repeat constructor. apply not_elem_of_nil.
  - unfold path_of. rewrite join_slash_app by done. by rewrite (join_slash_cons [] parts).
Qed.

Lemma Base_path_of parts part : Forall simple (parts ++ [part]) -> Base (path_of (parts ++ [part])) = part.
Proof.
  intros H. unfold Base. rewrite bool_decide_false by done. rewrite split_path_of by (try done; by destruct parts). cbn.
  replace (List.filter _ (parts ++ [part])) with (parts ++ [part]); [by rewrite last_snoc|]. symmetry.
  induction H as [|q l [Hq _ _ _] _ IH]; [done|]. cbn. rewrite bool_decide_false by done. cbn. by f_equal.
Qed.

Lemma path_of_inj l1 l2 : l1 <> [] -> l2 <> [] -> Forall simple l1 -> Forall simple l2 -> path_of l1 = path_of l2 -> l1 = l2.
Proof.
  intros H1 H2 H3 H4 Heq. pose proof (split_path_of l1 H1 H3) as E. rewrite Heq, split_path_of in E by done. by injection E as ->.
Qed.
