(* ===== verification/ReplayStore.v ===== *)
(** * The replay laboratory store ([replaylab/store.go])

    A laboratory is a directory with a manifest, the metadata of the active
    session and an append-only log of its events.  A store keeps the metadata
    and the sequence state of the log in memory.  The store and the disk are
    threaded through every method, and keep what a failing method did to them.
    The JSON codecs of the two records are the class [LabJson]. *)

From S2P Require Import Prelude Effects Encoding Unicode Crypto ReplayEvent ReplaySequence ReplayReport ReplayNative ReplayDisk.

Definition manifestVersion : bytes := str "yunpin.replay.lab.v1".
Definition sessionVersion : bytes := str "yunpin.replay.session.v1".
Definition manifestName : bytes := str "lab.json".
Definition activeName : bytes := str "active.json".

Record LabManifest := mkManifest {
  LVersion : bytes; LabID : bytes; LRoot : bytes; CreatedUTC : bytes; FsyncPolicy : bytes
}.

Record SessionMetadata := mkMetadata {
  MVersion : bytes; MSessionID : bytes; State : bytes; StartedUTC : bytes; UpdatedUTC : bytes; EventFile : bytes;
  MLastEpisodeID : bytes; MLastSeq : Z; MLastMonotonicUS : Z; MLastUTC : bytes; MEpisodeClosed : bool
}.

Record Store := mkStore {
  root : bytes; manifest : LabManifest; cachedMetadata : option SessionMetadata; cachedSequence : SequenceState
}.

(** The encoder of [json.NewEncoder] with its trailing newline, and the strict
    decoder on the first value of a text. *)
Class LabJson := {
  encode_manifest : LabManifest -> result bytes;
  decode_manifest : bytes -> result (LabManifest * Trailing);
  encode_metadata : SessionMetadata -> result bytes;
  decode_metadata : bytes -> result (SessionMetadata * Trailing)
}.

Definition disabled : bytes := str "disabled".
Definition running : bytes := str "running".
Definition paused : bytes := str "paused".

Definition session_file (id : bytes) : bytes := Join [str "sessions"; id ++ str ".yunpinreplay"].

Section files.
Context `{OS : Machine} `{T : TimeFormat} `{EJ : EventJson}.

(** ** Files *)

(** What follows a write: [Sync] if it succeeded, then [Close]; the two errors. *)
Definition sync_close (path : bytes) (writeErr : result unit) : St Disk (result unit * result unit) :=
  do! writeErr := match writeErr with Ok _ => attempt (File_Sync path) | Err e => ret (Err e) end in
  do! closeErr := attempt (File_Close path) in
  ret (writeErr, closeErr).

(** The value is written to a temporary file that then replaces the old one. *)
Definition encode_to (path : bytes) (encoded : result bytes) : St Disk unit :=
  do! text := lift encoded in
  do! (_, err) := Write path text in
  match err with Some e => raise e | None => ret tt end.

(** The temporary file is filled and renamed, or removed. *)
Definition replace_with (temporary path : bytes) (encoded : result bytes) : St Disk unit :=
  do! writeErr := attempt (encode_to temporary encoded) in
  do! (writeErr, closeErr) := sync_close temporary writeErr in
  match writeErr, closeErr with
  | Err e, _ => do! _ := attempt (Remove temporary) in raise (Errorf_w "write metadata: %w" e)
  | Ok _, Err e => do! _ := attempt (Remove temporary) in raise (Errorf_w "close metadata: %w" e)
  | Ok _, Ok _ =>
      do! replaced := attempt (replaceFile temporary path) in
      match replaced with
      | Err e => do! _ := attempt (Remove temporary) in raise (Errorf_w "replace metadata: %w" e)
      | Ok _ => ret tt
      end
  end.

Definition atomicJSON (path : bytes) (encoded : result bytes) : St Disk unit :=
  let directory := Dir path in
  do! _ := MkdirAll directory in
  do! random := new_id in
  let temporary := Join [directory; str "." ++ Base path ++ str "." ++ random ++ str ".tmp"] in
  do! _ := wrap_error "create temporary metadata: %w" (OpenWrite true temporary) in
  do! _ := replace_with temporary path encoded in
  syncDirectory directory.

(** [io.LimitReader(file, 64*1024)] *)
Definition readLimit : Z := 64 * 1024.

(** The first 64 KiB of a file as one strict JSON value.  Of a read that fails
    before them only the error is kept. *)
Definition readStrictJSON {A} (decode : bytes -> result (A * Trailing)) (path : bytes) : St Disk A :=
  do! (text, err) := ReadFile path in
  match (if len text <? readLimit then err else None) with
  | Some e => raise e
  | None =>
      do! (value, trailing) := lift (decode (take (Z.to_nat readLimit) text)) in
      match trailing with
      | AtEOF => ret value
      | AnotherValue => lift (fail "metadata contains trailing JSON value")
      | TrailingError e => raise e
      end
  end.

Definition appendEventFile (path : bytes) (event : EventV1) : St Disk unit :=
  do! encoded := lift (EncodeEventV1 event) in
  do! _ := wrap_error "open event log: %w" (OpenWrite false path) in
  do! writeErr := attempt (writeFull path (encoded ++ [newline])) in
  do! (writeErr, closeErr) := sync_close path writeErr in
  match writeErr, closeErr with
  | Err e, _ => raise (Errorf_w "append event log: %w" e)
  | Ok _, Err e => raise (Errorf_w "close event log: %w" e)
  | Ok _, Ok _ => syncDirectory (Dir path)
  end.

(** The lines of a log, decoded and handed on one after the other. *)
Definition event_line {A} (accept : A -> EventV1 -> result A) (state : A) (line : bytes) : result A :=
  let! event := wrapped "event log line %d: %w" (DecodeEventV1 line) in
  wrapped "event log line %d: %w" (accept state event).

Definition scan_events {A} (accept : A -> EventV1 -> result A) (state : A) (text : bytes) (err : option error) : result A :=
  let! state := for_lines (event_line accept) (Errorf_w "read event log: %w") state (split_lines [] text) in
  match err with Some e => Err (Errorf_w "read event log: %w" e) | None => Ok state end.

Definition forEachEvent {A} (path : bytes) (accept : A -> EventV1 -> result A) (state : A) : St Disk A :=
  do! (text, err) := ReadFile path in
  lift (scan_events accept state text err).

Definition readEvents (path : bytes) : St Disk (list EventV1) :=
  forEachEvent path (fun events event => Ok (events ++ [event])) [].

End files.

(** ** Metadata *)

Section store.
Context `{OS : Machine} `{T : TimeFormat} `{EJ : EventJson} `{NJ : NativeJson} `{LJ : LabJson}.

(** A method of a store. *)
Notation Method A := (St (Store * Disk) A).

Definition on_disk {A} (m : St Disk A) : Method A := fun '(store, d) => let '(r, d') := m d in (r, (store, d')).

Definition this : Method Store := fun s => (Ok s.1, s).

(** [store.cachedMetadata = metadata; store.cachedSequence = state] *)
Definition set_cache (metadata : option SessionMetadata) (state : SequenceState) : Method unit := fun '(store, d) =>
  (Ok tt, (mkStore (root store) (manifest store) metadata state, d)).

Definition check_metadata (metadata : SessionMetadata) : result unit :=
  if negb (bool_decide (MVersion metadata = sessionVersion)) then fail "unsupported session metadata version"
  else if negb (isCanonicalUTC (UpdatedUTC metadata)) then fail "session updated_utc is invalid"
  else if bool_decide (State metadata = disabled) then
    reject_if (negb (bool_decide (MSessionID metadata = [])) || negb (bool_decide (EventFile metadata = []))
               || negb (bool_decide (StartedUTC metadata = [])) || negb (bool_decide (MLastUTC metadata = []))
               || negb (MLastSeq metadata =? 0))
      "disabled session metadata contains active state"
  else if bool_decide (State metadata = running) || bool_decide (State metadata = paused) then
    reject_if (negb (validID (MSessionID metadata)) || negb (validID (MLastEpisodeID metadata)) || (MLastSeq metadata =? 0)
               || negb (isCanonicalUTC (StartedUTC metadata)) || negb (isCanonicalUTC (MLastUTC metadata))
               || negb (bool_decide (EventFile metadata = session_file (MSessionID metadata))))
      "active session metadata identity is invalid"
  else Err (Errorf_s "unknown lab state %q" (State metadata)).

Definition active_path (store : Store) : bytes := Join [root store; activeName].

Definition loadMetadata : Method SessionMetadata :=
  do! store := this in
  do! metadata := wrap_error "open active session metadata: %w" (on_disk (readStrictJSON decode_metadata (active_path store))) in
  do! _ := lift (check_metadata metadata) in
  ret metadata.

Definition saveMetadata (metadata : SessionMetadata) : Method unit :=
  do! store := this in on_disk (atomicJSON (active_path store) (encode_metadata metadata)).

Definition sessionPath (store : Store) (relative : bytes) : result bytes :=
  if bool_decide (relative = []) || IsAbs relative || negb (bool_decide (Clean relative = relative)) then
    fail "invalid relative session path"
  else
    let abs := Join [root store; relative] in
    if negb (HasPrefix (abs ++ [slash]) (root store ++ [slash])) then fail "session path escapes lab root" else Ok abs.

Definition scanSession (relative : bytes) : Method SequenceState :=
  if bool_decide (relative = []) then ret no_sequence
  else
    do! store := this in
    do! path := lift (sessionPath store relative) in
    do! scanned := attempt (on_disk (forEachEvent path Accept no_sequence)) in
    match scanned with
    | Err e => if errors_Is e ErrNotExist then ret no_sequence else raise e
    | Ok state => ret state
    end.

(** ** Status *)

Definition state_name (state : SequenceState) : bytes := if Paused state then paused else running.

(** The metadata of a log that is ahead. *)
Definition advance_metadata (metadata : SessionMetadata) (state : SequenceState) (updated : bytes) : SessionMetadata :=
  mkMetadata (MVersion metadata) (MSessionID metadata) (state_name state) (StartedUTC metadata) updated (EventFile metadata)
    (LastEpisodeID state) (LastSeq state) (LastMonotonicUS state) (canonicalUTC (LastUTC state)) (EpisodeClosed state).

Definition disagrees (metadata : SessionMetadata) (state : SequenceState) : bool :=
  negb (bool_decide (LastEpisodeID state = MLastEpisodeID metadata))
  || negb (LastMonotonicUS state =? MLastMonotonicUS metadata)
  || negb (bool_decide (canonicalUTC (LastUTC state) = MLastUTC metadata))
  || negb (Bool.eqb (EpisodeClosed state) (MEpisodeClosed metadata))
  || negb (bool_decide (state_name state = State metadata)).

(** The log is the source of truth only when it is ahead of the metadata. *)
Definition reconcile (metadata : SessionMetadata) (state : SequenceState) : Method SessionMetadata :=
  if negb (bool_decide (SeqSession state = [])) && negb (bool_decide (SeqSession state = MSessionID metadata)) then
    lift (fail "session metadata does not match append-only event log")
  else if LastSeq state <? MLastSeq metadata then lift (fail "append-only event log is behind session metadata")
  else if LastSeq state >? MLastSeq metadata then
    do! now := on_disk Now in
    let metadata := advance_metadata metadata state (canonicalUTC now) in
    do! _ := wrap_error "repair session metadata: %w" (saveMetadata metadata) in
    ret metadata
  else if (LastSeq state >? 0) && disagrees metadata state then
    lift (fail "session metadata disagrees with append-only event log")
  else ret metadata.

Definition Status : Method SessionMetadata :=
  do! store := this in
  match cachedMetadata store with
  | Some metadata => ret metadata
  | None =>
      do! metadata := loadMetadata in
      if bool_decide (MSessionID metadata = []) then
        do! _ := set_cache (Some metadata) (cachedSequence store) in ret metadata
      else
        do! state := scanSession (EventFile metadata) in
        do! metadata := reconcile metadata state in
        do! _ := set_cache (Some metadata) state in
        ret metadata
  end.

(** ** Recording *)

(** Sharing: an episode that [Accept] inserted into the set of the copy is in the
    set of the cached state, too. *)
Definition share_episodes (state : SequenceState) : Method unit := fun '(store, d) =>
  (Ok tt, (mkStore (root store) (manifest store) (cachedMetadata store) (shared_with (cachedSequence store) state), d)).

Definition Append (event : EventV1) : Method unit :=
  do! metadata := Status in
  if bool_decide (State metadata = disabled) then lift (fail "lab is disabled; run start before ingest")
  else
    do! store := this in
    do! state := wrap_error "reject event: %w" (lift (Accept (cachedSequence store) event)) in
    do! _ := share_episodes state in
    do! path := lift (sessionPath store (EventFile metadata)) in
    do! _ := on_disk (appendEventFile path event) in
    let metadata := advance_metadata metadata state (UTC event) in
    do! saved := attempt (saveMetadata metadata) in
    match saved with
    | Err e => do! _ := set_cache None no_sequence in raise e
    | Ok _ => set_cache (Some metadata) state
    end.

Definition start_metadata (id now episode : bytes) : SessionMetadata :=
  mkMetadata sessionVersion id running now now (session_file id) episode 1 0 now false.

Definition start_event (id episode now : bytes) : EventV1 :=
  mkEvent EventVersionV1 id episode 1 0 now EventResume None None None 0 0 None.

Definition Start (now : Z) : Method SessionMetadata :=
  do! current := loadMetadata in
  if negb (bool_decide (State current = disabled)) then
    raise (Errorf_s "lab state is %q; clear the lab to begin a new session" (State current))
  else
    do! sessionID := on_disk new_id in
    do! episodeID := on_disk new_id in
    let metadata := start_metadata sessionID (canonicalUTC now) episodeID in
    let event := start_event sessionID episodeID (canonicalUTC now) in
    do! store := this in
    do! path := lift (sessionPath store (EventFile metadata)) in
    do! _ := on_disk (appendEventFile path event) in
    do! _ := saveMetadata metadata in
    do! state := wrap_error "initialize session sequence: %w" (lift (Accept no_sequence event)) in
    do! _ := set_cache (Some metadata) state in
    Status.

(** [now.Sub(started)] saturates. *)
Definition elapsed_us (started now : Z) : Z := Z.min (now - started) MaxInt64 / 1000.

Definition controlEvent (metadata : SessionMetadata) (kind : EventType) (episodeID : bytes) (now : Z) : EventV1 :=
  let next := wrap_u64 (MLastMonotonicUS metadata + 1) in
  let mono :=
    match time_Parse (StartedUTC metadata) with
    | Some (started, _) => if (now >? started) && (elapsed_us started now >? next) then elapsed_us started now else next
    | None => next
    end in
  mkEvent EventVersionV1 (MSessionID metadata) episodeID (wrap_u64 (MLastSeq metadata + 1)) mono (canonicalUTC now) kind
    None None None 0 0 None.

Definition Pause (now : Z) : Method SessionMetadata :=
  do! metadata := Status in
  if negb (bool_decide (State metadata = running)) then raise (Errorf_s "cannot pause lab in state %q" (State metadata))
  else
    do! _ := Append (controlEvent metadata EventPause (MLastEpisodeID metadata) now) in
    Status.

Definition Resume (now : Z) : Method SessionMetadata :=
  do! metadata := Status in
  if negb (bool_decide (State metadata = paused)) then raise (Errorf_s "cannot resume lab in state %q" (State metadata))
  else
    do! episodeID := on_disk new_id in
    do! _ := Append (controlEvent metadata EventResume episodeID now) in
    Status.

(** ** Reading *)

(** Of a log that cannot be read to its end only the error is kept. *)
Definition Events : Method (list EventV1) :=
  do! metadata := Status in
  if bool_decide (EventFile metadata = []) then ret []
  else
    do! store := this in
    do! path := lift (sessionPath store (EventFile metadata)) in
    on_disk (readEvents path).

Definition native_path (store : Store) (session : bytes) : bytes :=
  Join [root store; str "native"; session ++ str ".native.yunpinreplay"].

Definition not_empty (e : Entry) : bool :=
  match e with Regular contents => len contents >? 0 | Directory => true end.

Definition report_log (metadata : SessionMetadata) : Method Report :=
  do! store := this in
  do! path := lift (sessionPath store (EventFile metadata)) in
  do! analyzer := on_disk (forEachEvent path analyzer_Accept NewAnalyzer) in
  ret (Finish analyzer).1.

Definition store_Report : Method Report :=
  do! metadata := Status in
  if bool_decide (EventFile metadata = []) then ret (Finish NewAnalyzer).1
  else
    do! store := this in
    let path := native_path store (MSessionID metadata) in
    do! info := attempt (on_disk (Stat path)) in
    match info with
    | Ok e =>
        if not_empty e then
          do! (text, err) := on_disk (ReadFile path) in
          lift (analyzeNativeFile text err (MSessionID metadata))
        else report_log metadata
    | Err e =>
        if negb (errors_Is e ErrNotExist) then raise (Errorf_w "inspect native spool: %w" e) else report_log metadata
    end.

(** The log is copied; nothing changes it between the opening and the reads. *)
Definition copy_to (output text : bytes) (err : option error) : St Disk unit :=
  do! copyErr := attempt (do! (_, writeErr) := Write output text in
                          match writeErr, err with Some e, _ => raise e | None, Some e => raise e | None, None => ret tt end) in
  do! (copyErr, closeErr) := sync_close output copyErr in
  match copyErr, closeErr with
  | Err e, _ => do! _ := attempt (Remove output) in raise (Errorf_w "write export: %w" e)
  | Ok _, Err e => raise (Errorf_w "close export: %w" e)
  | Ok _, Ok _ => ret tt
  end.

Definition Export (output : bytes) : Method unit :=
  do! metadata := Status in
  if bool_decide (EventFile metadata = []) then lift (fail "there is no session to export")
  else
    do! store := this in
    do! source := lift (sessionPath store (EventFile metadata)) in
    do! absOutput := wrap_error "resolve export path: %w" (lift (Abs output)) in
    if negb (bool_decide (Ext absOutput = str ".yunpinreplay")) then
      lift (fail "export output must use the .yunpinreplay extension")
    else
      do! inside := on_disk (insideGitWorktree absOutput) in
      if inside : bool then lift (fail "export output must be outside every Git worktree")
      else if HasPrefix (absOutput ++ [slash]) (root store ++ [slash]) then
        lift (fail "export output must be outside the live lab root")
      else
        do! (text, err) := wrap_error "open event log: %w" (on_disk (ReadFile source)) in
        do! _ := on_disk (MkdirAll (Dir absOutput)) in
        on_disk (do! _ := wrap_error "create export: %w" (OpenWrite true absOutput) in copy_to absOutput text err).

End store.

(** ** Laboratories *)

Section labs.
Context `{OS : Machine} `{T : TimeFormat} `{LJ : LabJson}.

Definition Init (root : bytes) (now : Z) : St Disk Store :=
  do! abs := safeRoot root in
  do! found := attempt (Stat (Join [abs; manifestName])) in
  match found with
  | Ok _ => lift (fail "Replay Lab is already initialized at this root")
  | Err e =>
      if negb (errors_Is e ErrNotExist) then raise (Errorf_w "inspect lab manifest: %w" e)
      else
        do! _ := wrap_error "create lab root: %w" (MkdirAll (Join [abs; str "sessions"])) in
        do! labID := new_id in
        let manifest := mkManifest manifestVersion labID abs (canonicalUTC now) (str "each_event") in
        do! _ := atomicJSON (Join [abs; manifestName]) (encode_manifest manifest) in
        let metadata := mkMetadata sessionVersion [] disabled [] (canonicalUTC now) [] [] 0 0 [] false in
        do! _ := atomicJSON (Join [abs; activeName]) (encode_metadata metadata) in
        ret (mkStore abs manifest None no_sequence)
  end.

Definition Open (root : bytes) : St Disk Store :=
  do! abs := safeRoot root in
  do! manifest := wrap_error "open lab manifest: %w" (readStrictJSON decode_manifest (Join [abs; manifestName])) in
  if negb (bool_decide (LVersion manifest = manifestVersion)) || negb (validID (LabID manifest))
     || negb (bool_decide (LRoot manifest = abs)) || negb (bool_decide (FsyncPolicy manifest = str "each_event"))
     || negb (isCanonicalUTC (CreatedUTC manifest)) then
    lift (fail "lab manifest identity or version is invalid")
  else ret (mkStore abs manifest None no_sequence).

Definition Clear (root_ : bytes) (confirm : bool) : St Disk unit :=
  if negb confirm then lift (fail "refusing to clear without --confirm")
  else
    do! abs := safeRoot root_ in
    do! symlink := wrap_error "inspect lab root: %w" (Lstat abs) in
    if symlink : bool then lift (fail "refusing to clear a symlinked lab root")
    else
      do! store := wrap_error "refusing to clear an unverified root: %w" (Open abs) in
      if negb (bool_decide (root store = abs)) || negb (bool_decide (LRoot (manifest store) = abs)) then
        lift (fail "lab root identity mismatch")
      else RemoveAll abs.

End labs.
