(* ===== verification/ReplayStoreFacts.v ===== *)
(** * Facts about the replay laboratory store

    What each file operation does to the disk, the invariant that ties the log,
    the metadata and the cache together, and that every method keeps it. *)

From S2P Require Import Prelude Effects Encoding Unicode Crypto ReplayEvent ReplaySequence ReplayReport ReplayNative ReplayDisk ReplayStore.

(** ** Files *)

(** Nothing that is there changes. *)
Definition kept (d d' : Disk) : Prop := forall q e, entries d !! q = Some e -> entries d' !! q = Some e.

(** Nothing that is there changes but the file [path]. *)
Definition kept_but (path : bytes) (d d' : Disk) : Prop :=
  forall q e, q <> path -> entries d !! q = Some e -> entries d' !! q = Some e.

#[export] Instance kept_preorder : PreOrder kept.
Proof. split; [intros d q e; done|]. intros a b c H1 H2 q e H. auto. Qed.

Lemma kept_kept_but path d d' : kept d d' -> kept_but path d d'.
Proof. intros H q e _. apply H. Qed.

Lemma kept_but_trans path a b c : kept_but path a b -> kept_but path b c -> kept_but path a c.
Proof. intros H1 H2 q e Hq H. auto. Qed.

Lemma same_kept d d' : entries d' = entries d -> kept d d'.
Proof. intros H q e. by rewrite H. Qed.

Section files.
Context `{OS : Machine} `{T : TimeFormat} `{EJ : EventJson} `{LJ : LabJson}.

(** What a call did. *)
Lemma syscall_inv {A} c path f d (r : result A) d' :
  syscall c path f d = (r, d') ->
  (exists e, r = Err e /\ d' = tick d) \/
  (exists a files, fault c path (calls d) = None /\ f (entries d) = Ok (a, files) /\ r = Ok a /\ d' = tick (set_entries d files)).
Proof.
  unfold syscall. destruct (fault _ _ _); [intros [= <- <-]; eauto|]. destruct (f _) as [[a files]|e] eqn:Ef; intros [= <- <-]; eauto 10.
Qed.

Lemma make_all_kept paths : forall files files',
  make_all files paths = Ok (tt, files') -> forall q e, files !! q = Some e -> files' !! q = Some e.
Proof.
  induction paths as [|path paths IH]; intros files files' H q e Hq; cbn in H; [by injection H as <-|].
  destruct (files !! path) as [[|]|] eqn:Ep; [by eapply IH|done|]. eapply IH; [exact H|].
  rewrite lookup_insert_ne; [done|]. congruence.
Qed.

Lemma MkdirAll_kept path d r d' : MkdirAll path d = (r, d') -> kept d d'.
Proof.
  intros [(e & -> & ->)|([] & files & _ & Hf & -> & ->)]%syscall_inv; [by apply same_kept|]. intros q e. exact (make_all_kept _ _ _ Hf q e).
Qed.

Lemma new_id_inv d r d' : new_id d = (r, d') -> entries d' = entries d /\ (forall id, r = Ok id -> validID id = true).
Proof.
  unfold new_id, NewID. destruct (ReadFull 16 (entropy d)) as [[raw rest]|e] eqn:Er; intros [= <- <-]; cbn; split; try done.
  intros id [= <-]. apply validID_hex. exact (proj1 (ReadFull_len 16 _ _ _ ltac:(lia) Er)).
Qed.

Lemma Stat_same path d r d' : Stat path d = (r, d') -> entries d' = entries d.
Proof.
  intros [(e & -> & ->)|(a & files & _ & Hf & -> & ->)]%syscall_inv; [done|].
  destruct (entries d !! path); [injection Hf as _ ->|]; done.
Qed.

Lemma ReadFile_inv path d r d' :
  ReadFile path d = (r, d') -> entries d' = entries d /\ forall text err, r = Ok (text, err) ->
    (text = [] /\ is_Some err) \/
    exists c n, entries d !! path = Some (Regular c) /\ text = take n c /\ (err = None -> text = c).
Proof.
  unfold ReadFile. intros H. invert_run.
  - apply syscall_inv in Hrun as [(e' & _ & ->)|(a & files & _ & _ & [=] & _)]. done.
  - apply syscall_inv in Hrun as [(e & [=] & _)|(a' & files & _ & Hf & [= ->] & ->)]. injection H as <- <-. cbn.
    destruct (entries d !! path) as [[|c]|] eqn:Ep; [| |done]; injection Hf as <- <-; split; try done; intros text err [= H].
    + left. subst. eauto.
    + right. destruct (fault CRead _ _); injection H as <- <-; [by eexists _, _|]. exists c, (length c). by rewrite firstn_all.
Qed.

(** What [readStrictJSON] decodes is the visible part of the file. *)
Lemma readStrictJSON_inv {A} (decode : bytes -> result (A * Trailing)) path d r d' :
  readStrictJSON decode path d = (r, d') -> entries d' = entries d /\ forall value, r = Ok value ->
    exists c, entries d !! path = Some (Regular c) /\ decode (take (Z.to_nat readLimit) c) = Ok (value, AtEOF).
Proof.
  unfold readStrictJSON. intros H. apply bind_cases in H as [(e & H & ->)|([text err] & d1 & H1 & H)].
  { by apply ReadFile_inv in H as [-> _]. }
  apply ReadFile_inv in H1 as [He Ht]. specialize (Ht _ _ eq_refl).
  destruct (if len text <? readLimit then err else None) as [e|] eqn:Eerr; [by invert_run|].
  assert (exists c, entries d !! path = Some (Regular c) /\ take (Z.to_nat readLimit) text = take (Z.to_nat readLimit) c) as (c & Hc & Htake).
  { destruct Ht as [[-> [e ->]]|(c & n & Hc & -> & Hn)]; [done|]. exists c. split; [done|].
    destruct (Z.ltb_spec (len (take n c)) (readLimit)) as [|Hl]; [by rewrite Hn|].
    rewrite take_take. f_equal. unfold len in Hl. rewrite length_take in Hl. lia. }
  apply bind_cases in H as [(e & H & ->)|([value trailing] & d2 & H2 & H)]; unfold lift in *.
  - by injection H as _ <-.
  - injection H2 as Hd <-. rewrite Htake in Hd. destruct trailing; unfold ret, raise in H; injection H as <- <-; split; try done.
    intros v [= <-]. eauto.
Qed.

(** Reading draws nothing from the random source. *)
Lemma syscall_entropy {A} c path f d (r : result A) d' : syscall c path f d = (r, d') -> entropy d' = entropy d.
Proof. intros [(e & -> & ->)|(a & files & _ & _ & -> & ->)]%syscall_inv; done. Qed.

Lemma readStrictJSON_entropy {A} (decode : bytes -> result (A * Trailing)) path d r d' :
  readStrictJSON decode path d = (r, d') -> entropy d' = entropy d.
Proof.
  unfold readStrictJSON. intros H. apply bind_cases in H as [(e & H & ->)|([text err] & d1 & H1 & H)].
  - unfold ReadFile in H. invert_run; [|done]. by eapply syscall_entropy.
  - assert (entropy d1 = entropy d) as <-.
    { unfold ReadFile in H1. invert_run. injection H1 as _ <-. cbn. by eapply syscall_entropy. }
    destruct (if len text <? readLimit then err else None); [by invert_run|].
    apply bind_cases in H as [(e & H & ->)|([value trailing] & d2 & H2 & H)]; unfold lift in *.
    + by injection H as _ <-.
    + injection H2 as _ <-. destruct trailing; by injection H as _ <-.
Qed.

Lemma OpenWrite_inv exclusive path d r d' :
  OpenWrite exclusive path d = (r, d') ->
  (exists e, r = Err e /\ entries d' = entries d) \/
  (r = Ok tt /\ ((entries d !! path = None /\ entries d' = <[path := Regular []]> (entries d)) \/
                 (exclusive = false /\ entries d' = entries d /\ exists c, entries d !! path = Some (Regular c)))).
Proof.
  intros [(e & -> & ->)|([] & files & _ & Hf & -> & ->)]%syscall_inv; [by left; eauto|]. right. split; [done|].
  destruct (entries d !! path) as [[|c]|] eqn:Ep; [done| |].
  - destruct exclusive; [done|]. injection Hf as <-. right. eauto.
  - left. destruct (entries d !! Dir path) as [[|]|]; [|done..]. by injection Hf as <-.
Qed.

Lemma quiet_call c path d (r : result unit) d' :
  syscall c path (fun files => Ok (tt, files)) d = (r, d') -> entries d' = entries d.
Proof. intros [(e & -> & ->)|(a & files & _ & [= <- <-] & -> & ->)]%syscall_inv; done. Qed.

Lemma syncDirectory_inv path d r d' : syncDirectory path d = (r, d') -> r = Ok tt /\ entries d' = entries d.
Proof. unfold syncDirectory. intros H. invert_run. split; [done|]. by eapply quiet_call. Qed.

Lemma append_to_new path data x files : append_to path data (<[path := Regular x]> files) = <[path := Regular (x ++ data)]> files.
Proof. unfold append_to. by rewrite lookup_insert_eq, insert_insert_eq. Qed.

Lemma Write_inv path data d r d' x files :
  entries d = <[path := Regular x]> files -> Write path data d = (r, d') ->
  exists n err part, r = Ok (n, err) /\ entries d' = <[path := Regular (x ++ part)]> files /\
    (err = None -> part = data /\ n = len data) /\ (fault CWrite path (calls d) = None -> err = None).
Proof.
  unfold Write. intros He. rewrite He. destruct (fault _ _ _) as [e|]; intros [= <- <-]; cbn; rewrite append_to_new; eauto 10.
  eexists _, _, _. split_and!; [done..|]. done.
Qed.

Lemma sync_close_inv path w d r d' :
  sync_close path w d = (r, d') ->
  exists w' c, r = Ok (w', c) /\ entries d' = entries d /\ (w' = Ok tt -> w = Ok tt) /\
    (w = Ok tt -> (forall n, fault CSync path n = None) -> (forall n, fault CClose path n = None) -> w' = Ok tt /\ c = Ok tt).
Proof.
  intros H. unfold sync_close in H. destruct w as [[]|e]; invert_run; try done.
  - eexists _, _. split_and!; [done| |done|].
    + etrans; by eapply quiet_call.
    + intros _ Hs Hc. unfold File_Sync, File_Close, syscall in *. rewrite Hs in *. rewrite Hc in *. split; congruence.
  - eexists _, _. split_and!; [done|by eapply quiet_call|done|done].
Qed.

Lemma encode_to_inv path encoded d r d' files :
  entries d = <[path := Regular []]> files -> encode_to path encoded d = (r, d') ->
  exists x, entries d' = <[path := Regular x]> files /\ (r = Ok tt -> encoded = Ok x).
Proof.
  intros Hd H. unfold encode_to in H. invert_run.
  - by exists [].
  - destruct (Write_inv _ _ _ _ _ _ _ Hd Hrun0) as (n & err & part & [=] & _).
  - destruct (Write_inv _ _ _ _ _ _ _ Hd Hrun0) as (n & err & part & [= ->] & He & Hall & _). destruct err as [e|]; invert_run.
    + eexists. split; [exact He|done].
    + destruct (Hall eq_refl) as [-> _]. eexists. split; [exact He|done].
Qed.

Lemma Remove_inv path d r d' : Remove path d = (r, d') -> entries d' = entries d \/ entries d' = delete path (entries d).
Proof. intros [(e & -> & ->)|(a & files & _ & [= <- <-] & -> & ->)]%syscall_inv; auto. Qed.

Lemma Rename_inv source destination d r d' e0 :
  entries d !! source = Some e0 -> Rename source destination d = (r, d') ->
  (exists e, r = Err e /\ entries d' = entries d) \/
  (r = Ok tt /\ entries d' = <[destination := e0]> (delete source (entries d))).
Proof.
  intros Hs [(e & -> & ->)|([] & files & _ & Hf & -> & ->)]%syscall_inv; [by left; eauto|]. right. split; [done|]. cbn.
  rewrite Hs in Hf. destruct (entries d !! destination) as [[|]|]; [done|..]; by injection Hf as <-.
Qed.

(** What is there in [files] stays when the new file [temporary] is written or
    removed. *)
Lemma temporary_kept (files files' : gmap bytes Entry) temporary :
  files !! temporary = None -> (exists x, files' = <[temporary := Regular x]> files) \/ (exists x, files' = delete temporary (<[temporary := Regular x]> files)) ->
  forall q e, files !! q = Some e -> files' !! q = Some e.
Proof.
  intros Hn Hf q e Hq. assert (q <> temporary) by congruence.
  destruct Hf as [[x ->]|[x ->]]; by rewrite ?lookup_delete_ne, lookup_insert_ne.
Qed.

Lemma removed_kept temporary x files d d1 r d' e m :
  files !! temporary = None -> entries d = <[temporary := Regular x]> files ->
  bind (attempt (Remove temporary)) (fun _ => raise e) d = (r, d1) -> m = entries d1 -> d' = d1 ->
  r = Err e (A := unit) /\ forall q e', files !! q = Some e' -> m !! q = Some e'.
Proof.
  intros Hn Hd H -> ->. invert_run. split; [done|]. apply (temporary_kept _ _ temporary); [done|].
  apply Remove_inv in Hrun as [E|E]; rewrite E, Hd; eauto.
Qed.

Lemma replace_with_inv temporary path encoded d r d' files :
  files !! temporary = None -> entries d = <[temporary := Regular []]> files -> replace_with temporary path encoded d = (r, d') ->
  match r with
  | Ok _ => (exists text, encoded = Ok text /\ entries d' !! path = Some (Regular text)) /\
            (forall q e, q <> path -> files !! q = Some e -> entries d' !! q = Some e)
  | Err _ => forall q e, files !! q = Some e -> entries d' !! q = Some e
  end.
Proof.
  intros Hn Hd H. unfold replace_with in H. apply bind_cases in H as [(e & (? & _ & [=])%attempt_inv & _)|(w & d1 & (r1 & Hw & [= ->])%attempt_inv & H)].
  apply (encode_to_inv _ _ _ _ _ _ Hd) in Hw as (x & He & Hx).
  apply bind_cases in H as [(e & (w' & c & [=] & _)%sync_close_inv & _)|(wc & d2 & (w' & c & [= ->] & Hs & Hw' & _)%sync_close_inv & H)].
  rewrite He in Hs.
  assert (forall e, bind (attempt (Remove temporary)) (fun _ => raise e) d2 = (r, d') ->
    r = Err e /\ forall q e', files !! q = Some e' -> entries d' !! q = Some e') as Hrm
    by (intros e Hrun; by eapply removed_kept).
  destruct w' as [[]|e]; [|by apply Hrm in H as [-> ?]]. destruct c as [[]|e]; [|by apply Hrm in H as [-> ?]].
  specialize (Hx (Hw' eq_refl)).
  apply bind_cases in H as [(e & (? & _ & [=])%attempt_inv & _)|(rn & d3 & (r2 & Hrn & [= ->])%attempt_inv & H)].
  eapply Rename_inv in Hrn as [(e & -> & E3)|[-> E3]]; [..|by rewrite Hs, lookup_insert_eq].
  - rewrite Hs in E3. by eapply removed_kept in H as [-> ?].
  - invert_run. rewrite E3. split; [exists x; split; [done|by rewrite lookup_insert_eq]|].
    intros q e Hq Hf. rewrite lookup_insert_ne by done. rewrite Hs. eapply (temporary_kept files); eauto.
Qed.

(** The value replaces the file, or nothing that is there changes. *)
Lemma atomicJSON_inv path encoded d r d' :
  atomicJSON path encoded d = (r, d') ->
  kept_but path d d' /\
  match r with
  | Ok _ => exists text, encoded = Ok text /\ entries d' !! path = Some (Regular text)
  | Err _ => kept d d'
  end.
Proof.
  unfold atomicJSON. intros H. set (directory := Dir path) in *.
  apply bind_cases in H as [(e & Hmk%MkdirAll_kept & ->)|([] & d1 & Hmk%MkdirAll_kept & H)]; [by auto using kept_kept_but|].
  apply bind_cases in H as [(e & [Hid _]%new_id_inv & ->)|(random & d2 & [Hid _]%new_id_inv & H)];
    apply same_kept in Hid; pose proof (transitivity Hmk Hid) as Hk; [by auto using kept_kept_but|].
  set (temporary := Join _) in *.
  apply bind_cases in H as [(e & H & ->)|([] & d3 & H' & H)].
  { apply wrap_error_cases in H as [(? & _ & [=])|(e' & [(e'' & _ & He%same_kept)|[[=] _]]%OpenWrite_inv & _)].
    pose proof (transitivity Hk He). by auto using kept_kept_but. }
  apply wrap_error_cases in H' as [(? & H' & _)|(? & _ & [=])].
  apply OpenWrite_inv in H' as [(e & [=] & _)|[_ [[Hn H3]|[[=] _]]]].
  apply bind_cases in H as [(e & H & ->)|([] & d4 & Hr & H)].
  - eapply replace_with_inv in H; [|done..]. assert (kept d d') by (intros q e' Hq; apply H, Hk, Hq). by auto using kept_kept_but.
  - eapply replace_with_inv in Hr as [(text & He & Ht) Hr]; [|done..]. apply syncDirectory_inv in H as [-> H]. rewrite H. split; [|eauto].
    intros q e' Hq Hd. rewrite H. by apply Hr, Hk.
Qed.

Lemma writeFull_inv path data d r d' x files :
  entries d = <[path := Regular x]> files -> writeFull path data d = (r, d') ->
  exists part, entries d' = <[path := Regular (x ++ part)]> files /\ (r = Ok tt -> part = data) /\
    ((forall n, fault CWrite path n = None) -> r = Ok tt).
Proof.
  intros Hd H. unfold writeFull in H. cbn [write_loop] in H. destruct (bool_decide (data = [])) eqn:Eb; bools.
  { subst. invert_run. exists []. by rewrite app_nil_r. }
  apply bind_cases in H as [(e & H & ->)|([n err] & d1 & Hw & H)].
  { destruct (Write_inv _ _ _ _ _ _ _ Hd H) as (? & ? & ? & [=] & _). }
  destruct (Write_inv _ _ _ _ _ _ _ Hd Hw) as (? & ? & part & [= <- <-] & He & Hall & Hf). exists part.
  destruct err as [e|]; [invert_run; split_and!; [done..|]; intros Hno; by specialize (Hf (Hno _))|].
  destruct (Hall eq_refl) as [-> ->]. destruct (len data =? 0) eqn:El; bools; [by destruct data|].
  replace (drop (Z.to_nat (len data)) data) with (@nil byte) in H by (unfold len; rewrite Nat2Z.id, drop_ge; done).
  destruct data as [|c data]; [done|]. cbn in H. by invert_run.
Qed.

Definition contents (d : Disk) (path : bytes) : bytes :=
  match entries d !! path with Some (Regular text) => text | _ => [] end.

(** No fault after the file was opened. *)
Definition sound (path : bytes) : Prop :=
  forall n, fault CWrite path n = None /\ fault CSync path n = None /\ fault CClose path n = None.

(** Whatever fails, bytes are added to the file at most; a line more in the end,
    or (without faults after the opening) nothing. *)
Lemma appendEventFile_effect path event d r d' :
  appendEventFile path event d = (r, d') ->
  (entries d' = entries d \/ exists part, entries d' = <[path := Regular (contents d path ++ part)]> (entries d)) /\
  match r with
  | Ok _ => exists line, EncodeEventV1 event = Ok line /\ entries d' = <[path := Regular (contents d path ++ line ++ [newline])]> (entries d)
  | Err _ => sound path -> entries d' = entries d
  end.
Proof.
  unfold appendEventFile. intros H. apply bind_cases in H as [(e & H & ->)|(line & d0 & H0 & H)]; [invert_run; split; [by left|done]|].
  unfold lift in H0. injection H0 as Henc <-.
  apply bind_cases in H as [(e & H & ->)|([] & d1 & H1 & H)].
  { apply wrap_error_cases in H as [(? & _ & [=])|(e' & [(e'' & _ & He)|[[=] _]]%OpenWrite_inv & _)]. split; [by left|done]. }
  apply wrap_error_cases in H1 as [(? & H1 & _)|(? & _ & [=])].
  assert (entries d1 = <[path := Regular (contents d path)]> (entries d)) as E1.
  { unfold contents. apply OpenWrite_inv in H1 as [(e & [=] & _)|[_ [[Hn H3]|(_ & H3 & c & Hc)]]]; [by rewrite Hn|].
    by rewrite Hc, insert_id. }
  apply bind_cases in H as [(e & (? & _ & [=])%attempt_inv & _)|(w & d2 & (r1 & Hw & [= ->])%attempt_inv & H)].
  apply (writeFull_inv _ _ _ _ _ _ _ E1) in Hw as (part & E2 & Hpart & Hw).
  apply bind_cases in H as [(e & (w' & c & [=] & _)%sync_close_inv & _)|(wc & d3 & (w' & c & [= ->] & Hs & Hw' & Hsound)%sync_close_inv & H)].
  rewrite E2 in Hs.
  assert (sound path -> w' = Ok tt /\ c = Ok tt) as Hboth.
  { intros Hso. apply Hsound; [apply Hw|..]; intros n; apply Hso. }
  destruct w' as [[]|e]; [|invert_run; split; [right; by exists part|intros [[=] _]%Hboth]].
  destruct c as [[]|e]; [|invert_run; split; [right; by exists part|intros [_ [=]]%Hboth]].
  apply syncDirectory_inv in H as [-> H]. rewrite (Hpart (Hw' eq_refl)) in Hs. rewrite <- H in Hs. split; [right; eauto|]. by exists line.
Qed.

Lemma appendEventFile_inv path event d r d' :
  appendEventFile path event d = (r, d') ->
  kept_but path d d' /\
  match r with
  | Ok _ => exists line, EncodeEventV1 event = Ok line /\ entries d' !! path = Some (Regular (contents d path ++ line ++ [newline]))
  | Err _ => sound path -> entries d' = entries d
  end.
Proof.
  intros [He H]%appendEventFile_effect. split.
  - intros q e Hq Hd. destruct He as [-> |[part ->]]; [done|]. by rewrite lookup_insert_ne.
  - destruct r as [u|e]; [|done]. destruct H as (line & Henc & ->). exists line. by rewrite lookup_insert_eq.
Qed.

End files.

(** ** The log *)

Definition log_text (lines : list bytes) : bytes := concat (map (fun line => line ++ [newline]) lines).

(** Handing the events on, one after the other. *)
Fixpoint feed {A} (accept : A -> EventV1 -> result A) (state : A) (events : list EventV1) : result A :=
  match events with
  | [] => Ok state
  | event :: rest => let! state := accept state event in feed accept state rest
  end.

(** The lines of the text are the encoded events. *)
Definition logged `{TimeFormat} `{EventJson} (events : list EventV1) (text : bytes) : Prop :=
  exists lines, Forall2 (fun event line => EncodeEventV1 event = Ok line) events lines /\ text = log_text lines.

Section log.
Context `{T : TimeFormat} `{EJ : EventJson} {EL : EventJsonLaws T EJ}.

Lemma feed_accept state events : feed Accept state events = accept_all state events.
Proof. revert state. induction events as [|e es IH]; intros state; [done|]. cbn. destruct (Accept state e); [apply IH|done]. Qed.

Lemma feed_collect events : forall before, feed (fun es e => Ok (es ++ [e])) before events = Ok (before ++ events).
Proof. induction events as [|e es IH]; intros before; cbn; [by rewrite app_nil_r|]. rewrite IH. by rewrite <- app_assoc. Qed.

Lemma log_text_snoc lines line : log_text (lines ++ [line]) = log_text lines ++ line ++ [newline].
Proof. unfold log_text. rewrite map_app, concat_app. cbn. by rewrite app_nil_r. Qed.

Lemma logged_snoc events text event line :
  logged events text -> EncodeEventV1 event = Ok line -> logged (events ++ [event]) (text ++ line ++ [newline]).
Proof.
  intros (lines & Hl & ->) He. exists (lines ++ [line]). rewrite log_text_snoc. split; [|done].
  apply Forall2_app; [done|]. by constructor.
Qed.

(** What an encoded event promises. *)
Lemma EncodeEventV1_inv event line :
  EncodeEventV1 event = Ok line ->
  Validate event = Ok tt /\ marshal_event event = Ok line /\ len line <= MaxEventBytes /\ line <> [] /\
  newline ∉ line /\ drop_cr line = line.
Proof.
  unfold EncodeEventV1. intros H. invert_ok. destruct a. unfold wrapped in Hok0. destruct (marshal_event event) as [l|] eqn:Em; [|done].
  injection Hok0 as ->. destruct (len _ >? _) eqn:Eb in H; [done|]. injection H as ->. rewrite Z.gtb_ltb in Eb. apply Z.ltb_ge in Eb. destruct (marshalled_line _ _ Em) as [Hne Hf].
  split_and!; try done.
  - intros Hin. rewrite Forall_forall in Hf. by destruct (Hf _ Hin).
  - unfold drop_cr. destruct (last line) as [c|] eqn:El; [|done]. rewrite Forall_forall in Hf.
    destruct (Hf c (last_Some_elem_of _ _ El)) as [_ Hc]. by rewrite (proj2 (Z.eqb_neq _ _) Hc).
Qed.

Lemma valid_encodes event : Validate event = Ok tt -> exists line, EncodeEventV1 event = Ok line.
Proof.
  intros Hv. unfold EncodeEventV1. rewrite Hv. cbn [rbind]. unfold Validate in Hv. invert_ok.
  unfold wrapped in *. destruct (marshal_event event) as [line|]; [|done]. injection Hok4 as ->. cbn [rbind].
  destruct (_ >? _); [done|]. eauto.
Qed.

Lemma DecodeEventV1_encoded event line : EncodeEventV1 event = Ok line -> DecodeEventV1 line = Ok event.
Proof.
  intros (Hv & Hm & Hl & Hne & _)%EncodeEventV1_inv. unfold DecodeEventV1.
  rewrite (proj2 (Z.eqb_neq _ _)) by (destruct line; [done|]; rewrite len_cons; pose proof (len_nonneg line); lia).
  rewrite Z.gtb_ltb, (proj2 (Z.ltb_ge _ _) Hl), (decode_marshalled _ _ Hv Hm). cbn. by rewrite Hv.
Qed.

Lemma split_log events lines :
  Forall2 (fun event line => EncodeEventV1 event = Ok line) events lines -> split_lines [] (log_text lines) = lines.
Proof.
  induction 1 as [|event line events lines (_ & _ & _ & _ & Hn & _)%EncodeEventV1_inv _ IH]; [done|].
  unfold log_text in *. cbn [map concat]. rewrite <- app_assoc. cbn [app]. rewrite split_lines_line by done. by rewrite IH.
Qed.

Lemma scan_logged {A} (accept : A -> EventV1 -> result A) events text state :
  logged events text ->
  match feed accept state events with
  | Ok state' => scan_events accept state text None = Ok state'
  | Err _ => exists e, scan_events accept state text None = Err e
  end.
Proof.
  intros (lines & Hl & ->). unfold scan_events. rewrite (split_log _ _ Hl). revert state.
  induction Hl as [|event line events lines He _ IH]; intros state; cbn [feed for_lines]; [done|].
  destruct (EncodeEventV1_inv _ _ He) as (_ & _ & Hlen & _ & _ & Hcr).
  rewrite Z.gtb_ltb, (proj2 (Z.ltb_ge _ _) Hlen), Hcr. unfold event_line at 1 3. rewrite (DecodeEventV1_encoded _ _ He). cbn [wrapped rbind].
  destruct (accept state event) as [s|e]; cbn [wrapped rbind]; [apply IH|eauto].
Qed.

(** A log that begins with rejected lines is rejected, whatever follows. *)
Lemma scan_rejected {A} (accept : A -> EventV1 -> result A) events text rest err : forall state e,
  logged events text -> feed accept state events = Err e -> exists e', scan_events accept state (text ++ rest) err = Err e'.
Proof.
  intros state e (lines & Hl & ->) He. unfold scan_events.
  enough (exists e', for_lines (event_line accept) (Errorf_w "read event log: %w") state (split_lines [] (log_text lines ++ rest)) = Err e')
    as [e' ->] by (cbn; eauto).
  revert state e He. induction Hl as [|event line events lines Hline _ IH]; intros state e; cbn [feed]; [done|].
  destruct (EncodeEventV1_inv _ _ Hline) as (_ & _ & Hlen & _ & Hn & Hcr). unfold log_text. cbn [map concat]. rewrite <- !app_assoc. cbn [app].
  rewrite split_lines_line by done. cbn [for_lines app]. rewrite Z.gtb_ltb, (proj2 (Z.ltb_ge _ _) Hlen), Hcr. unfold event_line at 1.
  rewrite (DecodeEventV1_encoded _ _ Hline). cbn [wrapped rbind]. destruct (accept state event) as [st|e1]; cbn [wrapped rbind]; [apply IH|eauto].
Qed.

(** A read that failed never gives a state. *)
Lemma scan_failed {A} (accept : A -> EventV1 -> result A) state text e : exists e', scan_events accept state text (Some e) = Err e'.
Proof. unfold scan_events. destruct (for_lines _ _ _ _); cbn; eauto. Qed.

End log.

(** ** Sharing the episodes *)

(** The cached state may know more episodes than the log has. *)
Record covers (st s : SequenceState) : Prop := {
  cov_session : SeqSession s = SeqSession st;
  cov_episode : LastEpisodeID s = LastEpisodeID st;
  cov_seq : LastSeq s = LastSeq st;
  cov_mono : LastMonotonicUS s = LastMonotonicUS st;
  cov_utc : LastUTC s = LastUTC st;
  cov_paused : Paused s = Paused st;
  cov_closed : EpisodeClosed s = EpisodeClosed st;
  cov_none : SeenEpisodes st = None <-> SeenEpisodes s = None;
  cov_seen : default ∅ (SeenEpisodes st) ⊆ default ∅ (SeenEpisodes s)
}.

#[export] Instance covers_refl : Reflexive covers.
Proof. by split. Qed.

Section sharing.
Context `{T : TimeFormat} `{EJ : EventJson}.

Lemma check_episode_covers st s event new : covers st s -> check_episode s event new = Ok tt -> check_episode st event new = Ok tt.
Proof.
  intros [C1 C2 C3 C4 C5 C6 C7 C8 C9] H. unfold check_episode in *. rewrite C2, C6, C7 in H. apply rbind_Ok in H as ([] & Hs & H).
  replace (match SeenEpisodes st with Some _ => _ | None => Ok tt end) with (Ok tt : result unit); [done|]. symmetry.
  destruct (SeenEpisodes st) as [a|] eqn:Ea; [|done]. destruct (SeenEpisodes s) as [b|] eqn:Eb; [|by destruct C8 as [_ C8]; specialize (C8 eq_refl)].
  cbn in C9. destruct new; [|done]. destruct (bool_decide (EpisodeID event ∈ b)) eqn:Ein; [done|]. bools.
  rewrite bool_decide_false by set_solver. destruct (Z.of_nat (size b) >=? MaxEpisodes) eqn:Em; [done|].
  rewrite Z.geb_leb in *. bools. apply subseteq_size in C9. rewrite (proj2 (Z.leb_gt _ _)); [done|]. lia.
Qed.

Lemma Accept_covers st s event s' :
  covers st s -> Accept s event = Ok s' -> exists st', Accept st event = Ok st' /\ covers st' s'.
Proof.
  intros Hc (session & paused & closed & Hv & Hs & Hep & Hl & ->)%Accept_inv. cbn zeta in *. pose proof (check_episode_covers _ _ _ _ Hc Hep) as Hep'.
  destruct Hc as [C1 C2 C3 C4 C5 C6 C7 C8 C9]. unfold Accept. rewrite Hv. cbn [rbind].
  assert (check_session st event = Ok session) as ->.
  { unfold check_session in *. by rewrite C1, C3, C4, C5 in Hs. }
  cbn [rbind]. rewrite C2 in *. rewrite Hep'. cbn [rbind].
  assert (life_cycle st event (bool_decide (LastEpisodeID st = []) || negb (bool_decide (EpisodeID event = LastEpisodeID st))) = Ok (paused, closed)) as ->.
  { unfold life_cycle in *. by rewrite C3, C6, C7 in Hl. }
  cbn [rbind]. eexists. split; [done|]. split; cbn; try done; destruct (_ || _); try done; cbn; set_solver.
Qed.

(** What [Accept] on a copy does to the original. *)
Lemma shared_covers st s event s' : covers st s -> Accept s event = Ok s' -> covers st (shared_with s s').
Proof.
  intros [C1 C2 C3 C4 C5 C6 C7 C8 C9] (session & paused & closed & _ & _ & _ & _ & ->)%Accept_inv. cbn zeta.
  split; cbn [shared_with SeqSession LastEpisodeID LastSeq LastMonotonicUS LastUTC Paused EpisodeClosed SeenEpisodes]; try done.
  - rewrite C8. destruct (SeenEpisodes s); [|done]. by destruct (_ || _).
  - destruct (SeenEpisodes s) as [b|]; [|done]. destruct (_ || _); cbn in *; set_solver.
Qed.

End sharing.

(** ** Methods that only read *)

(** A computation after which every file is as it was. *)
Definition keeps {A} (m : St Disk A) : Prop := forall d r d', m d = (r, d') -> kept d d'.
Definition reads {A} (m : St (Store * Disk) A) : Prop := forall s r s', m s = (r, s') -> s'.1 = s.1 /\ kept s.2 s'.2.

Create HintDb keeping.

Section keeping.
Context `{OS : Machine} `{T : TimeFormat} `{EJ : EventJson}.

Lemma keeps_ret {A} (a : A) : keeps (ret a).
Proof. intros d r d' [= <- <-]. reflexivity. Qed.

Lemma keeps_lift {A} (x : result A) : keeps (lift x).
Proof. intros d r d' [= <- <-]. reflexivity. Qed.

Lemma keeps_bind {A B} (m : St Disk A) (f : A -> St Disk B) : keeps m -> (forall a, keeps (f a)) -> keeps (bind m f).
Proof.
  intros Hm Hf d r d' [(e & H%Hm & _)|(a & d1 & H%Hm & H1%Hf)]%bind_cases; [done|]. by etrans.
Qed.

Lemma keeps_attempt {A} (m : St Disk A) : keeps m -> keeps (attempt m).
Proof. intros Hm d r d' (r' & H%Hm & _)%attempt_inv. done. Qed.

Lemma keeps_Stat path : keeps (Stat path).
Proof. intros d r d' H%Stat_same. by apply same_kept. Qed.

Lemma keeps_ReadFile path : keeps (ReadFile path).
Proof. intros d r d' [H _]%ReadFile_inv. by apply same_kept. Qed.

Lemma keeps_MkdirAll path : keeps (MkdirAll path).
Proof. intros d r d'. apply MkdirAll_kept. Qed.

Lemma keeps_forEachEvent {A} path (accept : A -> EventV1 -> result A) state : keeps (forEachEvent path accept state).
Proof. apply keeps_bind; [apply keeps_ReadFile|]. intros [text err]. apply keeps_lift. Qed.

Lemma keeps_worktree rounds : forall directory, keeps (worktree_above rounds directory).
Proof.
  induction rounds as [|rounds IH]; intros directory; cbn [worktree_above]; [apply keeps_ret|].
  apply keeps_bind; [apply keeps_attempt, keeps_Stat|]. intros found. destruct (is_Ok found); [apply keeps_ret|].
  destruct (bool_decide _); [apply keeps_ret|apply IH].
Qed.

Lemma keeps_insideGitWorktree path : keeps (insideGitWorktree path).
Proof. apply keeps_bind; [apply keeps_attempt, keeps_Stat|]. intros info. apply keeps_worktree. Qed.

(** A new file does not touch the others, whatever becomes of it. *)
Lemma keeps_export format output text err : keeps (bind (wrap_error format (OpenWrite true output)) (fun _ => copy_to output text err)).
Proof.
  intros d r d' [(e & [(? & _ & [=])|(? & [(? & _ & H)|[[=] _]]%OpenWrite_inv & _)]%wrap_error_cases & _)
    |([] & d1 & [(? & [(? & [=] & _)|[_ [[Hn E1]|[[=] _]]]]%OpenWrite_inv & _)|(? & _ & [=])]%wrap_error_cases & H)]%bind_cases;
    [by apply same_kept|].
  unfold copy_to in H. apply bind_cases in H as [(e & (? & _ & [=])%attempt_inv & _)|(w & d2 & (r1 & Hw & [= ->])%attempt_inv & H)].
  assert (exists x, entries d2 = <[output := Regular x]> (entries d)) as [y E2].
  { apply bind_cases in Hw as [(e & Hw & _)|([n we] & d3 & Hw & Hrest)];
      destruct (Write_inv _ _ _ _ _ _ _ E1 Hw) as (n' & err' & part & [= ? ?] & E3 & _). subst.
    exists ([] ++ part). rewrite <- E3. destruct err', err; unfold raise, ret in Hrest; by injection Hrest as _ <-. }
  apply bind_cases in H as [(e & (w' & c & [=] & _)%sync_close_inv & _)|(wc & d3 & (w' & c & [= ->] & E3 & _)%sync_close_inv & H)].
  rewrite E2 in E3. pose proof (temporary_kept (entries d) (entries d3) output Hn (or_introl (ex_intro _ y E3))) as Hk.
  destruct w' as [[]|e]; [destruct c; unfold ret, raise in H; injection H as <- <-; exact Hk|].
  eapply removed_kept in H as [_ H]; [exact H|exact Hn|exact E3|done|done].
Qed.

Lemma reads_ret {A} (a : A) : reads (ret a).
Proof. intros s r s' [= <- <-]. by split. Qed.

Lemma reads_raise {A} e : reads (raise e : St _ A).
Proof. intros s r s' [= <- <-]. by split. Qed.

Lemma reads_lift {A} (x : result A) : reads (lift x).
Proof. intros s r s' [= <- <-]. by split. Qed.

Lemma reads_this : reads this.
Proof. intros s r s' [= <- <-]. by split. Qed.

Lemma reads_bind {A B} (m : St _ A) (f : A -> St _ B) : reads m -> (forall a, reads (f a)) -> reads (bind m f).
Proof.
  intros Hm Hf s r s' [(e & H%Hm & _)|(a & s1 & [E1 H1]%Hm & [E2 H2]%Hf)]%bind_cases; [done|]. split; [congruence|]. by etrans.
Qed.

Lemma reads_attempt {A} (m : St _ A) : reads m -> reads (attempt m).
Proof. intros Hm s r s' (r' & H%Hm & _)%attempt_inv. done. Qed.

Lemma reads_wrap {A} format (m : St _ A) : reads m -> reads (wrap_error format m).
Proof. intros Hm s r s' [(a & H%Hm & _)|(e & H%Hm & _)]%wrap_error_cases; done. Qed.

Lemma reads_on_disk {A} (m : St Disk A) : keeps m -> reads (on_disk m).
Proof. intros Hm [store d] r s' H. unfold on_disk in H. destruct (m d) as [r' d'] eqn:E. injection H as <- <-. split; [done|]. by eapply Hm. Qed.

End keeping.

#[export] Hint Resolve keeps_Stat keeps_ReadFile keeps_MkdirAll keeps_forEachEvent keeps_insideGitWorktree keeps_export : keeping.
#[export] Hint Resolve reads_ret reads_raise reads_lift reads_this reads_bind reads_attempt reads_wrap reads_on_disk : keeping.
#[export] Hint Extern 2 (reads (match ?x with _ => _ end)) => destruct x : keeping.
