(* ===== verification/ReplayLab.v ===== *)
(** * The log of a replay laboratory

    The invariant that ties the log, the metadata and the cache of a store
    together; every method keeps it, whatever calls of the operating system fail
    before a line of the log is written; and what happens when one fails after
    it. *)

From S2P Require Import Prelude Effects Encoding Unicode Crypto ReplayEvent ReplaySequence ReplayReport ReplayNative ReplayDisk ReplayStore ReplayStoreFacts.

(** ** Accepted lists *)

Section accepted.
Context `{T : TimeFormat} {TL : TimeLaws T} `{EJ : EventJson}.

Lemma canonical_of_event event : Validate event = Ok tt ->
  isCanonicalUTC (UTC event) = true /\ canonicalUTC (utc_of event) = UTC event.
Proof.
  intros H. unfold Validate in H. destruct (negb (bool_decide _)); [done|]. destruct (_ || _); [done|].
  destruct (Seq event =? 0); [done|]. destruct (negb (isCanonicalUTC _)) eqn:Ec; [done|]. bools. split; [done|].
  unfold isCanonicalUTC, utc_of in *. destruct (time_Parse (UTC event)) as [[t []]|]; [|done..]. by bools.
Qed.

Lemma valid_ids event : Validate event = Ok tt -> validID (SessionID event) = true /\ validID (EpisodeID event) = true.
Proof.
  intros H. unfold Validate in H. destruct (negb (bool_decide _)); [done|]. destruct (_ || _) eqn:E; [done|]. by bools.
Qed.

(** What the state of a list that is not empty looks like. *)
Record populated (n : Z) (st : SequenceState) : Prop := {
  pop_session : validID (SeqSession st) = true;
  pop_episode : validID (LastEpisodeID st) = true;
  pop_seq : LastSeq st = n;
  pop_positive : 1 <= n <= MaxUint64;
  pop_utc : isCanonicalUTC (canonicalUTC (LastUTC st)) = true
}.

Lemma accepted_populated events st : accept_all no_sequence events = Ok st -> events <> [] -> populated (len events) st.
Proof.
  intros H Hne. pose proof (accept_all_summarizes _ _ H) as [Hlen Hseq Hlast _ _].
  destruct events as [|event events _] using rev_ind; [done|]. rewrite last_snoc in Hlast. destruct Hlast as (L1 & L2 & L3 & L4 & L5 & L6 & L7).
  rewrite accept_all_app in H. invert_ok. cbn in H. invert_ok. apply Accept_inv in Hok0 as (? & ? & ? & Hv & _).
  destruct (valid_ids _ Hv). destruct (canonical_of_event _ Hv) as [Hc He].
  rewrite len_app in *. change (len [event]) with 1 in *. pose proof (len_nonneg events). split; try congruence; try lia.
Qed.

(** The numbers of the prefixes grow. *)
Lemma accepted_prefix es1 es2 st1 st :
  accept_all no_sequence es1 = Ok st1 -> accept_all no_sequence (es1 ++ es2) = Ok st -> es1 <> [] ->
  LastSeq st = LastSeq st1 + len es2 /\ SeqSession st1 = SeqSession st /\ (es2 = [] -> st1 = st).
Proof.
  intros H1 H Hne. destruct (accepted_populated _ _ H1 Hne) as [_ _ E1 _ _].
  destruct (accepted_populated _ _ H ltac:(by destruct es1)) as [_ _ E2 _ _].
  rewrite len_app in E2. split_and!; [lia| |].
  - pose proof (accept_all_summarizes _ _ H1) as [_ _ L1 _ _]. pose proof (accept_all_ordered _ _ H) as [Ho [_ _ L _ _]].
    destruct (last es1) as [e1|] eqn:Ee1; [|by apply last_None in Ee1]. destruct (last (es1 ++ es2)) as [e|] eqn:Ee; [|by apply last_None in Ee; destruct es1].
    destruct L1 as (-> & _). destruct L as (-> & _). destruct Ho as [_ Ho _ _ _ _ _].
    apply last_lookup_len in Ee1, Ee. eapply Ho; [by apply lookup_app_l_Some|exact Ee].
  - intros ->. rewrite app_nil_r in H. congruence.
Qed.

End accepted.

(** ** When an append fails *)

Section retry.
Context `{OS : Machine} `{T : TimeFormat} `{EJ : EventJson} `{LJ : LabJson}.

(** A recording up to the write: what is left in the store when the write fails. *)
Lemma Append_failed store d m state event path e d1 :
  cachedMetadata store = Some m -> State m <> disabled -> Accept (cachedSequence store) event = Ok state ->
  sessionPath store (EventFile m) = Ok path -> appendEventFile path event d = (Err e, d1) ->
  Append event (store, d) = (Err e, (mkStore (root store) (manifest store) (Some m) (shared_with (cachedSequence store) state), d1)).
Proof.
  intros Hm Hst Hacc Hp Ha. unfold Append. rewrite (bind_ok _ _ _ m (store, d)) by (unfold Status, bind, this; cbn [fst]; by rewrite Hm).
  rewrite bool_decide_false by done. rewrite (bind_ok _ _ _ store (store, d)) by done.
  rewrite (bind_ok _ _ _ state (store, d)) by (unfold wrap_error, lift; by rewrite Hacc).
  unfold share_episodes. unfold bind at 1. rewrite (bind_ok _ _ _ path (mkStore (root store) (manifest store) (cachedMetadata store)
    (shared_with (cachedSequence store) state), d)) by (unfold lift; by rewrite Hp).
  unfold bind, on_disk. by rewrite Ha, Hm.
Qed.

(** An event that starts an episode cannot be recorded again after its
    recording failed.  The failed attempt left the episode in the set of seen
    episodes of the cached state, so the same event, although nothing of it is
    in the log, is rejected as the reuse of a closed episode. *)
Theorem failed_append_blocks_episode (store : Store) (d d1 : Disk) (m : SessionMetadata) (event : EventV1) (state : SequenceState)
    (seen : gset bytes) (path : bytes) (e : error) :
  cachedMetadata store = Some m -> State m <> disabled -> Accept (cachedSequence store) event = Ok state ->
  SeenEpisodes (cachedSequence store) = Some seen -> EpisodeID event <> LastEpisodeID (cachedSequence store) ->
  sessionPath store (EventFile m) = Ok path -> appendEventFile path event d = (Err e, d1) ->
  exists store1, Append event (store, d) = (Err e, (store1, d1)) /\
    Append event (store1, d1) =
      (Err (Errorf_w "reject event: %w" (errors_New "episode_id was already closed and cannot be reused")), (store1, d1)).
Proof.
  intros Hm Hst Hacc Hseen Hep Hp Ha. eexists. split; [by eapply Append_failed|].
  set (store1 := mkStore _ _ _ _). assert (cachedMetadata store1 = Some m) as Hm1 by done.
  unfold Append. rewrite (bind_ok _ _ _ m (store1, d1)) by (unfold Status, bind, this; cbn [fst]; by rewrite Hm1).
  rewrite bool_decide_false by done. rewrite (bind_ok _ _ _ store1 (store1, d1)) by done. unfold bind, wrap_error, lift.
  apply Accept_inv in Hacc as (session & paused & closed & Hv & Hs & Hce & Hl & ->). cbn zeta in *.
  unfold Accept. rewrite Hv. cbn [rbind store1 cachedSequence].
  change (check_session (shared_with ?a ?b) event) with (check_session a event). rewrite Hs. cbn [rbind].
  unfold check_episode. cbn [shared_with LastEpisodeID SeenEpisodes]. rewrite Hseen.
  rewrite (bool_decide_false (EpisodeID event = LastEpisodeID (cachedSequence store))) by done. cbn [negb]. rewrite orb_true_r.
  cbn [default]. by rewrite bool_decide_true by set_solver.
Qed.

End retry.

(** ** The invariant *)

(** What is assumed of [encoding/json] on the metadata: valid metadata are read
    back from at most 64 KiB. *)
Class LabJsonLaws `{TimeFormat} (LJ : LabJson) : Prop := {
  metadata_roundtrip : forall m,
    check_metadata m = Ok tt -> in_u64 (MLastSeq m) -> in_u64 (MLastMonotonicUS m) ->
    MLastEpisodeID m = [] \/ validID (MLastEpisodeID m) = true ->
    exists text, encode_metadata m = Ok text /\ decode_metadata (take (Z.to_nat readLimit) text) = Ok (m, AtEOF)
}.

Section lab.
Context `{OS : Machine} `{T : TimeFormat} {TL : TimeLaws T} `{EJ : EventJson} {EL : EventJsonLaws T EJ}
  `{NJ : NativeJson} `{LJ : LabJson} {LL : LabJsonLaws LJ}.

(** The elements of the root, an absolute path. *)
Context (parts : list bytes) (Hparts : parts <> []) (Hsimple : Forall simple parts).

(** The clock shows a year that can be written. *)
Hypothesis clock_readable : forall n, readable (clock n) = true.

Definition lab_root : bytes := path_of parts.
Definition active_file : bytes := path_of (parts ++ [activeName]).
Definition log_file (id : bytes) : bytes := path_of (parts ++ [str "sessions"; id ++ str ".yunpinreplay"]).

(** The machine does not fail between the opening and the closing of a log. *)
Definition sound_logs : Prop := forall id, validID id = true -> sound (log_file id).

Lemma simple_check part : negb (bool_decide (part = [])) && negb (bool_decide (part = dot)) && negb (bool_decide (part = dotdot))
  && negb (bool_decide (slash ∈ part)) = true -> simple part.
Proof. intros H. bools. by split. Qed.

Lemma session_simple id : validID id = true -> Forall simple [str "sessions"; id ++ str ".yunpinreplay"].
Proof.
  intros [El Hf]%validID_characters. constructor; [by apply simple_check; vm_compute|]. constructor; [|constructor].
  assert (32 < len (id ++ str ".yunpinreplay")) as Hlen by (rewrite len_app, El; done).
  split; try (intros E; rewrite E in Hlen; by vm_compute in Hlen).
  rewrite elem_of_app. intros [Hin|Hin].
  - rewrite Forall_forall in Hf. by specialize (Hf _ Hin).
  - by apply (bool_decide_eq_true_2 _) in Hin.
Qed.

Lemma name_simple name : simple name -> Forall simple (parts ++ [name]) /\ parts ++ [name] <> [].
Proof. intros H. split; [|by destruct parts]. apply Forall_app. split; [done|]. by constructor. Qed.

Lemma active_simple : simple activeName.
Proof. by apply simple_check; vm_compute. Qed.

Lemma active_path_eq store : root store = lab_root -> active_path store = active_file.
Proof.
  unfold active_path. intros ->. change activeName with (join_slash [activeName]). apply Join_path_of; try done.
  constructor; [apply active_simple|constructor].
Qed.

Lemma session_file_eq id : validID id = true -> session_file id = join_slash [str "sessions"; id ++ str ".yunpinreplay"].
Proof. intros Hid. by apply (Clean_relative [str "sessions"; id ++ str ".yunpinreplay"] ltac:(done) (session_simple id Hid)). Qed.

Lemma sessionPath_eq store id : root store = lab_root -> validID id = true -> sessionPath store (session_file id) = Ok (log_file id).
Proof.
  intros Hr Hid. destruct (Clean_relative [str "sessions"; id ++ str ".yunpinreplay"] ltac:(done) (session_simple id Hid)) as [Ha Hc].
  unfold sessionPath. rewrite session_file_eq by done. rewrite (bool_decide_false (_ = [])) by done. rewrite Ha, Hc.
  rewrite (bool_decide_true (_ = join_slash _)) by done. cbn [orb negb]. rewrite Hr. unfold lab_root.
  rewrite (Join_path_of parts [str "sessions"; id ++ str ".yunpinreplay"]) by (try done; by apply session_simple).
  replace (HasPrefix _ _) with true; [done|]. symmetry. apply HasPrefix_spec. unfold path_of. rewrite join_slash_app by done.
  eexists. cbn [app]. by rewrite <- !app_assoc.
Qed.

Lemma log_not_active id : validID id = true -> log_file id <> active_file.
Proof.
  intros Hid Heq. apply path_of_inj in Heq.
  - apply app_inv_head in Heq. done.
  - by destruct parts.
  - by destruct parts.
  - apply Forall_app. split; [done|]. by apply session_simple.
  - apply name_simple, active_simple.
Qed.

(** The metadata that [loadMetadata] reads. *)
Definition stored (d : Disk) (m : SessionMetadata) : Prop :=
  exists text, entries d !! active_file = Some (Regular text) /\
    decode_metadata (take (Z.to_nat readLimit) text) = Ok (m, AtEOF) /\ check_metadata m = Ok tt.

Definition agrees (m : SessionMetadata) (st : SequenceState) : Prop := MLastSeq m = LastSeq st /\ disagrees m st = false.

(** The log of the session the metadata name holds [events], an accepted list;
    the metadata describe it or a shorter part of it. *)
Record log_of (events : list EventV1) (d : Disk) (m : SessionMetadata) : Prop := {
  lo_text : exists text, entries d !! log_file (MSessionID m) = Some (Regular text) /\ logged events text;
  lo_state : exists st, accept_all no_sequence events = Ok st /\ SeqSession st = MSessionID m;
  lo_part : exists es1 es2 st1, events = es1 ++ es2 /\ es1 <> [] /\ accept_all no_sequence es1 = Ok st1 /\ agrees m st1;
  lo_typed : Forall (fun e => in_u64 (MonotonicUS e)) events
}.

(** The cache describes the whole log. *)
Definition cache_of (events : list EventV1) (store : Store) (id : bytes) : Prop :=
  forall m, cachedMetadata store = Some m -> check_metadata m = Ok tt /\ MSessionID m = id /\
    (id <> [] -> exists st, accept_all no_sequence events = Ok st /\ agrees m st /\ covers st (cachedSequence store)).

(** A laboratory whose log holds [events]; without a session there are none. *)
Definition lab (events : list EventV1) (s : Store * Disk) : Prop :=
  root s.1 = lab_root /\ exists m, stored s.2 m /\ cache_of events s.1 (MSessionID m) /\
    (if bool_decide (MSessionID m = []) then events = [] else log_of events s.2 m).

(** Metadata of a session. *)
Lemma check_active m : check_metadata m = Ok tt -> MSessionID m <> [] ->
  validID (MSessionID m) = true /\ validID (MLastEpisodeID m) = true /\ EventFile m = session_file (MSessionID m) /\
  isCanonicalUTC (StartedUTC m) = true /\ MVersion m = sessionVersion /\ State m <> disabled.
Proof.
  unfold check_metadata. intros H Hid. destruct (negb (bool_decide (MVersion m = _))) eqn:Ev; [done|].
  destruct (negb (isCanonicalUTC _)); [done|]. destruct (bool_decide (State m = disabled)) eqn:Ed.
  - apply reject_if_Ok in H. by bools.
  - destruct (_ || _); [|done]. apply reject_if_Ok in H. by bools.
Qed.

Lemma check_idle m : check_metadata m = Ok tt -> MSessionID m = [] -> State m = disabled.
Proof.
  unfold check_metadata. intros H Hid. destruct (negb (bool_decide (MVersion m = _))) eqn:Ev; [done|].
  destruct (negb (isCanonicalUTC _)); [done|]. destruct (bool_decide (State m = disabled)) eqn:Ed; [by bools|].
  destruct (_ || _); [|done]. apply reject_if_Ok in H. rewrite Hid in H. done.
Qed.

(** The metadata after more events are valid and describe them. *)
Lemma advance_valid m n st updated :
  check_metadata m = Ok tt -> MSessionID m <> [] -> populated n st -> isCanonicalUTC updated = true ->
  check_metadata (advance_metadata m st updated) = Ok tt /\ agrees (advance_metadata m st updated) st.
Proof.
  intros Hm Hid [P1 P2 P3 P4 P5] Hu. destruct (check_active _ Hm Hid) as (C1 & C2 & C3 & C4 & C5 & _). split.
  - unfold check_metadata. cbn [advance_metadata MVersion UpdatedUTC State MSessionID MLastEpisodeID MLastSeq StartedUTC MLastUTC EventFile].
    rewrite C5, Hu, P2, P5, C1, C4, C3, P3. rewrite (bool_decide_true (sessionVersion = _)), (bool_decide_true (session_file (MSessionID m) = session_file (MSessionID m))) by done.
    rewrite (proj2 (Z.eqb_neq n 0)) by lia. unfold state_name. by destruct (Paused st).
  - split; [done|]. unfold disagrees. cbn. rewrite !bool_decide_true by done. by rewrite Z.eqb_refl, Bool.eqb_reflx.
Qed.

Lemma on_disk_inv {A} (m : St Disk A) s r s' : on_disk m s = (r, s') -> s'.1 = s.1 /\ m s.2 = (r, s'.2).
Proof. destruct s as [store d]. unfold on_disk. destruct (m d) as [r' d'] eqn:E. by intros [= <- <-]. Qed.

(** Files that are kept keep the laboratory. *)
Lemma stored_kept d d' m : kept d d' -> stored d m -> stored d' m.
Proof. intros Hk (text & Ht & Hd & Hc). exists text. split; [by apply Hk|done]. Qed.

Lemma log_of_kept events d d' m : kept_but active_file d d' -> validID (MSessionID m) = true -> log_of events d m -> log_of events d' m.
Proof.
  intros Hk Hid [(text & Ht & Hl) H2 H3 H4]. split; try done. exists text. split; [|done]. apply Hk; [by apply log_not_active|done].
Qed.

Lemma lab_kept events store d d' : kept d d' -> lab events (store, d) -> lab events (store, d').
Proof.
  intros Hk (Hr & m & Hs & Hc & Hl). split; [done|]. exists m. split_and!; [by eapply stored_kept|done|].
  destruct (bool_decide (MSessionID m = [])) eqn:Eid; [done|]. bools.
  destruct Hs as (? & _ & _ & Hcheck). eapply log_of_kept; [by apply kept_kept_but|by apply check_active|done].
Qed.

(** Loading gives the stored metadata. *)
Lemma stored_unique d m m' : stored d m -> stored d m' -> m = m'.
Proof. intros (t & Ht & Hd & _) (t' & Ht' & Hd' & _). rewrite Ht in Ht'. injection Ht' as <-. rewrite Hd in Hd'. by injection Hd'. Qed.

Lemma this_inv (s : Store * Disk) r s' : this s = (r, s') -> r = Ok s.1 /\ s' = s.
Proof. unfold this. by intros [= <- <-]. Qed.

Lemma loadMetadata_inv s r s' : root s.1 = lab_root -> loadMetadata s = (r, s') ->
  s'.1 = s.1 /\ entries s'.2 = entries s.2 /\ entropy s'.2 = entropy s.2 /\ (forall m, r = Ok m -> stored s.2 m).
Proof.
  intros Hr H. unfold loadMetadata in H. apply bind_cases in H as [(e & [[=] _]%this_inv & _)|(store & s1 & [[= ->] ->]%this_inv & H)].
  rewrite active_path_eq in H by done. apply bind_cases in H as [(e & H & ->)|(m & s1 & H1 & H)].
  - apply wrap_error_cases in H as [(? & _ & [=])|(e' & [E1 H]%on_disk_inv & _)].
    pose proof (readStrictJSON_entropy _ _ _ _ _ H). apply readStrictJSON_inv in H as [E2 _]. split_and!; done.
  - apply wrap_error_cases in H1 as [(? & [E1 H1]%on_disk_inv & [= <-])|(? & _ & [=])].
    pose proof (readStrictJSON_entropy _ _ _ _ _ H1) as He. apply readStrictJSON_inv in H1 as [E2 Hm]. destruct (Hm _ eq_refl) as (c & Hc & Hd).
    invert_run; [done|]. split_and!; try done. intros m' [= <-]. exists c. destruct a. split_and!; done.
Qed.

Record savable (m : SessionMetadata) : Prop := {
  sv_check : check_metadata m = Ok tt;
  sv_seq : in_u64 (MLastSeq m);
  sv_mono : in_u64 (MLastMonotonicUS m);
  sv_episode : MLastEpisodeID m = [] \/ validID (MLastEpisodeID m) = true
}.

Lemma saveMetadata_inv s m r s' : root s.1 = lab_root -> saveMetadata m s = (r, s') ->
  s'.1 = s.1 /\ kept_but active_file s.2 s'.2 /\
  match r with Ok _ => savable m -> stored s'.2 m | Err _ => kept s.2 s'.2 end.
Proof.
  intros Hr H. unfold saveMetadata in H. apply bind_cases in H as [(e & [[=] _]%this_inv & _)|(store & s1 & [[= ->] ->]%this_inv & H)].
  rewrite active_path_eq in H by done. apply on_disk_inv in H as [E H]. apply atomicJSON_inv in H as [Hk H].
  split_and!; [done..|]. destruct r as [[]|e]; [|done]. destruct H as (text & Henc & Ht). intros [S1 S2 S3 S4].
  destruct (metadata_roundtrip _ S1 S2 S3 S4) as (text' & Henc' & Hdec). exists text. split_and!; [done| |done]. congruence.
Qed.

(** Metadata of a log are savable. *)
Lemma advance_savable m events st updated :
  check_metadata m = Ok tt -> MSessionID m <> [] -> events <> [] -> accept_all no_sequence events = Ok st ->
  Forall (fun e => in_u64 (MonotonicUS e)) events -> isCanonicalUTC updated = true ->
  savable (advance_metadata m st updated) /\ agrees (advance_metadata m st updated) st.
Proof.
  intros Hm Hid Hne Hst Hty Hu. pose proof (accepted_populated _ _ Hst Hne) as Hp.
  destruct (advance_valid _ _ _ _ Hm Hid Hp Hu) as [Hc Ha]. split; [|done]. destruct Hp as [P1 P2 P3 P4 P5].
  split; cbn [advance_metadata MLastSeq MLastMonotonicUS MLastEpisodeID]; [done| |  |by right].
  - rewrite P3. unfold in_u64. lia.
  - pose proof (accept_all_summarizes _ _ Hst) as [_ _ L _ _]. destruct (last events) as [e|] eqn:El; [|by apply last_None in El].
    destruct L as (_ & _ & -> & _). rewrite Forall_forall in Hty. by apply Hty, last_Some_elem_of.
Qed.

Lemma scanSession_inv events s m r s' :
  root s.1 = lab_root -> validID (MSessionID m) = true -> EventFile m = session_file (MSessionID m) -> log_of events s.2 m ->
  scanSession (EventFile m) s = (r, s') ->
  s'.1 = s.1 /\ entries s'.2 = entries s.2 /\
  (forall st, r = Ok st -> st = no_sequence \/ accept_all no_sequence events = Ok st).
Proof.
  intros Hr Hid -> [(text & Ht & Hl) (st & Hst & _) _ _] H. unfold scanSession in H.
  rewrite (bool_decide_false (session_file _ = [])) in H by (by rewrite session_file_eq).
  apply bind_cases in H as [(e & [[=] _]%this_inv & _)|(store & s1 & [[= ->] ->]%this_inv & H)].
  rewrite sessionPath_eq in H by done. apply bind_cases in H as [(e & H & ->)|(path & s1 & H1 & H)]; [done|].
  unfold lift in H1. injection H1 as <- <-.
  apply bind_cases in H as [(e & (? & _ & [=])%attempt_inv & _)|(scanned & s1 & (r1 & [E1 H1]%on_disk_inv & [= ->])%attempt_inv & H)].
  unfold forEachEvent in H1. apply bind_cases in H1 as [(e & H1 & ->)|([txt err] & d1 & H1 & H2)].
  - apply ReadFile_inv in H1 as [E2 _]. destruct (errors_Is e ErrNotExist); invert_run; split_and!; try done. intros st' [= <-]. by left.
  - apply ReadFile_inv in H1 as [E2 Hread]. unfold lift in H2. injection H2 as Hr1 Hd1. subst r1 d1.
    assert (entries s1.2 = entries s.2) as E by done.
    destruct err as [e|].
    + destruct (scan_failed Accept no_sequence txt e) as [e' He']. rewrite He' in H.
      destruct (errors_Is e' ErrNotExist); invert_run; split_and!; try done. intros st' [= <-]. by left.
    + destruct (Hread _ _ eq_refl) as [[_ [? [=]]]|(c & n & Hc & _ & Hn)]. rewrite (Hn eq_refl) in *. rewrite Ht in Hc. injection Hc as <-.
      pose proof (scan_logged Accept _ _ no_sequence Hl) as Hsc. rewrite feed_accept, Hst in Hsc. rewrite Hsc in H. invert_run.
      split_and!; try done. intros st' [= <-]. by right.
Qed.

Lemma log_of_nonempty events d m : log_of events d m -> events <> [].
Proof. intros [_ _ (es1 & es2 & _ & -> & Hne & _) _]. by destruct es1. Qed.

Lemma log_of_same_id events d m m' : MSessionID m' = MSessionID m ->
  (exists es1 es2 st1, events = es1 ++ es2 /\ es1 <> [] /\ accept_all no_sequence es1 = Ok st1 /\ agrees m' st1) ->
  log_of events d m -> log_of events d m'.
Proof. intros Hid Hp [H1 H2 _ H4]. split; rewrite ?Hid; done. Qed.

(** Repairing the metadata. *)
Lemma reconcile_inv events s m st r s' :
  root s.1 = lab_root -> stored s.2 m -> MSessionID m <> [] -> log_of events s.2 m -> st = no_sequence \/ accept_all no_sequence events = Ok st ->
  reconcile m st s = (r, s') ->
  s'.1 = s.1 /\
  match r with
  | Err _ => kept s.2 s'.2
  | Ok m' => stored s'.2 m' /\ MSessionID m' = MSessionID m /\ log_of events s'.2 m' /\ accept_all no_sequence events = Ok st /\ agrees m' st
  end.
Proof.
  intros Hr Hm Hid Hlog Hst H. pose proof Hm as (? & _ & _ & Hcheck). destruct (check_active _ Hcheck Hid) as (Hvid & _).
  pose proof (log_of_nonempty _ _ _ Hlog) as Hne. pose proof Hlog as [_ (st0 & Hst0 & Hsess) (es1 & es2 & st1 & -> & Hne1 & Hst1 & Hag) Hty].
  destruct (accepted_populated _ _ Hst1 Hne1) as [_ _ P3 P4 _]. destruct Hag as [Ha1 Ha2].
  unfold reconcile in H. destruct Hst as [->|Hst].
  { cbn in H. rewrite (proj2 (Z.ltb_lt 0 (MLastSeq m))) in H by lia. invert_run. split; [done|]. cbn. reflexivity. }
  rewrite Hst0 in Hst. injection Hst as ->. rewrite Hsess, (bool_decide_true (MSessionID m = MSessionID m)), andb_false_r in H by done.
  destruct (accepted_prefix _ _ _ _ Hst1 Hst0 Hne1) as (Hseq & _ & Hsame). pose proof (len_nonneg es2) as Hlen2.
  rewrite (proj2 (Z.ltb_ge (LastSeq st) (MLastSeq m))) in H by lia. rewrite !Z.gtb_ltb in H.
  destruct (Z.ltb_spec (MLastSeq m) (LastSeq st)) as [Hlt|Hge].
  - apply bind_cases in H as [(e & [_ [=]]%on_disk_inv & _)|(now & s1 & [E1 [= <- E2]]%on_disk_inv & H)].
    assert (isCanonicalUTC (canonicalUTC (clock (calls s.2))) = true) as Hcan.
    { unfold isCanonicalUTC. rewrite parse_canonical by apply clock_readable. by rewrite bool_decide_true. }
    destruct (advance_savable m _ st (canonicalUTC (clock (calls s.2))) Hcheck Hid Hne Hst0 Hty Hcan) as [Hsv Hag'].
    assert (entries s1.2 = entries s.2) as Es by (rewrite <- E2; done).
    assert (root s1.1 = lab_root) as Hr1 by (by rewrite E1).
    apply bind_cases in H as [(e & H & ->)|([] & s2 & H1 & H)].
    + apply wrap_error_cases in H as [(? & _ & [=])|(e' & H & _)]. apply saveMetadata_inv in H as (E3 & _ & Hk); [|done].
      split; [by rewrite E3|]. etrans; [by apply same_kept|done].
    + apply wrap_error_cases in H1 as [(? & H1 & _)|(? & _ & [=])]. apply saveMetadata_inv in H1 as (E3 & Hk & Hsaved); [|done]. invert_run.
      split; [by rewrite E3|]. split_and!; try done; [by apply Hsaved|].
      apply (log_of_same_id _ _ m); [done| |].
      * exists (es1 ++ es2), [], st. rewrite app_nil_r. done.
      * apply (log_of_kept _ s.2); [|done|exact Hlog]. intros q e Hq Hqe. apply Hk; [done|]. by rewrite Es.
  - assert (es2 = []) as -> by (destruct es2; [done|]; rewrite len_cons in *; pose proof (len_nonneg es2); lia).
    pose proof (Hsame eq_refl) as ->. rewrite Ha2, andb_false_r in H. invert_run. by rewrite app_nil_r in *.
Qed.

(** [Status] keeps the log and leaves what it returns in the cache. *)
Lemma Status_inv events s r s' : lab events s -> Status s = (r, s') ->
  lab events s' /\ (forall m, r = Ok m -> cachedMetadata s'.1 = Some m).
Proof.
  intros Hlab H. unfold Status in H. apply bind_cases in H as [(e & [[=] _]%this_inv & _)|(store & s1 & [[= ->] ->]%this_inv & H)].
  destruct (cachedMetadata s.1) as [m|] eqn:Ec.
  { unfold ret in H. injection H as <- <-. split; [done|]. congruence. }
  destruct s as [store d]. pose proof Hlab as (Hr & m0 & Hs & _ & Hl). cbn [fst snd] in *.
  apply bind_cases in H as [(e & H & ->)|(m & s1 & H1 & H)].
  { apply loadMetadata_inv in H as (E1 & E2 & _); [|done]. destruct s' as [store' d']. cbn in *. subst store'. split; [|done].
    eapply lab_kept; [by apply same_kept|done]. }
  apply loadMetadata_inv in H1 as (E1 & E2 & _ & Hm); [|done]. specialize (Hm _ eq_refl). cbn in *.
  pose proof (stored_unique _ _ _ Hs Hm) as ->. destruct s1 as [store1 d1]. cbn in *. subst store1.
  pose proof (stored_kept _ _ _ (same_kept _ _ E2) Hm) as Hm1. pose proof Hm as (? & _ & _ & Hcheck).
  destruct (bool_decide (MSessionID m = [])) eqn:Eid; bools.
  { invert_run; [done|]. injection Hrun as _ <-. split; [|by intros m' [= <-]]. split; [done|]. exists m. rewrite bool_decide_true by done.
    split_and!; try done. intros m' [= <-]. split_and!; try done. }
  destruct (check_active _ Hcheck Eid) as (Hvid & _ & Hfile & _).
  pose proof (log_of_kept _ _ _ _ (kept_kept_but _ _ _ (same_kept _ _ E2)) Hvid Hl) as Hl1.
  apply bind_cases in H as [(e & H & ->)|(st & [store2 d2] & H1 & H)].
  { apply (scanSession_inv events) in H as (E3 & E4 & _); try done. destruct s' as [store' d']. cbn in *. subst store'. split; [|done].
    eapply lab_kept; [|exact Hlab]. apply same_kept. congruence. }
  apply (scanSession_inv events) in H1 as (E3 & E4 & Hst); try done. specialize (Hst _ eq_refl). cbn in E3, E4. subst store2.
  pose proof (stored_kept _ _ _ (same_kept _ _ E4) Hm1) as Hm2.
  pose proof (log_of_kept _ _ _ _ (kept_kept_but _ _ _ (same_kept _ _ E4)) Hvid Hl1) as Hl2.
  apply bind_cases in H as [(e & H & ->)|(m' & [store3 d3] & H1 & H)].
  - apply (reconcile_inv events) in H as (E5 & Hk); try done. destruct s' as [store' d']. cbn in *. subst store'. split; [|done].
    eapply lab_kept; [|exact Hlab]. etrans; [by apply same_kept|]. etrans; [by apply same_kept|done].
  - apply (reconcile_inv events) in H1 as (E5 & Hm3 & Hid3 & Hl3 & Hst3 & Hag3); try done. cbn in E5. subst store3.
    invert_run; [done|]. injection Hrun as _ <-. split; [|by intros ? [= <-]]. split; [done|]. exists m'. pose proof Hm3 as (? & _ & _ & Hc3).
    rewrite bool_decide_false by congruence. split_and!; try done. intros m'' [= <-]. split_and!; try done.
    intros _. exists st. split_and!; try done.
Qed.

Lemma advance_covers m st s updated : covers st s -> advance_metadata m s updated = advance_metadata m st updated.
Proof. intros [C1 C2 C3 C4 C5 C6 C7 _ _]. unfold advance_metadata, state_name. by rewrite C2, C3, C4, C5, C6, C7. Qed.

(** One more line. *)
Lemma log_of_snoc events d d' m event line st st' :
  log_of events d m -> accept_all no_sequence events = Ok st -> Accept st event = Ok st' -> in_u64 (MonotonicUS event) ->
  EncodeEventV1 event = Ok line ->
  entries d' !! log_file (MSessionID m) = Some (Regular (contents d (log_file (MSessionID m)) ++ line ++ [newline])) ->
  log_of (events ++ [event]) d' m /\ accept_all no_sequence (events ++ [event]) = Ok st'.
Proof.
  intros [(text & Ht & Hl) (st0 & Hst0 & Hsess) (es1 & es2 & st1 & -> & Hne & Hst1 & Hag) Hty] Hst Hacc Hmono Henc Hnew.
  assert (accept_all no_sequence ((es1 ++ es2) ++ [event]) = Ok st') as Hall by (rewrite accept_all_app, Hst; cbn; by rewrite Hacc).
  unfold contents in Hnew. rewrite Ht in Hnew. split; [|done]. split.
  - eexists. split; [exact Hnew|]. by apply logged_snoc.
  - exists st'. split; [done|]. rewrite <- Hsess. symmetry.
    refine (proj1 (proj2 (accepted_prefix _ _ _ _ Hst0 Hall _))). by destruct es1.
  - exists es1, (es2 ++ [event]), st1. by rewrite app_assoc.
  - apply Forall_app. split; [done|]. constructor; [done|constructor].
Qed.

(** A store with a session: what the cache says about it. *)
Lemma lab_session events store d m :
  lab events (store, d) -> cachedMetadata store = Some m -> State m <> disabled ->
  exists m0 st, stored d m0 /\ MSessionID m0 = MSessionID m /\ MSessionID m <> [] /\ check_metadata m = Ok tt /\ log_of events d m0 /\
    accept_all no_sequence events = Ok st /\ agrees m st /\ covers st (cachedSequence store).
Proof.
  intros (_ & m0 & Hs & Hc & Hl) Hm Hst. cbn [fst snd] in *. destruct (Hc _ Hm) as (Hck & Hid & Hcache).
  assert (MSessionID m <> []) as Hne by (intros E; by apply Hst, check_idle). rewrite <- Hid in Hcache, Hl.
  destruct (Hcache Hne) as (st & H1 & H2 & H3). rewrite bool_decide_false in Hl by done. by exists m0, st.
Qed.

(** Recording an event: it is in the log or nothing changed. *)
Lemma Append_inv events s event r s' :
  sound_logs -> lab events s -> in_u64 (MonotonicUS event) -> Append event s = (r, s') ->
  (lab events s' /\ exists e, r = Err e) \/ lab (events ++ [event]) s'.
Proof.
  intros Hsound Hlab Hmono H. unfold Append in H.
  apply bind_cases in H as [(e & H & ->)|(m & [store d] & H1 & H)]; [apply (Status_inv events) in H as [? _]; eauto|].
  apply (Status_inv events) in H1 as [Hlab1 Hm]; [|done]. specialize (Hm _ eq_refl). cbn in Hm.
  destruct (bool_decide (State m = disabled)) eqn:Est; bools; [invert_run; left; split; [done|by eexists]|].
  destruct (lab_session _ _ _ _ Hlab1 Hm Est) as (m0 & st & Hs & Hid0 & Hne & Hck & Hl & Hst & Hag & Hcov).
  destruct (check_active _ Hck Hne) as (Hvid & _ & Hfile & _). pose proof Hlab1 as (Hr & _). cbn in Hr.
  apply bind_cases in H as [(e & [[=] _]%this_inv & _)|(store0 & s1 & [[= ->] ->]%this_inv & H)].
  apply bind_cases in H as [(e & H & ->)|(state & s1 & H1 & H)]; [invert_run; left; eauto|].
  apply wrap_error_cases in H1 as [(? & H1 & [= <-])|(? & _ & [=])]. unfold lift in H1. injection H1 as Hacc <-. cbn [fst] in Hacc.
  destruct (Accept_covers _ _ _ _ Hcov Hacc) as (st' & Hacc' & Hcov').
  apply bind_cases in H as [(e & [=] & _)|([] & s1 & [= <-] & H)].
  set (store1 := mkStore _ _ _ _) in H.
  assert (lab events (store1, d)) as Hlab2.
  { split; [done|]. exists m0. split_and!; [done| |by rewrite bool_decide_false by congruence]. intros m' Hm'. cbn in Hm'. rewrite Hm in Hm'.
    injection Hm' as <-. split_and!; try done. intros _. exists st. split_and!; try done. by eapply shared_covers. }
  rewrite Hfile, sessionPath_eq in H by done. apply bind_cases in H as [(e & [=] & _)|(path & s1 & [= <- <-] & H)].
  apply bind_cases in H as [(e & [E1 H]%on_disk_inv & ->)|([] & [store2 d2] & [E1 H1]%on_disk_inv & H)].
  { left. split; [|eauto]. apply appendEventFile_inv in H as [_ H]. destruct s' as [store' d']. cbn in *. subst store'.
    eapply lab_kept; [|exact Hlab2]. apply same_kept, H, Hsound, Hvid. }
  right. cbn in E1. subst store2. apply appendEventFile_inv in H1 as [Hk2 (line & Henc & Hnew)]. cbn [snd] in *.
  rewrite <- Hid0 in Hnew, Hvid. destruct (log_of_snoc _ _ _ _ _ _ _ _ Hl Hst Hacc' Hmono Henc Hnew) as [Hl2 Hst2].
  assert (stored d2 m0) as Hs2.
  { destruct Hs as (text & Ht & Hd & Hc). exists text. split; [|done]. apply Hk2; [|done]. intros E. apply (log_not_active (MSessionID m0) Hvid). by rewrite Hid0. }
  rewrite (advance_covers _ _ _ _ Hcov') in H.
  destruct (canonical_of_event event) as [Hcan _]; [by apply Accept_inv in Hacc as (? & ? & ? & ? & _)|].
  destruct (advance_savable m _ st' (UTC event) Hck Hne (log_of_nonempty _ _ _ Hl2) Hst2 (lo_typed _ _ _ Hl2) Hcan) as [Hsv Hag2].
  set (m2 := advance_metadata _ _ _) in *.
  apply bind_cases in H as [(e & (? & _ & [=])%attempt_inv & _)|(saved & [store3 d3] & (r1 & H1 & [= ->])%attempt_inv & H)].
  apply saveMetadata_inv in H1 as (E3 & Hk3 & Hsaved); [|done]. cbn in E3, Hsaved. subst store3.
  pose proof (log_of_kept _ _ _ _ Hk3 Hvid Hl2) as Hl3. destruct r1 as [[]|e].
  - unfold set_cache in H. injection H as <- <-. split; [done|]. exists m2. rewrite bool_decide_false by done. split_and!.
    + by apply Hsaved.
    + intros m' [= <-]. split_and!; [by destruct Hsv|done|]. intros _. exists st'. done.
    + apply (log_of_same_id _ _ m0); [by rewrite Hid0| |done]. exists (events ++ [event]), [], st'. rewrite app_nil_r.
      pose proof (log_of_nonempty _ _ _ Hl2). done.
  - apply bind_cases in H as [(e' & [=] & _)|([] & s1 & [= <-] & H)]. invert_run. split; [done|]. exists m0.
    rewrite bool_decide_false by congruence. split_and!; [by eapply stored_kept|done|done].
Qed.

(** The first event of a session. *)
Lemma accept_start id episode now : Validate (start_event id episode now) = Ok tt ->
  exists st, Accept no_sequence (start_event id episode now) = Ok st /\ SeqSession st = id /\
    agrees (start_metadata id now episode) st /\ isCanonicalUTC now = true.
Proof.
  intros Hv. destruct (canonical_of_event _ Hv) as [Hcan Hutc]. unfold Accept. rewrite Hv. cbn [rbind]. unfold check_session, check_episode, life_cycle, is_kind.
  cbn [start_event SessionID EpisodeID Seq MonotonicUS Kind no_sequence SeqSession LastEpisodeID SeenEpisodes LastSeq EpisodeClosed Paused].
  rewrite !(bool_decide_true ([] = [])), (bool_decide_true (EventResume ∈ _)) by (done || set_solver). cbn [negb Z.eqb rbind orb andb].
  eexists. split_and!; [done..| |done]. split; [done|]. unfold disagrees.
  cbn [start_metadata State MLastEpisodeID MLastSeq MLastMonotonicUS MLastUTC MEpisodeClosed LastEpisodeID LastMonotonicUS LastUTC EpisodeClosed].
  rewrite Hutc. by rewrite !bool_decide_true.
Qed.

Lemma start_savable id now episode : validID id = true -> validID episode = true -> isCanonicalUTC now = true ->
  savable (start_metadata id now episode).
Proof.
  intros Hid Hep Hn. split; [|done..|by right]. unfold check_metadata.
  cbn [start_metadata MVersion UpdatedUTC State MSessionID MLastEpisodeID MLastSeq StartedUTC MLastUTC EventFile]. rewrite Hid, Hep, Hn.
  by rewrite (bool_decide_true (session_file id = session_file id)) by done.
Qed.

(** The next session identifier is not the name of a file. *)
Definition fresh_session (d : Disk) : Prop :=
  forall id rest, NewID (entropy d) = Ok (id, rest) -> entries d !! log_file id = None.

Lemma new_id_fresh d d0 id d' : entries d0 = entries d -> entropy d0 = entropy d -> fresh_session d -> new_id d0 = (Ok id, d') -> entries d !! log_file id = None.
Proof.
  unfold new_id. intros E1 E2 Hf. rewrite E2. destruct (NewID (entropy d)) as [[id' rest]|] eqn:En; [|done]. intros [= <- _]. by eapply Hf.
Qed.

(** The end of [Start], after the first line was written. *)
Lemma start_recorded store d m id episode now line r s' :
  root store = lab_root -> stored d m -> MSessionID m = [] -> cache_of [] store [] -> validID id = true -> validID episode = true ->
  EncodeEventV1 (start_event id episode now) = Ok line -> entries d !! log_file id = Some (Regular (line ++ [newline])) ->
  bind (saveMetadata (start_metadata id now episode)) (fun _ =>
    bind (wrap_error "initialize session sequence: %w" (lift (Accept no_sequence (start_event id episode now)))) (fun state =>
      bind (set_cache (Some (start_metadata id now episode)) state) (fun _ => Status))) (store, d) = (r, s') ->
  lab [] s' \/ lab [start_event id episode now] s'.
Proof.
  intros Hr Hs Hid Hc Hvid Hvep Henc Hnew H. destruct (EncodeEventV1_inv _ _ Henc) as (Hv & _).
  destruct (accept_start _ _ _ Hv) as (st & Hacc & Hsess & Hag & Hcan). pose proof (start_savable _ _ _ Hvid Hvep Hcan) as Hsv.
  set (m1 := start_metadata _ _ _) in *.
  apply bind_cases in H as [(e & H & ->)|([] & [store1 d1] & H1 & H)].
  { left. apply saveMetadata_inv in H as (E1 & _ & Hk); [|done]. destruct s' as [store' d']. cbn in *. subst store'.
    split; [done|]. exists m. rewrite bool_decide_true, Hid by done. split_and!; try done. by eapply stored_kept. }
  apply saveMetadata_inv in H1 as (E1 & Hk & Hsaved); [|done]. cbn [fst snd] in *. subst store1. specialize (Hsaved Hsv).
  rewrite Hacc in H. apply bind_cases in H as [(e & [=] & _)|(state & s1 & [= <- <-] & H)].
  apply bind_cases in H as [(e & [=] & _)|([] & s1 & [= <-] & H)].
  right. refine (proj1 (Status_inv _ _ _ _ _ H)). split; [done|]. exists m1. cbn [snd fst].
  rewrite bool_decide_false by (intros E; apply validID_nonempty in Hvid; exact (Hvid E)). split_and!; [done| |].
  - intros m' [= <-]. split_and!; [by destruct Hsv|done|]. intros _. exists st. split_and!; try done. cbn. by rewrite Hacc.
  - split.
    + exists (line ++ [newline]). split; [apply Hk; [by apply log_not_active|done]|].
      apply (logged_snoc [] []); [by exists []|done].
    + exists st. split; [|done]. cbn. by rewrite Hacc.
    + exists [start_event id episode now], [], st. split_and!; try done. cbn. by rewrite Hacc.
    + constructor; [done|constructor].
Qed.

Lemma Start_inv events s now r s' :
  sound_logs -> lab events s -> fresh_session s.2 -> Start now s = (r, s') ->
  lab events s' \/ (events = [] /\ exists id episode, lab [start_event id episode (canonicalUTC now)] s').
Proof.
  intros Hsound Hlab Hfresh H. pose proof Hlab as (Hr & m0 & Hs & _ & Hl). unfold Start in H. destruct s as [store d]. cbn [fst snd] in *.
  apply bind_cases in H as [(e & H & ->)|(m & [store1 d1] & H1 & H)].
  { apply loadMetadata_inv in H as (E1 & E2 & _); [|done]. destruct s' as [store' d']. cbn in *. subst store'. left.
    eapply lab_kept; [by apply same_kept|done]. }
  apply loadMetadata_inv in H1 as (E1 & E2 & E2' & Hm); [|done]. specialize (Hm _ eq_refl). cbn [fst snd] in *. subst store1.
  pose proof (stored_unique _ _ _ Hs Hm) as ->. pose proof (lab_kept _ _ _ _ (same_kept _ _ E2) Hlab) as Hlab1.
  destruct (bool_decide (State m = disabled)) eqn:Est; cbn [negb] in H; [|unfold raise in H; injection H as <- <-; by left]. bools.
  pose proof Hm as (_ & _ & _ & Hck).
  assert (MSessionID m = []) as Hid.
  { destruct (decide (MSessionID m = [])) as [|Hne]; [done|]. by destruct (check_active _ Hck Hne) as (_ & _ & _ & _ & _ & ?). }
  rewrite Hid, bool_decide_true in Hl by done. subst events.
  apply bind_cases in H as [(e & [E3 [E4 _]%new_id_inv]%on_disk_inv & ->)|(id & [store2 d2] & [E3 Hn1]%on_disk_inv & H)].
  { left. destruct s' as [store' d']. cbn in *. subst. eapply lab_kept; [by apply same_kept|done]. }
  cbn in E3, Hn1. subst store2. pose proof (new_id_fresh _ _ _ _ E2 E2' Hfresh Hn1) as Hnone. apply new_id_inv in Hn1 as [E4 Hvid]. specialize (Hvid _ eq_refl).
  apply bind_cases in H as [(e & [E5 [E6 _]%new_id_inv]%on_disk_inv & ->)|(episode & [store3 d3] & [E5 [E6 Hvep]%new_id_inv]%on_disk_inv & H)].
  { left. destruct s' as [store' d']. cbn in *. subst. eapply lab_kept; [|exact Hlab]. apply same_kept. congruence. }
  cbn in E5, E6. subst store3. specialize (Hvep _ eq_refl). assert (entries d3 = entries d) as E7 by congruence.
  pose proof (lab_kept _ _ _ _ (same_kept _ _ E7) Hlab) as Hlab3.
  apply bind_cases in H as [(e & [[=] _]%this_inv & _)|(store0 & s1 & [[= ->] ->]%this_inv & H)].
  change (EventFile (start_metadata id (canonicalUTC now) episode)) with (session_file id) in H.
  rewrite sessionPath_eq in H by done. apply bind_cases in H as [(e & [=] & _)|(path & s1 & [= <- <-] & H)].
  apply bind_cases in H as [(e & [E8 H]%on_disk_inv & ->)|([] & [store4 d4] & [E8 H1]%on_disk_inv & H)].
  { left. apply appendEventFile_inv in H as [_ H]. destruct s' as [store' d']. cbn in *. subst store'.
    eapply lab_kept; [|exact Hlab3]. apply same_kept, H, Hsound, Hvid. }
  cbn in E8. subst store4. apply appendEventFile_inv in H1 as [Hk4 (line & Henc & Hnew)]. cbn [snd] in *.
  unfold contents in Hnew. rewrite E7, Hnone in Hnew. cbn [app] in Hnew.
  assert (stored d4 m) as Hs4.
  { destruct Hm as (text & Ht & Hd & Hc). exists text. split; [|done]. apply Hk4; [|by rewrite E7]. intros E. by apply (log_not_active id). }
  eapply start_recorded in H as [?|?]; try done; [by left|right; eauto|].
  destruct Hlab as (_ & m' & Hs' & Hc' & _). pose proof (stored_unique _ _ _ Hs' Hs) as ->. by rewrite Hid in Hc'.
Qed.

Lemma control_typed m kind episode now : in_u64 (MonotonicUS (controlEvent m kind episode now)).
Proof.
  cbn. pose proof (wrap_u64_range (MLastMonotonicUS m + 1)) as Hw. destruct (time_Parse _) as [[started ?]|]; [|done].
  destruct ((now >? started) && _) eqn:E; [|done]. rewrite !Z.gtb_ltb in E. bools. unfold in_u64, elapsed_us, MaxInt64, MaxUint64 in *. mlia.
Qed.

(** The log after a method: as before, or with one more event. *)
Definition grown (events : list EventV1) (s' : Store * Disk) : Prop := exists more, lab (events ++ more) s'.

Lemma grown_same events s' : lab events s' -> grown events s'.
Proof. exists []. by rewrite app_nil_r. Qed.

Lemma append_then_status events s event r s' :
  sound_logs -> lab events s -> in_u64 (MonotonicUS event) -> bind (Append event) (fun _ => Status) s = (r, s') -> grown events s'.
Proof.
  intros Hsound Hlab Hty H. apply bind_cases in H as [(e & H & _)|([] & s1 & H1 & H)].
  - apply (Append_inv events) in H as [[? _]|?]; try done; [by apply grown_same|by eexists].
  - apply (Append_inv events) in H1 as [[? [? [=]]]|?]; try done. apply (Status_inv (events ++ [event])) in H as [? _]; [|done]. by eexists.
Qed.

Lemma Pause_inv events s now r s' : sound_logs -> lab events s -> Pause now s = (r, s') -> grown events s'.
Proof.
  intros Hsound Hlab H. unfold Pause in H. apply bind_cases in H as [(e & H & _)|(m & s1 & H1 & H)].
  { apply (Status_inv events) in H as [? _]; [by apply grown_same|done]. }
  apply (Status_inv events) in H1 as [Hlab1 _]; [|done].
  destruct (negb _) in H; [unfold raise in H; injection H as <- <-; by apply grown_same|].
  eapply append_then_status; [done|exact Hlab1| |exact H]. apply control_typed.
Qed.

Lemma Resume_inv events s now r s' : sound_logs -> lab events s -> Resume now s = (r, s') -> grown events s'.
Proof.
  intros Hsound Hlab H. unfold Resume in H. apply bind_cases in H as [(e & H & _)|(m & s1 & H1 & H)].
  { apply (Status_inv events) in H as [? _]; [by apply grown_same|done]. }
  apply (Status_inv events) in H1 as [Hlab1 _]; [|done].
  destruct (negb _) in H; [unfold raise in H; injection H as <- <-; by apply grown_same|].
  apply bind_cases in H as [(e & [E1 [E2 _]%new_id_inv]%on_disk_inv & _)|(id & s2 & [E1 [E2 _]%new_id_inv]%on_disk_inv & H)].
  all: destruct s1 as [store d]; cbn [fst snd] in *; pose proof (lab_kept _ _ _ _ (same_kept _ _ E2) Hlab1) as Hlab2; rewrite <- E1, <- surjective_pairing in Hlab2.
  - by apply grown_same.
  - eapply append_then_status; [done|exact Hlab2| |exact H]. apply control_typed.
Qed.

(** Reading, reporting and exporting leave the laboratory alone. *)
Lemma status_then_reads {A} (f : SessionMetadata -> St (Store * Disk) A) events s r s' :
  (forall m, reads (f m)) -> lab events s -> bind Status f s = (r, s') -> lab events s'.
Proof.
  intros Hf Hlab H. apply bind_cases in H as [(e & H & _)|(m & [store d] & H1 & H)].
  - by apply (Status_inv events) in H as [? _].
  - apply (Status_inv events) in H1 as [Hlab1 _]; [|done]. apply Hf in H as [E H]. destruct s' as [store' d']. cbn in *. subst store'.
    by eapply lab_kept.
Qed.

Lemma Events_inv events s r s' : lab events s -> Events s = (r, s') -> lab events s'.
Proof. apply status_then_reads. intros m. unfold readEvents. auto 10 with keeping. Qed.

Lemma Report_inv events s r s' : lab events s -> store_Report s = (r, s') -> lab events s'.
Proof. apply status_then_reads. intros m. unfold report_log. auto 20 with keeping. Qed.

Lemma Export_inv events output s r s' : lab events s -> Export output s = (r, s') -> lab events s'.
Proof. apply status_then_reads. intros m. auto 30 with keeping. Qed.

(** Opening a laboratory reads its manifest. *)
Lemma Open_inv raw d store d' : Open raw d = (Ok store, d') -> kept d d' /\ cachedMetadata store = None.
Proof.
  unfold Open. intros H. apply bind_cases in H as [(e & _ & [=])|(abs & d1 & H1 & H)].
  apply bind_cases in H as [(e & _ & [=])|(mf & d2 & H2 & H)].
  apply wrap_error_cases in H2 as [(? & [E2 _]%readStrictJSON_inv & _)|(? & _ & [=])].
  destruct (_ || _) in H; [by unfold lift, fail in H|]. unfold ret in H. injection H as <- <-. split; [|done].
  etrans; [|by apply same_kept]. unfold safeRoot in H1. destruct (bool_decide _) in H1; [by unfold lift, fail in H1|].
  apply bind_cases in H1 as [(e & _ & [=])|(p & d3 & Hp & H1)].
  apply wrap_error_cases in Hp as [(? & [= _ <-] & _)|(? & _ & [=])].
  destruct (_ || _) in H1; [by unfold lift, fail in H1|]. destruct (match UserHomeDir with Ok _ => _ | Err _ => _ end) in H1; [by unfold lift, fail in H1|].
  destruct (_ <? _) in H1; [by unfold lift, fail in H1|]. apply bind_cases in H1 as [(e & _ & [=])|(inside & d4 & Hg & H1)].
  apply keeps_insideGitWorktree in Hg. destruct inside; [by unfold lift, fail in H1|]. unfold ret in H1. by injection H1 as _ <-.
Qed.

Lemma lab_uncached events store0 d store :
  lab events (store0, d) -> root store = lab_root -> cachedMetadata store = None -> lab events (store, d).
Proof. intros (_ & m & Hs & _ & Hl) Hr Hc. split; [done|]. exists m. split_and!; [done| |done]. intros m' Hm'. cbn in Hm'. congruence. Qed.

Lemma lab_open events store0 d raw store d' :
  lab events (store0, d) -> Open raw d = (Ok store, d') -> root store = lab_root -> lab events (store, d').
Proof. intros Hlab [Hk Hc]%Open_inv Hr. apply (lab_kept _ _ d); [done|]. by eapply lab_uncached. Qed.

(** ** Runs of a laboratory *)

(** One method of a store, or a new process that opens the same root.  The list
    holds the events whose recording was reported as successful. *)
Inductive lab_step : Store * Disk -> list EventV1 -> Store * Disk -> Prop :=
  | step_Status s r s' : Status s = (r, s') -> lab_step s [] s'
  | step_Start now s r s' : fresh_session s.2 -> Start now s = (r, s') -> lab_step s [] s'
  | step_Pause now s r s' : Pause now s = (r, s') -> lab_step s [] s'
  | step_Resume now s r s' : Resume now s = (r, s') -> lab_step s [] s'
  | step_Append event s r s' :
      in_u64 (MonotonicUS event) -> Append event s = (r, s') -> lab_step s (if is_Ok r then [event] else []) s'
  | step_Events s r s' : Events s = (r, s') -> lab_step s [] s'
  | step_Report s r s' : store_Report s = (r, s') -> lab_step s [] s'
  | step_Export output s r s' : Export output s = (r, s') -> lab_step s [] s'
  | step_Open raw s store d' : Open raw s.2 = (Ok store, d') -> root store = lab_root -> lab_step s [] (store, d').

Inductive lab_run : Store * Disk -> list EventV1 -> Store * Disk -> Prop :=
  | run_none s : lab_run s [] s
  | run_step s acks s1 acks' s' : lab_run s acks s1 -> lab_step s1 acks' s' -> lab_run s (acks ++ acks') s'.

Lemma lab_step_inv events s acks s' : sound_logs -> lab events s -> lab_step s acks s' ->
  exists more, lab (events ++ more) s' /\ acks `sublist_of` more.
Proof.
  assert (forall s', grown events s' -> exists more, lab (events ++ more) s' /\ [] `sublist_of` more) as Hgrown.
  { intros s1 [more H]. exists more. split; [exact H|apply sublist_nil_l]. }
  intros Hsound Hlab Hstep.
  destruct Hstep as [s r s' H|now s r s' Hf H|now s r s' H|now s r s' H|event s r s' Hty H|s r s' H|s r s' H|output s r s' H|raw s store d' H Hr].
  - apply (Status_inv events) in H as [H _]; [by apply Hgrown, grown_same|done].
  - apply (Start_inv events) in H as [H|[-> (id & ep & H)]]; try done; [by apply Hgrown, grown_same|].
    exists [start_event id ep (canonicalUTC now)]. split; [exact H|apply sublist_nil_l].
  - apply (Pause_inv events) in H; auto.
  - apply (Resume_inv events) in H; auto.
  - apply (Append_inv events) in H as [[H [e ->]]|H]; try done; [by apply Hgrown, grown_same|].
    exists [event]. split; [exact H|]. destruct (is_Ok r); [done|apply sublist_nil_l].
  - apply (Events_inv events) in H; [by apply Hgrown, grown_same|done].
  - apply (Report_inv events) in H; [by apply Hgrown, grown_same|done].
  - apply (Export_inv events) in H; [by apply Hgrown, grown_same|done].
  - apply Hgrown, grown_same. destruct s as [store0 d]. by eapply lab_open.
Qed.

Lemma lab_run_inv events s acks s' : sound_logs -> lab events s -> lab_run s acks s' ->
  exists more, lab (events ++ more) s' /\ acks `sublist_of` more.
Proof.
  intros Hsound Hlab Hrun. induction Hrun as [s|s acks s1 acks' s' _ IH Hstep]; [exists []; by rewrite app_nil_r|].
  destruct (IH Hlab) as (more & H1 & H2). destruct (lab_step_inv _ _ _ _ Hsound H1 Hstep) as (more' & H3 & H4).
  exists (more ++ more'). rewrite app_assoc. split; [done|by apply sublist_app].
Qed.

(** A log is a well-ordered stream. *)
Lemma lab_ordered events s : lab events s -> well_ordered events.
Proof.
  intros (_ & m & _ & _ & Hl). destruct (bool_decide _); [subst events|destruct Hl as [_ (st & Hst & _) _ _]].
  - by apply (accept_all_ordered [] no_sequence).
  - by apply accept_all_ordered in Hst as [? _].
Qed.

(** C13: the log of a laboratory is append-only and holds what was recorded.
    Whatever the methods of a store do, whichever calls of the operating system
    fail before a line is written, and however often the process is replaced by a
    new one that opens the same root: the events in the log stay, in their order,
    new ones come after them, every event whose [Append] succeeded is among the
    new ones in the order of the calls, and the whole log is a well-ordered
    stream. *)
Theorem lab_log_append_only (events acks : list EventV1) (s s' : Store * Disk) :
  sound_logs -> lab events s -> lab_run s acks s' ->
  exists more, lab (events ++ more) s' /\ acks `sublist_of` more /\ well_ordered (events ++ more).
Proof.
  intros Hsound Hlab Hrun. destruct (lab_run_inv _ _ _ _ Hsound Hlab Hrun) as (more & H1 & H2).
  exists more. split_and!; [done..|]. by eapply lab_ordered.
Qed.

(** ** When no call fails *)

Definition quiet : Prop := forall c path n, fault c path n = None.

(** The directories of the root exist, there is randomness for a name, and no
    temporary file has the next one. *)
Record usable (d : Disk) : Prop := {
  us_directories : Forall (fun path => entries d !! path = Some Directory) (prefixes [] parts);
  us_entropy : 16 <= len (entropy d);
  us_temporary : forall random rest, NewID (entropy d) = Ok (random, rest) ->
    entries d !! path_of (parts ++ [str "." ++ activeName ++ str "." ++ random ++ str ".tmp"]) = None
}.

Lemma usable_same d d' : entries d' = entries d -> entropy d' = entropy d -> usable d -> usable d'.
Proof. intros E1 E2 [U1 U2 U3]. split; rewrite ?E1, ?E2; done. Qed.

Lemma usable_insert d d' path old new : usable d -> entries d !! path = Some (Regular old) ->
  entries d' = <[path := Regular new]> (entries d) -> entropy d' = entropy d -> usable d'.
Proof.
  intros [U1 U2 U3] Ht E1 E2. split; rewrite ?E1, ?E2; [|done|].
  - eapply Forall_impl; [exact U1|]. intros q Hq. cbn. rewrite lookup_insert_ne; [done|]. intros ->. cbn in Hq. congruence.
  - intros random rest Hid. specialize (U3 _ _ Hid). rewrite lookup_insert_ne; [done|]. intros E. rewrite <- E in U3. congruence.
Qed.

Lemma syscall_quiet {A} (c : Call) (path : bytes) (f : gmap bytes Entry -> result (A * gmap bytes Entry)) (d : Disk) : quiet ->
  syscall c path f d = match f (entries d) with Ok (a, files) => (Ok a, tick (set_entries d files)) | Err e => (Err e, tick d) end.
Proof. intros Hq. unfold syscall. by rewrite Hq. Qed.

Lemma ReadFile_quiet path d text : quiet -> entries d !! path = Some (Regular text) ->
  exists d', ReadFile path d = (Ok (text, None), d') /\ entropy d' = entropy d.
Proof. intros Hq Ht. unfold ReadFile, bind. rewrite syscall_quiet, Ht, Hq by done. by eexists. Qed.

Lemma loadMetadata_quiet store d m : quiet -> root store = lab_root -> stored d m ->
  exists d', loadMetadata (store, d) = (Ok m, (store, d')).
Proof.
  intros Hq Hr (text & Ht & Hd & Hc). destruct (ReadFile_quiet _ _ _ Hq Ht) as (d1 & E1 & G1).
  unfold loadMetadata, bind, this, wrap_error, on_disk, readStrictJSON, bind, lift, ret. cbn [fst].
  rewrite active_path_eq by done. rewrite E1. replace (if len text <? readLimit then None else None) with (@None error) by (by destruct (_ <? _)).
  rewrite Hd, Hc. by eexists.
Qed.

Lemma scanSession_quiet events store d m st : quiet -> root store = lab_root -> validID (MSessionID m) = true ->
  EventFile m = session_file (MSessionID m) -> log_of events d m -> accept_all no_sequence events = Ok st ->
  exists d', scanSession (EventFile m) (store, d) = (Ok st, (store, d')) /\ entropy d' = entropy d.
Proof.
  intros Hq Hr Hid -> [(text & Ht & Hl) _ _ _] Hst. unfold scanSession.
  rewrite (bool_decide_false (session_file _ = [])) by (by rewrite session_file_eq).
  destruct (ReadFile_quiet _ _ _ Hq Ht) as (d1 & E1 & G1).
  unfold bind, this, attempt, on_disk, forEachEvent, bind, lift, ret. cbn [fst]. rewrite sessionPath_eq by done. rewrite E1.
  pose proof (scan_logged Accept _ _ no_sequence Hl) as Hsc. rewrite feed_accept, Hst in Hsc. rewrite Hsc. by eexists.
Qed.

Lemma root_listed : path_of parts ∈ prefixes [] parts.
Proof.
  assert (forall above l, l <> [] -> path_of (above ++ l) ∈ prefixes above l) as H; [|by apply (H [])].
  intros above l. revert above. induction l as [|part l IH]; intros above Hl; [done|]. cbn [prefixes].
  destruct l as [|q l]; [apply list_elem_of_here|]. apply list_elem_of_further. rewrite (cons_middle part above), app_assoc. by apply IH.
Qed.

Lemma make_all_there files paths : Forall (fun path => files !! path = Some Directory) paths -> make_all files paths = Ok (tt, files).
Proof. induction 1 as [|path paths H _ IH]; [done|]. cbn. by rewrite H. Qed.

Lemma temporary_simple random : validID random = true -> simple (str "." ++ activeName ++ str "." ++ random ++ str ".tmp").
Proof.
  intros [El Hf]%validID_characters.
  assert (32 < len (str "." ++ activeName ++ str "." ++ random ++ str ".tmp")) as Hlen.
  { rewrite !len_app, El. pose proof (len_nonneg activeName). by vm_compute. }
  split; try (intros E; rewrite E in Hlen; by vm_compute in Hlen).
  rewrite !elem_of_app. intros [Hin|[Hin|[Hin|[Hin|Hin]]]]; try (by apply (bool_decide_eq_true_2 _) in Hin).
  rewrite Forall_forall in Hf. by specialize (Hf _ Hin).
Qed.

Lemma quiet_done {A} (c : Call) (path : bytes) (f : gmap bytes Entry -> result (A * gmap bytes Entry)) (d : Disk) a files :
  quiet -> f (entries d) = Ok (a, files) -> exists d', syscall c path f d = (Ok a, d') /\ entries d' = files /\ entropy d' = entropy d.
Proof. intros Hq Hf. rewrite syscall_quiet, Hf by done. by eexists. Qed.

Lemma replace_with_quiet temporary path text d files old :
  quiet -> entries d = <[temporary := Regular []]> files -> files !! path = Some (Regular old) -> path <> temporary ->
  exists d', replace_with temporary path (Ok text) d = (Ok tt, d').
Proof.
  intros Hq Hd Hold Hne. unfold replace_with.
  assert (exists d1, encode_to temporary (Ok text) d = (Ok tt, d1) /\ entries d1 = <[temporary := Regular text]> files) as (d1 & E1 & F1).
  { unfold encode_to, bind, lift, Write, ret. rewrite Hq, Hd. eexists. split; [done|]. cbn. by rewrite append_to_new. }
  assert (exists d2, sync_close temporary (Ok tt) d1 = (Ok (Ok tt, Ok tt), d2) /\ entries d2 = entries d1) as (d2 & E2 & F2).
  { unfold sync_close, bind, attempt, File_Sync, File_Close, ret. rewrite !syscall_quiet by done. by eexists. }
  assert (exists d3, replaceFile temporary path d2 = (Ok tt, d3)) as (d3 & E3).
  { unfold replaceFile, Rename. rewrite syscall_quiet, F2, F1, lookup_insert_eq, lookup_insert_ne, Hold by done. by eexists. }
  rewrite (bind_ok _ _ _ (Ok tt) d1) by (unfold attempt; by rewrite E1). rewrite (bind_ok _ _ _ _ _ E2).
  rewrite (bind_ok _ _ _ (Ok tt) d3) by (unfold attempt; by rewrite E3). by eexists.
Qed.

Lemma saveMetadata_quiet store d m old : quiet -> root store = lab_root -> usable d -> savable m ->
  entries d !! active_file = Some (Regular old) -> exists d', saveMetadata m (store, d) = (Ok tt, (store, d')).
Proof.
  intros Hq Hr [U1 U2 U3] [S1 S2 S3 S4] Hold. destruct (metadata_roundtrip _ S1 S2 S3 S4) as (text & Henc & _).
  enough (exists d', atomicJSON active_file (encode_metadata m) d = (Ok tt, d')) as [d' E].
  { exists d'. unfold saveMetadata, bind, this, on_disk. cbn [fst]. rewrite active_path_eq by done. by rewrite E. }
  destruct (ReadFull_ok 16 (entropy d)) as (raw & rest & Hraw & Hlen & _); [lia|].
  assert (NewID (entropy d) = Ok (Hex.EncodeToString raw, rest)) as Hid by (unfold NewID; by rewrite Hraw).
  pose proof (U3 _ _ Hid) as Hnone. pose proof (temporary_simple _ (validID_hex _ Hlen)) as Hts. set (random := Hex.EncodeToString raw) in *.
  set (name := str "." ++ activeName ++ str "." ++ random ++ str ".tmp") in *.
  assert (Join [path_of parts; name] = path_of (parts ++ [name])) as Hjoin.
  { apply (Join_path_of parts [name]); try done. by constructor. }
  assert (Forall simple (parts ++ [activeName])) as Hact by apply name_simple, active_simple.
  assert (Forall simple (parts ++ [name])) as Hn by (by apply name_simple).
  unfold atomicJSON. replace (Dir active_file) with (path_of parts) by (unfold active_file; by rewrite Dir_path_of).
  replace (Base active_file) with activeName by (unfold active_file; by rewrite Base_path_of).
  destruct (quiet_done CMkdirAll (path_of parts) (fun files => make_all files (prefixes [] (tail (split_path (path_of parts))))) d tt (entries d) Hq)
    as (d1 & E1 & F1 & G1).
  { rewrite split_path_of by done. by apply make_all_there. }
  rewrite (bind_ok _ _ _ _ _ E1). unfold new_id at 1. unfold bind at 1. rewrite G1, Hid. fold name. rewrite Hjoin.
  set (d2 := mkDisk _ _ _ _).
  destruct (quiet_done COpen (path_of (parts ++ [name])) (fun files =>
    match files !! path_of (parts ++ [name]) with
    | Some Directory => Err EISDIR
    | Some (Regular _) => Err ErrExist
    | None => match files !! Dir (path_of (parts ++ [name])) with
              | Some Directory => Ok (tt, <[path_of (parts ++ [name]) := Regular []]> files)
              | Some (Regular _) => Err ENOTDIR | None => Err ErrNotExist end
    end) d2 tt (<[path_of (parts ++ [name]) := Regular []]> (entries d)) Hq) as (d3 & E3 & F3 & _).
  { cbn [d2 entries]. rewrite F1, Hnone, Dir_path_of by done. rewrite Forall_forall in U1. by rewrite (U1 _ root_listed). }
  rewrite (bind_ok _ _ _ tt d3) by (unfold wrap_error, OpenWrite; by rewrite E3).
  rewrite Henc. destruct (replace_with_quiet (path_of (parts ++ [name])) active_file text d3 (entries d) old) as [d4 E4]; try done.
  { intros E. apply path_of_inj in E; try done; try by destruct parts. apply app_inv_head in E. by injection E. }
  rewrite (bind_ok _ _ _ _ _ E4). unfold syncDirectory, bind, attempt, ret. rewrite syscall_quiet by done. by eexists.
Qed.

Lemma appendEventFile_quiet path event d line old : quiet -> EncodeEventV1 event = Ok line -> entries d !! path = Some (Regular old) ->
  exists d', appendEventFile path event d = (Ok tt, d') /\ entries d' = <[path := Regular (old ++ line ++ [newline])]> (entries d) /\
    entropy d' = entropy d.
Proof.
  intros Hq Henc Hold. unfold appendEventFile. rewrite (bind_ok _ _ _ line d) by (unfold lift; by rewrite Henc).
  assert (OpenWrite false path d = (Ok tt, tick (set_entries d (entries d)))) as E1 by (unfold OpenWrite; by rewrite syscall_quiet, Hold).
  rewrite (bind_ok _ _ _ tt (tick (set_entries d (entries d)))) by (unfold wrap_error; by rewrite E1).
  set (d1 := tick (set_entries d (entries d))).
  assert (exists d2, writeFull path (line ++ [newline]) d1 = (Ok tt, d2) /\ entries d2 = <[path := Regular (old ++ line ++ [newline])]> (entries d)
    /\ entropy d2 = entropy d) as (d2 & E2 & F2 & G2).
  { unfold writeFull. cbn [write_loop]. rewrite bool_decide_false by (by destruct line). unfold bind at 1, Write at 1. rewrite Hq.
    assert (0 < len (line ++ [newline])) by (rewrite len_app; pose proof (len_nonneg line); change (len [newline]) with 1; lia).
    rewrite (proj2 (Z.eqb_neq _ _)) by lia.
    replace (drop (Z.to_nat (len (line ++ [newline]))) (line ++ [newline])) with (@nil byte) by (unfold len; rewrite Nat2Z.id, drop_ge; done).
    destruct (length (line ++ [newline])) eqn:El; [by unfold len in *; rewrite El in *|]. cbn [write_loop]. rewrite (bool_decide_true ([] = [])) by done.
    eexists. split_and!; [done| |done]. cbn [tick set_entries entries d1]. unfold append_to. by rewrite Hold. }
  rewrite (bind_ok _ _ _ (Ok tt) d2) by (unfold attempt; by rewrite E2).
  assert (exists d3, sync_close path (Ok tt) d2 = (Ok (Ok tt, Ok tt), d3) /\ entries d3 = entries d2 /\ entropy d3 = entropy d2) as (d3 & E3 & F3 & G3).
  { unfold sync_close, bind, attempt, File_Sync, File_Close, ret. rewrite !syscall_quiet by done. by eexists. }
  rewrite (bind_ok _ _ _ _ _ E3). unfold syncDirectory, bind, attempt, ret. rewrite syscall_quiet by done.
  eexists. split_and!; [done| |]; cbn; congruence.
Qed.

(** [Status] with the metadata in the cache. *)
Lemma Status_cached store d m : cachedMetadata store = Some m -> Status (store, d) = (Ok m, (store, d)).
Proof. intros Hm. unfold Status, bind, this. cbn [fst]. by rewrite Hm. Qed.

(** [Status] of a store that was just opened. *)
Lemma Status_quiet events store d : quiet -> usable d -> lab events (store, d) -> cachedMetadata store = None ->
  exists m s1, Status (store, d) = (Ok m, s1).
Proof.
  intros Hq Hu Hlab Hc. pose proof Hlab as (Hr & m & Hs & _ & Hl). cbn [fst snd] in *.
  destruct (loadMetadata_quiet _ _ _ Hq Hr Hs) as [d1 E1]. destruct (loadMetadata_inv (store, d) _ _ Hr E1) as (_ & F1 & G1 & _). cbn [fst snd] in *.
  unfold Status. rewrite (bind_ok _ _ _ store (store, d)) by done. rewrite Hc, (bind_ok _ _ _ _ _ E1).
  destruct (bool_decide (MSessionID m = [])) eqn:Eid; [by eexists _, _|]. bools. pose proof Hs as (old & Hold & _ & Hck).
  destruct (check_active _ Hck Eid) as (Hvid & _ & Hfile & _). pose proof Hl as [_ (st & Hst & Hsess) (es1 & es2 & st1 & Hes & Hne1 & Hst1 & Hag) Hty].
  assert (log_of events d1 m) as Hl1 by (eapply log_of_kept; [by apply kept_kept_but, same_kept|done|done]).
  destruct (scanSession_quiet _ _ _ _ _ Hq Hr Hvid Hfile Hl1 Hst) as (d2 & E2 & G2).
  destruct (scanSession_inv events (store, d1) m _ _ Hr Hvid Hfile Hl1 E2) as (_ & F2 & _).
  rewrite (bind_ok _ _ _ _ _ E2).
  enough (exists m' d3, reconcile m st (store, d2) = (Ok m', (store, d3))) as (m' & d3 & E3) by (rewrite (bind_ok _ _ _ _ _ E3); by eexists _, _).
  pose proof (log_of_nonempty _ _ _ Hl) as Hne. subst events. destruct (accepted_prefix _ _ _ _ Hst1 Hst Hne1) as (Hseq & _ & Hsame).
  pose proof (len_nonneg es2). destruct Hag as [Ha1 Ha2]. unfold reconcile.
  rewrite Hsess, (bool_decide_true (MSessionID m = MSessionID m)), andb_false_r by done.
  rewrite (proj2 (Z.ltb_ge (LastSeq st) (MLastSeq m))) by lia. rewrite !Z.gtb_ltb.
  destruct (Z.ltb_spec (MLastSeq m) (LastSeq st)) as [Hlt|Hge].
  - rewrite (bind_ok _ _ _ (clock (calls d2)) (store, tick d2)) by done. cbn zeta.
    destruct (saveMetadata_quiet store (tick d2) (advance_metadata m st (canonicalUTC (clock (calls d2)))) old) as [d4 E4]; try done.
    + apply (usable_same d); [|cbn; congruence|done]. cbn in *. congruence.
    + eapply advance_savable; try done. unfold isCanonicalUTC. rewrite parse_canonical by apply clock_readable. by rewrite bool_decide_true.
    + change (entries (tick d2)) with (entries d2). cbn in F2. by rewrite F2, F1.
    + rewrite (bind_ok _ _ _ tt (store, d4)) by (unfold wrap_error; by rewrite E4). by eexists _, _.
  - assert (es2 = []) as -> by (destruct es2; [done|]; rewrite len_cons in *; pose proof (len_nonneg es2); lia).
    pose proof (Hsame eq_refl) as ->. rewrite Ha2, andb_false_r. by eexists _, _.
Qed.

(** [Events] of a store with its metadata in the cache. *)
Lemma Events_quiet events store d m : quiet -> lab events (store, d) -> cachedMetadata store = Some m ->
  MLastSeq m = len events /\ exists s', Events (store, d) = (Ok events, s').
Proof.
  intros Hq Hlab Hm. pose proof Hlab as (Hr & m0 & Hs & Hc & Hl). cbn [fst snd] in *. destruct (Hc _ Hm) as (Hck & Hid & Hcache).
  unfold Events. rewrite (bind_ok _ _ _ m (store, d)) by (unfold Status, bind, this; cbn [fst]; by rewrite Hm).
  destruct (bool_decide (MSessionID m0 = [])) eqn:Eid; bools.
  - subst events. assert (MLastSeq m = 0 /\ EventFile m = []) as [-> Hf].
    { rewrite <- Hid in Eid. pose proof (check_idle _ Hck Eid) as Hst. unfold check_metadata in Hck.
      destruct (negb (bool_decide (MVersion m = _))); [done|]. destruct (negb (isCanonicalUTC _)); [done|].
      rewrite Hst, bool_decide_true in Hck by done. apply reject_if_Ok in Hck. by bools. }
    split; [done|]. rewrite Hf, bool_decide_true by done. by eexists.
  - destruct (Hcache Eid) as (st & Hst & [Hag _] & _). rewrite <- Hid in Eid. destruct (check_active _ Hck Eid) as (Hvid & _ & Hfile & _).
    pose proof (log_of_nonempty _ _ _ Hl) as Hne. destruct (accepted_populated _ _ Hst Hne) as [_ _ P3 _ _]. split; [congruence|].
    rewrite Hfile, (bool_decide_false (session_file _ = [])) by (by rewrite session_file_eq).
    rewrite (bind_ok _ _ _ store (store, d)) by done. rewrite (bind_ok _ _ _ (log_file (MSessionID m)) (store, d)) by (unfold lift; by rewrite sessionPath_eq).
    destruct Hl as [(text & Ht & Hlog) _ _ _]. rewrite <- Hid in Ht. destruct (ReadFile_quiet _ _ _ Hq Ht) as (d1 & E1 & _).
    unfold on_disk, readEvents, forEachEvent, bind, lift. rewrite E1.
    pose proof (scan_logged (fun es e => Ok (es ++ [e])) _ _ [] Hlog) as Hsc. rewrite feed_collect in Hsc. rewrite Hsc. by eexists.
Qed.

(** Recording works.  On a machine without failures, a store that knows its
    session records every event the sequence rules accept, and rejects any other
    with the reason of the rules and without touching a file. *)
Theorem append_records (events : list EventV1) (store : Store) (d : Disk) (m : SessionMetadata) (event : EventV1) :
  quiet -> usable d -> lab events (store, d) -> cachedMetadata store = Some m -> State m <> disabled -> in_u64 (MonotonicUS event) ->
  match Accept (cachedSequence store) event with
  | Ok _ => exists s', Append event (store, d) = (Ok tt, s') /\ lab (events ++ [event]) s'
  | Err e => Append event (store, d) = (Err (Errorf_w "reject event: %w" e), (store, d))
  end.
Proof.
  intros Hq Hu Hlab Hm Hst Hmono. destruct (Accept (cachedSequence store) event) as [state|e] eqn:Hacc.
  - enough (exists s', Append event (store, d) = (Ok tt, s')) as [s' E].
    { exists s'. split; [done|]. assert (sound_logs) as Hsound by (intros id _ n; rewrite !Hq; done).
      destruct (Append_inv _ _ _ _ _ Hsound Hlab Hmono E) as [[_ [? [=]]]|?]. done. }
    destruct (lab_session _ _ _ _ Hlab Hm Hst) as (m0 & st & Hs & Hid0 & Hne & Hck & Hl & Hacc_all & Hag & Hcov).
    destruct (check_active _ Hck Hne) as (Hvid & _ & Hfile & _). pose proof Hlab as (Hroot & _). cbn in Hroot.
    destruct (Accept_covers _ _ _ _ Hcov Hacc) as (st' & Hacc' & Hcov').
    assert (accept_all no_sequence (events ++ [event]) = Ok st') as Hall by (rewrite accept_all_app, Hacc_all; cbn; by rewrite Hacc').
    pose proof Hacc as (? & ? & ? & Hv & _)%Accept_inv. destruct (canonical_of_event _ Hv) as [Hcan _].
    destruct (advance_savable m (events ++ [event]) st' (UTC event) Hck Hne ltac:(by destruct events) Hall
      ltac:(apply Forall_app; split; [by destruct Hl|by constructor; [|constructor]]) Hcan) as [Hsv _]. rewrite <- (advance_covers _ _ _ _ Hcov') in Hsv.
    destruct (valid_encodes _ Hv) as [line Henc].
    destruct Hl as [(text & Ht & _) _ _ _]. rewrite Hid0 in Ht.
    destruct (appendEventFile_quiet _ _ _ _ _ Hq Henc Ht) as (d1 & E1 & F1 & G1). destruct Hs as (old & Hold & _).
    unfold Append. rewrite (bind_ok _ _ _ _ _ (Status_cached _ _ _ Hm)), bool_decide_false by done.
    rewrite (bind_ok _ _ _ store (store, d)) by done. rewrite (bind_ok _ _ _ state (store, d)) by (unfold wrap_error, lift; by rewrite Hacc).
    unfold share_episodes, bind at 1. set (store1 := mkStore _ _ _ _). rewrite Hfile, (sessionPath_eq store) by done.
    rewrite (bind_ok _ _ _ (log_file (MSessionID m)) (store1, d)) by done.
    rewrite (bind_ok _ _ _ tt (store1, d1)) by (unfold on_disk; by rewrite E1).
    destruct (saveMetadata_quiet store1 d1 (advance_metadata m state (UTC event)) old Hq Hroot) as [d2 E2]; try done.
    + by eapply usable_insert.
    + rewrite F1, lookup_insert_ne; [done|]. by apply log_not_active.
    + rewrite (bind_ok _ _ _ (Ok tt) (store1, d2)) by (unfold attempt; by rewrite E2). by eexists.
  - unfold Append. rewrite (bind_ok _ _ _ _ _ (Status_cached _ _ _ Hm)), bool_decide_false by done.
    rewrite (bind_ok _ _ _ store (store, d)) by done. unfold bind, wrap_error, lift. by rewrite Hacc.
Qed.

(** A process without a cache gets a status that covers the whole log, also when
    the metadata on disk are behind it and have to be repaired first. *)
Lemma recovered_quiet (events : list EventV1) (store : Store) (d : Disk) :
  quiet -> usable d -> lab events (store, d) -> cachedMetadata store = None ->
  exists m s1 s2, Status (store, d) = (Ok m, s1) /\ MLastSeq m = len events /\ Events s1 = (Ok events, s2) /\ lab events s1.
Proof.
  intros Hq Hu Hlab Hc. destruct (Status_quiet _ _ _ Hq Hu Hlab Hc) as (m & [store1 d1] & E).
  destruct (Status_inv _ _ _ _ Hlab E) as [Hlab1 Hm]. specialize (Hm _ eq_refl). cbn in Hm.
  destruct (Events_quiet _ _ _ _ Hq Hlab1 Hm) as [Hlen [s2 E2]]. by exists m, (store1, d1), s2.
Qed.

(** ** When an append fails after its write *)

(** A successful recording with the metadata in the cache. *)
Lemma Append_cached_ok store d m event s' :
  cachedMetadata store = Some m -> root store = lab_root -> validID (MSessionID m) = true -> EventFile m = session_file (MSessionID m) ->
  Append event (store, d) = (Ok tt, s') ->
  exists state line, Accept (cachedSequence store) event = Ok state /\ EncodeEventV1 event = Ok line /\
    entries s'.2 !! log_file (MSessionID m) = Some (Regular (contents d (log_file (MSessionID m)) ++ line ++ [newline])) /\
    (savable (advance_metadata m state (UTC event)) -> stored s'.2 (advance_metadata m state (UTC event))) /\
    (cachedMetadata s'.1 = Some (advance_metadata m state (UTC event)) /\ cachedSequence s'.1 = state) /\ root s'.1 = lab_root.
Proof.
  intros Hm Hr Hid Hf H. unfold Append in H. rewrite (bind_ok _ _ _ m (store, d)) in H by (unfold Status, bind, this; cbn [fst]; by rewrite Hm).
  destruct (bool_decide _) in H; [done|]. rewrite (bind_ok _ _ _ store (store, d)) in H by done.
  apply bind_cases in H as [(e & _ & [=])|(state & s1 & H1 & H)]. apply wrap_error_cases in H1 as [(? & [= Hacc <-] & [= <-])|(? & _ & [=])].
  rewrite (bind_ok _ _ _ tt (mkStore (root store) (manifest store) (cachedMetadata store) (shared_with (cachedSequence store) state), d)) in H by done.
  rewrite Hf, sessionPath_eq in H by done. apply bind_cases in H as [(e & [=] & _)|(path & s1 & [= <- <-] & H)].
  apply bind_cases in H as [(e & _ & [=])|([] & s1 & [E1 H1]%on_disk_inv & H)]. apply appendEventFile_inv in H1 as [_ (line & Henc & Hnew)].
  apply bind_cases in H as [(e & _ & [=])|(saved & s2 & (r1 & H1 & [= ->])%attempt_inv & H)].
  apply saveMetadata_inv in H1 as (E2 & Hk & Hsaved); [|by rewrite E1].
  destruct r1 as [[]|e]; [|apply bind_cases in H as [(e' & _ & [=])|(? & ? & _ & [=])]].
  exists state, line. unfold set_cache in H. destruct s2 as [store2 d2]. injection H as <-. cbn [fst snd] in *. split_and!; try done.
  - apply Hk; [by apply log_not_active|done].
  - cbn. by rewrite E2, E1.
Qed.

(** Two events that are accepted after the same list have the same number, and
    the list with both of them is rejected. *)
Lemma repeated_seq events event event2 st st1 st2 :
  accept_all no_sequence events = Ok st -> Accept st event = Ok st1 -> Accept st event2 = Ok st2 ->
  Seq event2 = Seq event /\ forall st3, accept_all no_sequence (events ++ [event; event2]) <> Ok st3.
Proof.
  intros Hall H1 H2.
  assert (forall es e s, accept_all no_sequence (es ++ [e]) = Ok s -> Seq e = len es + 1) as Hseq.
  { intros es e s H. destruct (accepted_populated _ _ H ltac:(by destruct es)) as [_ _ P _ _]. rewrite accept_all_app in H.
    destruct (accept_all no_sequence es) as [s0|]; [|done]. cbn in H. destruct (Accept s0 e) as [s0'|] eqn:E; [|done]. injection H as <-.
    apply Accept_inv in E as (? & ? & ? & _ & _ & _ & _ & ->). cbn in P. rewrite P, len_app. done. }
  assert (Seq event = len events + 1) as E1 by (eapply Hseq; rewrite accept_all_app, Hall; cbn; by rewrite H1).
  assert (Seq event2 = len events + 1) as E2 by (eapply Hseq; rewrite accept_all_app, Hall; cbn; by rewrite H2).
  split; [congruence|]. intros st3 H3. change [event; event2] with ([event] ++ [event2]) in H3. rewrite app_assoc in H3. apply Hseq in H3.
  rewrite len_app in H3. change (len [event]) with 1 in H3. lia.
Qed.

(** *** A log that no process accepts *)

Section lost.

(** The lines the log begins with are rejected, whatever follows them. *)
Context (bad id : bytes) (Hvid : validID id = true).
Hypothesis Hbad : forall rest err, exists e, scan_events Accept no_sequence (bad ++ rest) err = Err e.

(** The log of the session is lost.  A store may still hold a cache that describes
    some other, acceptable list of events, and go on recording with it. *)
Record lost (s : Store * Disk) : Prop := {
  lost_root : root s.1 = lab_root;
  lost_log : exists rest, entries s.2 !! log_file id = Some (Regular (bad ++ rest));
  lost_stored : exists m, stored s.2 m /\ MSessionID m = id /\ 1 <= MLastSeq m;
  lost_cache : forall m, cachedMetadata s.1 = Some m -> check_metadata m = Ok tt /\ MSessionID m = id /\
    exists events st, events <> [] /\ accept_all no_sequence events = Ok st /\ covers st (cachedSequence s.1) /\
      Forall (fun e => in_u64 (MonotonicUS e)) events
}.

Lemma id_nonempty : id <> [].
Proof. intros ->. by vm_compute in Hvid. Qed.

Lemma lost_kept store d d' : kept d d' -> lost (store, d) -> lost (store, d').
Proof.
  intros Hk [H1 [rest H2] (m & H3 & H4) H5]. split; try done; [exists rest; by apply Hk|]. exists m. split; [by eapply stored_kept|done].
Qed.

Lemma lost_uncached store store' d : lost (store, d) -> root store' = lab_root -> cachedMetadata store' = None -> lost (store', d).
Proof. intros [H1 H2 H3 _] Hr Hc. split; try done. cbn. congruence. Qed.

(** Scanning the lost log gives an error or, when a call denies the file, nothing. *)
Lemma lost_scan s m r s' :
  lost s -> EventFile m = session_file id -> scanSession (EventFile m) s = (r, s') ->
  s'.1 = s.1 /\ entries s'.2 = entries s.2 /\ (forall st, r = Ok st -> st = no_sequence).
Proof.
  intros [Hr [rest Hlog] _ _] -> H. unfold scanSession in H. rewrite (bool_decide_false (session_file _ = [])) in H by (by rewrite session_file_eq).
  rewrite (bind_ok _ _ _ s.1 s) in H by done. rewrite sessionPath_eq in H by done.
  apply bind_cases in H as [(e & [=] & _)|(path & s1 & [= <- <-] & H)].
  apply bind_cases in H as [(e & (? & _ & [=])%attempt_inv & _)|(scanned & s1 & (r1 & [E1 H1]%on_disk_inv & [= ->])%attempt_inv & H)].
  assert (entries s1.2 = entries s.2 /\ exists e, r1 = Err e) as [E2 [e ->]].
  { unfold forEachEvent in H1. apply bind_cases in H1 as [(e & [E _]%ReadFile_inv & ->)|([txt err] & d1 & [E Hread]%ReadFile_inv & H1)]; [eauto|].
    unfold lift in H1. injection H1 as <- <-. split; [done|]. destruct err as [e|]; [apply scan_failed|].
    destruct (Hread _ _ eq_refl) as [[_ [? [=]]]|(c & n & Hc & _ & Hn)]. rewrite (Hn eq_refl). rewrite Hlog in Hc. injection Hc as <-. apply Hbad. }
  destruct (errors_Is e ErrNotExist); unfold ret, raise in H; injection H as <- <-; split_and!; try done. by intros st [= <-].
Qed.

(** A process without a cache gets no status and changes nothing. *)
Lemma lost_status s r s' : lost s -> Status s = (r, s') ->
  s'.1 = s.1 /\ entries s'.2 = entries s.2 /\ match cachedMetadata s.1 with Some m => r = Ok m | None => exists e, r = Err e end.
Proof.
  intros Hlost H. pose proof Hlost as [Hr _ (m & Hm & Hid & Hseq) _]. unfold Status in H. rewrite (bind_ok _ _ _ s.1 s) in H by done.
  destruct (cachedMetadata s.1) as [m'|]; [by injection H as <- <-|].
  apply bind_cases in H as [(e & H & ->)|(m' & s1 & H1 & H)]; [apply loadMetadata_inv in H as (E1 & E2 & _); [|done]; split_and!; eauto|].
  apply loadMetadata_inv in H1 as (E1 & E2 & _ & Hm'); [|done]. pose proof (stored_unique _ _ _ Hm (Hm' _ eq_refl)) as <-.
  rewrite bool_decide_false in H by (rewrite Hid; apply id_nonempty). destruct Hm as (? & _ & _ & Hck).
  destruct (check_active _ Hck) as (_ & _ & Hfile & _); [rewrite Hid; apply id_nonempty|]. rewrite Hid in Hfile.
  assert (lost s1) as Hlost1.
  { destruct s as [store d], s1 as [store1 d1]. cbn in *. subst store1. by eapply lost_kept; [apply same_kept|]. }
  apply bind_cases in H as [(e & H & ->)|(st & s2 & H1 & H)].
  { apply lost_scan in H as (E3 & E4 & _); try done. split_and!; [congruence..|eauto]. }
  apply lost_scan in H1 as (E3 & E4 & Hst); try done. rewrite (Hst _ eq_refl) in H.
  assert (reconcile m no_sequence s2 = (fail "append-only event log is behind session metadata", s2)) as Hrec.
  { unfold reconcile. cbn [no_sequence SeqSession LastSeq]. rewrite (bool_decide_true ([] = [])) by done. cbn [negb andb].
    by rewrite (proj2 (Z.ltb_lt 0 (MLastSeq m))) by lia. }
  unfold bind in H. rewrite Hrec in H. cbv beta iota in H. injection H as <- <-. split_and!; [congruence..|eauto].
Qed.

Lemma lost_after_status s r s' : lost s -> Status s = (r, s') -> lost s'.
Proof.
  intros Hlost H. destruct (lost_status _ _ _ Hlost H) as (E1 & E2 & _). destruct s as [store d], s' as [store' d']. cbn in *. subst store'.
  by eapply lost_kept; [apply same_kept|].
Qed.

(** Recording goes on for the process with the cache; what it writes comes after
    the rejected lines. *)
Lemma lost_append s event r s' : lost s -> in_u64 (MonotonicUS event) -> Append event s = (r, s') -> lost s'.
Proof.
  intros Hlost Hmono H. unfold Append in H.
  apply bind_cases in H as [(e & H & _)|(m & s1 & H1 & H)]; [by eapply lost_after_status|].
  pose proof (lost_after_status _ _ _ Hlost H1) as Hlost1. destruct (lost_status _ _ _ Hlost H1) as (E1 & _ & Hc). rewrite <- E1 in Hc.
  destruct (cachedMetadata s1.1) as [m'|] eqn:Em; [injection Hc as <-|by destruct Hc]. clear Hlost H1 E1 s.
  destruct s1 as [store d]. destruct (bool_decide _) in H; [unfold lift, fail in H; by injection H as <- <-|].
  pose proof Hlost1 as [Hr [rest Hlog] (m0 & Hs & Hid0 & Hseq) Hcache]. destruct (Hcache _ Em) as (Hck & Hid & events & st & Hne & Hst & Hcov & Hty).
  cbn [fst snd] in *. destruct (check_active _ Hck) as (_ & _ & Hfile & _); [rewrite Hid; apply id_nonempty|]. rewrite Hid in Hfile.
  rewrite (bind_ok _ _ _ store (store, d)) in H by done.
  apply bind_cases in H as [(e & H & _)|(state & s1 & H1 & H)]; [by apply wrap_error_cases in H as [(? & _ & [=])|(? & [= _ <-] & _)]|].
  apply wrap_error_cases in H1 as [(? & [= Hacc <-] & [= <-])|(? & _ & [=])].
  destruct (Accept_covers _ _ _ _ Hcov Hacc) as (st' & Hacc' & Hcov').
  set (store1 := mkStore (root store) (manifest store) (cachedMetadata store) (shared_with (cachedSequence store) state)).
  rewrite (bind_ok _ _ _ tt (store1, d)) in H by done.
  assert (forall d', (exists rest, entries d' !! log_file id = Some (Regular (bad ++ rest))) -> stored d' m0 -> lost (store1, d')) as Hlost2.
  { intros d' Hd' Hs'. split; [done|done|by exists m0|]. intros m2 Hm2. cbn in Hm2. rewrite Em in Hm2. injection Hm2 as <-. split_and!; [done..|].
    exists events, st. split_and!; try done. by eapply shared_covers. }
  rewrite Hfile, sessionPath_eq in H by done. apply bind_cases in H as [(e & [=] & _)|(path & s1 & [= <- <-] & H)].
  assert (forall r1 s1, on_disk (appendEventFile (log_file id) event) (store1, d) = (r1, s1) -> s1.1 = store1 /\ lost s1) as Happend.
  { intros r1 [store2 d2] [E H1]%on_disk_inv. cbn in E. subst store2. split; [done|]. destruct (appendEventFile_inv _ _ _ _ _ H1) as [Hk _].
    apply appendEventFile_effect in H1 as [Hd2 _]. apply Hlost2.
    - cbn [snd] in *. destruct Hd2 as [-> |[part ->]]; [eauto|]. rewrite lookup_insert_eq. unfold contents. rewrite Hlog, <- app_assoc. eauto.
    - destruct Hs as (text & Ht & Hd & Hc). exists text. split; [|done]. apply Hk; [|done]. symmetry. by apply log_not_active. }
  apply bind_cases in H as [(e & [_ H]%Happend & _)|([] & [store2 d2] & [E2 Hlost3]%Happend & H)]; [done|]. cbn in E2. subst store2.
  destruct (canonical_of_event event) as [Hcan _]; [by apply Accept_inv in Hacc as (? & ? & ? & ? & _)|].
  assert (accept_all no_sequence (events ++ [event]) = Ok st') as Hall by (rewrite accept_all_app, Hst; cbn; by rewrite Hacc').
  assert (Forall (fun e => in_u64 (MonotonicUS e)) (events ++ [event])) as Hty' by (apply Forall_app; split; [done|by constructor]).
  assert (events ++ [event] <> []) as Hne' by (by destruct events).
  destruct (advance_savable m _ st' (UTC event) Hck ltac:(rewrite Hid; apply id_nonempty) Hne' Hall Hty' Hcan) as [Hsv _].
  destruct (accepted_populated _ _ Hall Hne') as [_ _ P3 P4 _]. rewrite (advance_covers _ _ _ _ Hcov') in H.
  apply bind_cases in H as [(e & (? & _ & [=])%attempt_inv & _)|(saved & [store3 d3] & (r1 & H1 & [= ->])%attempt_inv & H)].
  apply saveMetadata_inv in H1 as (E3 & Hk3 & Hsaved); [|done]. cbn [fst snd] in *. subst store3.
  pose proof Hlost3 as [_ [rest3 Hlog3] (m3 & Hs3 & Hid3) _]. cbn [snd] in *.
  assert (entries d3 !! log_file id = Some (Regular (bad ++ rest3))) as Hlog4 by (apply Hk3; [by apply log_not_active|done]).
  destruct r1 as [[]|e].
  - unfold set_cache in H. injection H as <- <-. split; [done|by exists rest3|..].
    + exists (advance_metadata m st' (UTC event)). split_and!; [by apply Hsaved|done|cbn; lia].
    + intros m2 [= <-]. split_and!; [by destruct Hsv|done|]. by exists (events ++ [event]), st'.
  - apply bind_cases in H as [(e' & [=] & _)|([] & s1 & [= <-] & H)]. unfold raise in H. injection H as <- <-.
    split; [done|by exists rest3| |done]. exists m3. split; [by eapply stored_kept|done].
Qed.

Lemma lost_then_reads {A} (f : SessionMetadata -> St (Store * Disk) A) s r s' :
  (forall m, reads (f m)) -> lost s -> bind Status f s = (r, s') -> lost s'.
Proof.
  intros Hf Hlost H. apply bind_cases in H as [(e & H & _)|(m & [store d] & H1 & H)]; [by eapply lost_after_status|].
  apply lost_after_status in H1; [|done]. apply Hf in H as [E H]. destruct s' as [store' d']. cbn in *. subst store'. by eapply lost_kept.
Qed.

Lemma lost_append_status s event r s' :
  lost s -> in_u64 (MonotonicUS event) -> bind (Append event) (fun _ => Status) s = (r, s') -> lost s'.
Proof.
  intros Hlost Hty H. apply bind_cases in H as [(e & H & _)|([] & s1 & H1 & H)]; [by eapply lost_append|].
  apply lost_append in H1; [|done..]. by eapply lost_after_status.
Qed.

Lemma lost_pause now s r s' : lost s -> Pause now s = (r, s') -> lost s'.
Proof.
  intros Hlost H. unfold Pause in H. apply bind_cases in H as [(e & H & _)|(m & s1 & H1 & H)]; [by eapply lost_after_status|].
  apply lost_after_status in H1; [|done]. destruct (negb _) in H; [unfold raise in H; by injection H as <- <-|].
  eapply lost_append_status; [exact H1| |exact H]. apply control_typed.
Qed.

Lemma lost_resume now s r s' : lost s -> Resume now s = (r, s') -> lost s'.
Proof.
  intros Hlost H. unfold Resume in H. apply bind_cases in H as [(e & H & _)|(m & s1 & H1 & H)]; [by eapply lost_after_status|].
  apply lost_after_status in H1; [|done]. destruct (negb _) in H; [unfold raise in H; by injection H as <- <-|].
  destruct s1 as [store d].
  apply bind_cases in H as [(e & [E1 [E2 _]%new_id_inv]%on_disk_inv & _)|(ep & s2 & [E1 [E2 _]%new_id_inv]%on_disk_inv & H)];
    cbn [fst snd] in *; pose proof (lost_kept _ _ _ (same_kept _ _ E2) H1) as Hlost2; rewrite <- E1, <- surjective_pairing in Hlost2; [done|].
  eapply lost_append_status; [exact Hlost2| |exact H]. apply control_typed.
Qed.

(** [Start] finds a session that is running or paused. *)
Lemma lost_start now s r s' : lost s -> Start now s = (r, s') -> lost s'.
Proof.
  intros Hlost H. pose proof Hlost as [Hr _ (m & Hm & Hid & _) _]. destruct s as [store d]. unfold Start in H.
  apply bind_cases in H as [(e & (E1 & E2 & _)%loadMetadata_inv & _)|(m' & s1 & (E1 & E2 & _ & Hm')%loadMetadata_inv & H)]; [|done| |done];
    cbn [fst snd] in *; pose proof (lost_kept _ _ _ (same_kept _ _ E2) Hlost) as Hlost2; rewrite <- E1, <- surjective_pairing in Hlost2; [done|].
  rewrite <- (stored_unique _ _ _ Hm (Hm' _ eq_refl)) in H. destruct Hm as (? & _ & _ & Hck).
  rewrite (bool_decide_false (State m = disabled)) in H by (apply check_active; [done|rewrite Hid; apply id_nonempty]).
  cbn [negb] in H. unfold raise in H. by injection H as <- <-.
Qed.

Lemma lost_step s acks s' : lost s -> lab_step s acks s' -> lost s'.
Proof.
  intros Hlost Hstep.
  destruct Hstep as [s r s' H|now s r s' _ H|now s r s' H|now s r s' H|event s r s' Hty H|s r s' H|s r s' H|output s r s' H|raw s store d' H Hr].
  - by eapply lost_after_status.
  - by eapply lost_start.
  - by eapply lost_pause.
  - by eapply lost_resume.
  - by eapply lost_append.
  - eapply lost_then_reads; [|exact Hlost|exact H]. intros m. unfold readEvents. auto 10 with keeping.
  - eapply lost_then_reads; [|exact Hlost|exact H]. intros m. unfold report_log. auto 20 with keeping.
  - eapply lost_then_reads; [|exact Hlost|exact H]. intros m. cbv beta. auto 30 with keeping.
  - apply Open_inv in H as [Hk Hc]. destruct s as [store0 d]. eapply lost_kept; [exact Hk|]. by eapply lost_uncached.
Qed.

Lemma lost_run s acks s' : lost s -> lab_run s acks s' -> lost s'.
Proof. intros Hlost Hrun. induction Hrun as [|s acks s1 acks' s' _ IH Hstep]; [done|]. by eapply lost_step; [apply IH|]. Qed.

End lost.

(** C40: a log that reports a failure after the line was written can be lost.  When
    the write of a line succeeds but its [Sync] or [Close] fails, the cached state
    does not move although the line is in the log.  The next event that the
    process records successfully has the same sequence number, and both lines are
    in the log.  From then on the session cannot be opened: after every further
    run of the methods of that store and of processes that open the root, with
    any calls failing or none, the [Status] of a process that has no cache yet is
    an error.  (The process that holds the cache goes on recording.) *)
Theorem torn_append_loses_log (events : list EventV1) (store store2 : Store) (d d1 d2 : Disk) (m : SessionMetadata)
    (event event2 : EventV1) (state : SequenceState) (line : bytes) (e : error) :
  lab events (store, d) -> cachedMetadata store = Some m -> State m <> disabled -> Accept (cachedSequence store) event = Ok state ->
  appendEventFile (log_file (MSessionID m)) event d = (Err e, d1) ->
  EncodeEventV1 event = Ok line ->
  entries d1 !! log_file (MSessionID m) = Some (Regular (contents d (log_file (MSessionID m)) ++ line ++ [newline])) ->
  in_u64 (MonotonicUS event2) -> Append event2 (Append event (store, d)).2 = (Ok tt, (store2, d2)) ->
  Seq event2 = Seq event /\
  (exists text, entries d2 !! log_file (MSessionID m) = Some (Regular text) /\ logged (events ++ [event; event2]) text) /\
  (forall acks s1 s r s', lab_run (store2, d2) acks s1 ->
     root s.1 = lab_root -> cachedMetadata s.1 = None -> entries s.2 = entries s1.2 -> Status s = (r, s') -> exists e', r = Err e').
Proof.
  intros Hlab Hm Hst Hacc Ha Henc Hnew Hmono H.
  destruct (lab_session _ _ _ _ Hlab Hm Hst) as (m0 & st & Hs & Hid0 & Hne & Hck & Hl & Hacc_all & Hag & Hcov).
  destruct (check_active _ Hck Hne) as (Hvid & _ & Hfile & _). pose proof Hlab as (Hroot & _). cbn in Hroot.
  rewrite (Append_failed store d m state event (log_file (MSessionID m)) e d1) in H by (try done; by rewrite Hfile; apply sessionPath_eq).
  cbn [snd] in H. apply (Append_cached_ok _ _ m) in H as (state2 & line2 & Hacc2 & Henc2 & Hlog2 & Hsaved & Hcache2 & Hroot2); try done. cbn [fst snd cachedSequence root] in *.
  pose proof (shared_covers _ _ _ _ Hcov Hacc) as Hcov1.
  destruct (Accept_covers _ _ _ _ Hcov Hacc) as (st1 & Hst1 & _). destruct (Accept_covers _ _ _ _ Hcov1 Hacc2) as (st2 & Hst2 & Hcov2).
  pose proof (log_of_nonempty _ _ _ Hl) as Hnonempty.
  destruct (repeated_seq events event event2 st st1 st2 Hacc_all Hst1 Hst2) as [Hsame Hrejected].
  unfold contents at 1 in Hlog2. rewrite Hnew in Hlog2.
  destruct Hl as [(text & Ht & Hlogged) _ _ Htyped]. rewrite Hid0 in Ht. unfold contents in Hlog2. rewrite Ht in Hlog2.
  assert (logged (events ++ [event; event2]) ((text ++ line ++ [newline]) ++ line2 ++ [newline])) as Hlogged2.
  { change [event; event2] with ([event] ++ [event2]). rewrite app_assoc. apply logged_snoc; [by apply logged_snoc|done]. }
  split_and!; [done|by eexists|].
  assert (accept_all no_sequence (events ++ [event2]) = Ok st2) as Hall2 by (rewrite accept_all_app, Hacc_all; cbn; by rewrite Hst2).
  assert (events ++ [event2] <> []) as Hne2 by (by destruct events).
  assert (Forall (fun e => in_u64 (MonotonicUS e)) (events ++ [event2])) as Hty2 by (apply Forall_app; split; [done|by constructor]).
  rewrite (advance_covers _ _ _ _ Hcov2) in Hsaved, Hcache2.
  destruct (canonical_of_event event2) as [Hcan _]; [by apply Accept_inv in Hacc2 as (? & ? & ? & ? & _)|].
  destruct (advance_savable m (events ++ [event2]) st2 (UTC event2) Hck Hne Hne2 Hall2 Hty2 Hcan) as [Hsv _].
  destruct (accepted_populated _ _ Hall2 Hne2) as [_ _ P3 P4 _].
  set (bad := (text ++ line ++ [newline]) ++ line2 ++ [newline]) in *.
  assert (forall rest err, exists e', scan_events Accept no_sequence (bad ++ rest) err = Err e') as Hbad.
  { intros rest err. destruct (accept_all no_sequence (events ++ [event; event2])) as [st3|e3] eqn:E3; [by destruct (Hrejected st3)|].
    rewrite <- feed_accept in E3. by eapply scan_rejected. }
  assert (lost bad (MSessionID m) (store2, d2)) as Hlost.
  { split; cbn [fst snd].
    - done.
    - exists []. by rewrite app_nil_r.
    - exists (advance_metadata m st2 (UTC event2)). split_and!; [by apply Hsaved|done|cbn; lia].
    - destruct Hcache2 as [Hc1 Hc2]. intros m2 Hm2. rewrite Hc1 in Hm2. injection Hm2 as <-. split_and!; [by destruct Hsv|done|].
      exists (events ++ [event2]), st2. by rewrite Hc2. }
  intros acks s1 s r s' Hrun Hr Hc Hent Hstatus. apply (lost_run _ _ Hvid Hbad) in Hrun; [|done].
  assert (lost bad (MSessionID m) s) as Hlost2.
  { destruct s as [store3 d3], s1 as [store1' d1']. cbn in *. eapply lost_kept; [by apply same_kept|]. by eapply lost_uncached. }
  destruct (lost_status _ _ Hvid Hbad _ _ _ Hlost2 Hstatus) as (_ & _ & He). by rewrite Hc in He.
Qed.

End lab.

(** ** Recovery *)

Section recovery.
Context `{T : TimeFormat} {TL : TimeLaws T} `{EJ : EventJson} {EL : EventJsonLaws T EJ}
  `{NJ : NativeJson} `{LJ : LabJson} {LL : LabJsonLaws LJ}.
Context (parts : list bytes) (Hparts : parts <> []) (Hsimple : Forall simple parts).

(** The machine before, whose calls may fail, and the machine afterwards. *)
Context (earlier later : Machine).
Hypothesis earlier_clock : forall n, readable (clock (Machine := earlier) n) = true.
Hypothesis later_clock : forall n, readable (clock (Machine := later) n) = true.

(** C19: a laboratory recovers from the failures that leave complete lines in its
    log.  Let the methods of a store and processes that open the root run while
    calls fail, but none between the opening and the closing of a log (so that
    no line is torn, and [appendEventFile] fails only before it has written; other
    failures are not covered, see [torn_append_loses_log]); let the directories
    of the root then exist and the next name for a temporary file be free.  A new process on a machine without failures gets a
    status that covers the whole log, also when the metadata on disk are behind
    it and have to be repaired first; it reads back the earlier events and after
    them every event whose recording had succeeded, in order. *)
Theorem lab_recovers (events acks : list EventV1) (s s' : Store * Disk) (store : Store) :
  sound_logs (OS := earlier) parts -> lab parts events s -> lab_run (OS := earlier) parts s acks s' ->
  quiet (OS := later) -> usable parts s'.2 -> root store = lab_root parts -> cachedMetadata store = None ->
  exists more m s1 s2, acks `sublist_of` more /\
    Status (OS := later) (store, s'.2) = (Ok m, s1) /\ MLastSeq m = len (events ++ more) /\
    Events (OS := later) s1 = (Ok (events ++ more), s2) /\ lab parts (events ++ more) s1.
Proof.
  intros Hsound Hlab Hrun Hq Hu Hr Hc.
  destruct (lab_run_inv (OS := earlier) parts Hparts Hsimple earlier_clock _ _ _ _ Hsound Hlab Hrun) as (more & Hlab' & Hacks).
  destruct s' as [store0 d]. pose proof (lab_uncached _ _ _ _ _ Hlab' Hr Hc) as Hlab2.
  destruct (recovered_quiet (OS := later) parts Hparts Hsimple later_clock _ _ _ Hq Hu Hlab2 Hc) as (m & s1 & s2 & H).
  by exists more, m, s1, s2.
Qed.

End recovery.
