(* ===== verification/ReplaySafety.v ===== *)
(** * What exporting and clearing a laboratory touch

    [Export] writes a new file with the whole log; [Clear] removes nothing but a
    directory that identifies itself as a laboratory. *)

From S2P Require Import Prelude Effects Encoding Unicode Crypto ReplayEvent ReplaySequence ReplayReport ReplayNative ReplayDisk ReplayStore ReplayStoreFacts ReplayLab.

(** ** Computations that change no file and draw no randomness *)

Definition same_files (d d' : Disk) : Prop := entries d' = entries d /\ links d' = links d /\ entropy d' = entropy d.
Definition silent {A} (m : St Disk A) : Prop := forall d r d', m d = (r, d') -> same_files d d'.

Create HintDb silent.

Section silent.
Context `{OS : Machine} `{T : TimeFormat} `{LJ : LabJson}.

Lemma silent_ret {A} (a : A) : silent (ret a).
Proof. by intros d r d' [= <- <-]. Qed.

Lemma silent_raise {A} e : silent (raise e : St Disk A).
Proof. by intros d r d' [= <- <-]. Qed.

Lemma silent_lift {A} (x : result A) : silent (lift x).
Proof. by intros d r d' [= <- <-]. Qed.

Lemma silent_bind {A B} (m : St Disk A) (f : A -> St Disk B) : silent m -> (forall a, silent (f a)) -> silent (bind m f).
Proof.
  intros Hm Hf d r d' [(e & H%Hm & _)|(a & d1 & (? & ? & ?)%Hm & (? & ? & ?)%Hf)]%bind_cases; [done|]. split_and!; congruence.
Qed.

Lemma silent_attempt {A} (m : St Disk A) : silent m -> silent (attempt m).
Proof. intros Hm d r d' (r' & H%Hm & _)%attempt_inv. done. Qed.

Lemma silent_wrap {A} format (m : St Disk A) : silent m -> silent (wrap_error format m).
Proof. intros Hm d r d' [(a & H%Hm & _)|(e & H%Hm & _)]%wrap_error_cases; done. Qed.

Lemma silent_syscall {A} (c : Call) (path : bytes) (f : gmap bytes Entry -> result (A * gmap bytes Entry)) :
  (forall files a files', f files = Ok (a, files') -> files' = files) -> silent (syscall c path f).
Proof. intros Hf d r d' [(e & -> & ->)|(a & files & _ & H%Hf & -> & ->)]%syscall_inv; [done|]. subst. done. Qed.

Lemma silent_Stat path : silent (Stat path).
Proof. apply silent_syscall. intros files a files'. destruct (files !! path); [|done]. by intros [= _ <-]. Qed.

Lemma silent_Lstat path : silent (Lstat path).
Proof.
  intros d r d' H. unfold Lstat in H. eapply silent_syscall in H; [exact H|]. intros files a files'. destruct (files !! path); [|done].
  by intros [= _ <-].
Qed.

Lemma silent_ReadFile path : silent (ReadFile path).
Proof.
  apply silent_bind; [|intros contents d r d' [= <- <-]; done]. apply silent_syscall. intros files a files'.
  destruct (files !! path) as [[|]|]; by intros [= _ <-].
Qed.

Lemma silent_worktree rounds : forall directory, silent (worktree_above rounds directory).
Proof.
  induction rounds as [|rounds IH]; intros directory; cbn [worktree_above]; [apply silent_ret|].
  apply silent_bind; [apply silent_attempt, silent_Stat|]. intros found. destruct (is_Ok found); [apply silent_ret|].
  destruct (bool_decide _); [apply silent_ret|apply IH].
Qed.

Lemma silent_insideGitWorktree path : silent (insideGitWorktree path).
Proof. apply silent_bind; [apply silent_attempt, silent_Stat|]. intros info. apply silent_worktree. Qed.

End silent.

#[export] Hint Resolve silent_ret silent_raise silent_lift silent_bind silent_attempt silent_wrap : silent.
#[export] Hint Resolve silent_Stat silent_Lstat silent_ReadFile silent_insideGitWorktree : silent.
#[export] Hint Extern 2 (silent (match ?x with _ => _ end)) => destruct x : silent.

Section clear.
Context `{OS : Machine} `{T : TimeFormat} `{LJ : LabJson}.

Lemma silent_safeRoot raw : silent (safeRoot raw).
Proof. unfold safeRoot. auto 20 with silent. Qed.

Lemma silent_readStrictJSON {A} (decode : bytes -> result (A * Trailing)) path : silent (readStrictJSON decode path).
Proof. unfold readStrictJSON. auto 20 with silent. Qed.

(** What [safeRoot] lets pass. *)
Lemma safeRoot_inv raw d abs d' : safeRoot raw d = (Ok abs, d') ->
  Abs (Clean raw) = Ok abs /\ abs <> [slash] /\ 2 <= len (path_fields [] (TrimPrefix abs [slash])).
Proof.
  unfold safeRoot. intros H. destruct (bool_decide _) in H; [done|]. apply bind_cases in H as [(e & _ & [=])|(p & d1 & Hp & H)].
  apply wrap_error_cases in Hp as [(? & [= Hp <-] & [= <-])|(? & _ & [=])].
  destruct (bool_decide (p = [slash]) || bool_decide (p = []) || bool_decide (p = dot)) eqn:Eb in H; [done|].
  destruct (match UserHomeDir with Ok _ => _ | Err _ => _ end) in H; [done|].
  destruct (_ <? 2) eqn:El in H; [done|]. apply bind_cases in H as [(e & _ & [=])|(inside & d4 & Hg & H)].
  destruct inside; [done|]. injection H as <- _. bools. split_and!; done.
Qed.

(** The manifest that identifies a laboratory. *)
Definition identified (d : Disk) (abs : bytes) : Prop :=
  exists text mf, entries d !! Join [abs; manifestName] = Some (Regular text) /\
    decode_manifest (take (Z.to_nat readLimit) text) = Ok (mf, AtEOF) /\
    LVersion mf = manifestVersion /\ LRoot mf = abs /\ validID (LabID mf) = true.

Lemma Open_identified raw d store d' : Open raw d = (Ok store, d') ->
  Abs (Clean raw) = Ok (root store) /\ identified d (root store).
Proof.
  unfold Open. intros H. apply bind_cases in H as [(e & _ & [=])|(abs & d1 & H1 & H)].
  pose proof (silent_safeRoot _ _ _ _ H1) as [E1 _]. apply safeRoot_inv in H1 as (Habs & _).
  apply bind_cases in H as [(e & _ & [=])|(mf & d2 & H2 & H)].
  apply wrap_error_cases in H2 as [(? & [_ Hm]%readStrictJSON_inv & [= <-])|(? & _ & [=])]. destruct (Hm _ eq_refl) as (text & Ht & Hd).
  destruct (negb (bool_decide (LVersion mf = manifestVersion)) || _ || _ || _ || _) eqn:Eb in H; [done|]. injection H as <- _. cbn. bools.
  split; [done|]. exists text, mf. rewrite <- E1. by split_and!.
Qed.

Lemma silent_Open raw : silent (Open raw).
Proof. unfold Open. auto 20 using silent_safeRoot, silent_readStrictJSON with silent. Qed.

(** C24: clearing removes nothing but a laboratory.  [Clear] changes a file only
    when it was confirmed, the path is at least two levels deep, is no symbolic
    link and holds a manifest that names this very path as the root of a
    laboratory; and then everything outside this directory stays. *)
Theorem clear_only_removes_lab (raw : bytes) (confirm : bool) (d d' : Disk) (r : result unit) :
  Clear raw confirm d = (r, d') ->
  entries d' = entries d \/
  confirm = true /\ exists abs, Abs (Clean raw) = Ok abs /\ 2 <= len (path_fields [] (TrimPrefix abs [slash])) /\ abs ∉ links d /\
    identified d abs /\ (forall path, below abs path = false -> entries d' !! path = entries d !! path).
Proof.
  unfold Clear. intros H. destruct confirm; cbn [negb] in H; [|left; by injection H as _ <-].
  apply bind_cases in H as [(e & [E _]%silent_safeRoot & _)|(abs & d1 & H1 & H)]; [by left|].
  pose proof (silent_safeRoot _ _ _ _ H1) as (E1 & L1 & _). apply safeRoot_inv in H1 as (Habs & Hroot & Hdeep).
  apply bind_cases in H as [(e & H & _)|(symlink & d2 & H2 & H)].
  { apply silent_wrap in H as [E _]; [left; congruence|apply silent_Lstat]. }
  apply wrap_error_cases in H2 as [(? & H2 & [= <-])|(? & _ & [=])]. pose proof (silent_Lstat _ _ _ _ H2) as (E2 & L2 & _).
  destruct symlink; [left; injection H as _ <-; congruence|].
  assert (abs ∉ links d) as Hlink.
  { unfold Lstat in H2. apply syscall_inv in H2 as [(e & [=] & _)|(a & files & _ & Hf & [= <-] & _)].
    destruct (entries d1 !! abs); [|done]. injection Hf as Hf _. rewrite L1 in Hf. by bools. }
  apply bind_cases in H as [(e & H & _)|(store & d3 & H3 & H)].
  { apply silent_wrap in H as [E _]; [left; congruence|apply silent_Open]. }
  apply wrap_error_cases in H3 as [(? & H3 & [= <-])|(? & _ & [=])]. pose proof (silent_Open _ _ _ _ H3) as [E3 _].
  apply Open_identified in H3 as [_ (text & mf & Ht & Hid)].
  destruct (negb (bool_decide (root store = abs)) || _) eqn:Eb in H; [left; injection H as _ <-; congruence|].
  right. split; [done|]. exists abs. bools. subst abs. split_and!; try done.
  { exists text, mf. split; [|done]. congruence. }
  intros path Hb. assert (entries d3 = entries d) as E by congruence. unfold RemoveAll in H.
  destruct (fault _ _ _); injection H as _ <-; cbn [tick set_entries entries]; rewrite E; apply option_eq; intros x; rewrite map_lookup_filter_Some;
    rewrite ?Hb; tauto.
Qed.

End clear.

Section export.
Context `{OS : Machine} `{T : TimeFormat} {TL : TimeLaws T} `{EJ : EventJson} {EL : EventJsonLaws T EJ}
  `{NJ : NativeJson} `{LJ : LabJson} {LL : LabJsonLaws LJ}.
Context (parts : list bytes) (Hparts : parts <> []) (Hsimple : Forall simple parts).
Hypothesis clock_readable : forall n, readable (clock n) = true.

Lemma copy_to_ok output text err d d' files : entries d = <[output := Regular []]> files -> copy_to output text err d = (Ok tt, d') ->
  err = None /\ entries d' = <[output := Regular text]> files.
Proof.
  intros Hd H. unfold copy_to in H. apply bind_cases in H as [(e & _ & [=])|(w & d2 & (r1 & Hw & [= ->])%attempt_inv & H)].
  apply bind_cases in H as [(e & _ & [=])|(wc & d3 & (w' & c & [= ->] & E3 & Hok & _)%sync_close_inv & H)].
  destruct w' as [[]|e]; [|apply bind_cases in H as [(? & _ & [=])|(? & ? & _ & [=])]]. destruct c as [[]|]; [|done]. injection H as <-.
  specialize (Hok eq_refl). subst r1. rewrite E3. apply bind_cases in Hw as [(e & _ & [=])|([n we] & d4 & Hw & Hrest)].
  destruct (Write_inv _ _ _ _ _ _ _ Hd Hw) as (n' & we' & part & [= <- <-] & E4 & Hall & _).
  destruct we; [done|]. destruct err; [done|]. injection Hrest as <-. by destruct (Hall eq_refl) as [-> _].
Qed.

(** [Status] changes no file but the metadata. *)
Lemma Status_kept s r s' : root s.1 = lab_root parts -> Status s = (r, s') -> kept_but (active_file parts) s.2 s'.2.
Proof.
  intros Hr H. unfold Status in H. apply bind_cases in H as [(e & [[=] _]%this_inv & _)|(store & s1 & [[= ->] ->]%this_inv & H)].
  destruct (cachedMetadata s.1); [injection H as _ <-; by apply kept_kept_but|].
  apply bind_cases in H as [(e & H & _)|(m & s1 & H1 & H)].
  { apply (loadMetadata_inv parts) in H as (_ & E & _); try done. by apply kept_kept_but, same_kept. }
  apply (loadMetadata_inv parts) in H1 as (Es1 & E1 & _); try done. apply (kept_but_trans _ _ s1.2); [by apply kept_kept_but, same_kept|].
  destruct (bool_decide (MSessionID m = [])).
  { apply bind_cases in H as [(e & H & _)|([] & s2 & H1 & H)]; destruct s1; [by injection H|]. injection H1 as <-. injection H as _ <-.
    by apply kept_kept_but. }
  assert (reads (scanSession (EventFile m))) as Hscan by (unfold scanSession; auto 10 with keeping).
  apply bind_cases in H as [(e & [_ H]%Hscan & _)|(st & s2 & [Es2 H1]%Hscan & H)]; [by apply kept_kept_but|].
  apply (kept_but_trans _ _ s2.2); [by apply kept_kept_but|].
  assert (forall r2 s3, reconcile m st s2 = (r2, s3) -> kept_but (active_file parts) s2.2 s3.2) as Hrec.
  { intros r2 s3 H2. unfold reconcile in H2. repeat match type of H2 with (if ?c then lift _ else _) _ = _ => destruct c; [injection H2 as _ <-; by apply kept_kept_but|] end.
    destruct (_ >? _) in H2; [|destruct (_ && _) in H2; injection H2 as _ <-; by apply kept_kept_but].
    apply bind_cases in H2 as [(e & [_ [=]]%on_disk_inv & _)|(now & s4 & [E4 [= _ E5]]%on_disk_inv & H2)].
    apply (kept_but_trans _ _ s4.2); [rewrite <- E5; by apply kept_kept_but, same_kept|]. assert (root s4.1 = lab_root parts) as Hr4 by congruence.
    apply bind_cases in H2 as [(e & H2 & _)|([] & s5 & H2 & H3)].
    - apply wrap_error_cases in H2 as [(? & _ & [=])|(? & H2 & _)]. by apply (saveMetadata_inv parts Hparts Hsimple) in H2 as (_ & ? & _).
    - apply wrap_error_cases in H2 as [(? & H2 & _)|(? & _ & [=])]. apply (saveMetadata_inv parts Hparts Hsimple) in H2 as (_ & ? & _); [|done].
      by injection H3 as _ <-. }
  apply bind_cases in H as [(e & H%Hrec & _)|(m' & s3 & H2%Hrec & H)]; [done|]. apply (kept_but_trans _ _ s3.2); [done|].
  apply bind_cases in H as [(e & H & _)|([] & s4 & H3 & H)]; destruct s3; [by injection H|]. injection H3 as <-. injection H as _ <-.
  by apply kept_kept_but.
Qed.

Lemma active_below : below (lab_root parts) (active_file parts) = true.
Proof. apply HasPrefix_spec. unfold lab_root, active_file, path_of. rewrite join_slash_app by done. eexists. cbn [app]. by rewrite <- !app_assoc. Qed.

(** C25: an export is a copy of the log.  When [Export] succeeds, a file that was
    not there before, outside the laboratory, holds the encoded events of the log
    and nothing else, and the laboratory is as it was. *)
Theorem export_holds_log (events : list EventV1) (output : bytes) (s s' : Store * Disk) :
  lab parts events s -> Export output s = (Ok tt, s') ->
  lab parts events s' /\ exists abs text, Abs output = Ok abs /\ below (lab_root parts) abs = false /\
    entries s.2 !! abs = None /\ entries s'.2 !! abs = Some (Regular text) /\ logged events text.
Proof.
  intros Hlab H. split; [by eapply Export_inv|]. unfold Export in H.
  apply bind_cases in H as [(e & _ & [=])|(m & [store d] & H1 & H)]. pose proof (Status_kept _ _ _ (proj1 Hlab) H1) as Hkept.
  apply (Status_inv parts Hparts Hsimple clock_readable events) in H1 as [Hlab1 Hm]; [|done].
  specialize (Hm _ eq_refl). cbn in Hm. destruct (bool_decide (EventFile m = [])) eqn:Ef; [done|]. bools.
  pose proof Hlab1 as (Hr & m0 & Hs & Hc & Hl). cbn [fst snd] in *. destruct (Hc _ Hm) as (Hck & Hid & _).
  assert (MSessionID m <> []) as Hne.
  { intros E. pose proof (check_idle _ Hck E) as Hst. unfold check_metadata in Hck. destruct (negb (bool_decide (MVersion m = _))); [done|].
    destruct (negb (isCanonicalUTC _)); [done|]. rewrite Hst, bool_decide_true in Hck by done. apply reject_if_Ok in Hck. by bools. }
  destruct (check_active _ Hck Hne) as (Hvid & _ & Hfile & _). rewrite bool_decide_false in Hl by congruence. destruct Hl as [(text & Ht & Hlog) _ _ _].
  rewrite (bind_ok _ _ _ store (store, d)) in H by done.
  rewrite Hfile, (sessionPath_eq parts) in H by done. apply bind_cases in H as [(e & [=] & _)|(source & s1 & [= <- <-] & H)].
  apply bind_cases in H as [(e & _ & [=])|(abs & s1 & H1 & H)]. apply wrap_error_cases in H1 as [(? & [= Habs <-] & [= <-])|(? & _ & [=])].
  destruct (negb (bool_decide (Ext _ = _))) in H; [done|].
  apply bind_cases in H as [(e & _ & [=])|(inside & [store1 d1] & [E1 Hg%silent_insideGitWorktree]%on_disk_inv & H)].
  cbn [fst snd] in *. subst store1. destruct Hg as [E1 _]. destruct inside; [done|].
  destruct (HasPrefix _ _) eqn:Ep in H; [done|].
  apply bind_cases in H as [(e & _ & [=])|([txt err] & [store2 d2] & H1 & H)].
  apply wrap_error_cases in H1 as [(? & [E2 [E3 Hread]%ReadFile_inv]%on_disk_inv & [= <-])|(? & _ & [=])]. cbn [fst snd] in *. subst store2.
  apply bind_cases in H as [(e & _ & [=])|([] & [store3 d3] & [E4 Hk%MkdirAll_kept]%on_disk_inv & H)]. cbn [fst snd] in *. subst store3.
  apply on_disk_inv in H as [_ H]. cbn [fst snd] in H. apply bind_cases in H as [(e & _ & [=])|([] & d4 & H1 & H)].
  apply wrap_error_cases in H1 as [(? & [(? & [=] & _)|[_ [[Hnew E5]|[[=] _]]]]%OpenWrite_inv & _)|(? & _ & [=])].
  destruct (copy_to_ok _ _ _ _ _ _ E5 H) as [-> E6]. exists abs, text.
  destruct (Hread _ _ eq_refl) as [[_ [? [=]]]|(c & n & Hc' & _ & Hn)]. rewrite (Hn eq_refl) in *. rewrite E1, Hid, Ht in Hc'. injection Hc' as <-.
  assert (below (lab_root parts) abs = false) as Hb by (unfold below; by rewrite <- Hr).
  split_and!; try done; [|by rewrite E6, lookup_insert_eq]. destruct (entries s.2 !! abs) as [e|] eqn:Eabs; [|done].
  assert (entries d3 !! abs = Some e) as Hsome; [|congruence]. apply Hk. rewrite E3, E1. apply Hkept; [|done].
  intros ->. by rewrite active_below in Hb.
Qed.

End export.
