(* ===== verification/ReplayCommand.v ===== *)
(** * The replay laboratory command
    ([replaylab/cmd/yunpin-replay-lab/main.go])

    The flags, which [Flags] parses, and the commands over the operations of the
    store.  A command gives the value it prints; its encoding
    and the writing to standard output are left out.  The text of standard input
    is an argument, with the error its reading ends with; an input file is read
    once, and nothing changes it while its events are recorded. *)

From S2P Require Import Prelude Flags Effects Encoding Unicode Crypto ReplayEvent ReplaySequence ReplayReport ReplayNative ReplayDisk ReplayStore ReplayStoreFacts ReplayLab ReplaySafety.

(** ** Flags *)

Record lab_flags := mkFlags { flag_root : bytes; flag_input : bytes; flag_output : bytes; flag_confirm : bool }.

Definition formal (name : bytes) : option (flag_kind lab_flags) :=
  if bool_decide (name = str "root") then Some (TextFlag (fun v f => mkFlags v (flag_input f) (flag_output f) (flag_confirm f)))
  else if bool_decide (name = str "input") then Some (TextFlag (fun v f => mkFlags (flag_root f) v (flag_output f) (flag_confirm f)))
  else if bool_decide (name = str "output") then Some (TextFlag (fun v f => mkFlags (flag_root f) (flag_input f) v (flag_confirm f)))
  else if bool_decide (name = str "confirm") then Some (BoolFlag (fun v f => mkFlags (flag_root f) (flag_input f) (flag_output f) v))
  else None.

Definition default_flags (defaultRoot : bytes) : lab_flags := mkFlags defaultRoot (str "-") [] false.

(** ** The default root *)

(** [replaylab.DefaultRoot] on macOS and on the other Unix systems, where
    [XDG_STATE_HOME] comes first. *)
Inductive platform := Darwin | OtherUnix.

Definition DefaultRoot `{Machine} (GOOS : platform) (XDG_STATE_HOME : bytes) : result bytes :=
  match GOOS with
  | Darwin =>
      let! home := UserHomeDir in
      Ok (Join [home; str "Library"; str "Application Support"; str "YunPin"; str "ReplayLab"])
  | OtherUnix =>
      let! base :=
        if bool_decide (XDG_STATE_HOME = []) then
          let! home := UserHomeDir in Ok (Join [home; str ".local"; str "state"])
        else Ok XDG_STATE_HOME in
      Ok (Join [base; str "yunpin"; str "replaylab"])
  end.

(** ** Recording a stream *)

(** What a command prints. *)
Inductive output :=
  | Initialized (root : bytes) | Cleared (root : bytes) | TheMetadata (metadata : SessionMetadata)
  | Ingested (accepted : Z) | TheReport (report : Report) | Exported (path : bytes).

Definition usageError : error :=
  errors_New "usage: yunpin-replay-lab <init|start|pause|resume|status|ingest|report|export|clear> [--root PATH]".

Section command.
Context `{OS : Machine} `{T : TimeFormat} `{EJ : EventJson} `{NJ : NativeJson} `{LJ : LabJson}.

Notation Method A := (St (Store * Disk) A).

(** The loop over the lines; an empty one is skipped. *)
Fixpoint ingest_lines (accepted : Z) (lines : list bytes) : Method Z :=
  match lines with
  | [] => ret accepted
  | line :: rest =>
      if len line >? MaxEventBytes then raise (Errorf_w "read ingest stream: %w" ErrTooLong)
      else
        let line := drop_cr line in
        if bool_decide (line = []) then ingest_lines accepted rest
        else
          do! event := wrap_error "ingest line %d: %w" (lift (DecodeEventV1 line)) in
          do! _ := wrap_error "ingest line %d: %w" (Append event) in
          ingest_lines (accepted + 1) rest
  end.

Definition ingest_stream (text : bytes) (err : option error) : Method Z :=
  do! accepted := ingest_lines 0 (split_lines [] text) in
  match err with Some e => raise (Errorf_w "read ingest stream: %w" e) | None => ret accepted end.

Definition ingest (input : bytes) (stdin : bytes * option error) : Method Z :=
  if negb (bool_decide (input = str "-")) then
    do! (text, err) := wrap_error "open ingest input: %w" (on_disk (ReadFile input)) in ingest_stream text err
  else ingest_stream stdin.1 stdin.2.

Definition timed {A} (method : Z -> Method A) : Method A := do! now := on_disk Now in method now.

(** A command on an opened laboratory. *)
Definition dispatch (command : bytes) (flags : lab_flags) (stdin : bytes * option error) : Method output :=
  let named name := bool_decide (command = str name) in
  if named "start" then do! metadata := timed Start in ret (TheMetadata metadata)
  else if named "pause" then do! metadata := timed Pause in ret (TheMetadata metadata)
  else if named "resume" then do! metadata := timed Resume in ret (TheMetadata metadata)
  else if named "status" then do! metadata := Status in ret (TheMetadata metadata)
  else if named "ingest" then do! accepted := ingest (flag_input flags) stdin in ret (Ingested accepted)
  else if named "report" then do! report := store_Report in ret (TheReport report)
  else if named "export" then
    if bool_decide (flag_output flags = []) then lift (fail "export requires --output PATH.yunpinreplay")
    else do! _ := Export (flag_output flags) in ret (Exported (Clean (flag_output flags)))
  else raise usageError.

(** [run]; [defaultRoot] is what [DefaultRoot] gives. *)
Definition run (defaultRoot : result bytes) (args : list bytes) (stdin : bytes * option error) : St Disk output :=
  match args with
  | [] => raise usageError
  | command :: args =>
      do! defaultRoot := lift defaultRoot in
      do! (flags, positional) := wrap_error "%s flags: %w" (lift (parse_flags formal (default_flags defaultRoot) args)) in
      if negb (bool_decide (positional = [])) then lift (fail "unexpected positional arguments: %v")
      else if bool_decide (command = str "init") then
        do! now := Now in
        do! store := Init (flag_root flags) now in
        ret (Initialized (root store))
      else if bool_decide (command = str "clear") then
        do! _ := Clear (flag_root flags) (flag_confirm flags) in
        ret (Cleared (Clean (flag_root flags)))
      else
        do! store := Open (flag_root flags) in
        fun d => let '(r, (_, d')) := dispatch command flags stdin (store, d) in (r, d')
  end.

End command.

Example parse_cases :
  map (parse_flags formal (default_flags (str "/lab")))
    [[str "--root"; str "/x"; str "-confirm"]; [str "-confirm=F"; str "--output=a=b"]; [str "-"; str "x"]; [str "--"; str "-root"];
     [str "-input"]; [str "--=x"]; [str "-h"]; [str "-confirm"; str "true"]] =
  [Ok (mkFlags (str "/x") (str "-") [] true, []); Ok (mkFlags (str "/lab") (str "-") (str "a=b") false, []);
   Ok (default_flags (str "/lab"), [str "-"; str "x"]); Ok (default_flags (str "/lab"), [str "-root"]);
   Err (Errorf_s "flag needs an argument: -%s" (str "input")); Err (Errorf_s "bad flag syntax: %s" (str "--=x")); Err ErrHelp;
   Ok (mkFlags (str "/lab") (str "-") [] true, [str "true"])].
Proof. vm_compute. reflexivity. Qed.

(** ** What a command records *)

(** The lines of a stream that hold something. *)
Definition filled_lines (text : bytes) : list bytes :=
  List.filter (fun line => negb (bool_decide (line = []))) (map drop_cr (split_lines [] text)).

(** The events are the first lines, decoded. *)
Definition decodes `{TimeFormat} `{EventJson} (lines : list bytes) (events : list EventV1) : Prop :=
  Forall2 (fun line event => DecodeEventV1 line = Ok event) lines events.

Section records.
Context `{OS : Machine} `{T : TimeFormat} {TL : TimeLaws T} `{EJ : EventJson} {EL : EventJsonLaws T EJ}
  `{NJ : NativeJson} `{LJ : LabJson} {LL : LabJsonLaws LJ}.
Context (parts : list bytes) (Hparts : parts <> []) (Hsimple : Forall simple parts).
Hypothesis clock_readable : forall n, readable (clock n) = true.

(** The decoder of [monotonic_us] refuses a number that is no [uint64]. *)
Hypothesis decoded_typed : forall line event, DecodeEventV1 line = Ok event -> in_u64 (MonotonicUS event).
Hypothesis Hsound : sound_logs parts.

Notation lab := (lab parts).

(** The recorded events are a first part of the stream, and all of it when the
    loop ends without an error. *)
Lemma ingest_lines_inv lines : forall k events s r s',
  lab events s -> ingest_lines k lines s = (r, s') ->
  let filled := List.filter (fun line => negb (bool_decide (line = []))) (map drop_cr lines) in
  exists more, lab (events ++ more) s' /\ decodes (take (length more) filled) more /\
    (forall n, r = Ok n -> length more = length filled /\ n = k + len more).
Proof.
  assert (forall events s', lab events s' -> lab (events ++ []) s') as Hnil by (intros; by rewrite app_nil_r).
  assert (forall filled, decodes (take (length (@nil EventV1)) filled) []) as Hzero by (intros; cbn [length]; rewrite take_0; constructor).
  induction lines as [|line lines IH]; intros k events s r s' Hlab H filled; cbn in H.
  { injection H as <- <-. exists []. split_and!; [auto|apply Hzero|intros n [= <-]; split; [done|unfold len; cbn; lia]]. }
  destruct (len line >? MaxEventBytes); [injection H as <- <-; exists []; split_and!; [auto|apply Hzero|done]|].
  subst filled. cbn [map List.filter]. destruct (bool_decide (drop_cr line = [])) eqn:Eb; cbn [negb]; [exact (IH _ _ _ _ _ Hlab H)|].
  apply bind_cases in H as [(e & H & ->)|(event & s1 & H1 & H)].
  { apply wrap_error_cases in H as [(? & _ & [=])|(? & [= _ <-] & _)]. exists []. split_and!; [auto|apply Hzero|done]. }
  apply wrap_error_cases in H1 as [(? & [= Hdec <-] & [= <-])|(? & _ & [=])]. pose proof (decoded_typed _ _ Hdec) as Hty.
  assert (forall r1 s1, wrap_error "ingest line %d: %w" (Append event) s = (r1, s1) ->
    (lab events s1 /\ exists e, r1 = Err e) \/ lab (events ++ [event]) s1) as Happ.
  { intros r1 s1 [(? & H1 & ->)|(? & H1 & ->)]%wrap_error_cases; apply (Append_inv parts Hparts Hsimple clock_readable events) in H1 as [[? [? ?]]|?]; try done; eauto. }
  apply bind_cases in H as [(e & H%Happ & ->)|([] & s1 & H1%Happ & H)].
  - destruct H as [[? _]|H]; [exists []; split_and!; [auto|apply Hzero|done]|].
    exists [event]. split_and!; [done| |done]. cbn. rewrite take_0. by repeat constructor.
  - destruct H1 as [[_ [? [=]]]|Hlab1]. destruct (IH _ _ _ _ _ Hlab1 H) as (more & Hm & Hd & Hn). exists (event :: more).
    rewrite <- app_assoc in Hm. split_and!; [done|by constructor|]. intros n Hr. destruct (Hn n Hr) as [E ->]. cbn [length] in *. split; [lia|unfold len; cbn; lia].
Qed.

Lemma ingest_stream_inv text err events s r s' :
  lab events s -> ingest_stream text err s = (r, s') ->
  exists more, lab (events ++ more) s' /\ decodes (take (length more) (filled_lines text)) more /\
    (forall n, r = Ok n -> decodes (filled_lines text) more /\ n = len more /\ err = None).
Proof.
  intros Hlab H. unfold ingest_stream in H. apply bind_cases in H as [(e & H & ->)|(n & s1 & H1 & H)].
  - apply (ingest_lines_inv _ _ events) in H as (more & ? & ? & _); [|done]. by exists more.
  - apply (ingest_lines_inv _ _ events) in H1 as (more & Hm & Hd & Hn); [|done]. destruct (Hn n eq_refl) as [El ->].
    exists more. destruct err; unfold raise, ret in H; injection H as <- <-; split_and!; try done.
    intros n [= <-]. split_and!; [|lia|done]. unfold filled_lines in *. rewrite El, firstn_all in Hd. exact Hd.
Qed.

(** The text [ingest] reads without an error: standard input or the file. *)
Definition input_text (input : bytes) (stdin : bytes * option error) (d : Disk) (text : bytes) : Prop :=
  if bool_decide (input = str "-") then stdin = (text, None) else entries d !! input = Some (Regular text).

Lemma ingest_inv input stdin events s r s' :
  lab events s -> ingest input stdin s = (r, s') ->
  exists more, lab (events ++ more) s' /\
    (forall n, r = Ok n -> exists text, input_text input stdin s.2 text /\ decodes (filled_lines text) more /\ n = len more).
Proof.
  intros Hlab H. unfold ingest, input_text in *. destruct (bool_decide (input = str "-")) eqn:Ei; cbn [negb] in H; bools.
  { apply (ingest_stream_inv _ _ events) in H as (more & ? & _ & Hn); [|done]. exists more. split; [done|]. intros n E.
    destruct (Hn n E) as (Hd & Hl & He). exists stdin.1. split_and!; try done. rewrite <- He. apply surjective_pairing. }
  destruct s as [store d]. assert (forall r1 (s1 : Store * Disk), wrap_error "open ingest input: %w" (on_disk (ReadFile input)) (store, d) = (r1, s1) ->
    lab events s1 /\ forall text, r1 = Ok (text, None) -> entries d !! input = Some (Regular text)) as Hread.
  { intros r1 [store1 d1] Hw.
    apply wrap_error_cases in Hw as [(a & [E1 [E Ha]%ReadFile_inv]%on_disk_inv & ->)|(? & [E1 [E _]%ReadFile_inv]%on_disk_inv & ->)];
      cbn [fst snd] in *; subst store1; (split; [eapply lab_kept; [done..| |exact Hlab]; by apply same_kept|]); [|done].
    intros text [= ->]. destruct (Ha _ _ eq_refl) as [[_ [? [=]]]|(c & n & Hc & _ & Hn)]. by rewrite (Hn eq_refl). }
  apply bind_cases in H as [(e & [H _]%Hread & ->)|([text err] & s1 & [H1 Ht]%Hread & H)].
  - exists []. by rewrite app_nil_r.
  - apply (ingest_stream_inv _ _ events) in H as (more & ? & _ & Hn); [|done]. exists more. split; [done|]. intros n E.
    destruct (Hn n E) as (Hd & Hl & ->). exists text. split_and!; auto.
Qed.

Lemma timed_lab {A} (method : Z -> St (Store * Disk) A) events s r s' :
  lab events s -> timed method s = (r, s') ->
  exists now s1, lab events s1 /\ entries s1.2 = entries s.2 /\ entropy s1.2 = entropy s.2 /\ method now s1 = (r, s').
Proof.
  intros Hlab H. unfold timed in H. destruct s as [store d]. apply bind_cases in H as [(e & [_ [=]]%on_disk_inv & _)|(now & [store1 d1] & [E1 H1]%on_disk_inv & H)].
  injection H1 as _ <-. cbn in E1. subst store1. exists now, (store, tick d). split_and!; try done. apply (lab_kept parts Hparts Hsimple _ _ d); [by apply same_kept|done].
Qed.

(** The commands that record. *)
Definition recording (command : bytes) : bool := one_of command ["start"; "pause"; "resume"; "ingest"].

(** What a command on an open laboratory did to its log. *)
Definition dispatched (command : bytes) (flags : lab_flags) (stdin : bytes * option error) (d : Disk) (events : list EventV1)
    (r : result output) (s' : Store * Disk) : Prop :=
  exists more, lab (events ++ more) s' /\ (recording command = false -> more = []) /\
    (forall n, r = Ok (Ingested n) ->
       exists text, input_text (flag_input flags) stdin d text /\ decodes (filled_lines text) more /\ n = len more).

Lemma dispatched_grown command flags stdin d events r s' :
  recording command = true -> (forall n, r <> Ok (Ingested n)) -> grown parts events s' -> dispatched command flags stdin d events r s'.
Proof. intros Hr Hn [more H]. exists more. split_and!; [done|congruence|]. intros n E. by destruct (Hn n). Qed.

Lemma dispatched_same command flags stdin d events r s' :
  (forall n, r <> Ok (Ingested n)) -> lab events s' -> dispatched command flags stdin d events r s'.
Proof. intros Hn H. exists []. rewrite app_nil_r. split_and!; [done..|]. intros n E. by destruct (Hn n). Qed.

(** A command that fails without touching a file. *)
Lemma dispatched_silent {A} (m : St Disk A) command flags stdin d events store e d' :
  silent m -> lab events (store, d) -> m d = (Err e, d') -> exists store', dispatched command flags stdin d events (Err e) (store', d').
Proof.
  intros Hm Hlab H. apply Hm in H as [E _]. exists store. apply dispatched_same; [done|].
  eapply lab_kept; [done..| |exact Hlab]. by apply same_kept.
Qed.

(** A second [Init] is refused: the manifest is there and no [Stat] denies it. *)
Definition manifest_seen (d : Disk) : Prop :=
  let path := Join [lab_root parts; manifestName] in
  is_Some (entries d !! path) /\ forall n e, fault CStat path n = Some e -> errors_Is e ErrNotExist = false.

Lemma Init_refused raw now d r d' :
  Abs (Clean raw) = Ok (lab_root parts) -> manifest_seen d -> Init raw now d = (r, d') ->
  same_files d d' /\ exists e, r = Err e.
Proof.
  intros Hroot [[x Hx] Hf] H. unfold Init in H. apply bind_cases in H as [(e & H%silent_safeRoot & ->)|(abs & d1 & H1 & H)]; [eauto|].
  pose proof (silent_safeRoot _ _ _ _ H1) as Hs1. apply safeRoot_inv in H1 as [Habs _]. rewrite Hroot in Habs. injection Habs as <-.
  apply bind_cases in H as [(e & (r1 & _ & [=])%attempt_inv & _)|(found & d2 & (r1 & H2 & [= ->])%attempt_inv & H)].
  pose proof (silent_Stat _ _ _ _ H2) as Hs2. pose proof Hs1 as [E1 _].
  destruct r1 as [y|e]; [unfold lift, fail in H; injection H as <- <-; split; [|eauto]; unfold same_files in *; intuition congruence|].
  assert (errors_Is e ErrNotExist = false) as He.
  { unfold Stat, syscall in H2. rewrite E1, Hx in H2. destruct (fault CStat _ _) as [e'|] eqn:Ef; [|done]. injection H2 as -> _. by eapply Hf. }
  rewrite He in H. cbn [negb] in H. unfold raise in H. injection H as <- <-. split; [unfold same_files in *; intuition congruence|eauto].
Qed.

(** A method whose value is printed. *)
Lemma printed {A} (m : St (Store * Disk) A) (f : A -> output) s r s' :
  (forall a n, f a <> Ingested n) -> bind m (fun a => ret (f a)) s = (r, s') ->
  (forall n, r <> Ok (Ingested n)) /\ exists r0, m s = (r0, s').
Proof.
  intros Hf [(e & H & ->)|(a & s1 & H & [= <- <-])]%bind_cases; (split; [intros n; try done|eauto]). intros [= E]. by eapply Hf.
Qed.

Lemma dispatch_inv command flags stdin events s r s' :
  lab events s -> fresh_session parts s.2 -> dispatch command flags stdin s = (r, s') ->
  dispatched command flags stdin s.2 events r s'.
Proof.
  intros Hlab Hfresh H. unfold dispatch in H.
  destruct (bool_decide (command = str "start")) eqn:E1.
  { apply printed in H as [Hn [r0 H]]; [|done]. bools. subst command. apply dispatched_grown; [done..|].
    apply (timed_lab _ events) in H as (now & s1 & Hlab1 & Ee & En & H); [|done].
    apply (Start_inv parts Hparts Hsimple clock_readable events) in H as [H|[-> (id & ep & H)]]; try done.
    - by apply grown_same.
    - by eexists.
    - intros id rest Hid. rewrite Ee. eapply Hfresh. by rewrite <- En. }
  destruct (bool_decide (command = str "pause")) eqn:E2.
  { apply printed in H as [Hn [r0 H]]; [|done]. bools. subst command. apply dispatched_grown; [done..|].
    apply (timed_lab _ events) in H as (now & s1 & Hlab1 & _ & _ & H); [|done]. by apply (Pause_inv parts Hparts Hsimple clock_readable events) in H. }
  destruct (bool_decide (command = str "resume")) eqn:E3.
  { apply printed in H as [Hn [r0 H]]; [|done]. bools. subst command. apply dispatched_grown; [done..|].
    apply (timed_lab _ events) in H as (now & s1 & Hlab1 & _ & _ & H); [|done]. by apply (Resume_inv parts Hparts Hsimple clock_readable events) in H. }
  destruct (bool_decide (command = str "status")) eqn:E4.
  { apply printed in H as [Hn [r0 H]]; [|done]. apply dispatched_same; [done|].
    by apply (Status_inv parts Hparts Hsimple clock_readable events) in H as [? _]. }
  destruct (bool_decide (command = str "ingest")) eqn:E5.
  { bools. subst command. apply bind_cases in H as [(e & H & ->)|(n & s1 & H & [= <- <-])]; apply (ingest_inv _ _ events) in H as (more & Hm & Hn); try done.
    - by exists more.
    - exists more. split_and!; [done..|]. intros k [= <-]. by apply Hn. }
  destruct (bool_decide (command = str "report")) eqn:E6.
  { apply printed in H as [Hn [r0 H]]; [|done]. apply dispatched_same; [done|].
    by apply (Report_inv parts Hparts Hsimple clock_readable events) in H. }
  destruct (bool_decide (command = str "export")) eqn:E7; [|injection H as <- <-; by apply dispatched_same].
  destruct (bool_decide _) in H; [injection H as <- <-; by apply dispatched_same|].
  apply (printed _ (fun _ => Exported _)) in H as [Hn [r0 H]]; [|done]. apply dispatched_same; [done|].
  by apply (Export_inv parts Hparts Hsimple clock_readable events) in H.
Qed.

(** C20: the command line only ever extends the log of a laboratory.  A run of any
    command on the root of a laboratory, with any flags, any input and any
    failing call that [lab_log_append_only] allows, leaves a laboratory whose log
    is the old one with new events at its end, still a well-ordered stream;
    only [start], [pause], [resume] and [ingest] add any; and when [ingest] prints
    a count, then exactly the decoded lines of its input (standard input, or the
    contents of the file of [--input]) were added, each once and in order, and
    the count is their number.  Two commands need more: [clear] is the command
    that deletes the log, and is included without [--confirm] only; and [init] is
    refused because the manifest is there, unless a failing [Stat] claims that it
    is not. *)
Theorem command_keeps_log (events : list EventV1) (store : Store) (d d' : Disk) (defaultRoot : bytes) (command : bytes)
    (args : list bytes) (flags : lab_flags) (stdin : bytes * option error) (r : result output) :
  lab events (store, d) -> fresh_session parts d ->
  parse_flags formal (default_flags defaultRoot) args = Ok (flags, []) -> Abs (Clean (flag_root flags)) = Ok (lab_root parts) ->
  (command = str "clear" -> flag_confirm flags = false) -> (command = str "init" -> manifest_seen d) ->
  run (Ok defaultRoot) (command :: args) stdin d = (r, d') ->
  exists store' more, lab (events ++ more) (store', d') /\ well_ordered (events ++ more) /\
    (recording command = false -> more = []) /\
    (forall n, r = Ok (Ingested n) ->
       exists text, input_text (flag_input flags) stdin d text /\ decodes (filled_lines text) more /\ n = len more).
Proof.
  intros Hlab Hfresh Hparse Hroot Hclear Hinit H.
  enough (exists store', dispatched command flags stdin d events r (store', d')) as (store' & more & Hm & H1 & H2).
  { exists store', more. split_and!; try done. by eapply lab_ordered. }
  cbn [run] in H. rewrite (bind_ok _ _ _ defaultRoot d) in H by done.
  rewrite (bind_ok _ _ _ (flags, []) d) in H by (unfold wrap_error, lift; by rewrite Hparse).
  rewrite bool_decide_true in H by done. cbn [negb] in H.
  destruct (bool_decide (command = str "init")) eqn:Ei.
  { apply bool_decide_eq_true in Ei. apply bind_cases in H as [(e & [=] & _)|(now & d1 & [= _ <-] & H)].
    apply bind_cases in H as [(e & H & ->)|(store1 & d2 & H & _)]; apply Init_refused in H as [Hs [e' He]]; try done; try by apply Hinit.
    exists store. apply dispatched_same; [done|]. eapply lab_kept; [done..| |exact Hlab]. destruct Hs as [Hs _]. by apply same_kept. }
  destruct (bool_decide (command = str "clear")) eqn:Ec.
  { apply bool_decide_eq_true in Ec. unfold Clear in H. rewrite (Hclear Ec) in H. injection H as <- <-. exists store. by apply dispatched_same. }
  apply bind_cases in H as [(e & H & ->)|(store1 & d1 & H1 & H)]; [by eapply dispatched_silent; [apply silent_Open|..]|].
  pose proof (Open_identified _ _ _ _ H1) as [Hr _]. rewrite Hroot in Hr. injection Hr as Hr.
  pose proof (silent_Open _ _ _ _ H1) as (E & _ & En).
  destruct (dispatch _ _ _ _) as [r2 [store2 d2]] eqn:Ed. injection H as <- <-. exists store2.
  assert (dispatched command flags stdin d1 events r2 (store2, d2)) as (more & Hm & Hrec & Hn).
  { eapply (dispatch_inv _ _ _ _ (store1, d1)); [by eapply lab_open| |exact Ed].
    intros id rest Hid. cbn [snd] in *. rewrite E. eapply Hfresh. by rewrite <- En. }
  exists more. split_and!; try done. unfold input_text in *. by rewrite <- E.
Qed.

End records.
