(* ===== verification/AgentLock.v ===== *)
(** * The lock of the desktop agent ([desktopagent/process_lock_unix.go],
    [desktopagent/paths_darwin.go], [desktopagent/paths_other.go])

    One agent per user: the loop of [Agent.Run] holds an advisory lock on a file.
    The operating system is the file system of [ReplayDisk], whose calls can
    fail, and the table of the [flock] locks that are held; a lock belongs to the
    opened file it was taken with and ends when that file is closed.  Nobody
    deletes the lock file, so a path stands for one file. *)

From S2P Require Import Prelude Effects Encoding Unicode Crypto ReplayEvent ReplayDisk Agent Runner ReplayStoreFacts.

Definition ErrAlreadyRunning : error := errors_New "YunPin sync agent is already running for this user".

(** ** Paths *)

Record Paths := mkPaths {
  StateDirectory : bytes; EndpointConfigPath : bytes; DatabasePath : bytes; LockPath : bytes; CredentialService : bytes
}.

Definition DefaultProfile : bytes := str "default".

Definition paths_below (state : bytes) : Paths :=
  mkPaths state (Join [state; str "sync.json"]) (Join [state; str "private.db"]) (Join [state; str "agent.lock"])
    (str "io.github.kukuyan.inputmethod.YunPin.sync").

(** On macOS, and on the other Unix systems. *)
Definition DefaultPaths_darwin (UserHomeDir : result bytes) : result Paths :=
  let! home := UserHomeDir in
  Ok (paths_below (Join [home; str "Library"; str "Application Support"; str "YunPin"; str "Sync"])).

Definition DefaultPaths_other (UserConfigDir : result bytes) : result Paths :=
  let! config := UserConfigDir in Ok (paths_below (Join [config; str "yunpin"; str "sync"])).

(** ** The lock *)

(** The disk, the opened file that holds the lock of a path, and the number of
    the next opened file. *)
Record System := mkSystem { disk : Disk; held : gmap bytes nat; next_file : nat }.

(** [file] is [nil] after the release. *)
Record unixProcessLock := mkLock { lock_path : bytes; file : option nat }.

Definition EWOULDBLOCK : error := errors_New "resource temporarily unavailable".

Section lock.
Context `{OS : Machine}.

(** Other errors of [flock], at the calls where they happen. *)
Variable flock_fault : nat -> option error.

Definition in_disk {A} (m : St Disk A) : St System A := fun s =>
  let '(r, d) := m (disk s) in (r, mkSystem d (held s) (next_file s)).

(** [os.OpenFile]: a new opened file. *)
Definition open_lock (path : bytes) : St System nat :=
  do! _ := in_disk (OpenWrite false path) in
  fun s => (Ok (next_file s), mkSystem (disk s) (held s) (S (next_file s))).

(** [flock] with [LOCK_EX|LOCK_NB]. *)
Definition flock_exclusive (path : bytes) (f : nat) : St System unit := fun s =>
  match flock_fault (calls (disk s)) with
  | Some e => (Err e, mkSystem (tick (disk s)) (held s) (next_file s))
  | None =>
      match held s !! Clean path with
      | Some other =>
          if bool_decide (other = f) then (Ok tt, s) else (Err EWOULDBLOCK, mkSystem (tick (disk s)) (held s) (next_file s))
      | None => (Ok tt, mkSystem (tick (disk s)) (<[Clean path := f]> (held s)) (next_file s))
      end
  end.

(** The file does not hold the lock any more. *)
Definition without_lock (path : bytes) (f : nat) (table : gmap bytes nat) : gmap bytes nat :=
  if bool_decide (table !! Clean path = Some f) then delete (Clean path) table else table.

Definition drop_lock (path : bytes) (f : nat) (s : System) : System :=
  mkSystem (disk s) (without_lock path f (held s)) (next_file s).

Definition flock_unlock (path : bytes) (f : nat) : St System unit := fun s =>
  match flock_fault (calls (disk s)) with
  | Some e => (Err e, mkSystem (tick (disk s)) (held s) (next_file s))
  | None => (Ok tt, drop_lock path f (mkSystem (tick (disk s)) (held s) (next_file s)))
  end.

(** Closing ends the lock, whatever it reports. *)
Definition close_lock (path : bytes) (f : nat) : St System unit := fun s =>
  let '(r, s') := in_disk (File_Close path) s in (r, drop_lock path f s').

Definition acquireProcessLock (path : bytes) : St System unixProcessLock :=
  if bool_decide (path = []) || negb (IsAbs path) then lift (fail "agent lock path must be absolute")
  else
    do! _ := wrap_error "create agent state directory: %w" (in_disk (MkdirAll (Dir path))) in
    do! f := wrap_error "open agent lock: %w" (open_lock path) in
    do! locked := attempt (flock_exclusive path f) in
    match locked with
    | Ok _ => ret (mkLock path (Some f))
    | Err e =>
        do! _ := attempt (close_lock path f) in
        if errors_Is e EWOULDBLOCK then raise ErrAlreadyRunning else raise (Errorf_w "acquire agent lock: %w" e)
    end.

(** On every way out of a release [file] is [nil]. *)
Definition Release (lock : option unixProcessLock) : St System unit :=
  match lock with
  | None => ret tt
  | Some l =>
      match file l with
      | None => ret tt
      | Some f =>
          do! err := attempt (flock_unlock (lock_path l) f) in
          do! closeErr := attempt (close_lock (lock_path l) f) in
          match err with Err e => raise e | Ok _ => lift closeErr end
      end
  end.

(** ** One agent at a time *)

(** The locks that agents hold: the path and the opened file. *)
Definition live_lock (l : unixProcessLock) : option (bytes * nat) :=
  match file l with Some f => Some (Clean (lock_path l), f) | None => None end.

(** Agents acquire and release, and an agent that ends loses its opened file. *)
Inductive agents : System -> list (bytes * nat) -> Prop :=
  | agents_none d n : agents (mkSystem d ∅ n) []
  | agents_acquire path s live r s' :
      agents s live -> acquireProcessLock path s = (r, s') ->
      agents s' (match r with Ok l => match live_lock l with Some x => x :: live | None => live end | Err _ => live end)
  | agents_release l s live1 x live2 r s' :
      agents s (live1 ++ x :: live2) -> live_lock l = Some x -> Release (Some l) s = (r, s') -> agents s' (live1 ++ live2)
  | agents_exit path f s live1 live2 :
      agents s (live1 ++ (Clean path, f) :: live2) -> agents (drop_lock path f s) (live1 ++ live2)
  | agents_other s live d : agents s live -> agents (mkSystem d (held s) (next_file s)) live.

(** The table is what the agents hold, and the numbers are used up. *)
Definition consistent (s : System) (live : list (bytes * nat)) : Prop :=
  NoDup (map fst live) /\ (forall path f, held s !! path = Some f <-> (path, f) ∈ live) /\ (forall path f, held s !! path = Some f -> (f < next_file s)%nat).

(** What the calls do to the table. *)
Definition same_table (s s' : System) : Prop := held s' = held s /\ next_file s' = next_file s.

Lemma in_disk_inv {A} (m : St Disk A) s r s' : in_disk m s = (r, s') -> same_table s s'.
Proof. unfold in_disk. destruct (m (disk s)) as [r1 d]. by intros [= _ <-]. Qed.

Lemma close_lock_inv path f s r s' : close_lock path f s = (r, s') ->
  held s' = without_lock path f (held s) /\ next_file s' = next_file s.
Proof.
  unfold close_lock. destruct (in_disk _ s) as [r1 s1] eqn:E. apply in_disk_inv in E as [E1 E2]. intros [= _ <-].
  cbn. by rewrite E1.
Qed.

Lemma flock_exclusive_inv path f s r s' : flock_exclusive path f s = (r, s') -> next_file s' = next_file s /\
  ((exists e, r = Err e /\ held s' = held s) \/
   (r = Ok tt /\ held s' = <[Clean path := f]> (held s) /\ (held s !! Clean path = None \/ held s !! Clean path = Some f))).
Proof.
  unfold flock_exclusive. destruct (flock_fault _); [intros [= <- <-]; cbn; eauto|].
  destruct (held s !! Clean path) as [other|] eqn:E; [|intros [= <- <-]; cbn; split; [done|right; auto]].
  destruct (bool_decide (other = f)) eqn:Ef; bools; intros [= <- <-]; cbn; split; eauto. right. subst. rewrite insert_id by done. auto.
Qed.

Lemma flock_unlock_inv path f s r s' : flock_unlock path f s = (r, s') ->
  next_file s' = next_file s /\ (held s' = held s \/ held s' = without_lock path f (held s)).
Proof. unfold flock_unlock. destruct (flock_fault _); intros [= _ <-]; cbn; auto. Qed.

Lemma without_twice path f table : without_lock path f (without_lock path f table) = without_lock path f table.
Proof.
  unfold without_lock. destruct (bool_decide (table !! _ = _)) eqn:E; [|by rewrite E].
  by rewrite lookup_delete_eq, bool_decide_false.
Qed.

(** The numbers in the table are used up. *)
Definition numbered (s : System) : Prop := forall path f, held s !! path = Some f -> (f < next_file s)%nat.

Lemma acquire_inv path s r s' : numbered s -> acquireProcessLock path s = (r, s') -> (next_file s <= next_file s')%nat /\
  ((exists e, r = Err e /\ held s' = held s) \/
   (exists f, r = Ok (mkLock path (Some f)) /\ (next_file s <= f < next_file s')%nat /\ held s !! Clean path = None /\ held s' = <[Clean path := f]> (held s))).
Proof.
  intros Hnum H. unfold acquireProcessLock in H. destruct (_ || _) in H; [injection H as <- <-; split; [lia|left; eauto]|].
  apply bind_cases in H as [(e & H & ->)|([] & s1 & H1 & H)].
  { apply wrap_error_cases in H as [(? & [-> ->]%in_disk_inv & _)|(? & [-> ->]%in_disk_inv & _)]; split; eauto. }
  assert (same_table s s1) as [E1 N1] by (apply wrap_error_cases in H1 as [(? & ?%in_disk_inv & _)|(? & ?%in_disk_inv & _)]; done). clear H1.
  apply bind_cases in H as [(e & H & ->)|(f & s2 & H1 & H)].
  { apply wrap_error_cases in H as [(? & _ & [=])|(? & H & _)]. unfold open_lock in H.
    apply bind_cases in H as [(? & [E2 N2]%in_disk_inv & _)|(? & ? & _ & [=])]. rewrite E2, N2, E1, N1. split; eauto. }
  apply wrap_error_cases in H1 as [(? & H1 & [= <-])|(? & _ & [=])]. unfold open_lock in H1.
  apply bind_cases in H1 as [(? & _ & [=])|([] & s3 & [E2 N2]%in_disk_inv & [= <- <-])]. rewrite N2, N1 in *.
  apply bind_cases in H as [(e & (? & _ & [=])%attempt_inv & _)|(locked & s4 & (r4 & H4 & [= ->])%attempt_inv & H)].
  apply flock_exclusive_inv in H4 as [N4 H4]. cbn [held next_file] in N4, H4. rewrite E2, E1 in H4.
  destruct H4 as [(e & -> & E4)|(-> & E4 & Hfree)].
  - apply bind_cases in H as [(? & (? & _ & [=])%attempt_inv & _)|(closed & s5 & (r5 & [E5 N5]%close_lock_inv & _)%attempt_inv & H)].
    assert (held s5 = held s) as Hheld.
    { rewrite E5. unfold without_lock. rewrite bool_decide_false; [done|]. rewrite E4. intros Hf%Hnum. lia. }
    destruct (errors_Is _ _); injection H as <- <-; split; try lia; left; eauto.
  - injection H as <- <-. split; [lia|]. right. exists (next_file s). split_and!; try lia; try done.
    destruct Hfree as [|Hf%Hnum]; [done|lia].
Qed.

Lemma Release_inv l f s r s' : file l = Some f -> Release (Some l) s = (r, s') ->
  held s' = without_lock (lock_path l) f (held s) /\ next_file s' = next_file s.
Proof.
  intros Hf H. unfold Release in H. rewrite Hf in H.
  apply bind_cases in H as [(? & (? & _ & [=])%attempt_inv & _)|(err & s1 & (r1 & [N1 H1]%flock_unlock_inv & _)%attempt_inv & H)].
  apply bind_cases in H as [(? & (? & _ & [=])%attempt_inv & _)|(closeErr & s2 & (r2 & [E2 N2]%close_lock_inv & _)%attempt_inv & H)].
  assert (s' = s2) as -> by (destruct err; unfold raise, lift in H; congruence). split; [|congruence].
  rewrite E2. destruct H1 as [-> | ->]; [done|apply without_twice].
Qed.

Lemma drop_consistent path f s live1 live2 :
  consistent s (live1 ++ (Clean path, f) :: live2) -> consistent (drop_lock path f s) (live1 ++ live2).
Proof.
  intros (Hnd & Htable & Hnum). assert (held s !! Clean path = Some f) as Hf by (apply Htable; set_solver).
  unfold drop_lock, without_lock. rewrite bool_decide_true by done. rewrite map_app, map_cons in Hnd. apply NoDup_app in Hnd as (N1 & N2 & N3).
  apply NoDup_cons in N3 as [N3 N4]. assert (Clean path ∉ map fst (live1 ++ live2)) as Hout.
  { rewrite map_app. intros [H|H]%elem_of_app; [eapply N2; [exact H|by left]|done]. }
  split_and!.
  - rewrite map_app. apply NoDup_app. split_and!; [done| |done]. intros x Hx Hx2. eapply N2; [exact Hx|by right].
  - intros q g. cbn [held]. rewrite lookup_delete_Some, Htable. rewrite !elem_of_app, elem_of_cons. split.
    + intros (Hq & [?|[[= -> ->]|?]]); auto. done.
    + intros Hq. split; [|tauto]. intros <-. apply Hout, list_elem_of_fmap. exists (Clean path, g). by rewrite elem_of_app.
  - intros q g. cbn [held next_file]. intros [_ ?]%lookup_delete_Some. by eapply Hnum.
Qed.

Lemma agents_consistent s live : agents s live -> consistent s live.
Proof.
  induction 1 as [d n|path s live r s' _ IH H|l s live1 [path f] live2 r s' _ IH Hl H|path f s live1 live2 _ IH|s live d _ IH].
  - split_and!; [constructor| |]; intros path f; cbn; rewrite lookup_empty; set_solver.
  - destruct IH as (Hnd & Htable & Hnum). apply acquire_inv in H as [Hle [(e & -> & E)|(f & -> & Hf & Hfree & E)]]; [| |done].
    + split_and!; [done|by rewrite E|]. intros q g. rewrite E. intros ?%Hnum. lia.
    + cbn [live_lock file lock_path]. split_and!.
      * cbn. constructor; [|done]. intros ([q g] & Hq & Hin)%list_elem_of_fmap. cbn in Hq. subst q. apply Htable in Hin. congruence.
      * intros q g. rewrite E, lookup_insert_Some, elem_of_cons, <- Htable. split.
        -- intros [[-> ->]|[_ ?]]; auto.
        -- intros [[= -> ->]|Hq]; [by left|]. right. split; [congruence|done].
      * intros q g. rewrite E. intros [[_ <-]|[_ ?%Hnum]]%lookup_insert_Some; lia.
  - unfold live_lock in Hl. destruct (file l) as [f'|] eqn:Ef; [|done]. injection Hl as <- <-.
    apply Release_inv with (f := f') in H as [E N]; [|done]. apply drop_consistent in IH as (H1 & H2 & H3). split_and!; [done|by rewrite E|].
    intros q g. rewrite E, N. apply H3.
  - by apply drop_consistent.
  - destruct IH as (H1 & H2 & H3). by split_and!.
Qed.

Lemma acquire_free path s :
  (forall n, flock_fault n = None) -> path <> [] -> IsAbs path = true -> held s !! Clean path = None ->
  (in_disk (do! _ := MkdirAll (Dir path) in OpenWrite false path) s).1 = Ok tt ->
  exists l s', acquireProcessLock path s = (Ok l, s').
Proof.
  intros Hq Hne Habs Hfree Hopen. unfold acquireProcessLock. rewrite bool_decide_false, Habs by done. cbn [orb negb].
  unfold in_disk, bind in Hopen. destruct (MkdirAll (Dir path) (disk s)) as [[[]|] d1] eqn:E1; [|done].
  destruct (OpenWrite false path d1) as [[[]|] d2] eqn:E2; [|done].
  rewrite (bind_ok _ _ _ tt (mkSystem d1 (held s) (next_file s))) by (unfold wrap_error, in_disk; by rewrite E1).
  rewrite (bind_ok _ _ _ (next_file s) (mkSystem d2 (held s) (S (next_file s)))) by (unfold wrap_error, open_lock, bind, in_disk; cbn [disk]; by rewrite E2).
  unfold bind, attempt, flock_exclusive. cbn [disk held]. rewrite Hq, Hfree. by eexists _, _.
Qed.

(** C36: one agent runs at a time.  However agents acquire the lock, release it or
    end without a release, and whichever calls fail, no two of them hold the
    lock of one path.  While one holds it, another cannot acquire it, leaves it
    where it is, and its loop returns without synchronising; when none holds it,
    the lock can be acquired as soon as its file can be opened. *)
Theorem one_agent (s : System) (live : list (bytes * nat)) (path : bytes) :
  agents s live ->
  NoDup (map fst live) /\
  (Clean path ∈ map fst live -> forall r s', acquireProcessLock path s = (r, s') ->
     held s' = held s /\ exists e, r = Err e /\
       forall S R (syncOnce : D S R SyncSummary) options turns (w : Desktop S R), exists e', Run syncOnce (Err e) options turns w = (Err e', w)) /\
  (Clean path ∉ map fst live -> (forall n, flock_fault n = None) -> path <> [] -> IsAbs path = true ->
     (in_disk (do! _ := MkdirAll (Dir path) in OpenWrite false path) s).1 = Ok tt ->
     exists l s', acquireProcessLock path s = (Ok l, s')).
Proof.
  intros (Hnd & Htable & Hnum)%agents_consistent. split; [done|]. split.
  - intros ([p f] & Hp & Hin%Htable)%list_elem_of_fmap r s' H. cbn in Hp. subst p.
    apply acquire_inv in H as [_ [(e & -> & E)|(g & _ & _ & Hfree & _)]]; [|congruence|done]. split; [done|]. exists e. split; [done|].
    intros S R syncOnce options turns w. unfold Run, runLoop. destruct (defaults options); eauto.
  - intros Hout Hq Hne Habs Hopen. apply acquire_free; try done. destruct (held s !! Clean path) as [f|] eqn:E; [|done].
    apply Htable in E. destruct Hout. apply list_elem_of_fmap. by exists (Clean path, f).
Qed.

End lock.

(** A machine that does not fail, and a state directory. *)
Definition lock_machine : Machine :=
  {| fault _ _ _ := None; transferred _ := O; survives _ _ := false; clock _ := 0;
     UserHomeDir := Ok (str "/home/me"); Getwd := Ok (str "/") |}.

Definition lock_file : bytes := Eval vm_compute in
  match DefaultPaths_other (Ok (str "/home/me/.config")) with Ok paths => LockPath paths | Err _ => [] end.

Definition no_agents : System := mkSystem (mkDisk ∅ ∅ [] 0) ∅ 0.

Definition acquire : St System unixProcessLock := acquireProcessLock (OS := lock_machine) (fun _ => None) lock_file.

(** One agent holds the lock; a second one is turned away. *)
Lemma one_agent_witness :
  lock_file = str "/home/me/.config/yunpin/sync/agent.lock" /\ (acquire no_agents).1 = Ok (mkLock lock_file (Some 0%nat)) /\
  NoDup (map fst [(lock_file, 0%nat)]) /\ (acquire (acquire no_agents).2).1 = Err ErrAlreadyRunning /\
  held (acquire (acquire no_agents).2).2 = held (acquire no_agents).2.
Proof.
  assert ((acquire no_agents).1 = Ok (mkLock lock_file (Some 0%nat))) as H by (vm_compute; reflexivity).
  assert (Clean lock_file = lock_file) as Hc by (vm_compute; reflexivity).
  assert (agents (OS := lock_machine) (fun _ => None) (acquire no_agents).2 [(lock_file, 0%nat)]) as Ha.
  { pose proof (agents_acquire (OS := lock_machine) (fun _ => None) lock_file no_agents [] _ _
      (agents_none (OS := lock_machine) (fun _ => None) (mkDisk ∅ ∅ [] 0) 0) (surjective_pairing _)) as Hs.
    unfold acquire in H |- *. rewrite H in Hs. cbn [live_lock file lock_path] in Hs. rewrite Hc in Hs. exact Hs. }
  destruct (one_agent (OS := lock_machine) (fun _ => None) (acquire no_agents).2 [(lock_file, 0%nat)] lock_file Ha) as (H1 & H2 & _).
  split; [reflexivity|]. split; [exact H|]. split; [exact H1|]. split; [vm_compute; reflexivity|].
  refine (proj1 (H2 _ _ _ (surjective_pairing _))). rewrite Hc. apply list_elem_of_singleton. reflexivity.
Defined.
