(* ===== verification/AgentSecrets.v ===== *)
(** * The credential files of the desktop agent on Windows
    ([desktopagent/secret_store_windows.go], [desktopagent/secret_store.go])

    A credential is protected with DPAPI for the current user and written to a
    file of its own by way of a temporary file.  DPAPI and the failures of the
    system are the class [WindowsSystem].  A volume maps the names of files,
    which Windows compares without regard to case, to what they hold; what
    directories do is only that a call can fail.  Other processes leave the
    credential directory alone between two calls.  The record of the operations
    is a [SecretStore] of the agent and keeps its law. *)

From S2P Require Import Prelude Effects Encoding Sha256 Unicode Crypto Credentials Agent.

(** ** Options *)

Record PlatformSecretStoreOptions := mkStoreOptions { OptService : bytes; OptDirectory : bytes }.

Definition validateStoreOptions (options : PlatformSecretStoreOptions) : result unit :=
  if bool_decide (TrimSpace (OptService options) = []) || (len (OptService options) >? 128)
     || bool_decide (Byte.x00 ∈ OptService options) then
    fail "credential service identifier is invalid"
  else Ok tt.

Record dpapiSecretStore := mkDpapi { service : bytes; directory : bytes }.

Definition maxProtectedFileBytes : Z := 1024 * 1024.

(** ** The system *)

(** What a name stands for; a directory or a link is no regular file. *)
Inductive FileEntry := RegularFile (contents : bytes) | NotRegular.

Record Volume := mkVolume { vfiles : gmap bytes FileEntry; vcalls : nat }.

Class WindowsSystem := {
  CryptProtectData : nat -> bytes -> bytes -> bytes;       (* the call, the entropy, the data *)
  CryptUnprotectData : bytes -> bytes -> option bytes;
  win_fault : nat -> option error;                         (* the calls that fail *)
  win_partial : nat -> nat;                                (* the bytes a failing read or write moves *)
  context_err : nat -> option error;
  temp_suffix : nat -> nat -> bytes                        (* what [os.CreateTemp] puts for the star: the call, the attempt *)
}.

(** Documented behaviour of DPAPI: data is unprotected with the entropy it was
    protected with, and with no other. *)
Class DpapiLaws (W : WindowsSystem) : Prop := {
  unprotect_protected : forall n entropy data, CryptUnprotectData entropy (CryptProtectData n entropy data) = Some data;
  unprotect_other : forall n entropy other data, other <> entropy -> CryptUnprotectData other (CryptProtectData n entropy data) = None
}.

Definition ErrFileExists : error := errors_New "file already exists".
Definition EINVAL : error := errors_New "invalid argument".
Definition ErrAccess : error := errors_New "access is denied".

(** The name of a file as the volume compares it; profiles are ASCII. *)
Definition vkey (path : bytes) : bytes := map Ascii.lower path.

(** [filepath.Join] of a clean directory and a plain name. *)
Definition win_join (directory name : bytes) : bytes :=
  if bool_decide (last directory = Some Byte.x5c) then directory ++ name else directory ++ Byte.x5c :: name.

Section system.
Context `{W : WindowsSystem}.

Definition vcall {A} (f : gmap bytes FileEntry -> result (A * gmap bytes FileEntry)) : St Volume A := fun v =>
  match win_fault (vcalls v) with
  | Some e => (Err e, mkVolume (vfiles v) (S (vcalls v)))
  | None =>
      match f (vfiles v) with
      | Ok (a, files) => (Ok a, mkVolume files (S (vcalls v)))
      | Err e => (Err e, mkVolume (vfiles v) (S (vcalls v)))
      end
  end.

(** A call that changes no file. *)
Definition vquiet : St Volume unit := vcall (fun files => Ok (tt, files)).

(** [ctx.Err()] *)
Definition check_context : St Volume unit := fun v =>
  match context_err (vcalls v) with
  | Some e => (Err e, mkVolume (vfiles v) (S (vcalls v)))
  | None => (Ok tt, mkVolume (vfiles v) (S (vcalls v)))
  end.

(** [os.CreateTemp]: a file nobody has, under the first random name that is free;
    it gives up after ten thousand. *)
Definition temp_name (dir : bytes) (call attempt : nat) : bytes :=
  win_join dir (str ".credentials-" ++ temp_suffix call attempt ++ str ".tmp").

Fixpoint free_name (tries : nat) (dir : bytes) (call attempt : nat) (files : gmap bytes FileEntry) : option bytes :=
  match tries with
  | O => None
  | S tries =>
      let name := temp_name dir call attempt in
      match files !! vkey name with
      | Some _ => free_name tries dir call (S attempt) files
      | None => Some name
      end
  end.

Definition CreateTemp (dir : bytes) : St Volume bytes := fun v =>
  vcall (fun files =>
    match free_name (Z.to_nat 10000) dir (vcalls v) 0 files with
    | Some name => Ok (name, <[vkey name := RegularFile []]> files)
    | None => Err ErrFileExists
    end) v.

(** [File.Write] to the new file: everything, or less and an error. *)
Definition write_file (path data : bytes) : St Volume unit := fun v =>
  let put text := <[vkey path := RegularFile text]> (vfiles v) in
  match win_fault (vcalls v) with
  | Some e => (Err e, mkVolume (put (take (win_partial (vcalls v)) data)) (S (vcalls v)))
  | None => (Ok tt, mkVolume (put data) (S (vcalls v)))
  end.

Definition remove_file (path : bytes) : St Volume unit :=
  vcall (fun files => match files !! vkey path with Some _ => Ok (tt, delete (vkey path) files) | None => Err ErrNotExist end).

(** [MoveFileExW] with replacement. *)
Definition move_file (source destination : bytes) : St Volume unit :=
  vcall (fun files =>
    match files !! vkey source, files !! vkey destination with
    | None, _ => Err ErrNotExist
    | Some _, Some NotRegular => Err ErrAccess
    | Some e, _ => Ok (tt, <[vkey destination := e]> (delete (vkey source) files))
    end).

(** [defer]: what was deferred runs on every way out. *)
Definition deferred {A} (m : St Volume A) (cleanup : St Volume unit) : St Volume A :=
  do! r := attempt m in do! _ := attempt cleanup in lift r.

(** ** The operations *)

Section operations.
Variable store : dpapiSecretStore.

Definition dpapi_entropy (profile : bytes) : bytes :=
  Sum256 (str "yunpin-desktopagent-dpapi-v1" ++ Byte.x00 :: service store ++ Byte.x00 :: profile).

Definition protect (profile value : bytes) : St Volume bytes := fun v =>
  (do! _ := wrap_error "protect YunPin credential with current-user DPAPI: %w" vquiet in
   let output := CryptProtectData (vcalls v) (dpapi_entropy profile) value in
   if (len output <? 1) || (len output >? maxProtectedFileBytes) then lift (fail "DPAPI returned an invalid protected credential")
   else ret output) v.

Definition unprotect (profile value : bytes) : St Volume bytes :=
  do! plain := wrap_error "unprotect YunPin credential with current-user DPAPI: %w" (vcall (fun files =>
    match CryptUnprotectData (dpapi_entropy profile) value with Some plain => Ok (plain, files) | None => Err EINVAL end)) in
  if (len plain <? 1) || (len plain >? maxCredentialBlobBytes) then lift (fail "DPAPI returned an invalid plaintext credential")
  else ret plain.

Definition credential_path (profile : bytes) : bytes :=
  win_join (directory store) (str "credentials-" ++ profile ++ str ".v1.dpapi").

Definition path (profile : bytes) : result bytes :=
  let! _ := validateProfile profile in Ok (credential_path profile).

(** [syscall.UTF16PtrFromString] refuses a NUL. *)
Definition utf16 (s : bytes) : result unit := if bool_decide (Byte.x00 ∈ s) then Err EINVAL else Ok tt.

Definition moveReplace (source destination : bytes) : St Volume unit :=
  do! _ := lift (utf16 source) in
  do! _ := lift (utf16 destination) in
  wrap_error "atomically replace DPAPI credential: %w" (move_file source destination).

(** The temporary file is filled, closed and moved over the credential. *)
Definition fill_and_move (temporary protected path : bytes) : St Volume unit :=
  do! err := attempt (do! _ := vquiet in write_file temporary protected) in
  do! err := match err with Ok _ => attempt vquiet | Err e => ret (Err e) end in
  do! closeErr := attempt vquiet in
  match err, closeErr with
  | Err e, _ => raise (Errorf_w "write DPAPI credential: %w" e)
  | Ok _, Err e => raise (Errorf_w "close DPAPI credential: %w" e)
  | Ok _, Ok _ => do! _ := check_context in moveReplace temporary path
  end.

Definition dpapi_Save (profile value : bytes) : St Volume unit :=
  do! _ := check_context in
  if (len value <? 1) || (len value >? maxCredentialBlobBytes) then lift (fail "credential value length is invalid")
  else
    do! path := lift (path profile) in
    do! protected := protect profile value in
    do! _ := wrap_error "create DPAPI credential directory: %w" vquiet in
    do! temporary := wrap_error "create temporary DPAPI credential: %w" (CreateTemp (directory store)) in
    deferred (fill_and_move temporary protected path) (remove_file temporary).

Definition bounded_regular (e : FileEntry) : bool :=
  match e with RegularFile text => (1 <=? len text) && (len text <=? maxProtectedFileBytes) | NotRegular => false end.

(** [os.Lstat] and [os.Open] with [File.Stat]. *)
Definition stat_file (path : bytes) : St Volume FileEntry :=
  vcall (fun files => match files !! vkey path with Some e => Ok (e, files) | None => Err ErrNotExist end).

(** The reads through [io.LimitReader]. *)
Definition read_file (e : FileEntry) : St Volume bytes :=
  do! _ := vquiet in
  ret (match e with RegularFile text => take (Z.to_nat (maxProtectedFileBytes + 1)) text | NotRegular => [] end).

Definition dpapi_Load (profile : bytes) : St Volume bytes :=
  do! _ := check_context in
  do! path := lift (path profile) in
  do! info := attempt (stat_file path) in
  match info with
  | Err e => if errors_Is e ErrNotExist then raise ErrSecretNotFound else raise (Errorf_w "inspect DPAPI credential: %w" e)
  | Ok info =>
      if negb (bounded_regular info) then lift (fail "DPAPI credential must be a bounded regular file")
      else
        do! opened := wrap_error "open DPAPI credential: %w" (stat_file path) in
        do! status := attempt vquiet in
        if negb (is_Ok status) || negb (bounded_regular opened) then lift (fail "DPAPI credential changed during validated open")
        else
          do! protected := wrap_error "read DPAPI credential: %w" (read_file opened) in
          if (len protected <? 1) || (len protected >? maxProtectedFileBytes) then
            lift (fail "DPAPI credential length changed during read")
          else
            do! plain := unprotect profile protected in
            do! _ := check_context in
            ret plain
  end.

Definition dpapi_Delete (profile : bytes) : St Volume unit :=
  do! _ := check_context in
  do! path := lift (path profile) in
  do! removed := attempt (remove_file path) in
  match removed with
  | Err e => if errors_Is e ErrNotExist then raise ErrSecretNotFound else raise (Errorf_w "delete DPAPI credential: %w" e)
  | Ok _ => ret tt
  end.

End operations.

(** What the agent is given. *)
Definition dpapi_secrets (store : dpapiSecretStore) : SecretStore Volume :=
  mkSecretStore (dpapi_Load store) (dpapi_Save store).

End system.

(** ** What saving does *)

Section facts.
Context `{W : WindowsSystem} {L : DpapiLaws W} (store : dpapiSecretStore).

Lemma vcall_inv {A} (f : gmap bytes FileEntry -> result (A * gmap bytes FileEntry)) v r v' :
  vcall f v = (r, v') -> (exists e, r = Err e /\ vfiles v' = vfiles v) \/ (exists a, r = Ok a /\ f (vfiles v) = Ok (a, vfiles v')).
Proof.
  unfold vcall. destruct (win_fault _); [intros [= <- <-]; cbn; eauto|].
  destruct (f (vfiles v)) as [[a files]|e] eqn:E; intros [= <- <-]; cbn; eauto.
Qed.

Lemma vquiet_inv v r v' : vquiet v = (r, v') -> vfiles v' = vfiles v.
Proof. unfold vquiet. intros [(e & _ & ->)|(a & _ & [= _ <-])]%vcall_inv; done. Qed.

Lemma check_context_inv v r v' : check_context v = (r, v') -> vfiles v' = vfiles v.
Proof. unfold check_context. by destruct (context_err _); intros [= _ <-]. Qed.

(** At most the file of one name differs. *)
Definition changes_only (key : bytes) (v v' : Volume) : Prop := forall q, q <> key -> vfiles v' !! q = vfiles v !! q.

Lemma same_changes_only key v v' : vfiles v' = vfiles v -> changes_only key v v'.
Proof. intros E q _. by rewrite E. Qed.

Lemma changes_only_trans key v1 v2 v3 : changes_only key v1 v2 -> changes_only key v2 v3 -> changes_only key v1 v3.
Proof. intros H1 H2 q Hq. by rewrite H2, H1. Qed.

Lemma write_file_inv p data v r v' : write_file p data v = (r, v') ->
  changes_only (vkey p) v v' /\ (r = Ok tt -> vfiles v' !! vkey p = Some (RegularFile data)).
Proof.
  unfold write_file. destruct (win_fault _); intros [= <- <-]; (split; [intros q Hq; cbn; by rewrite lookup_insert_ne|intros E; try done]).
  cbn. by rewrite lookup_insert_eq.
Qed.

Lemma remove_file_inv p v r v' : remove_file p v = (r, v') -> changes_only (vkey p) v v'.
Proof.
  unfold remove_file. intros [(e & _ & E)|(a & _ & H)]%vcall_inv; [by apply same_changes_only|].
  destruct (vfiles v !! vkey p); [|done]. injection H as _ H. intros q Hq. rewrite <- H. by rewrite lookup_delete_ne.
Qed.

(** The credential is the temporary file, or nothing but the latter changed. *)
Lemma moveReplace_inv source destination v r v' : vkey source <> vkey destination -> moveReplace source destination v = (r, v') ->
  ((exists e, r = Err e) /\ vfiles v' = vfiles v) \/
  (r = Ok tt /\ vfiles v' !! vkey destination = vfiles v !! vkey source /\
   forall q, q <> vkey source -> q <> vkey destination -> vfiles v' !! q = vfiles v !! q).
Proof.
  intros Hne H. unfold moveReplace in H.
  apply bind_cases in H as [(e & [= _ <-] & ->)|([] & v1 & [= _ <-] & H)]; [eauto|].
  apply bind_cases in H as [(e & [= _ <-] & ->)|([] & v1 & [= _ <-] & H)]; [eauto|].
  apply wrap_error_cases in H as [([] & H & ->)|(e & H & ->)]; apply vcall_inv in H as [(e' & He & E)|([] & He & H)]; try done; [|eauto].
  right. split; [done|]. destruct (vfiles v !! vkey source) as [entry|] eqn:Es; [|done].
  assert (vfiles v' = <[vkey destination := entry]> (delete (vkey source) (vfiles v))) as ->
    by (destruct (vfiles v !! vkey destination) as [[]|]; congruence).
  split; [by rewrite lookup_insert_eq|]. intros q H1 H2. by rewrite lookup_insert_ne, lookup_delete_ne.
Qed.

Lemma fill_and_move_inv temporary protected destination v r v' :
  vkey temporary <> vkey destination -> fill_and_move temporary protected destination v = (r, v') ->
  (forall q, q <> vkey temporary -> q <> vkey destination -> vfiles v' !! q = vfiles v !! q) /\
  ((exists e, r = Err e) /\ vfiles v' !! vkey destination = vfiles v !! vkey destination \/
   r = Ok tt /\ vfiles v' !! vkey destination = Some (RegularFile protected)).
Proof.
  intros Hne H. unfold fill_and_move in H.
  apply bind_cases in H as [(? & (? & _ & [=])%attempt_inv & _)|(err & v1 & (r1 & H1 & [= ->])%attempt_inv & H)].
  assert (changes_only (vkey temporary) v v1 /\ (r1 = Ok tt -> vfiles v1 !! vkey temporary = Some (RegularFile protected))) as [C1 F1].
  { apply bind_cases in H1 as [(e & E%vquiet_inv & ->)|([] & v0 & E%vquiet_inv & [C F]%write_file_inv)]; [split; [by apply same_changes_only|done]|].
    split; [|done]. eapply changes_only_trans; [by apply same_changes_only|exact C]. }
  clear H1. apply bind_cases in H as [(e & H & ->)|(err2 & v2 & H2 & H)].
  { destruct r1; unfold ret in H; [by apply attempt_inv in H as (? & _ & [=])|done]. }
  assert (vfiles v2 = vfiles v1 /\ (is_Ok err2 = true -> r1 = Ok tt)) as [E2 F2].
  { destruct r1 as [[]|]; [apply attempt_inv in H2 as (? & ?%vquiet_inv & _); by split|injection H2 as <- <-; by split]. }
  apply bind_cases in H as [(? & (? & _ & [=])%attempt_inv & _)|(closeErr & v3 & (r3 & E3%vquiet_inv & _)%attempt_inv & H)].
  assert (forall w, vfiles w = vfiles v3 -> (forall q, q <> vkey temporary -> vfiles w !! q = vfiles v !! q)) as Hrest
    by (intros w Ew q Hq; rewrite Ew, E3, E2; by apply C1).
  destruct err2; [|injection H as <- <-; split; [eauto|left; eauto]]. destruct closeErr; [|injection H as <- <-; split; [eauto|left; eauto]].
  apply bind_cases in H as [(e & E4%check_context_inv & ->)|([] & v4 & E4%check_context_inv & H)]; [split; [eauto|left; eauto]|].
  apply moveReplace_inv in H as [[? E5]|(-> & Ed & Eo)]; [| |done].
  - split; [intros; apply Hrest; congruence|left; split; [done|apply Hrest; congruence]].
  - split; [intros q H1 H2'; rewrite Eo by done; by apply Hrest|]. right. split; [done|]. rewrite Ed, E4, E3, E2. by apply F1, F2.
Qed.

Lemma temporary_key suffix profile :
  vkey (win_join (directory store) (str ".credentials-" ++ suffix ++ str ".tmp")) <> vkey (credential_path store profile).
Proof.
  unfold vkey, credential_path, win_join. destruct (bool_decide _); rewrite !map_app; cbn [map]; intros H%app_inv_head; cbn in H; congruence.
Qed.

Lemma free_name_inv tries dir call files : forall attempt name, free_name tries dir call attempt files = Some name ->
  files !! vkey name = None /\ exists suffix, name = win_join dir (str ".credentials-" ++ suffix ++ str ".tmp").
Proof.
  induction tries as [|tries IH]; intros attempt name H; cbn in H; [done|].
  destruct (files !! vkey (temp_name dir call attempt)) eqn:E; [by apply IH in H|]. injection H as <-. split; [done|by eexists].
Qed.

(** The file a value was saved in. *)
Definition holds (v : Volume) (profile value : bytes) : Prop :=
  exists n, let protected := CryptProtectData n (dpapi_entropy store profile) value in
    vfiles v !! vkey (credential_path store profile) = Some (RegularFile protected) /\
    1 <= len protected <= maxProtectedFileBytes /\ 1 <= len value <= maxCredentialBlobBytes /\ validateProfile profile = Ok tt.

Lemma dpapi_Save_inv profile value v r v' : dpapi_Save store profile value v = (r, v') ->
  (forall q e, q <> vkey (credential_path store profile) -> vfiles v !! q = Some e -> vfiles v' !! q = Some e) /\
  ((exists e, r = Err e) /\ vfiles v' !! vkey (credential_path store profile) = vfiles v !! vkey (credential_path store profile) \/
   r = Ok tt /\ holds v' profile value).
Proof.
  assert (forall (r : result unit) w e, vfiles w = vfiles v -> r = Err e ->
    (forall q e, q <> vkey (credential_path store profile) -> vfiles v !! q = Some e -> vfiles w !! q = Some e) /\
    ((exists e, r = Err e) /\ vfiles w !! vkey (credential_path store profile) = vfiles v !! vkey (credential_path store profile) \/
     r = Ok tt /\ holds w profile value)) as Hsame by (intros r1 w e -> ->; split; [done|left; eauto]).
  intros H. unfold dpapi_Save in H.
  apply bind_cases in H as [(e & E%check_context_inv & ->)|([] & v1 & E1%check_context_inv & H)]; [by eapply Hsame|].
  destruct (_ || _) eqn:El in H; [injection H as <- <-; by eapply Hsame|]. bools.
  apply bind_cases in H as [(e & [= _ <-] & ->)|(p & v2 & [= Hp <-] & H)]; [by eapply Hsame|].
  unfold path in Hp. destruct (validateProfile profile) as [[]|] eqn:Evp; [|done]. injection Hp as <-.
  assert (forall r3 v3, protect store profile value v1 = (r3, v3) -> vfiles v3 = vfiles v1 /\ forall out, r3 = Ok out ->
    exists n, out = CryptProtectData n (dpapi_entropy store profile) value /\ 1 <= len out <= maxProtectedFileBytes) as Hprot.
  { intros r3 v3 H3. unfold protect in H3. apply bind_cases in H3 as [(e & H3 & ->)|([] & v4 & H4 & H3)].
    - apply wrap_error_cases in H3 as [(? & _ & [=])|(? & H3%vquiet_inv & _)]. done.
    - apply wrap_error_cases in H4 as [(? & H4%vquiet_inv & _)|(? & _ & [=])]. destruct (_ || _) eqn:Eo in H3; injection H3 as <- <-; (split; [done|]); [done|].
      intros out [= <-]. bools. eexists. split; [done|lia]. }
  apply bind_cases in H as [(e & [E _]%Hprot & ->)|(protected & v3 & [E3 Hout]%Hprot & H)]; [eapply Hsame; [congruence|done]|].
  destruct (Hout _ eq_refl) as (n & Epr & Hlen).
  apply bind_cases in H as [(e & H & ->)|([] & v4 & H4 & H)].
  { apply wrap_error_cases in H as [(? & _ & [=])|(? & H%vquiet_inv & _)]. eapply Hsame; [congruence|done]. }
  apply wrap_error_cases in H4 as [(? & E4%vquiet_inv & _)|(? & _ & [=])].
  apply bind_cases in H as [(e & H & ->)|(temporary & v5 & H5 & H)].
  { apply wrap_error_cases in H as [(? & _ & [=])|(? & H & _)]. unfold CreateTemp in H.
    apply vcall_inv in H as [(? & _ & H)|(? & [=] & _)]. eapply Hsame; [congruence|done]. }
  apply wrap_error_cases in H5 as [(? & H5 & [= <-])|(? & _ & [=])]. unfold CreateTemp in H5.
  apply vcall_inv in H5 as [(? & [=] & _)|(? & [= <-] & H5)].
  destruct (free_name _ _ _ _ _) as [name|] eqn:Efree; [|done]. injection H5 as <- E5.
  apply free_name_inv in Efree as [Efree [suffix Hname]].
  pose proof (temporary_key suffix profile) as Hkey. rewrite <- Hname in Hkey. clear Hname suffix.
  unfold deferred in H. apply bind_cases in H as [(? & (? & _ & [=])%attempt_inv & _)|(r6 & v6 & (r7 & H6 & [= ->])%attempt_inv & H)].
  apply bind_cases in H as [(? & (? & _ & [=])%attempt_inv & _)|(r8 & v8 & (r9 & C8%remove_file_inv & _)%attempt_inv & H)].
  injection H as <- <-. apply fill_and_move_inv in H6 as [Ho H6]; [|done]. assert (vfiles v4 = vfiles v) as Ev by congruence. split.
  - intros q e Hq Hin. destruct (decide (q = vkey name)) as [->|Hn]; [congruence|]. rewrite C8, Ho by done.
    rewrite <- E5, lookup_insert_ne, Ev by done. done.
  - destruct H6 as [[He H6]|[-> H6]]; [left|right]; (split; [done|]).
    + rewrite C8, H6, <- E5, lookup_insert_ne, Ev by congruence. done.
    + exists n. cbn zeta. rewrite <- Epr, C8, H6 by congruence. split_and!; (done || lia).
Qed.

(** Nothing fails from here on. *)
Definition calm_from (v : Volume) : Prop := forall n, (vcalls v <= n)%nat -> win_fault n = None /\ context_err n = None.

Lemma vcall_calm {A} (f : gmap bytes FileEntry -> result (A * gmap bytes FileEntry)) v a :
  calm_from v -> f (vfiles v) = Ok (a, vfiles v) -> vcall f v = (Ok a, mkVolume (vfiles v) (S (vcalls v))).
Proof. intros Hc E. unfold vcall. destruct (Hc (vcalls v)) as [-> _]; [lia|]. by rewrite E. Qed.

Definition next (v : Volume) : Volume := mkVolume (vfiles v) (S (vcalls v)).

Lemma calm_next v : calm_from v -> calm_from (next v).
Proof. intros H n Hn. apply H. cbn in Hn. lia. Qed.

Lemma check_calm v : calm_from v -> check_context v = (Ok tt, next v).
Proof. intros H. unfold check_context. destruct (H (vcalls v)) as [_ ->]; [lia|done]. Qed.

Lemma stat_calm p e v : calm_from v -> vfiles v !! vkey p = Some e -> stat_file p v = (Ok e, next v).
Proof. intros H E. apply vcall_calm; [done|]. by rewrite E. Qed.

Lemma read_calm text v : calm_from v -> len text <= maxProtectedFileBytes -> read_file (RegularFile text) v = (Ok text, next v).
Proof.
  intros H Hl. unfold read_file. rewrite (bind_ok _ _ _ tt (next v)) by (by apply vcall_calm). unfold ret. f_equal. f_equal.
  apply take_ge. unfold len in Hl. lia.
Qed.

Lemma Load_calm v profile value : calm_from v -> holds v profile value -> (dpapi_Load store profile v).1 = Ok value.
Proof.
  intros H0 (n & Hf & Hp & Hv & Hprofile). cbn zeta in *. set (protected := CryptProtectData _ _ _) in *.
  pose proof (calm_next _ H0) as H1. pose proof (calm_next _ H1) as H2. pose proof (calm_next _ H2) as H3.
  pose proof (calm_next _ H3) as H4. pose proof (calm_next _ H4) as H5. pose proof (calm_next _ H5) as H6.
  assert (bounded_regular (RegularFile protected) = true) as Hb by (cbn; apply andb_true_iff; split; apply Z.leb_le; lia).
  unfold dpapi_Load. rewrite (bind_ok _ _ _ tt (next v)) by (by apply check_calm).
  rewrite (bind_ok _ _ _ (credential_path store profile) (next v)) by (unfold lift, path; by rewrite Hprofile).
  rewrite (bind_ok _ _ _ (Ok (RegularFile protected)) (next (next v))) by (unfold attempt; by rewrite (stat_calm _ _ _ H1 Hf)).
  rewrite Hb. cbn [negb].
  rewrite (bind_ok _ _ _ (RegularFile protected) (next (next (next v)))) by (unfold wrap_error; by rewrite (stat_calm _ _ _ H2 Hf)).
  rewrite (bind_ok _ _ _ (Ok tt) (next (next (next (next v))))) by (unfold attempt, vquiet; by rewrite (vcall_calm _ _ tt H3)).
  rewrite Hb. cbn [is_Ok negb orb].
  rewrite (bind_ok _ _ _ protected (next (next (next (next (next v)))))) by (unfold wrap_error; by rewrite read_calm by (done || lia)).
  rewrite (proj2 (Z.ltb_ge _ _)), Z.gtb_ltb, (proj2 (Z.ltb_ge _ _)) by lia. cbn [orb].
  rewrite (bind_ok _ _ _ value (next (next (next (next (next (next v))))))).
  - unfold bind. by rewrite (check_calm _ H6).
  - unfold unprotect. rewrite (bind_ok _ _ _ value (next (next (next (next (next (next v))))))).
    + rewrite (proj2 (Z.ltb_ge _ _)), Z.gtb_ltb, (proj2 (Z.ltb_ge _ _)) by lia. done.
    + unfold wrap_error. rewrite (vcall_calm _ _ value H5); [done|]. unfold protected. by rewrite unprotect_protected.
Qed.

(** C34: saving a credential is all or nothing.  Whatever fails, and whenever the
    context is cancelled: every other file that was there is as it was; when
    [Save] reports an error the credential of the profile is as it was, too; and
    when it succeeds, the value is what [Load] gives on every later volume on
    which this file is unchanged and no call fails. *)
Theorem credential_saved_or_kept (profile value : bytes) (v v' : Volume) (r : result unit) :
  dpapi_Save store profile value v = (r, v') ->
  let key := vkey (credential_path store profile) in
  (forall q e, q <> key -> vfiles v !! q = Some e -> vfiles v' !! q = Some e) /\
  match r with
  | Err _ => vfiles v' !! key = vfiles v !! key
  | Ok _ => forall w, vfiles w !! key = vfiles v' !! key -> calm_from w -> (dpapi_Load store profile w).1 = Ok value
  end.
Proof.
  intros H key. apply dpapi_Save_inv in H as [Hrest [[[e ->] Hkey]|[-> (n & Hf & Hb)]]]; (split; [done|]); [done|].
  intros w Hw Hc. apply Load_calm; [done|]. exists n. cbn zeta in *. subst key. split; [by rewrite Hw|done].
Qed.

(** *** Loading *)

(** A computation that leaves the files alone. *)
Definition only_reads {A} (m : St Volume A) : Prop := forall v r v', m v = (r, v') -> vfiles v' = vfiles v.

Lemma volume_lift {A} (r : result A) : only_reads (lift r).
Proof. by intros v r' v' [= _ <-]. Qed.

Lemma volume_bind {A B} (m : St Volume A) (f : A -> St Volume B) : only_reads m -> (forall a, only_reads (f a)) -> only_reads (bind m f).
Proof. intros Hm Hf v r v' [(e & H%Hm & _)|(a & v1 & H1%Hm & H%Hf)]%bind_cases; congruence. Qed.

Lemma volume_attempt {A} (m : St Volume A) : only_reads m -> only_reads (attempt m).
Proof. intros Hm v r v' (r' & H%Hm & _)%attempt_inv. done. Qed.

Lemma volume_wrap {A} format (m : St Volume A) : only_reads m -> only_reads (wrap_error format m).
Proof. intros Hm v r v' [(a & H%Hm & _)|(e & H%Hm & _)]%wrap_error_cases; done. Qed.

Lemma volume_context : only_reads check_context.
Proof. intros v r v'. apply check_context_inv. Qed.

Lemma volume_call {A} (f : gmap bytes FileEntry -> result (A * gmap bytes FileEntry)) :
  (forall files a files', f files = Ok (a, files') -> files' = files) -> only_reads (vcall f).
Proof. intros Hf v r v' [(e & _ & H)|(a & _ & H%Hf)]%vcall_inv; done. Qed.

Lemma volume_stat p : only_reads (stat_file p).
Proof. apply volume_call. intros files a files'. destruct (files !! vkey p); [by intros [= _ <-]|done]. Qed.

Lemma volume_quiet : only_reads vquiet.
Proof. apply volume_call. by intros files a files' [= _ <-]. Qed.

Lemma volume_unprotect profile value : only_reads (unprotect store profile value).
Proof.
  apply volume_bind.
  - apply volume_wrap, volume_call. intros files a files'. destruct (CryptUnprotectData _ _); [by intros [= _ <-]|done].
  - intros plain. destruct (_ || _); apply volume_lift.
Qed.

#[local] Hint Resolve volume_lift volume_bind volume_attempt volume_wrap volume_context volume_stat volume_quiet volume_unprotect : reads.

Lemma dpapi_Load_reads profile : only_reads (dpapi_Load store profile).
Proof.
  assert (forall A (e : error), only_reads (raise (A := A) e)) as Hraise by (intros; apply volume_lift).
  unfold dpapi_Load, read_file. apply volume_bind; [auto with reads|]. intros []. apply volume_bind; [auto with reads|]. intros p.
  apply volume_bind; [auto with reads|]. intros [info|e]; [|by destruct (errors_Is _ _)].
  destruct (negb _); [auto with reads|]. apply volume_bind; [auto with reads|]. intros opened.
  apply volume_bind; [auto with reads|]. intros status. destruct (_ || _); [auto with reads|].
  apply volume_bind; [apply volume_wrap, volume_bind; [auto with reads|intros; apply volume_lift]|]. intros protected.
  destruct (_ || _); [auto with reads|]. apply volume_bind; [auto with reads|]. intros plain.
  apply volume_bind; [auto with reads|]. intros; apply volume_lift.
Qed.

(** What is loaded is what the bounded file of the profile protects. *)
Lemma dpapi_Load_inv profile v plain v' : dpapi_Load store profile v = (Ok plain, v') ->
  exists text, vfiles v !! vkey (credential_path store profile) = Some (RegularFile text) /\
    CryptUnprotectData (dpapi_entropy store profile) text = Some plain.
Proof.
  intros E. unfold dpapi_Load in E.
  apply bind_cases in E as [(? & _ & [=])|([] & w1 & E1%check_context_inv & E)].
  apply bind_cases in E as [(? & _ & [=])|(p & w2 & [= Hp <-] & E)].
  unfold path in Hp. destruct (validateProfile profile) as [[]|]; [|done]. injection Hp as <-.
  apply bind_cases in E as [(? & (? & _ & [=])%attempt_inv & _)|(info & w3 & (r3 & H3%volume_stat & [= ->])%attempt_inv & E)].
  destruct r3 as [info|e]; [|destruct (errors_Is _ _); unfold raise in E; by injection E]. destruct (negb _) in E; [done|].
  apply bind_cases in E as [(? & _ & [=])|(opened & w4 & H4 & E)].
  apply wrap_error_cases in H4 as [(? & H4 & [= <-])|(? & _ & [=])].
  apply vcall_inv in H4 as [(? & [=] & _)|(? & [= <-] & Ho)]. rewrite H3, E1 in Ho.
  apply bind_cases in E as [(? & _ & [=])|(status & w5 & (r5 & E5%vquiet_inv & _)%attempt_inv & E)]. destruct (_ || _) eqn:Eb in E; [done|].
  apply orb_false_iff in Eb as [_ Eb%negb_false_iff]. destruct opened as [text|]; [|done]. cbn in Eb.
  apply bind_cases in E as [(? & _ & [=])|(protected & w6 & H6 & E)]. apply wrap_error_cases in H6 as [(? & H6 & [= <-])|(? & _ & [=])].
  unfold read_file in H6. apply bind_cases in H6 as [(? & _ & [=])|([] & w7 & _ & [= <- <-])].
  destruct (_ || _) in E; [done|]. apply bind_cases in E as [(? & _ & [=])|(plain' & w8 & H8 & E)].
  apply bind_cases in E as [(? & _ & [=])|([] & w10 & _ & [= <- _])]. unfold unprotect in H8.
  apply bind_cases in H8 as [(? & _ & [=])|(plain2 & w9 & H9 & H8)].
  apply wrap_error_cases in H9 as [(? & [(? & [=] & _)|(? & [= <-] & H9)]%vcall_inv & [= ->])|(? & _ & [=])].
  destruct (_ || _) in H8; [done|]. injection H8 as <- _. bools. rewrite take_ge in H9 by (unfold len in *; lia).
  exists text. destruct (vfiles v !! _) as [e|]; [|done]. injection Ho as <- _. split; [done|].
  destruct (CryptUnprotectData _ _); [by injection H9 as <- _|done].
Qed.

(** Two profiles that differ in the case of letters share one file: saving the
    second makes the credential of the first unreadable. *)
Theorem profiles_share_file (profile other value : bytes) (v v' w : Volume) :
  vkey profile = vkey other -> dpapi_entropy store profile <> dpapi_entropy store other ->
  dpapi_Save store other value v = (Ok tt, v') -> vfiles w = vfiles v' ->
  forall loaded, (dpapi_Load store profile w).1 <> Ok loaded.
Proof.
  intros Hcase Hent H Hw loaded Hl. apply dpapi_Save_inv in H as [_ [[[? [=]] _]|[_ (n & Hf & Hb)]]]. cbn zeta in *.
  assert (vkey (credential_path store profile) = vkey (credential_path store other)) as Hkey.
  { unfold vkey, credential_path, win_join in *. by destruct (bool_decide _); rewrite !map_app; cbn [map]; rewrite ?map_app, Hcase. }
  rewrite <- Hkey, <- Hw in Hf. destruct (dpapi_Load store profile w) as [r w'] eqn:E. cbn in Hl. subst r.
  apply dpapi_Load_inv in E as (text & E & Hu). rewrite Hf in E. injection E as <-. by rewrite unprotect_other in Hu.
Qed.

End facts.

(** On a system without failures the store keeps the law of the agent's
    interface. *)
#[export] Instance dpapi_secret_laws (W : WindowsSystem) (L : DpapiLaws W) (store : dpapiSecretStore) :
  (forall n, win_fault n = None /\ context_err n = None) -> SecretLaws (dpapi_secrets store).
Proof.
  intros Hq profile value v v' H. cbn in *. apply dpapi_Save_inv in H as [_ [[[? [=]] _]|[_ Hh]]].
  apply Load_calm; [intros n _; apply Hq|done].
Qed.

(** ** A sample system *)

(** The entropy, with its length in front, before the data. *)
Definition tagged (entropy : bytes) : bytes := replicate (length entropy) Byte.x61 ++ Byte.x62 :: entropy.

Lemma tag_unique m k (x y : bytes) : replicate m Byte.x61 ++ Byte.x62 :: x = replicate k Byte.x61 ++ Byte.x62 :: y -> m = k /\ x = y.
Proof. revert k. induction m as [|m IH]; intros [|k]; cbn; intros [= H]; [done|]. by apply IH in H as [-> ->]. Qed.

Definition sample_windows (cancelled : nat -> option error) : WindowsSystem :=
  {| CryptProtectData _ entropy data := tagged entropy ++ data; CryptUnprotectData entropy data := strip_prefix (tagged entropy) data;
     win_fault _ := None; win_partial _ := O; context_err := cancelled; temp_suffix _ attempt := replicate (S attempt) Byte.x31 |}.

#[export] Instance sample_windows_laws cancelled : DpapiLaws (sample_windows cancelled).
Proof.
  split; cbn.
  - intros _ entropy data. apply strip_prefix_self.
  - intros _ entropy other data Hne. destruct (strip_prefix _ _) as [rest|] eqn:E; [|done]. apply strip_prefix_inv in E.
    unfold tagged in E. rewrite <- !app_assoc in E. cbn in E. apply tag_unique in E as [El E].
    apply app_inj_1 in E as [E _]; [congruence|done].
Qed.

Definition sample_dpapi : dpapiSecretStore := mkDpapi (str "YunPinIME.sync") (str "C:\Users\me\AppData\Local\YunPinIME\sync").
Definition empty_volume : Volume := mkVolume ∅ 0.

(** A value is saved, and a cancelled save keeps it. *)
Lemma credential_saved_or_kept_witness :
  (dpapi_Load (W := sample_windows (fun _ => None)) sample_dpapi (str "default")
     (dpapi_Save (W := sample_windows (fun _ => None)) sample_dpapi (str "default") (str "secret") empty_volume).2).1 = Ok (str "secret").
Proof.
  assert ((dpapi_Save (W := sample_windows (fun _ => None)) sample_dpapi (str "default") (str "secret") empty_volume).1 = Ok tt) as Hok
    by (vm_compute; reflexivity).
  pose proof (credential_saved_or_kept (W := sample_windows (fun _ => None)) sample_dpapi (str "default") (str "secret") empty_volume _ _
    (surjective_pairing _)) as [_ H]. rewrite Hok in H. apply H; [reflexivity|]. intros n _. split; reflexivity.
Defined.
