(* ===== verification/AgentKeychain.v ===== *)
(** * The credentials of the desktop agent on macOS
    ([desktopagent/secret_store_darwin.go])

    The C helpers of the file over the Keychain, and the operations of the store
    on top of them.  The Keychain maps a service and an account to a password
    item, as documented for [SecItemAdd], [SecItemUpdate], [SecItemCopyMatching]
    and [SecItemDelete]; any of these calls can fail with a status and change
    nothing, and any allocation can fail.  The wiping of freed memory is left
    out.  The record of the operations keeps the law of [SecretStore]. *)

From S2P Require Import Prelude Effects Encoding Unicode Crypto Credentials Agent AgentSecrets.

Definition errSecSuccess : Z := 0.
Definition errSecAllocate : Z := -108.
Definition errSecDecode : Z := -26275.
Definition keychainItemNotFound : Z := -25300.

(** The items, and the number of calls made. *)
Record Keychain := mkKeychain { items : gmap (bytes * bytes) bytes; kcalls : nat }.

Class KeychainSystem := {
  status_fault : nat -> option Z;        (* the status of a call that fails *)
  alloc_fails : nat -> bool;
  keychain_context : nat -> option error
}.

(** A failing call has a status other than success and [errSecItemNotFound]. *)
Class KeychainLaws (K : KeychainSystem) : Prop :=
  fault_status : forall n status, status_fault n = Some status -> status <> errSecSuccess /\ status <> keychainItemNotFound.

Section keychain.
Context `{K : KeychainSystem}.

(** A computation that always gives a value. *)
Definition KM (A : Type) : Type := Keychain -> A * Keychain.

Definition count_call (k : Keychain) : Keychain := mkKeychain (items k) (S (kcalls k)).

(** A call of the Security framework: a status, and the items on success. *)
Definition sec_call (f : gmap (bytes * bytes) bytes -> Z * gmap (bytes * bytes) bytes) : KM Z := fun k =>
  match status_fault (kcalls k) with
  | Some status => (status, count_call k)
  | None => let '(status, its) := f (items k) in (status, mkKeychain its (S (kcalls k)))
  end.

Definition SecItemUpdate (query : bytes * bytes) (value : bytes) : KM Z := sec_call (fun its =>
  match its !! query with Some _ => (errSecSuccess, <[query := value]> its) | None => (keychainItemNotFound, its) end).

Definition SecItemAdd (query : bytes * bytes) (value : bytes) : KM Z := sec_call (fun its =>
  match its !! query with Some _ => (-25299, its) | None => (errSecSuccess, <[query := value]> its) end).

Definition SecItemDelete (query : bytes * bytes) : KM Z := sec_call (fun its =>
  match its !! query with Some _ => (errSecSuccess, delete query its) | None => (keychainItemNotFound, its) end).

Definition SecItemCopyMatching (query : bytes * bytes) : KM (Z * option bytes) := fun k =>
  let '(status, k') := sec_call (fun its => (match its !! query with Some _ => errSecSuccess | None => keychainItemNotFound end, its)) k in
  ((status, if status =? errSecSuccess then items k !! query else None), k').

(** Creating an object: [false] stands for [NULL]. *)
Definition allocate : KM bool := fun k => (negb (alloc_fails (kcalls k)), count_call k).

(** [yp_query]: both strings must be UTF-8 and everything must be allocated. *)
Definition yp_query (service account : bytes) : KM (option (bytes * bytes)) := fun k =>
  let '(ok, k) := allocate k in
  (if ok && ValidString service && ValidString account then Some (service, account) else None, k).

Definition yp_keychain_save (service account value : bytes) : KM Z := fun k =>
  let '(query, k) := yp_query service account k in
  match query with
  | None => (errSecAllocate, k)
  | Some query =>
      let '(ok, k) := allocate k in
      if negb ok then (errSecAllocate, k)
      else
        let '(ok, k) := allocate k in
        if negb ok then (errSecAllocate, k)
        else
          let '(status, k) := SecItemUpdate query value k in
          if status =? keychainItemNotFound then SecItemAdd query value k else (status, k)
  end.

Definition yp_keychain_load (service account : bytes) : KM (Z * bytes) := fun k =>
  let '(query, k) := yp_query service account k in
  match query with
  | None => ((errSecAllocate, []), k)
  | Some query =>
      let '((status, data), k) := SecItemCopyMatching query k in
      if negb (status =? errSecSuccess) then ((status, []), k)
      else match data with
      | None => ((errSecDecode, []), k)
      | Some value =>
          if (len value <? 1) || (len value >? 65536) then ((errSecDecode, []), k)
          else
            let '(ok, k) := allocate k in
            if negb ok then ((errSecAllocate, []), k) else ((errSecSuccess, value), k)
      end
  end.

Definition yp_keychain_delete (service account : bytes) : KM Z := fun k =>
  let '(query, k) := yp_query service account k in
  match query with None => (errSecAllocate, k) | Some query => SecItemDelete query k end.

(** ** The operations *)

Definition check_keychain_context : St Keychain unit := fun k =>
  match keychain_context (kcalls k) with Some e => (Err e, count_call k) | None => (Ok tt, count_call k) end.

Definition in_keychain {A} (m : KM A) : St Keychain A := fun k => let '(a, k) := m k in (Ok a, k).

(** [keychainStrings]; [C.CString] does not return [NULL]. *)
Definition keychainStrings (service profile : bytes) : result (bytes * bytes) :=
  let! _ := validateProfile profile in Ok (service, profile).

(** [service] is the field of the store. *)
Definition keychain_Save (service profile value : bytes) : St Keychain unit :=
  do! _ := check_keychain_context in
  if (len value <? 1) || (len value >? maxCredentialBlobBytes) then lift (fail "credential value length is invalid")
  else
    do! (service, account) := lift (keychainStrings service profile) in
    do! status := in_keychain (yp_keychain_save service account value) in
    if negb (status =? 0) then raise (Errorf_d "save YunPin credential in Keychain: OSStatus %d" status) else ret tt.

Definition keychain_Load (service profile : bytes) : St Keychain bytes :=
  do! _ := check_keychain_context in
  do! (service, account) := lift (keychainStrings service profile) in
  do! (status, value) := in_keychain (yp_keychain_load service account) in
  if status =? keychainItemNotFound then raise ErrSecretNotFound
  else if negb (status =? 0) then raise (Errorf_d "load YunPin credential from Keychain: OSStatus %d" status)
  else if (len value <? 1) || (len value >? maxCredentialBlobBytes) then lift (fail "Keychain returned an invalid credential length")
  else do! _ := check_keychain_context in ret value.

Definition keychain_Delete (service profile : bytes) : St Keychain unit :=
  do! _ := check_keychain_context in
  do! (service, account) := lift (keychainStrings service profile) in
  do! status := in_keychain (yp_keychain_delete service account) in
  if status =? keychainItemNotFound then raise ErrSecretNotFound
  else if negb (status =? 0) then raise (Errorf_d "delete YunPin credential from Keychain: OSStatus %d" status)
  else ret tt.

Definition keychain_store (options : PlatformSecretStoreOptions) : result (SecretStore Keychain) :=
  let! _ := validateStoreOptions options in
  Ok (mkSecretStore (keychain_Load (OptService options)) (keychain_Save (OptService options))).

End keychain.

(** ** What saving does *)

Section facts.
Context `{K : KeychainSystem} {L : KeychainLaws K}.

Lemma sec_call_inv f k status k' : sec_call f k = (status, k') ->
  (status_fault (kcalls k) = Some status /\ items k' = items k) \/ (status, items k') = f (items k).
Proof.
  unfold sec_call. destruct (status_fault _) as [s|] eqn:E; [intros [= <- <-]; by left|].
  destruct (f (items k)) as [s its] eqn:Ef. intros [= <- <-]. right. done.
Qed.

Lemma yp_query_inv service account k query k' : yp_query service account k = (query, k') ->
  items k' = items k /\ (query = None \/ query = Some (service, account) /\ ValidString service = true /\ ValidString account = true).
Proof.
  unfold yp_query. destruct (allocate k) as [ok k1] eqn:E. injection E as _ <-. intros [= <- <-].
  split; [done|]. destruct ok, (ValidString service), (ValidString account); cbn; auto.
Qed.

Lemma save_inv service account value k status k' : yp_keychain_save service account value k = (status, k') ->
  (status <> errSecSuccess /\ items k' = items k) \/
  (status = errSecSuccess /\ items k' = <[(service, account) := value]> (items k) /\ ValidString service = true /\ ValidString account = true).
Proof.
  intros H. unfold yp_keychain_save in H. destruct (yp_query _ _ k) as [query k1] eqn:Eq. apply yp_query_inv in Eq as [E1 Hq].
  destruct query as [query|]; [|injection H as <- <-; by left]. destruct Hq as [|([= ->] & Hs & Ha)]; [done|].
  destruct (allocate k1) as [ok2 k2] eqn:E2. injection E2 as _ <-. destruct ok2; cbn [negb] in H; [|injection H as <- <-; by left].
  destruct (allocate (count_call k1)) as [ok3 k3] eqn:E3. injection E3 as _ <-. destruct ok3; cbn [negb] in H; [|injection H as <- <-; by left].
  destruct (SecItemUpdate _ _ _) as [s4 k4] eqn:E4. unfold SecItemUpdate in E4. apply sec_call_inv in E4. cbn [items count_call] in E4. rewrite E1 in E4.
  assert ((s4 <> errSecSuccess /\ items k4 = items k) \/ (s4 = errSecSuccess /\ items k4 = <[(service, account) := value]> (items k))) as Hupdate.
  { destruct E4 as [[[Hf _]%fault_status E4]|E4]; [by left|].
    destruct (items k !! (service, account)); injection E4 as -> ->; [by right|by left]. }
  destruct (s4 =? keychainItemNotFound) eqn:En; bools; [|injection H as <- <-; destruct Hupdate as [|[]]; [by left|right; by split_and!]].
  subst s4. destruct Hupdate as [[_ E5]|[[=] _]]. unfold SecItemAdd in H. apply sec_call_inv in H. rewrite E5 in H.
  destruct H as [[[Hf _]%fault_status E6]|E6]; [by left; rewrite E6|].
  destruct (items k !! (service, account)); injection E6 as -> ->; [by left|right; by split_and!].
Qed.

(** The item a value was saved in. *)
Definition kept_item (service profile value : bytes) (k : Keychain) : Prop :=
  items k !! (service, profile) = Some value /\ 1 <= len value <= maxCredentialBlobBytes /\ validateProfile profile = Ok tt /\
  ValidString service = true /\ ValidString profile = true.

Lemma keychain_Save_inv service profile value k r k' : keychain_Save service profile value k = (r, k') ->
  ((exists e, r = Err e) /\ items k' = items k) \/
  (r = Ok tt /\ items k' = <[(service, profile) := value]> (items k) /\ kept_item service profile value k').
Proof.
  intros H. unfold keychain_Save in H. assert (forall r1 k1, check_keychain_context k = (r1, k1) -> items k1 = items k) as Hctx
    by (intros r1 k1; unfold check_keychain_context; by destruct (keychain_context _); intros [= _ <-]).
  apply bind_cases in H as [(e & E%Hctx & ->)|([] & k1 & E1%Hctx & H)]; [left; eauto|].
  destruct (_ || _) eqn:El in H; [injection H as <- <-; left; eauto|]. bools.
  apply bind_cases in H as [(e & [= _ <-] & ->)|([s a] & k2 & [= Hs <-] & H)]; [left; eauto|].
  unfold keychainStrings in Hs. destruct (validateProfile profile) as [[]|] eqn:Ep; [|done]. injection Hs as <- <-.
  apply bind_cases in H as [(e & H & _)|(status & k3 & H3 & H)].
  { unfold in_keychain in H. by destruct (yp_keychain_save _ _ _ _). }
  unfold in_keychain in H3. destruct (yp_keychain_save _ _ _ _) as [s4 k4] eqn:E4. injection H3 as <- <-. apply save_inv in E4 as [[Hn E4]|(-> & E4 & Hvs & Hvp)].
  - destruct (s4 =? 0) eqn:E; bools; [done|]. cbn [negb] in H. injection H as <- <-. left. split; [eauto|congruence].
  - injection H as <- <-. right. rewrite E4, E1. split_and!; try done. split_and!; try done; [by rewrite E4, lookup_insert_eq|lia..].
Qed.

(** Nothing fails from here on. *)
Definition keychain_calm (k : Keychain) : Prop := forall n, (kcalls k <= n)%nat ->
  status_fault n = None /\ alloc_fails n = false /\ keychain_context n = None.

Lemma keychain_Load_calm service profile value k : keychain_calm k -> kept_item service profile value k ->
  (keychain_Load service profile k).1 = Ok value.
Proof.
  intros Hc (Hi & Hl & Hp & Hvs & Hvp). pose proof (Hc (kcalls k) ltac:(lia)) as (_ & _ & C0).
  assert (forall j, status_fault (j + kcalls k) = None /\ alloc_fails (j + kcalls k) = false /\ keychain_context (j + kcalls k) = None) as Hj
    by (intros j; apply Hc; lia). destruct (Hj 1%nat) as (_ & A1 & _), (Hj 2%nat) as (F2 & _ & _), (Hj 3%nat) as (_ & A3 & _), (Hj 4%nat) as (_ & _ & C4).
  cbn [Nat.add] in *. unfold keychain_Load. rewrite (bind_ok _ _ _ tt (count_call k)) by (unfold check_keychain_context; by rewrite C0).
  rewrite (bind_ok _ _ _ (service, profile) (count_call k)) by (unfold lift, keychainStrings; by rewrite Hp).
  rewrite (bind_ok _ _ _ (errSecSuccess, value) (count_call (count_call (count_call (count_call k))))).
  - cbn [Z.eqb errSecSuccess keychainItemNotFound negb]. rewrite (proj2 (Z.ltb_ge _ _)), Z.gtb_ltb, (proj2 (Z.ltb_ge _ _)) by lia.
    cbn [orb]. unfold bind, check_keychain_context. cbn [kcalls count_call]. by rewrite C4.
  - unfold in_keychain, yp_keychain_load, yp_query, allocate. cbn [kcalls count_call]. rewrite A1, Hvs, Hvp. cbn [negb andb].
    unfold SecItemCopyMatching, sec_call. cbn [kcalls count_call items]. rewrite F2, Hi. cbn.
    rewrite (proj2 (Z.ltb_ge _ _)), Z.gtb_ltb, (proj2 (Z.ltb_ge _ _)) by (unfold maxCredentialBlobBytes in Hl; lia). cbn [orb].
    by rewrite A3.
Qed.

(** Loading changes no item, and gives the item of the service and profile. *)
Lemma keychain_Load_inv service profile k r k' : keychain_Load service profile k = (r, k') ->
  items k' = items k /\ forall value, r = Ok value -> items k !! (service, profile) = Some value.
Proof.
  intros H. unfold keychain_Load in H. assert (forall w r1 w1, check_keychain_context w = (r1, w1) -> items w1 = items w) as Hctx
    by (intros w r1 w1; unfold check_keychain_context; by destruct (keychain_context _); intros [= _ <-]).
  apply bind_cases in H as [(e & E%Hctx & ->)|([] & k1 & E1%Hctx & H)]; [by split|].
  apply bind_cases in H as [(e & [= _ <-] & ->)|([s a] & k2 & [= Hs <-] & H)]; [by split|].
  unfold keychainStrings in Hs. destruct (validateProfile profile) as [[]|]; [|done]. injection Hs as <- <-.
  apply bind_cases in H as [(e & H & _)|([status value] & k3 & H3 & H)]; [unfold in_keychain in H; by destruct (yp_keychain_load _ _ _)|].
  unfold in_keychain in H3. destruct (yp_keychain_load _ _ _) as [[s4 v4] k4] eqn:E4. injection H3 as <- <- <-.
  assert (items k4 = items k /\ (s4 = errSecSuccess -> items k !! (service, profile) = Some v4)) as [Hk Hv].
  { unfold yp_keychain_load in E4. destruct (yp_query _ _ k1) as [query k5] eqn:Eq. apply yp_query_inv in Eq as [E5 Hq].
    destruct query as [query|]; [|by injection E4 as <- <- <-; split; [congruence|]]. destruct Hq as [|([= ->] & _ & _)]; [done|].
    unfold SecItemCopyMatching in E4. destruct (sec_call _ k5) as [s6 k6] eqn:E6. apply sec_call_inv in E6.
    assert (items k6 = items k) as Hk6 by (destruct E6 as [[_ ->]|E6]; [|injection E6 as _ ->]; congruence).
    destruct (s6 =? errSecSuccess) eqn:Es; cbn [negb] in E4; [|by injection E4 as <- <- <-; split; [|intros ->]].
    rewrite E5, E1 in E4. destruct (items k !! (service, profile)) as [v|]; [|by injection E4 as <- <- <-].
    destruct (_ || _); [by injection E4 as <- <- <-|]. unfold allocate in E4. destruct (negb (negb _)); by injection E4 as <- <- <-. }
  destruct (s4 =? keychainItemNotFound); [by injection H as <- <-|]. destruct (s4 =? 0) eqn:Es; bools; cbn [negb] in H; [|by injection H as <- <-].
  destruct (_ || _) in H; [by injection H as <- <-|].
  apply bind_cases in H as [(e & E%Hctx & ->)|([] & k5 & E5%Hctx & [= <- <-])]; (split; [congruence|]); [done|]. intros v [= <-]. by apply Hv.
Qed.

(** Saving is all or nothing: an error leaves every item as it was; a success
    changes the item of this service and profile alone, and the value is loaded
    again from every later Keychain that still has it. *)
Theorem keychain_saved_or_kept (service profile value : bytes) (k k' : Keychain) (r : result unit) :
  keychain_Save service profile value k = (r, k') ->
  match r with
  | Err _ => items k' = items k
  | Ok _ => items k' = <[(service, profile) := value]> (items k) /\
      forall w, items w !! (service, profile) = items k' !! (service, profile) -> keychain_calm w -> (keychain_Load service profile w).1 = Ok value
  end.
Proof.
  intros [[[e ->] H]|(-> & H & (Hi & Hkept))]%keychain_Save_inv; [done|]. split; [done|]. intros w Hw Hc.
  apply keychain_Load_calm; [done|]. split; [by rewrite Hw|done].
Qed.

End facts.

(** On a system without failures the store keeps the law of the agent's
    interface. *)
#[export] Instance keychain_secret_laws (K : KeychainSystem) (L : KeychainLaws K) options store :
  keychain_store options = Ok store ->
  (forall n, status_fault n = None /\ alloc_fails n = false /\ keychain_context n = None) -> SecretLaws store.
Proof.
  unfold keychain_store. destruct (validateStoreOptions options) as [[]|]; [|done]. intros [= <-] Hq profile value k k' H. cbn in *.
  apply keychain_Save_inv in H as [[[? [=]] _]|(_ & _ & Hk)]. apply keychain_Load_calm; [|done]. intros n _. apply Hq.
Qed.

(** A Keychain where the update fails, and one without failures. *)
Definition sample_keychain (failing : nat -> bool) : KeychainSystem :=
  {| status_fault n := if failing n then Some (-25308) else None; alloc_fails _ := false; keychain_context _ := None |}.

#[export] Instance sample_keychain_laws failing : KeychainLaws (sample_keychain failing).
Proof. intros n status. cbn. by destruct (failing n); intros [= <-]. Qed.

Definition sample_service : bytes := str "io.github.kukuyan.inputmethod.YunPin.sync".

Definition sample_saved (failing : nat -> bool) : result unit * Keychain :=
  keychain_Save (K := sample_keychain failing) sample_service (str "default") (str "secret") (mkKeychain ∅ 0).

Lemma keychain_saved_or_kept_witness :
  (keychain_Load (K := sample_keychain (fun _ => false)) sample_service (str "default") (sample_saved (fun _ => false)).2).1 = Ok (str "secret") /\
  items (sample_saved (fun n => (n =? 4)%nat)).2 = ∅.
Proof.
  split.
  - assert ((sample_saved (fun _ => false)).1 = Ok tt) as Hok by (vm_compute; reflexivity).
    pose proof (keychain_saved_or_kept (K := sample_keychain (fun _ => false)) sample_service (str "default") (str "secret") (mkKeychain ∅ 0) _ _
      (surjective_pairing _)) as H. unfold sample_saved in *. rewrite Hok in H. destruct H as [_ H]. apply H; [reflexivity|].
    intros n _. split_and!; reflexivity.
  - pose proof (keychain_saved_or_kept (K := sample_keychain (fun n => (n =? 4)%nat)) sample_service (str "default") (str "secret") (mkKeychain ∅ 0) _ _
      (surjective_pairing _)) as H. assert (is_Ok (sample_saved (fun n => (n =? 4)%nat)).1 = false) as Herr by (vm_compute; reflexivity).
    unfold sample_saved in *. destruct (keychain_Save _ _ _ _).1; [discriminate|exact H].
Defined.
