(* ===== verification/AgentWindows.v ===== *)
(** * The desktop agent on Windows ([desktopagent/paths_windows.go],
    [process_lock_windows.go], the constructor of [secret_store_windows.go])

    The default paths, the directory that the credential store accepts, and the
    lock.  Paths are those of [path/filepath] for Windows; [Clean] is only
    followed on paths with a volume, as the source cleans no other.  Case folding
    beyond ASCII is a parameter ([CaseFold]).  A handle that is opened without
    sharing excludes every other one on the same file; of directories it only
    matters that creating one can fail. *)

From S2P Require Import Prelude Effects Encoding Unicode Crypto Credentials Agent AgentSecrets.
From S2P Require ReplayDisk AgentLock.

(** ** Paths *)

Definition backslash : byte := Byte.x5c.
Definition IsPathSeparator (c : byte) : bool := bool_decide (c = backslash) || bool_decide (c = Byte.x2f).

Definition FromSlash (path : bytes) : bytes := map (fun c => if IsPathSeparator c then backslash else c) path.

Definition starts_separator (path : bytes) : bool := match path with c :: _ => IsPathSeparator c | [] => false end.

(** [pathHasPrefixFold]: a prefix that ends an element. *)
Fixpoint pathHasPrefixFold (s prefix : bytes) : bool :=
  match prefix, s with
  | [], [] => true
  | [], c :: _ => IsPathSeparator c
  | p :: prefix, c :: s =>
      (if IsPathSeparator p then IsPathSeparator c else bool_decide (Ascii.upper p = Ascii.upper c)) && pathHasPrefixFold s prefix
  | _ :: _, [] => false
  end.

(** The number of bytes before the given separator, counted from one, or all. *)
Fixpoint until_separator (count : nat) (path : bytes) : nat :=
  match path with
  | [] => O
  | c :: rest =>
      if IsPathSeparator c then match count with O | S O => O | S count => S (until_separator count rest) end
      else S (until_separator count rest)
  end.

Definition uncLen (path : bytes) (prefixLen : nat) : nat :=
  if (length path <=? prefixLen)%nat then length path else (prefixLen + until_separator 2 (drop prefixLen path))%nat.

Definition volumeNameLen (path : bytes) : nat :=
  match path with
  | _ :: c :: _ =>
      if bool_decide (c = Byte.x3a) then 2%nat
      else if negb (starts_separator path) then O
      else if pathHasPrefixFold path (str "\\.\UNC") then uncLen path 8
      else if pathHasPrefixFold path (str "\\.") || pathHasPrefixFold path (str "\\?") || pathHasPrefixFold path (str "\??") then
        if (length path =? 3)%nat then 3%nat else (4 + until_separator 1 (drop 4 path))%nat
      else if IsPathSeparator c then uncLen path 2
      else O
  | _ => O
  end.

Definition VolumeName (path : bytes) : bytes := FromSlash (take (volumeNameLen path) path).

(** Both first characters are separators. *)
Definition double_separator (path : bytes) : bool := starts_separator path && starts_separator (drop 1 path).

Definition IsAbs (path : bytes) : bool :=
  let l := volumeNameLen path in
  if (l =? 0)%nat then false
  else if double_separator path then true
  else starts_separator (drop l path).

(** The elements between backslashes. *)
Fixpoint split_back (path : bytes) : list bytes :=
  match path with
  | [] => [[]]
  | c :: rest =>
      if bool_decide (c = backslash) then [] :: split_back rest
      else match split_back rest with part :: parts => (c :: part) :: parts | [] => [[c]] end
  end.

Fixpoint join_back (parts : list bytes) : bytes :=
  match parts with [] => [] | [part] => part | part :: rest => part ++ backslash :: join_back rest end.

(** Of a path with a volume. *)
Definition Clean (path : bytes) : bytes :=
  let l := volumeNameLen path in
  let rest := drop l path in
  if bool_decide (rest = []) then
    if (1 <? l)%nat && double_separator path then FromSlash path else path ++ str "."
  else
    let rooted := starts_separator rest in
    let parts := rev (ReplayDisk.clean_parts rooted [] (split_back (FromSlash rest))) in
    VolumeName path ++
      (if rooted then backslash :: join_back parts else if bool_decide (parts = []) then str "." else join_back parts).

(** Elements after a first one that has a volume, none of which starts with a
    separator. *)
Definition Join_below (path : bytes) (elements : list bytes) : bytes :=
  Clean (fold_left (fun b e => match last b with
                               | Some c => if IsPathSeparator c || bool_decide (c = Byte.x3a) then b ++ e else b ++ backslash :: e
                               | None => e
                               end) elements path).

(** [strings.EqualFold] *)
Class CaseFold := EqualFold : bytes -> bytes -> bool.

(** Only the empty text is the empty one in another case. *)
Class CaseFoldLaws (K : CaseFold) : Prop := fold_empty : forall a b, EqualFold a b = true -> (a = [] <-> b = []).

Section paths.
Context `{K : CaseFold}.

(** The word before the next backslash, and what follows that. *)
Fixpoint cut_word (path : bytes) : bytes * bytes :=
  match path with
  | [] => ([], [])
  | c :: rest => if bool_decide (c = backslash) then ([], rest) else let '(word, after) := cut_word rest in (c :: word, after)
  end.

(** The loop of [Rel]: what is left of both paths at the first elements that
    differ, and the element of the first path there. *)
Fixpoint first_difference (fuel : nat) (base targ : bytes) : bytes * bytes * bytes :=
  match fuel, base, targ with
  | S fuel, _ :: _, _ :: _ =>
      let '(b, base') := cut_word base in
      let '(t, targ') := cut_word targ in
      if EqualFold t b then first_difference fuel base' targ' else (base, targ, b)
  | _, _, _ => (base, targ, [])
  end.

Definition dots_up (seps : nat) : bytes := str ".." ++ concat (replicate seps (str "\..")).

Definition starts_back (path : bytes) : bool := match path with c :: _ => bool_decide (c = backslash) | [] => false end.

Definition Rel (basepath targpath : bytes) : result bytes :=
  let baseVol := VolumeName basepath in
  let targVol := VolumeName targpath in
  let base := Clean basepath in
  let targ := Clean targpath in
  if EqualFold targ base then Ok (str ".")
  else
    let base := drop (length baseVol) base in
    let targ := drop (length targVol) targ in
    let base :=
      if bool_decide (base = str ".") then []
      else if bool_decide (base = []) && (2 <? volumeNameLen baseVol)%nat then [backslash] else base in
    if negb (Bool.eqb (starts_back base) (starts_back targ)) || negb (EqualFold baseVol targVol) then
      fail "Rel: can't make path relative"
    else
      let '(base, targ, word) := first_difference (length base) base targ in
      if bool_decide (word = str "..") then fail "Rel: can't make path relative"
      else if negb (bool_decide (base = [])) then
        Ok (dots_up (count_occ byte_eq_dec base backslash) ++ if bool_decide (targ = []) then [] else backslash :: targ)
      else Ok targ.

(** ** Default paths and the credential directory *)

Definition DefaultPaths_windows (LOCALAPPDATA : bytes) : result AgentLock.Paths :=
  if bool_decide (LOCALAPPDATA = []) || negb (IsAbs LOCALAPPDATA) then fail "LOCALAPPDATA is unavailable"
  else
    let state := Join_below LOCALAPPDATA [str "YunPinIME"; str "sync"] in
    Ok (AgentLock.mkPaths state (Join_below state [str "sync.json"]) (Join_below state [str "private.db"])
          (Join_below state [str "agent.lock"]) (str "YunPinIME.sync")).

Definition NewDpapiStore (LOCALAPPDATA : bytes) (options : PlatformSecretStoreOptions) : result dpapiSecretStore :=
  let! _ := validateStoreOptions options in
  if bool_decide (OptDirectory options = []) || negb (IsAbs (OptDirectory options)) then fail "DPAPI credential directory must be absolute"
  else if bool_decide (LOCALAPPDATA = []) || negb (IsAbs LOCALAPPDATA) then
    fail "LOCALAPPDATA is unavailable for current-user DPAPI storage"
  else
    let directory := Clean (OptDirectory options) in
    let outside :=
      match Rel (Clean LOCALAPPDATA) directory with
      | Err _ => true
      | Ok relative =>
          bool_decide (relative = str "..") || IsAbs relative || ((len relative >? 3) && bool_decide (take 3 relative = str "..\"))
      end in
    if outside then fail "DPAPI credentials must stay below the current user's LOCALAPPDATA"
    else Ok (mkDpapi (OptService options) directory).

End paths.

(** Letters of ASCII. *)
#[export] Instance ascii_fold : CaseFold := fun a b => bool_decide (map Ascii.lower a = map Ascii.lower b).

#[export] Instance ascii_fold_laws : CaseFoldLaws ascii_fold.
Proof. intros a b. unfold EqualFold, ascii_fold. rewrite bool_decide_eq_true. by destruct a, b. Qed.

Example volumes :
  map (fun s => volumeNameLen (str s)) ["C:\a"; "\\host\share\x"; "\\host\share"; "\\.\C:\x"; "\\?\UNC\h\s\x"; "\a"; "a\b"; ""; "//./UNC/h/s/x"; "\\a"; "\??\C:\x"]
  = [2; 12; 12; 6; 7; 0; 0; 0; 11; 3; 6]%nat.
Proof. vm_compute. reflexivity. Qed.

Example cleaned :
  map (fun s => Clean (str s)) ["C:\a\..\b"; "c:/Users//me/./x"; "C:\..\.."; "C:"; "\\host\share"; "//host/share/a/../b"; "C:a\..\.."] =
  map str ["C:\b"; "c:\Users\me\x"; "C:\"; "C:."; "\\host\share"; "\\host\share\b"; "C:.."].
Proof. vm_compute. reflexivity. Qed.

Example relatives :
  map (fun '(a, b) => Rel (str a) (str b))
    [("C:\a\b", "C:\a\b\c"); ("C:\a\b", "c:\A\B"); ("C:\a\b", "C:\a"); ("C:\a\b", "C:\a\c\d"); ("C:\a", "D:\a"); ("C:\", "C:\x"); ("\\h\s", "\\h\s\x")] =
  [Ok (str "c"); Ok (str "."); Ok (str ".."); Ok (str "..\c\d"); fail "Rel: can't make path relative"; Ok (str "x"); Ok (str "x")].
Proof. vm_compute. reflexivity. Qed.

(** ** The credential directory *)

(** The elements of a path below its volume. *)
Definition words (path : bytes) : list bytes := List.filter (fun part => negb (bool_decide (part = []))) (split_back path).

Definition below_volume (path : bytes) : bytes := drop (length (VolumeName path)) (Clean path).

(** A path stays below another one: on the same volume, starting with the same
    elements, up to case.  A dot alone is the directory itself. *)
Definition below_path `{CaseFold} (base path : bytes) : Prop :=
  EqualFold (VolumeName base) (VolumeName path) = true /\
  exists first rest, words (below_volume path) = first ++ rest /\
    Forall2 (fun t b => EqualFold t b = true) first (if bool_decide (below_volume base = str ".") then [] else words (below_volume base)).

Section containment.
Context `{K : CaseFold} {KL : CaseFoldLaws K}.

Lemma split_back_word w : backslash ∉ w -> split_back w = [w].
Proof.
  induction w as [|c w IH]; [done|]. rewrite not_elem_of_cons. intros [Hc Hw]. cbn. rewrite bool_decide_false by done. by rewrite IH.
Qed.

Lemma split_back_cons w after : backslash ∉ w -> split_back (w ++ backslash :: after) = w :: split_back after.
Proof.
  induction w as [|c w IH]; [done|]. rewrite not_elem_of_cons. intros [Hc Hw]. cbn. rewrite bool_decide_false by done. by rewrite IH.
Qed.

Lemma cut_word_spec path word after : cut_word path = (word, after) ->
  backslash ∉ word /\ (path = word ++ backslash :: after \/ path = word /\ after = []).
Proof.
  revert word after. induction path as [|c path IH]; intros word after H; cbn in H.
  - injection H as <- <-. split; [apply not_elem_of_nil|by right].
  - destruct (bool_decide (c = backslash)) eqn:Ec; bools; [injection H as <- <-; subst; split; [apply not_elem_of_nil|by left]|].
    destruct (cut_word path) as [w a]. injection H as <- <-. destruct (IH w a eq_refl) as [Hw Hp]. split; [by rewrite not_elem_of_cons|].
    destruct Hp as [->|[-> ->]]; [by left|by right].
Qed.

Lemma cut_word_shorter c path : (length (cut_word (c :: path)).2 <= length path)%nat.
Proof.
  destruct (cut_word (c :: path)) as [word after] eqn:H. cbn [snd]. apply cut_word_spec in H as [_ [H|[_ ->]]]; [|cbn; lia].
  apply (f_equal length) in H. rewrite length_app in H. cbn in H. lia.
Qed.

Lemma words_cut path word after : cut_word path = (word, after) -> words path = (if bool_decide (word = []) then [] else [word]) ++ words after.
Proof.
  unfold words. intros [Hw [->|[-> ->]]]%cut_word_spec; rewrite ?split_back_cons, ?split_back_word by done; cbn [List.filter split_back];
    destruct (bool_decide (word = [])); done.
Qed.

(** When nothing of the first path is left, its elements start the second. *)
Lemma first_difference_nil fuel : forall base targ t_rest word, (length base <= fuel)%nat ->
  first_difference fuel base targ = ([], t_rest, word) ->
  exists first rest, words targ = first ++ rest /\ Forall2 (fun t b => EqualFold t b = true) first (words base).
Proof.
  induction fuel as [|fuel IH]; intros base targ t_rest word Hf H.
  { destruct base; [|cbn in Hf; lia]. exists [], (words targ). by split; [|constructor]. }
  destruct base as [|c base]; [exists [], (words targ); by split; [|constructor]|]. destruct targ as [|c' targ]; [done|].
  cbn [first_difference] in H. pose proof (cut_word_shorter c base) as Hs.
  destruct (cut_word (c :: base)) as [b base'] eqn:Eb. destruct (cut_word (c' :: targ)) as [t targ'] eqn:Et.
  destruct (EqualFold t b) eqn:Ef; [|done]. cbn in Hf, Hs. apply IH in H as (first & rest & Hw & Hall); [|lia].
  rewrite (words_cut _ _ _ Eb), (words_cut _ _ _ Et), Hw. pose proof (fold_empty _ _ Ef) as He.
  destruct (bool_decide (t = [])) eqn:E1, (bool_decide (b = [])) eqn:E2; bools; try tauto.
  - by exists first, rest.
  - exists (t :: first), rest. by split; [|constructor].
Qed.

(** A relative path that does not lead up. *)
Lemma Rel_below base path relative : Rel base path = Ok relative ->
  relative = str ".." \/ (len relative >? 3) && bool_decide (take 3 relative = str "..\") = true \/
  EqualFold (Clean path) (Clean base) = true \/ below_path base path.
Proof.
  unfold Rel. cbn zeta. destruct (EqualFold (Clean path) (Clean base)); [tauto|].
  fold (below_volume base) (below_volume path). set (b := if bool_decide (below_volume base = str ".") then [] else _).
  destruct (_ || _) eqn:Ev; [done|]. bools.
  destruct (first_difference (length b) b (below_volume path)) as [[b1 t1] word] eqn:Ed. destruct (bool_decide (word = _)); [done|].
  destruct (bool_decide (b1 = [])) eqn:Eb; bools; cbn [negb]; intros [= <-].
  - right. right. right. split; [done|]. subst b1. apply first_difference_nil in Ed as (first & rest & Hw & Hall); [|done].
    exists first, rest. split; [done|]. replace (if bool_decide _ then _ else _) with (words b); [done|]. unfold b.
    destruct (bool_decide (below_volume base = str ".")); [done|]. destruct (_ && _) eqn:Er; [|done]. apply andb_true_iff in Er as [Er%bool_decide_eq_true _]. by rewrite Er.
  - destruct (count_occ byte_eq_dec b1 backslash) as [|n]; [destruct (bool_decide (t1 = [])) eqn:Et; [by left|]|]; right; left; apply andb_true_iff.
    + bools. destruct t1 as [|c t1]; [done|]. split; [|by rewrite bool_decide_true]. rewrite Z.gtb_ltb. apply Z.ltb_lt. unfold len. cbn. lia.
    + split; [|by rewrite bool_decide_true]. rewrite Z.gtb_ltb. apply Z.ltb_lt. unfold len. cbn. lia.
Qed.

(** A profile has only the characters that are allowed. *)
Lemma profile_characters p : validateProfile p = Ok tt -> Forall (fun b => profile_character (u8 b) = true) p.
Proof.
  unfold validateProfile. destruct (_ || _); [done|]. destruct (forallb _ _) eqn:E; [|done]. intros _. revert E. apply low_runes.
  intros r. unfold profile_character. rewrite !orb_true_iff, !andb_true_iff, !Z.leb_le, !Z.eqb_eq. lia.
Qed.

(** C35: credentials stay in the user's own directory on Windows.  A store is
    only made for an absolute directory that is LOCALAPPDATA itself or below it,
    whatever [..], separators and letter case its text has; and every credential
    is a file right in that directory. *)
Theorem credentials_below_localappdata (LOCALAPPDATA : bytes) (options : PlatformSecretStoreOptions) (store : dpapiSecretStore) :
  NewDpapiStore LOCALAPPDATA options = Ok store ->
  IsAbs LOCALAPPDATA = true /\ IsAbs (OptDirectory options) = true /\
  directory store = Clean (OptDirectory options) /\ service store = OptService options /\
  (EqualFold (Clean (directory store)) (Clean (Clean LOCALAPPDATA)) = true \/ below_path (Clean LOCALAPPDATA) (directory store)) /\
  (forall profile file, path store profile = Ok file ->
     exists name, file = win_join (directory store) name /\ forallb (fun c => negb (IsPathSeparator c)) name = true).
Proof.
  intros H. unfold NewDpapiStore in H. invert_ok. bools. cbn zeta in H.
  destruct (Rel _ _) as [relative|] eqn:Er; [|done]. cbn [directory service].
  match goal with Ho : _ || _ || _ = false |- _ => rename Ho into Eo end. apply orb_false_iff in Eo as [[E1 _]%orb_false_iff E2]. apply Rel_below in Er. bools.
  split_and!; try done; [destruct Er as [|[|[|]]]; auto; congruence|].
  intros profile file Hp. unfold path in Hp. apply rbind_Ok in Hp as ([] & Hp & [= <-]). eexists. split; [reflexivity|].
  rewrite !forallb_app. cbn [forallb]. rewrite andb_true_r.
  assert (forallb (fun c => negb (IsPathSeparator c)) profile = true) as ->; [|reflexivity].
  apply forallb_forall. intros c Hc%list_elem_of_In. pose proof (proj1 (Forall_forall _ _) (profile_characters profile Hp) c Hc) as Hchar.
  apply negb_true_iff, orb_false_iff. split; apply bool_decide_false; intros ->; by vm_compute in Hchar.
Qed.

End containment.

Definition sample_local : bytes := str "C:\Users\me\AppData\Local".

Definition default_paths : AgentLock.Paths := Eval vm_compute in
  match DefaultPaths_windows sample_local with Ok paths => paths | Err _ => AgentLock.mkPaths [] [] [] [] [] end.

(** The default directory is accepted, a sibling reached by [..] is not. *)
Lemma credentials_below_localappdata_witness :
  DefaultPaths_windows sample_local = Ok default_paths /\
  below_path (Clean sample_local) (str "C:\Users\me\AppData\Local\YunPinIME\sync") /\
  is_Ok (NewDpapiStore sample_local (mkStoreOptions (str "YunPinIME.sync") (str "C:\Users\me\AppData\Local\..\Roaming"))) = false.
Proof.
  split; [vm_compute; reflexivity|]. split; [|vm_compute; reflexivity].
  assert (NewDpapiStore sample_local (mkStoreOptions (AgentLock.CredentialService default_paths) (AgentLock.StateDirectory default_paths)) =
    Ok (mkDpapi (str "YunPinIME.sync") (str "C:\Users\me\AppData\Local\YunPinIME\sync"))) as H by (vm_compute; reflexivity).
  destruct (credentials_below_localappdata _ _ _ H) as (_ & _ & _ & _ & [He|Hb] & _); [|exact Hb].
  exfalso. vm_compute in He. discriminate.
Defined.

(** ** The lock *)

(** The message of [ERROR_SHARING_VIOLATION], the 32nd. *)
Definition errorSharingViolation : error :=
  errors_New "The process cannot access the file because it is being used by another process.".
Definition ERROR_INVALID_HANDLE : error := errors_New "The handle is invalid.".

(** The handles that were opened without sharing, by the file; the number of the
    next handle and of the calls. *)
Record Handles := mkHandles { opened : gmap bytes Z; next_handle : Z; handle_calls : nat }.

Record windowsProcessLock := mkWindowsLock { handle : Z }.

Definition InvalidHandle : Z := MaxUint64.

Section lock.
(** The calls that fail. *)
Variable handle_fault : nat -> option error.

(** The file of a path: Windows takes [.] and [..] away and ignores case. *)
Definition file_of (path : bytes) : bytes := vkey (Clean path).

(** A call that can fail and changes no handle. *)
Definition handle_call : St Handles unit := fun s =>
  let s' := mkHandles (opened s) (next_handle s) (S (handle_calls s)) in
  (match handle_fault (handle_calls s) with Some e => Err e | None => Ok tt end, s').

(** [CreateFile] with [OPEN_ALWAYS] and no sharing. *)
Definition CreateFile (path : bytes) : St Handles Z :=
  do! _ := handle_call in
  fun s => match opened s !! file_of path with
           | Some _ => (Err errorSharingViolation, s)
           | None => (Ok (next_handle s), mkHandles (<[file_of path := next_handle s]> (opened s)) (next_handle s + 1) (handle_calls s))
           end.

Definition CloseHandle (h : Z) : St Handles unit := fun s =>
  let closed := filter (fun entry => entry.2 <> h) (opened s) in
  (if bool_decide (closed = opened s) then Err ERROR_INVALID_HANDLE else Ok tt, mkHandles closed (next_handle s) (handle_calls s)).

Definition acquireProcessLock (path : bytes) : St Handles windowsProcessLock :=
  if bool_decide (path = []) || negb (IsAbs path) then lift (fail "agent lock path must be absolute")
  else
    do! _ := wrap_error "create agent state directory: %w" handle_call in
    do! _ := lift (utf16 path) in
    do! created := attempt (CreateFile path) in
    match created with
    | Ok h => ret (mkWindowsLock h)
    | Err e => if errors_Is e errorSharingViolation then raise AgentLock.ErrAlreadyRunning else raise (Errorf_w "acquire agent lock: %w" e)
    end.

Definition Release (lock : option windowsProcessLock) : St Handles unit :=
  match lock with
  | None => ret tt
  | Some l => if (handle l =? 0) || (handle l =? InvalidHandle) then ret tt else CloseHandle (handle l)
  end.

(** Handles are positive, and there are some left. *)
Definition handles_ok (s : Handles) : Prop :=
  0 < next_handle s < InvalidHandle /\ forall file h, opened s !! file = Some h -> h < next_handle s.

Lemma handle_call_inv s r s' : handle_call s = (r, s') -> opened s' = opened s /\ next_handle s' = next_handle s.
Proof. unfold handle_call. by intros [= _ <-]. Qed.

Lemma CreateFile_inv path s r s' : CreateFile path s = (r, s') ->
  (exists e, r = Err e) /\ opened s' = opened s \/
  r = Ok (next_handle s) /\ opened s !! file_of path = None /\ opened s' = <[file_of path := next_handle s]> (opened s) /\ next_handle s' = next_handle s + 1.
Proof.
  unfold CreateFile. intros [(e & [H _]%handle_call_inv & ->)|([] & s1 & [H1 H2]%handle_call_inv & H)]%bind_cases; [left; eauto|].
  rewrite H1, H2 in H. destruct (opened s !! file_of path) eqn:E; injection H as <- <-; [left; eauto|]. by right.
Qed.

Lemma acquireProcessLock_inv path s r s' : acquireProcessLock path s = (r, s') ->
  (exists e, r = Err e) /\ opened s' = opened s \/
  r = Ok (mkWindowsLock (next_handle s)) /\ opened s !! file_of path = None /\
    opened s' = <[file_of path := next_handle s]> (opened s) /\ next_handle s' = next_handle s + 1.
Proof.
  intros H. unfold acquireProcessLock in H. destruct (_ || _); [injection H as <- <-; left; eauto|].
  apply bind_cases in H as [(e & H & ->)|([] & s1 & H1 & H)].
  { apply wrap_error_cases in H as [(? & _ & [=])|(? & [H _]%handle_call_inv & _)]. left; eauto. }
  assert (opened s1 = opened s /\ next_handle s1 = next_handle s) as [E1 N1]
    by (apply wrap_error_cases in H1 as [(? & ?%handle_call_inv & _)|(? & _ & [=])]; done).
  apply bind_cases in H as [(e & [= _ <-] & ->)|([] & s2 & [= _ <-] & H)]; [left; eauto|].
  apply bind_cases in H as [(? & (? & _ & [=])%attempt_inv & _)|(created & s3 & (r3 & H3 & [= ->])%attempt_inv & H)].
  apply CreateFile_inv in H3 as [[[e ->] E3]|(-> & Hfree & E3 & N3)].
  - left. destruct (errors_Is _ _); injection H as <- <-; (split; [eauto|congruence]).
  - right. injection H as <- <-. rewrite E1, N1 in *. by split_and!.
Qed.

(** Releasing closes the one handle. *)
Lemma Release_acquired path s s1 lock r s2 : handles_ok s -> acquireProcessLock path s = (Ok lock, s1) ->
  Release (Some lock) s1 = (r, s2) -> opened s2 = opened s /\ r = Ok tt.
Proof.
  intros [Hn Hless] [[[? [=]] _]|([= ->] & Hfree & E1 & _)]%acquireProcessLock_inv H. unfold Release in H. cbn [handle] in H.
  rewrite (proj2 (Z.eqb_neq _ _)), (proj2 (Z.eqb_neq _ _)) in H by lia. cbn [orb] in H. unfold CloseHandle in H. rewrite E1 in H.
  assert (filter (fun entry : bytes * Z => entry.2 <> next_handle s) (<[file_of path := next_handle s]> (opened s)) = opened s) as E.
  { rewrite map_filter_insert_False by (cbn; tauto). rewrite delete_id by done. apply map_filter_id.
    intros file h Hh%Hless. cbn. lia. }
  rewrite E in H. rewrite bool_decide_false in H; [by injection H as <- <-|]. intros Heq.
  apply (f_equal (lookup (file_of path))) in Heq. rewrite lookup_insert_eq in Heq. congruence.
Qed.

End lock.
