(* ===== verification/AgentCommand.v ===== *)
(** * The command line of the desktop agent
    ([desktopagent/cmd/yunpin-sync-agent/main.go])

    The commands [status], [sync-once], [init-account] and [run] over the agent,
    its lock and its loop.  What a build for an operating system provides is the
    class [AgentBuild], and what the commands rely on is [AgentBuildLaws].  A
    command gives the value it prints; encoding it and writing to the standard
    streams is left out, and so are signals: [Turn] says when the context of the
    loop ends. *)

From S2P Require Import Prelude Flags Encoding Unicode Endpoint Crypto Envelope Boxes Credentials.
From S2P Require Import Crdt Phrase LocalStore LocalStoreFacts SyncState StoreProps Client ClientFacts ClientProps Agent AgentProps Runner AgentSecrets AgentLock Effects.

(** ** What a build provides *)

(** The paths, the secret store and the lock of a build: over the state [S] of
    the credentials and the state [L] of the locks. *)
Class AgentBuild (S L Lock : Type) := {
  DefaultPaths : result Paths;
  NewPlatformSecretStore : PlatformSecretStoreOptions -> result (SecretStore S);
  acquire_lock : bytes -> St L Lock;
  release_lock : Lock -> St L unit
}.

(** Loading a credential changes none, and what is loaded depends on the
    credentials alone.  The table of the locks changes by the lock that was
    acquired, which nobody held, and is as before when that lock is released. *)
Class AgentBuildLaws {S L Lock C V : Type} (B : AgentBuild S L Lock) (credentials : S -> C)
    (lock_ok : L -> Prop) (lock_key : bytes -> bytes) (lock_table : L -> gmap bytes V) : Prop := {
  load_reads options secrets profile v r v' :
    NewPlatformSecretStore options = Ok secrets -> Load secrets profile v = (r, v') -> credentials v' = credentials v;
  load_again options secrets profile v w x y :
    NewPlatformSecretStore options = Ok secrets -> credentials v = credentials w ->
    (Load secrets profile v).1 = Ok x -> (Load secrets profile w).1 = Ok y -> x = y;
  acquire_result path l r l' :
    lock_ok l -> acquire_lock path l = (r, l') ->
    match r with
    | Err _ => lock_table l' = lock_table l
    | Ok _ => lock_table l !! lock_key path = None /\ exists f, lock_table l' = <[lock_key path := f]> (lock_table l)
    end;
  release_result path l lock l1 r l2 :
    lock_ok l -> acquire_lock path l = (Ok lock, l1) -> release_lock lock l1 = (r, l2) -> lock_table l2 = lock_table l
}.

(** ** Flags *)

Record commonFlags := mkCommon { profile : bytes; state : bytes; endpoint : bytes; database : bytes; lock : bytes; service : bytes }.

Definition addCommonFlags (defaults : Paths) : commonFlags :=
  mkCommon DefaultProfile (StateDirectory defaults) (AgentLock.EndpointConfigPath defaults) (AgentLock.DatabasePath defaults)
    (LockPath defaults) (CredentialService defaults).

Definition common_formal (name : bytes) : option (flag_kind commonFlags) :=
  if bool_decide (name = str "profile") then Some (TextFlag (fun v f => mkCommon v (state f) (endpoint f) (database f) (lock f) (service f)))
  else if bool_decide (name = str "state-dir") then Some (TextFlag (fun v f => mkCommon (profile f) v (endpoint f) (database f) (lock f) (service f)))
  else if bool_decide (name = str "endpoint-config") then Some (TextFlag (fun v f => mkCommon (profile f) (state f) v (database f) (lock f) (service f)))
  else if bool_decide (name = str "database") then Some (TextFlag (fun v f => mkCommon (profile f) (state f) (endpoint f) v (lock f) (service f)))
  else if bool_decide (name = str "lock") then Some (TextFlag (fun v f => mkCommon (profile f) (state f) (endpoint f) (database f) v (service f)))
  else if bool_decide (name = str "credential-service") then Some (TextFlag (fun v f => mkCommon (profile f) (state f) (endpoint f) (database f) (lock f) v))
  else None.

(** The flags of a command that has one of its own beside the common ones. *)
Definition with_common {V} (own : string) (kind : flag_kind (commonFlags * V)) (name : bytes) : option (flag_kind (commonFlags * V)) :=
  if bool_decide (name = str own) then Some kind
  else option_map (flag_within (fun change '(common, v) => (change common, v))) (common_formal name).

Definition init_formal : bytes -> option (flag_kind (commonFlags * bool)) :=
  with_common "confirm-display-recovery-key" (BoolFlag (fun v '(common, _) => (common, v))).

Definition run_formal : bytes -> option (flag_kind (commonFlags * Z)) :=
  with_common "interval" (DurationFlag (fun v '(common, _) => (common, v))).

Definition parse {F} (formal : bytes -> option (flag_kind F)) (flags : F) (arguments : list bytes) : result F :=
  let! (flags, positional) := parse_flags formal flags arguments in
  if negb (bool_decide (positional = [])) then fail "unexpected positional argument" else Ok flags.

(** The order in which the language walks a map. *)
Class MapOrder := walk : list (bytes * bytes) -> list (bytes * bytes).
Class MapOrderLaws (MO : MapOrder) : Prop := walk_permutes : forall l, walk l ≡ₚ l.

(** ** Commands *)

(** The agent's data and the locks of the machine. *)
Record Host (S R L : Type) := mkHost { desktop : Desktop S R; locks : L }.
Arguments mkHost {S R L}.
Arguments desktop {S R L}.
Arguments locks {S R L}.

(** What a command prints; the loop prints its events. *)
Inductive AgentOutput :=
  | StatusOf (status : Status) | SummaryOf (summary : SyncSummary) | RunOf (trace : list (RunEvent * Z)) (progress : Progress).

Section command.
Context `{E : Environment} `{P : Primitives} `{U : UnicodeTables} `{J : Codec Phrase}.
Context `{CH : Codec Header} `{CP : Codec PhrasePayload} `{CJ : ClientJson}.
Context `{UP : UrlParser} `{FS : Files} `{CF : ConfigJson} `{MO : MapOrder}.
Context {S R L Lock : Type} `{B : AgentBuild S L Lock}.
Variable transport : HttpRequest -> R -> result HttpResponse * R.

Definition in_desktop {A} (m : D S R A) : St (Host S R L) A := fun h =>
  let '(r, d) := m (desktop h) in (r, mkHost d (locks h)).
Definition in_locks {A} (m : St L A) : St (Host S R L) A := fun h =>
  let '(r, l) := m (locks h) in (r, mkHost (desktop h) l).

Definition validate (flags : commonFlags) : result unit :=
  let bad '(_, path) := bool_decide (path = []) || negb (IsAbs path) in
  match List.find bad (walk [(str "state directory", state flags); (str "endpoint config", endpoint flags);
                             (str "database", database flags); (str "lock", lock flags)]) with
  | Some (label, _) => Err (Errorf_s "%s path must be absolute" label)
  | None => Ok tt
  end.

Definition components (flags : commonFlags) : result (SecretStore S * Agent S) :=
  let! _ := validate flags in
  let! secrets := NewPlatformSecretStore (mkStoreOptions (service flags) (state flags)) in
  Ok (secrets, mkAgent (Some secrets) (profile flags) (endpoint flags) (database flags) 0).

Definition commandStatus (defaults : Paths) (arguments : list bytes) : St (Host S R L) AgentOutput :=
  do! common := lift (parse common_formal (addCommonFlags defaults) arguments) in
  do! (_, agent) := lift (components common) in
  do! status := in_desktop (in_vault (agent_Status agent)) in
  ret (StatusOf status).

Definition commandSyncOnce (defaults : Paths) (arguments : list bytes) : St (Host S R L) AgentOutput :=
  do! common := lift (parse common_formal (addCommonFlags defaults) arguments) in
  do! (_, agent) := lift (components common) in
  do! summary := in_desktop (agent_SyncOnce transport agent) in
  ret (SummaryOf summary).

Definition commandInitAccount (defaults : Paths) (arguments : list bytes) : St (Host S R L) AgentOutput :=
  do! (_, confirm) := lift (parse init_formal (addCommonFlags defaults, false) arguments) in
  if negb confirm then lift (fail "init-account requires --confirm-display-recovery-key before any network request")
  else lift (fail "init-account is disabled until rollback-safe account provisioning is available").

(** [Agent.Run] with the lock of the given path, which it releases when it
    returns. *)
Definition locked_Run (agent : Agent S) (lockPath : bytes) (options : RunOptions) (turns : list Turn)
    : St (Host S R L) (list (RunEvent * Z) * Progress) :=
  do! _ := lift (Runner.defaults options) in
  do! acquired := attempt (in_locks (acquire_lock lockPath)) in
  let locked := match acquired with Ok _ => Ok tt | Err e => Err e end in
  do! (trace, progress) := in_desktop (Run (agent_SyncOnce transport agent) locked options turns) in
  match acquired, progress with
  | Ok lock, Stopped => do! _ := attempt (in_locks (release_lock lock)) in ret (trace, progress)
  | _, _ => ret (trace, progress)
  end.

Definition commandRun (defaults : Paths) (arguments : list bytes) (turns : list Turn) : St (Host S R L) AgentOutput :=
  do! (common, interval) := lift (parse run_formal (addCommonFlags defaults, Minute) arguments) in
  do! (_, agent) := lift (components common) in
  do! (trace, progress) := locked_Run agent (lock common) (mkRunOptions interval 0 0) turns in
  ret (RunOf trace progress).

Definition run (arguments : list bytes) (turns : list Turn) : St (Host S R L) AgentOutput :=
  match arguments with
  | [] => lift (fail "usage: yunpin-sync-agent <init-account|sync-once|run|status> [options]")
  | command :: arguments =>
      do! defaults := lift DefaultPaths in
      if bool_decide (command = str "init-account") then commandInitAccount defaults arguments
      else if bool_decide (command = str "sync-once") then commandSyncOnce defaults arguments
      else if bool_decide (command = str "run") then commandRun defaults arguments turns
      else if bool_decide (command = str "status") then commandStatus defaults arguments
      else lift (fail "unknown command")
  end.

End command.

(** ** What the commands do *)

Section facts.
Context `{E : Environment} `{P : Primitives} {PL : PrimitiveLaws P} `{U : UnicodeTables}.
Context `{J : Codec Phrase} {JL : JsonLaws J} `{CH : Codec Header}.
Context `{CP : Codec PhrasePayload} {PD : PayloadDecoder CP} `{CJ : ClientJson}.
Context `{UP : UrlParser} `{FS : Files} `{CF : ConfigJson} `{MO : MapOrder}.
Context {S R L Lock C V : Type} `{B : AgentBuild S L Lock}.
Context {credentials : S -> C} {lock_ok : L -> Prop} {lock_key : bytes -> bytes} {lock_table : L -> gmap bytes V}.
Context `{BL : !AgentBuildLaws B credentials lock_ok lock_key lock_table}.
Variable transport : HttpRequest -> R -> result HttpResponse * R.
Hypothesis clock_readings : forall n, in_i64 (now_at n).

Lemma in_desktop_inv {A} (m : D S R A) (h : Host S R L) r h' :
  in_desktop m h = (r, h') -> m (desktop h) = (r, desktop h') /\ locks h' = locks h.
Proof. unfold in_desktop. destruct (m (desktop h)) as [r1 d]. by intros [= <- <-]. Qed.

Lemma in_locks_inv {A} (m : St L A) (h : Host S R L) r h' :
  in_locks m h = (r, h') -> m (locks h) = (r, locks h') /\ desktop h' = desktop h.
Proof. unfold in_locks. destruct (m (locks h)) as [r1 l]. by intros [= <- <-]. Qed.

Lemma lift_inv {W A} (x : result A) (w : W) r w' : lift x w = (r, w') -> r = x /\ w' = w.
Proof. by intros [= <- <-]. Qed.

(** *** Loading *)

(** An agent on a secret store of the platform. *)
Definition platform_agent (agent : Agent S) : Prop :=
  exists options secrets, NewPlatformSecretStore options = Ok secrets /\ Secrets agent = Some secrets.

Lemma components_platform flags secrets agent : components flags = Ok (secrets, agent) -> platform_agent agent.
Proof.
  unfold components. intros H. invert_ok. eexists _, secrets. match goal with H : NewPlatformSecretStore _ = _ |- _ => by split end.
Qed.

Lemma loadBundle_reads agent v : platform_agent agent -> credentials (loadBundle agent v).2 = credentials v.
Proof.
  intros (options & secrets & Hp & Hs). unfold loadBundle. rewrite Hs. destruct (validateProfile _); [|done].
  destruct (Load secrets (Profile agent) v) as [r v'] eqn:El. by apply (load_reads (AgentBuildLaws := BL) options) in El.
Qed.

Lemma loadBundle_again agent v w x y : platform_agent agent -> credentials v = credentials w ->
  (loadBundle agent v).1 = Ok x -> (loadBundle agent w).1 = Ok y -> x = y.
Proof.
  intros (options & secrets & Hp & Hs) Hc. unfold loadBundle. rewrite Hs. destruct (validateProfile _); [|done].
  pose proof (load_again (AgentBuildLaws := BL) options secrets (Profile agent) v w) as Hl.
  destruct (Load secrets (Profile agent) v) as [[a|] v'], (Load secrets (Profile agent) w) as [[b|] w']; cbn in *; try done.
  specialize (Hl a b Hp Hc eq_refl eq_refl). congruence.
Qed.

(** *** Synchronising *)

(** What every synchronisation with an agent keeps. *)
Definition guarded (agent : Agent S) (d d' : Desktop S R) : Prop :=
  credentials (vault d') = credentials (vault d) /\
  forall bundle w, credentials w = credentials (vault d) -> (loadBundle agent w).1 = Ok bundle ->
    store_inv (agent_store bundle) (db (local (net d))) -> store_inv (agent_store bundle) (db (local (net d'))).

Lemma guarded_refl agent d : guarded agent d d.
Proof. by split. Qed.

Lemma guarded_step agent d d1 r d2 : platform_agent agent -> guarded agent d d1 ->
  agent_SyncOnce transport agent d1 = (r, d2) -> guarded agent d d2.
Proof.
  intros Ha [Hc Hinv] H. split.
  - rewrite (agent_SyncOnce_vault transport agent d1 r d2 H), loadBundle_reads by done. done.
  - intros bundle w Hw Hb Hd. eapply (agent_SyncOnce_sound transport clock_readings agent d1 r d2); [|by eapply Hinv|exact H].
    intros b Hl. eapply loadBundle_again; [exact Ha| |exact Hl|exact Hb]. congruence.
Qed.

Lemma locked_Run_inv agent path options turns (h : Host S R L) r h' :
  platform_agent agent -> lock_ok (locks h) -> locked_Run transport agent path options turns h = (r, h') ->
  guarded agent (desktop h) (desktop h') /\
  ((exists e, r = Err e /\ desktop h' = desktop h /\ lock_table (locks h') = lock_table (locks h)) \/
   (exists trace progress, r = Ok (trace, progress) /\ lock_table (locks h) !! lock_key path = None /\
      match progress with
      | Stopped => lock_table (locks h') = lock_table (locks h)
      | Running => exists f, lock_table (locks h') = <[lock_key path := f]> (lock_table (locks h))
      end)).
Proof.
  intros Ha Hok H. unfold locked_Run in H.
  apply bind_cases in H as [(e & [= _ <-] & ->)|(options' & h0 & [= Hopt <-] & H)]; [split; [apply guarded_refl|left; eauto]|].
  apply bind_cases in H as [(? & (? & _ & [=])%attempt_inv & _)|(acquired & h1 & (r1 & [H1 D1]%in_locks_inv & [= ->])%attempt_inv & H)].
  pose proof (acquire_result (AgentBuildLaws := BL) path _ _ _ Hok H1) as Htable. cbn zeta in H.
  apply bind_cases in H as [(e & [H2 L2]%in_desktop_inv & ->)|([trace progress] & h2 & [H2 L2]%in_desktop_inv & H)].
  - apply runLoop_inv in H2 as [(e' & [= <-] & E2 & Hl)|(? & ? & ? & _ & _ & [=] & _)].
    destruct r1 as [lock1|e1]; [specialize (Hl eq_refl); congruence|].
    rewrite E2, D1, L2. split; [apply guarded_refl|]. left. eauto.
  - apply runLoop_inv in H2 as [(e' & [=] & _)|(opts & ? & ? & Hl & _ & [= <- <-] & H2)].
    destruct r1 as [lock1|e1]; [|done]. destruct Htable as (Hfree & f & Htable).
    assert (guarded agent (desktop h) (desktop h2)) as Hg.
    { refine (run_turns_keeps _ (guarded agent (desktop h)) _ _ _ _ _ _ _ _ _ H2); [|rewrite D1; apply guarded_refl].
      intros s r2 s' Hg Hs. by eapply guarded_step. }
    destruct progress.
    + apply bind_cases in H as [(? & (? & _ & [=])%attempt_inv & _)|(released & h3 & (r3 & [H3 D3]%in_locks_inv & _)%attempt_inv & [= <- <-])].
      rewrite D3. split; [done|]. right. exists trace, Stopped. split_and!; try done. rewrite L2 in H3.
      by eapply (release_result (AgentBuildLaws := BL)).
    + injection H as <- <-. split; [done|]. right. exists trace, Running. rewrite L2. by split_and!; [..|eauto].
Qed.

(** *** Commands *)

(** The flags and the agent that a command line gives. *)
Definition configured (arguments : list bytes) : result (commonFlags * Agent S) :=
  match arguments with
  | [] => fail "no command"
  | command :: rest =>
      let! defaults := DefaultPaths in
      let! common :=
        if bool_decide (command = str "run") then
          let! (common, _) := parse run_formal (addCommonFlags defaults, Minute) rest in Ok common
        else parse common_formal (addCommonFlags defaults) rest in
      let! (_, agent) := components common in
      Ok (common, agent)
  end.

(** A command that only looks at the credentials. *)
Lemma commandStatus_inv defaults rest (h : Host S R L) r h' : commandStatus defaults rest h = (r, h') ->
  locks h' = locks h /\ net (desktop h') = net (desktop h) /\ credentials (vault (desktop h')) = credentials (vault (desktop h)).
Proof.
  intros H. unfold commandStatus in H. apply bind_cases in H as [(e & [= _ <-] & ->)|(common & h0 & [= _ <-] & H)]; [done|].
  apply bind_cases in H as [(e & [= _ <-] & ->)|([secrets agent] & h0 & [= Hc <-] & H)]; [done|].
  assert (forall r1 h1, in_desktop (in_vault (agent_Status agent)) h = (r1, h1) ->
    locks h1 = locks h /\ net (desktop h1) = net (desktop h) /\ credentials (vault (desktop h1)) = credentials (vault (desktop h))) as Hs.
  { intros r1 h1 [[H1 N1]%in_vault_inv L1]%in_desktop_inv. split_and!; [done..|]. apply components_platform in Hc.
    rewrite <- (loadBundle_reads agent (vault (desktop h)) Hc). unfold agent_Status in H1.
    destruct (loadBundle agent _) as [r2 v2]. by injection H1 as _ <-. }
  apply bind_cases in H as [(e & H%Hs & ->)|(status & h1 & H%Hs & [= _ <-])]; done.
Qed.

Lemma commandSyncOnce_inv defaults rest (h : Host S R L) r h' : commandSyncOnce transport defaults rest h = (r, h') ->
  locks h' = locks h /\ (desktop h' = desktop h \/
    exists common secrets agent, parse common_formal (addCommonFlags defaults) rest = Ok common /\
      components common = Ok (secrets, agent) /\ guarded agent (desktop h) (desktop h')).
Proof.
  intros H. unfold commandSyncOnce in H. apply bind_cases in H as [(e & [= _ <-] & ->)|(common & h0 & [= Hp <-] & H)]; [by auto|].
  apply bind_cases in H as [(e & [= _ <-] & ->)|([secrets agent] & h0 & [= Hc <-] & H)]; [by auto|].
  assert (forall r1 h1, in_desktop (agent_SyncOnce transport agent) h = (r1, h1) -> locks h1 = locks h /\ guarded agent (desktop h) (desktop h1)) as Hs.
  { intros r1 h1 [H1 L1]%in_desktop_inv. split; [done|]. eapply guarded_step; [by eapply components_platform|apply guarded_refl|exact H1]. }
  apply bind_cases in H as [(e & H%Hs & ->)|(summary & h1 & H%Hs & [= _ <-])]; destruct H as [HL Hg]; (split; [done|]); right;
    by exists common, secrets, agent.
Qed.

Lemma commandInitAccount_inv defaults rest (h : Host S R L) r h' : commandInitAccount defaults rest h = (r, h') -> h' = h /\ exists e, r = Err e.
Proof.
  intros H. unfold commandInitAccount in H. apply bind_cases in H as [(e & [= _ <-] & ->)|([common confirm] & h0 & [= _ <-] & H)]; [eauto|].
  destruct confirm; injection H as <- <-; eauto.
Qed.

(** What the loop does to the locks, when it ran. *)
Definition lock_taken (path : bytes) (progress : Progress) (l l' : L) : Prop :=
  lock_table l !! lock_key path = None /\
  match progress with
  | Stopped => lock_table l' = lock_table l
  | Running => exists f, lock_table l' = <[lock_key path := f]> (lock_table l)
  end.

Lemma commandRun_inv defaults rest turns (h : Host S R L) r h' : lock_ok (locks h) -> commandRun transport defaults rest turns h = (r, h') ->
  ((exists e, r = Err e) /\ desktop h' = desktop h /\ lock_table (locks h') = lock_table (locks h)) \/
  exists common interval secrets agent trace progress, parse run_formal (addCommonFlags defaults, Minute) rest = Ok (common, interval) /\
    components common = Ok (secrets, agent) /\ guarded agent (desktop h) (desktop h') /\
    r = Ok (RunOf trace progress) /\ lock_taken (lock common) progress (locks h) (locks h').
Proof.
  intros Hok H. unfold commandRun in H. apply bind_cases in H as [(e & [= _ <-] & ->)|([common interval] & h0 & [= Hp <-] & H)]; [eauto|].
  apply bind_cases in H as [(e & [= _ <-] & ->)|([secrets agent] & h0 & [= Hc <-] & H)]; [eauto|].
  pose proof (components_platform _ _ _ Hc) as Ha.
  apply bind_cases in H as [(e & H & ->)|([trace progress] & h1 & H & [= <- <-])]; apply locked_Run_inv in H as [Hg H]; try done.
  - destruct H as [(e' & _ & H1 & H2)|(? & ? & [=] & _)]. left. eauto.
  - destruct H as [(? & [=] & _)|(? & ? & [= <- <-] & Hfree & Ht)]. right. exists common, interval, secrets, agent, trace, progress. by split_and!.
Qed.

(** C17: what a run of the agent's command line can do.  Whatever the arguments,
    the relay and the failing calls: no command creates, changes or deletes a
    credential.  Only [sync-once] and [run] reach the network or the database,
    and only [run] touches a lock.  [init-account] fails without any effect,
    whether or not the display of the recovery key was confirmed.  [run]
    synchronises only while it holds the lock of its path, which nobody held
    before; when it returns, the locks are as they were; and when it cannot
    have the lock, it fails without a synchronisation.  The database of the
    agent that the flags describe stays sound. *)
Theorem agent_command_contained (arguments : list bytes) (turns : list Turn) (h h' : Host S R L) r :
  lock_ok (locks h) -> run transport arguments turns h = (r, h') ->
  let named command := head arguments = Some (str command) in
  credentials (vault (desktop h')) = credentials (vault (desktop h)) /\
  (~ named "sync-once" -> ~ named "run" -> net (desktop h') = net (desktop h)) /\
  (~ named "run" -> locks h' = locks h) /\
  (named "init-account" -> h' = h /\ exists e, r = Err e) /\
  (named "run" ->
     (exists e, r = Err e) /\ desktop h' = desktop h /\ lock_table (locks h') = lock_table (locks h) \/
     exists common agent trace progress, configured arguments = Ok (common, agent) /\
       r = Ok (RunOf trace progress) /\ lock_taken (lock common) progress (locks h) (locks h')) /\
  (forall common agent bundle w, configured arguments = Ok (common, agent) -> credentials w = credentials (vault (desktop h)) ->
     (loadBundle agent w).1 = Ok bundle -> store_inv (agent_store bundle) (db (local (net (desktop h)))) ->
     store_inv (agent_store bundle) (db (local (net (desktop h'))))).
Proof.
  intros Hok H. cbn zeta. destruct arguments as [|command rest]; [injection H as <- <-; by split_and!|].
  cbn [head]. unfold run in H. unfold configured.
  apply bind_cases in H as [(e & [= Hdef <-] & ->)|(defaults & h0 & [= Hdef <-] & H)]; [split_and!; try done; [eauto|left; eauto]|].
  rewrite Hdef. cbn [rbind].
  destruct (bool_decide (command = str "init-account")) eqn:E1; bools.
  { subst command. apply commandInitAccount_inv in H as [-> He]. by split_and!. }
  destruct (bool_decide (command = str "sync-once")) eqn:E2; bools.
  { subst command. apply commandSyncOnce_inv in H as [HL H]. rewrite bool_decide_false by done. destruct H as [Hd|(common & secrets & agent & Hp & Hc & Hg & Hinv)].
    - rewrite Hd. split_and!; done.
    - rewrite Hp. cbn [rbind]. rewrite Hc. cbn [rbind]. split_and!; try done. intros common' agent' bundle w [= <- <-]. apply Hinv. }
  destruct (bool_decide (command = str "run")) eqn:E3; bools.
  { subst command. apply commandRun_inv in H as [([e ->] & Hd & Ht)|(common & interval & secrets & agent & trace & progress & Hp & Hc & [Hg Hinv] & -> & Hl)]; [| |done].
    - rewrite Hd. split_and!; try done. intros _. left. eauto.
    - rewrite Hp. cbn [rbind]. rewrite Hc. cbn [rbind]. split_and!; try done.
      + intros _. right. by exists common, agent, trace, progress.
      + intros common' agent' bundle w [= <- <-]. apply Hinv. }
  destruct (bool_decide (command = str "status")) eqn:E4; bools.
  - subst command. apply commandStatus_inv in H as (HL & Hn & Hc). rewrite Hn. split_and!; done.
  - injection H as <- <-. split_and!; try done; congruence.
Qed.

(** *** Flags *)

(** The flags of an agent as they can be written. *)
Definition common_settings (fl : commonFlags) : list (bytes * bytes) :=
  [(str "profile", profile fl); (str "state-dir", state fl); (str "endpoint-config", endpoint fl);
   (str "database", database fl); (str "lock", lock fl); (str "credential-service", service fl)].

Definition absolute_paths (fl : commonFlags) : Prop :=
  Forall (fun path => path <> [] /\ IsAbs path = true) [state fl; endpoint fl; database fl; lock fl].

Lemma validate_Ok {MOL : MapOrderLaws MO} fl : validate fl = Ok tt <-> absolute_paths fl.
Proof.
  unfold validate, absolute_paths.
  set (bad := fun '(_, path) => bool_decide (path = []) || negb (IsAbs path)). set (paths := [(str "state directory", state fl); _; _; _]).
  assert (Forall (fun p => bad p = false) paths <-> Forall (fun path => path <> [] /\ IsAbs path = true) [state fl; endpoint fl; database fl; lock fl]) as <-.
  { assert (forall label path, bad (label, path) = false <-> path <> [] /\ IsAbs path = true) as Hbad
      by (intros label path; unfold bad; rewrite orb_false_iff, bool_decide_eq_false, negb_false_iff; done).
    unfold paths. rewrite !Forall_cons, !Hbad, !Forall_nil. done. }
  transitivity (Forall (fun p => bad p = false) (walk paths)); [|by rewrite (walk_permutes (MapOrderLaws := MOL) paths)]. split.
  - intros H. destruct (List.find bad (walk paths)) as [[label path]|] eqn:Ef; [done|]. apply Forall_forall. intros p Hp.
    eapply (find_none _ _ Ef). by apply list_elem_of_In.
  - intros H. destruct (List.find bad (walk paths)) as [[label path]|] eqn:Ef; [|done]. apply find_some in Ef as [Hin Hb].
    rewrite Forall_forall in H. rewrite H in Hb; [done|]. by apply list_elem_of_In.
Qed.

(** What a command gives as its output. *)
Definition printed {A} (f : A -> AgentOutput) (run : result A * Host S R L) : result AgentOutput * Host S R L :=
  (match run.1 with Ok a => Ok (f a) | Err e => Err e end, run.2).

Lemma bind_printed {A} (m : St (Host S R L) A) f h : bind m (fun a => ret (f a)) h = printed f (m h).
Proof. unfold bind, printed, ret. by destruct (m h) as [[a|e] h']. Qed.

Lemma parse_settings {F} (formal : bytes -> option (flag_kind F)) settings f f' :
  forallb (fun setting => plain_name setting.1) settings = true -> set_all formal settings f = Some f' ->
  parse formal f (map flag_text settings) = Ok f'.
Proof. intros Hn Hs. unfold parse. rewrite <- (app_nil_r (map flag_text settings)), (parse_all formal settings f f') by done. reflexivity. Qed.

(** An interval flag after the common ones. *)
Lemma parse_interval defaults interval fl ds u unit :
  ds <> [] -> forallb decimal_digit ds = true -> unitMap u = Some unit ->
  parse run_formal (addCommonFlags defaults, interval) (map flag_text (common_settings fl ++ [(str "interval", ds ++ u)])) =
    if digits_number ds * unit <=? MaxInt64 then Ok (fl, digits_number ds * unit)
    else Err (Errorf_args "invalid value %q for flag -%s: parse error" [inr (ds ++ u); inr (str "interval")]).
Proof.
  intros Hne Hds Hu. destruct (whole_durations ds u unit Hne Hds Hu) as [Hd _]. destruct (_ <=? _) in *.
  - apply parse_settings; [reflexivity|]. transitivity (match match ParseDuration (ds ++ u) with Some d => Some (fl, d) | None => None end with Some f => Some f | None => None end);
      [by destruct fl|by rewrite Hd].
  - unfold parse. rewrite map_app.
    rewrite (parse_all _ _ _ (fl, interval)); [|reflexivity|by destruct fl]. cbn [map].
    rewrite (parse_written _ _ _ (DurationFlag (fun v '(common, _) => (common, v)))) by reflexivity. cbn [set_flag]. by rewrite Hd.
Qed.

Lemma parse_common defaults fl : parse common_formal (addCommonFlags defaults) (map flag_text (common_settings fl ++ [])) = Ok fl.
Proof. rewrite app_nil_r. apply parse_settings; [reflexivity|by destruct fl]. Qed.

Lemma components_Ok {MOL : MapOrderLaws MO} fl : absolute_paths fl ->
  components fl = let! secrets := NewPlatformSecretStore (mkStoreOptions (service fl) (state fl)) in
                  Ok (secrets, mkAgent (Some secrets) (profile fl) (endpoint fl) (database fl) 0).
Proof. intros H%validate_Ok. unfold components. by rewrite H. Qed.

Lemma components_Err {MOL : MapOrderLaws MO} fl : ~ absolute_paths fl -> exists e, components fl = Err e.
Proof. intros H. unfold components. destruct (validate fl) as [[]|e] eqn:Ev; [|by exists e]. by apply validate_Ok in Ev. Qed.

(** Each command after its name. *)
Lemma run_defaults defaults rest turns (h : Host S R L) : DefaultPaths = Ok defaults ->
  let named command := run transport (str command :: rest) turns h in
  named "init-account" = commandInitAccount defaults rest h /\ named "status" = commandStatus defaults rest h /\
  named "sync-once" = commandSyncOnce transport defaults rest h /\ named "run" = commandRun transport defaults rest turns h.
Proof. intros H. unfold run, bind, lift. rewrite H. by split_and!. Qed.

Lemma commandStatus_flags defaults rest fl (h : Host S R L) : parse common_formal (addCommonFlags defaults) rest = Ok fl ->
  commandStatus defaults rest h =
    match components fl with Ok (_, agent) => printed StatusOf (in_desktop (in_vault (agent_Status agent)) h) | Err e => (Err e, h) end.
Proof.
  intros H. unfold commandStatus. rewrite (bind_ok _ _ _ fl h) by (unfold lift; by rewrite H).
  destruct (components fl) as [[secrets agent]|e]; [by rewrite <- bind_printed|done].
Qed.

Lemma commandSyncOnce_flags defaults rest fl (h : Host S R L) : parse common_formal (addCommonFlags defaults) rest = Ok fl ->
  commandSyncOnce transport defaults rest h =
    match components fl with Ok (_, agent) => printed SummaryOf (in_desktop (agent_SyncOnce transport agent) h) | Err e => (Err e, h) end.
Proof.
  intros H. unfold commandSyncOnce. rewrite (bind_ok _ _ _ fl h) by (unfold lift; by rewrite H).
  destruct (components fl) as [[secrets agent]|e]; [by rewrite <- bind_printed|done].
Qed.

Lemma commandRun_flags defaults rest fl interval turns (h : Host S R L) : parse run_formal (addCommonFlags defaults, Minute) rest = Ok (fl, interval) ->
  commandRun transport defaults rest turns h =
    match components fl with
    | Ok (_, agent) => printed (fun '(trace, progress) => RunOf trace progress) (locked_Run transport agent (lock fl) (mkRunOptions interval 0 0) turns h)
    | Err e => (Err e, h)
    end.
Proof.
  intros H. unfold commandRun. rewrite (bind_ok _ _ _ (fl, interval) h) by (unfold lift; by rewrite H).
  destruct (components fl) as [[secrets agent]|e]; [|done]. unfold printed, bind, lift, ret.
  by destruct (locked_Run _ _ _ _ _ _) as [[[trace progress]|e] h'].
Qed.

(** C21: the flags say which agent runs.  A command line that writes every flag
    runs exactly the agent with that profile, secret store, configuration and
    database, under that lock, whatever the default paths are; an interval of
    whole units is taken exactly when it fits a duration, and otherwise refused
    before anything happens; and if one of the four paths is empty or relative,
    every command fails without any effect. *)
Theorem flags_decide_agent {MOL : MapOrderLaws MO} (fl : commonFlags) (defaults : Paths) (secrets : SecretStore S)
    (turns : list Turn) (h : Host S R L) :
  DefaultPaths = Ok defaults -> NewPlatformSecretStore (mkStoreOptions (service fl) (state fl)) = Ok secrets ->
  let agent := mkAgent (Some secrets) (profile fl) (endpoint fl) (database fl) 0 in
  let given command more := run transport (str command :: map flag_text (common_settings fl ++ more)) turns h in
  let looping interval := printed (fun '(trace, progress) => RunOf trace progress)
    (locked_Run transport agent (lock fl) (mkRunOptions interval 0 0) turns h) in
  (absolute_paths fl ->
     given "status" [] = printed StatusOf (in_desktop (in_vault (agent_Status agent)) h) /\
     given "sync-once" [] = printed SummaryOf (in_desktop (agent_SyncOnce transport agent) h) /\
     given "run" [] = looping Minute /\
     forall ds u unit, ds <> [] -> forallb decimal_digit ds = true -> unitMap u = Some unit ->
       if digits_number ds * unit <=? MaxInt64 then given "run" [(str "interval", ds ++ u)] = looping (digits_number ds * unit)
       else exists e, given "run" [(str "interval", ds ++ u)] = (Err e, h)) /\
  (~ absolute_paths fl -> forall command, command ∈ ["init-account"; "status"; "sync-once"; "run"] -> exists e, given command [] = (Err e, h)).
Proof.
  intros Hdef Hsec agent given looping. pose proof (parse_common defaults fl) as Hpc.
  assert (parse run_formal (addCommonFlags defaults, Minute) (map flag_text (common_settings fl ++ [])) = Ok (fl, Minute)) as Hpr
    by (rewrite app_nil_r; apply parse_settings; [reflexivity|by destruct fl]).
  pose proof (fun more => run_defaults defaults (map flag_text (common_settings fl ++ more)) turns h Hdef) as Hcommand. split.
  - intros Habs. pose proof (components_Ok fl Habs) as Hc. rewrite Hsec in Hc. cbn [rbind] in Hc. fold agent in Hc.
    destruct (Hcommand []) as (_ & H1 & H2 & H3). split_and!.
    + unfold given. by rewrite H1, (commandStatus_flags _ _ fl), Hc.
    + unfold given. by rewrite H2, (commandSyncOnce_flags _ _ fl), Hc.
    + unfold given. by rewrite H3, (commandRun_flags _ _ fl Minute), Hc.
    + intros ds u unit Hne Hds Hu. destruct (Hcommand [(str "interval", ds ++ u)]) as (_ & _ & _ & H4). unfold given. rewrite H4.
      pose proof (parse_interval defaults Minute fl ds u unit Hne Hds Hu) as Hp.
      destruct (_ <=? _); [by rewrite (commandRun_flags _ _ fl _ _ _ Hp), Hc|]. eexists. unfold commandRun, bind, lift. by rewrite Hp.
  - intros Habs command Hin. destruct (components_Err fl Habs) as [e Hc]. destruct (Hcommand []) as (H1 & H2 & H3 & H4). unfold given.
    repeat (apply elem_of_cons in Hin as [-> | Hin]); [..|by apply not_elem_of_nil in Hin].
    + rewrite H1. destruct (commandInitAccount _ _ h) as [r h'] eqn:E1. apply commandInitAccount_inv in E1 as [-> [e' ->]]. by exists e'.
    + exists e. by rewrite H2, (commandStatus_flags _ _ fl), Hc.
    + exists e. by rewrite H3, (commandSyncOnce_flags _ _ fl), Hc.
    + exists e. by rewrite H4, (commandRun_flags _ _ fl Minute), Hc.
Qed.

End facts.
