(* ===== verification/AgentBuilds.v ===== *)
(** * The builds of the desktop agent

    What the command line needs of an operating system ([AgentBuild]), as the
    files with build constraints give it: macOS ([paths_darwin.go],
    [secret_store_darwin.go], [process_lock_unix.go]), the other Unix systems
    ([paths_other.go], [secret_store_unsupported.go], [process_lock_unix.go]) and
    Windows ([paths_windows.go], [secret_store_windows.go],
    [process_lock_windows.go]).  Each one keeps the laws that the theorems of the
    command line rely on. *)

From S2P Require Import Prelude Flags Encoding Unicode Endpoint Crypto Envelope Boxes Credentials.
From S2P Require Import Crdt Phrase LocalStore LocalStoreFacts SyncState StoreProps Client ClientFacts ClientProps ClientSample.
From S2P Require Import Agent AgentProps AgentSample Runner AgentSecrets AgentKeychain AgentLock AgentCommand Effects.
From S2P Require ReplayDisk AgentWindows.

Definition ErrUnsupportedPlatform : error := errors_New "YunPin OS credential store is unsupported on this platform".

(** There is no store on the other systems. *)
Definition NewPlatformSecretStore_unsupported {S} (options : PlatformSecretStoreOptions) : result (SecretStore S) :=
  let! _ := validateStoreOptions options in Err ErrUnsupportedPlatform.

(** ** macOS and the other Unix systems *)

Section unix.
Context `{OS : ReplayDisk.Machine} (flock_fault : nat -> option error).

Definition darwin_build `{K : KeychainSystem} : AgentBuild Keychain System unixProcessLock := {|
  DefaultPaths := DefaultPaths_darwin ReplayDisk.UserHomeDir;
  NewPlatformSecretStore := keychain_store;
  acquire_lock := acquireProcessLock flock_fault;
  release_lock lock := Release flock_fault (Some lock)
|}.

Definition other_build {S} (UserConfigDir : result bytes) : AgentBuild S System unixProcessLock := {|
  DefaultPaths := DefaultPaths_other UserConfigDir;
  NewPlatformSecretStore := NewPlatformSecretStore_unsupported;
  acquire_lock := acquireProcessLock flock_fault;
  release_lock lock := Release flock_fault (Some lock)
|}.

(** The lock alone. *)
Lemma unix_acquire path s r s' : numbered s -> acquireProcessLock flock_fault path s = (r, s') ->
  match r with
  | Err _ => held s' = held s
  | Ok _ => held s !! ReplayDisk.Clean path = None /\ exists f, held s' = <[ReplayDisk.Clean path := f]> (held s)
  end.
Proof. intros Hn H. apply acquire_inv in H as [_ [(e & -> & E)|(f & -> & _ & Hfree & E)]]; eauto. Qed.

Lemma unix_release path s lock s1 r s2 : numbered s -> acquireProcessLock flock_fault path s = (Ok lock, s1) ->
  Release flock_fault (Some lock) s1 = (r, s2) -> held s2 = held s.
Proof.
  intros Hn H Hr. apply acquire_inv in H as [_ [(e & [=] & _)|(f & [= ->] & _ & Hfree & E)]]; [|done].
  apply (Release_inv _ _ f) in Hr as [-> _]; [|done]. rewrite E. cbn [lock_path]. unfold without_lock.
  by rewrite lookup_insert_eq, bool_decide_true, delete_insert_id by done.
Qed.

#[export] Instance darwin_laws `{K : KeychainSystem} :
  AgentBuildLaws darwin_build items numbered ReplayDisk.Clean held.
Proof.
  assert (forall options secrets, NewPlatformSecretStore (AgentBuild := darwin_build) options = Ok secrets ->
    Load secrets = keychain_Load (OptService options)) as Hload.
  { intros options secrets H. cbn in H. unfold keychain_store in H. by apply rbind_Ok in H as (? & _ & [= <-]). }
  split.
  - intros options secrets profile v r v' H%Hload E. rewrite H in E. by apply keychain_Load_inv in E as [E _].
  - intros options secrets profile v w x y H%Hload E. rewrite H.
    destruct (keychain_Load _ _ v) as [r1 v1] eqn:E1, (keychain_Load _ _ w) as [r2 w1] eqn:E2. cbn. intros -> ->.
    apply keychain_Load_inv in E1 as [_ E1], E2 as [_ E2]. specialize (E1 _ eq_refl). specialize (E2 _ eq_refl). congruence.
  - apply unix_acquire.
  - apply unix_release.
Qed.

#[export] Instance other_laws {S} config : AgentBuildLaws (other_build (S := S) config) id numbered ReplayDisk.Clean held.
Proof.
  assert (forall options secrets, NewPlatformSecretStore (AgentBuild := other_build (S := S) config) options <> Ok secrets) as Hnone.
  { intros options secrets H. cbn in H. unfold NewPlatformSecretStore_unsupported in H. by apply rbind_Ok in H as (? & _ & [=]). }
  split.
  - by intros options secrets profile v r v' H%Hnone.
  - by intros options secrets profile v w x y H%Hnone.
  - apply unix_acquire.
  - apply unix_release.
Qed.

End unix.

(** ** Windows *)

Section windows.
Context `{W : WindowsSystem} `{K : AgentWindows.CaseFold} (handle_fault : nat -> option error) (LOCALAPPDATA : bytes).

Definition windows_build : AgentBuild Volume AgentWindows.Handles AgentWindows.windowsProcessLock := {|
  DefaultPaths := AgentWindows.DefaultPaths_windows LOCALAPPDATA;
  NewPlatformSecretStore options := let! store := AgentWindows.NewDpapiStore LOCALAPPDATA options in Ok (dpapi_secrets store);
  acquire_lock := AgentWindows.acquireProcessLock handle_fault;
  release_lock lock := AgentWindows.Release (Some lock)
|}.

#[export] Instance windows_laws : AgentBuildLaws windows_build vfiles AgentWindows.handles_ok AgentWindows.file_of AgentWindows.opened.
Proof.
  assert (forall options secrets, NewPlatformSecretStore (AgentBuild := windows_build) options = Ok secrets ->
    exists store, Load secrets = dpapi_Load store) as Hload.
  { intros options secrets H. cbn in H. apply rbind_Ok in H as (store & _ & [= <-]). by exists store. }
  split.
  - intros options secrets profile v r v' [store H]%Hload E. rewrite H in E. by apply dpapi_Load_reads in E.
  - intros options secrets profile v w x y [store H]%Hload E. rewrite H.
    destruct (dpapi_Load _ _ v) as [r1 v1] eqn:E1, (dpapi_Load _ _ w) as [r2 w1] eqn:E2. cbn. intros -> ->.
    apply dpapi_Load_inv in E1 as (t1 & E1 & U1), E2 as (t2 & E2 & U2). rewrite E, E2 in E1. injection E1 as ->. congruence.
  - intros path l r l' Hok [[[e ->] E]|(-> & Hfree & E & _)]%AgentWindows.acquireProcessLock_inv; eauto.
  - intros path l lock l1 r l2 Hok H Hr. by apply (AgentWindows.Release_acquired _ _ _ _ _ _ _ Hok H) in Hr as [E _].
Qed.

End windows.

(** ** A machine with one agent *)

Section witnesses.
#[local] Existing Instance Sample.primitives.
#[local] Existing Instance Sample.primitive_laws.
#[local] Existing Instance ascii_tables.
#[local] Existing Instance StoreProps.quiet.
#[local] Existing Instance StoreProps.phrase_codec.
#[local] Existing Instance StoreProps.phrase_codec_laws.
#[local] Existing Instance sample_files.
#[local] Existing Instance sample_config.
#[local] Existing Instance sample_urls.

#[local] Instance in_order : MapOrder := fun l => l.
#[local] Instance in_order_laws : MapOrderLaws in_order.
Proof. intros l. reflexivity. Qed.

#[local] Instance sample_build : AgentBuild Keychain System unixProcessLock :=
  darwin_build (OS := lock_machine) (K := sample_keychain (fun _ => false)) (fun _ => None).

(** The credential is in the Keychain, and nobody holds a lock. *)
Definition sample_host (locked : gmap bytes nat) : Host Keychain unit System :=
  mkHost (mkDesktop (mkKeychain {[ (sample_service, str "default") := sample_record ]} 0) (net desktop0))
    (mkSystem (ReplayDisk.mkDisk ∅ ∅ [] 0) locked 1).

Definition sample_flags (lock : bytes) : commonFlags :=
  mkCommon (str "default") (str "/home/me/state") config_path database_path lock sample_service.

Definition sample_arguments (command : string) (more : list (bytes * bytes)) : list bytes :=
  str command :: map flag_text (common_settings (sample_flags lock_file) ++ more).

Definition sample_ran (locked : gmap bytes nat) : result AgentOutput * Host Keychain unit System :=
  run silent (sample_arguments "run" []) [mkTurn false (Some 10) true] (sample_host locked).

Lemma sample_synchronised : (sample_ran ∅).1 = Ok (RunOf [(mkRunEvent (str "sync_complete") true (mkSummary 1 0 0 0), 60 * Second)] Stopped).
Proof. vm_compute. reflexivity. Qed.

Definition sample_secrets : SecretStore Keychain :=
  mkSecretStore (keychain_Load (K := sample_keychain (fun _ => false)) sample_service)
    (keychain_Save (K := sample_keychain (fun _ => false)) sample_service).

Lemma sample_store_made lock : NewPlatformSecretStore (mkStoreOptions (service (sample_flags lock)) (state (sample_flags lock))) = Ok sample_secrets.
Proof. reflexivity. Qed.

Definition sample_defaults : Paths := Eval vm_compute in match DefaultPaths_darwin (Ok (str "/home/me")) with Ok paths => paths | Err _ => mkPaths [] [] [] [] [] end.

Lemma sample_defaults_made : DefaultPaths = Ok sample_defaults.
Proof. vm_compute. reflexivity. Qed.

(** The flags of an agent run it; an interval that is too long and an empty lock
    path are refused. *)
Lemma flags_decide_agent_witness :
  run silent (sample_arguments "sync-once" []) [] (sample_host ∅) =
    printed SummaryOf (in_desktop (agent_SyncOnce silent (mkAgent (Some sample_secrets) (str "default") config_path database_path 0)) (sample_host ∅)) /\
  (exists e, run silent (sample_arguments "run" [(str "interval", str "2562048" ++ str "h")]) [] (sample_host ∅) = (Err e, sample_host ∅)) /\
  (exists e, run silent (str "status" :: map flag_text (common_settings (sample_flags []) ++ [])) [] (sample_host ∅) = (Err e, sample_host ∅)).
Proof.
  destruct (flags_decide_agent silent (sample_flags lock_file) sample_defaults sample_secrets [] (sample_host ∅) sample_defaults_made
    (sample_store_made _)) as [H _].
  destruct (flags_decide_agent silent (sample_flags []) sample_defaults sample_secrets [] (sample_host ∅) sample_defaults_made
    (sample_store_made _)) as [_ Hno].
  destruct H as (_ & Hsync & _ & Hint); [repeat constructor; done|]. split; [exact Hsync|]. split.
  - pose proof (Hint (str "2562048") (str "h") 3600000000000 ltac:(done) ltac:(reflexivity) ltac:(reflexivity)) as H.
    replace (_ <=? MaxInt64) with false in H by (vm_compute; reflexivity). exact H.
  - apply Hno; [|right; left]. intros Habs. unfold absolute_paths in Habs. rewrite !Forall_cons in Habs. tauto.
Defined.

(** [run] synchronises and gives the lock back; while another agent holds it,
    nothing happens. *)
Lemma agent_command_contained_witness :
  items (vault (desktop (sample_ran ∅).2)) = {[ (sample_service, str "default") := sample_record ]} /\
  held (locks (sample_ran ∅).2) = ∅ /\
  desktop (sample_ran {[ lock_file := O ]}).2 = desktop (sample_host ∅) /\
  held (locks (sample_ran {[ lock_file := O ]}).2) = {[ lock_file := O ]}.
Proof.
  assert (forall locked, (forall path f, locked !! path = Some f -> (f < 1)%nat) -> numbered (locks (sample_host locked))) as Hnum
    by (intros locked Hl path f Hf; apply (Hl path f Hf)).
  assert (forall path f, (∅ : gmap bytes nat) !! path = Some f -> (f < 1)%nat) as H0 by (intros path f H; rewrite lookup_empty in H; discriminate).
  assert (forall path f, ({[ lock_file := O ]} : gmap bytes nat) !! path = Some f -> (f < 1)%nat) as H1
    by (intros path f H; apply lookup_singleton_Some in H; lia).
  destruct (agent_command_contained (BL := darwin_laws (OS := lock_machine) (K := sample_keychain (fun _ => false)) (fun _ => None)) silent
    quiet_readings _ _ _ _ _ (Hnum ∅ H0) (surjective_pairing (sample_ran ∅))) as (Hc & _ & _ & _ & Hrun & _).
  destruct (agent_command_contained (BL := darwin_laws (OS := lock_machine) (K := sample_keychain (fun _ => false)) (fun _ => None)) silent
    quiet_readings _ _ _ _ _ (Hnum {[ lock_file := O ]} H1) (surjective_pairing (sample_ran {[ lock_file := O ]}))) as (_ & _ & _ & _ & Hbusy & _).
  split; [exact Hc|]. split; [|].
  - destruct (Hrun eq_refl) as [([e He] & _ & _)|(common & agent & trace & progress & _ & Hr & Hfree & Hp)].
    + rewrite sample_synchronised in He. discriminate.
    + rewrite sample_synchronised in Hr. injection Hr as _ <-. exact Hp.
  - destruct (Hbusy eq_refl) as [(_ & Hd & Ht)|(common & agent & trace & progress & _ & Hr & _)]; [split; [exact Hd|exact Ht]|].
    exfalso. assert (is_Ok (sample_ran {[ lock_file := O ]}).1 = false) as Hbad by (vm_compute; reflexivity). rewrite Hr in Hbad. discriminate.
Defined.

End witnesses.
