(* ===== verification/RelayProcess.v ===== *)
(** * The relay process ([sync/cmd/yunpin-sync/main.go], the handler chain of
    [sync/internal/server/server.go])

    The process takes its settings from the environment, starts the server and
    hands it the requests, each through the log and the rate limiter.  Creating
    directories and listening are arguments; the time limits of the HTTP server
    and its orderly end have no part in the answers.  The data of the database
    are the schema that the migrations work on. *)

From S2P Require Import Prelude Effects Encoding Unicode Crypto Envelope Server ServerFacts ServerProps RelayStart.
From S2P Require ReplayDisk.

(** ** The log *)

(** A line of the log, after its time. *)
Record LogLine := mkLogLine { l_method : bytes; l_path : string; l_status : Z; l_duration_ms : Z }.

(** A request as it arrives: the address of the peer, when it began, was
    admitted and ended, in nanoseconds. *)
Record Arrival := mkArrival { request : Request; RemoteAddr : bytes; began : Z; admitted_at : Z; ended : Z }.

(** What [statusRecorder] keeps: every answer writes one header. *)
Definition recorded_status (a : answer (Z * payload)) : Z :=
  match a with Answer (status, _) => status | Failed why => status why end.

Definition log_line (arrival : Arrival) (status : Z) : LogLine :=
  mkLogLine (Method (request arrival)) (routeLabel (Path (request arrival))) status
    (Z.quot (ended arrival - began arrival) 1000000).

(** ** The handler *)

Record Process := mkProcess { world : ServerWorld; limiter : ipLimiter; log : list LogLine }.

Section process.
Context `{P : Primitives} `{U : UnicodeTables} `{CH : Codec Header} `{SJ : ServerJson} `{SE : ServerEnv}.

(** [withLogging(withRateLimit(route))] *)
Definition ServeHTTP (arrival : Arrival) (p : Process) : answer (Z * payload) * Process :=
  let r := request arrival in
  let '((a, w), l) := withRateLimit (limiter p) (clientIP (RemoteAddr arrival)) (admitted_at arrival) (Path r) (route r) (world p) in
  (a, mkProcess w l (log p ++ [log_line arrival (recorded_status a)])).

Fixpoint serve (arrivals : list Arrival) (p : Process) : list (answer (Z * payload)) * Process :=
  match arrivals with
  | [] => ([], p)
  | arrival :: rest =>
      let '(a, p) := ServeHTTP arrival p in
      let '(answers, p) := serve rest p in
      (a :: answers, p)
  end.

(** ** The process *)

Definition envOr (getenv : bytes -> bytes) (name fallback : string) : bytes :=
  let value := getenv (str name) in if negb (bool_decide (value = [])) then value else str fallback.

Variable exec_script : bytes -> ServerDB -> result ServerDB.

(** The address to listen on, what the requests got and the process at its end,
    or the message it dies with. *)
Definition relay_main (getenv : bytes -> bytes) (make_directory : bytes -> result unit) (opened : bytes -> result unit)
    (files : result (list MigrationFile)) (random : bytes) (arrivals : list Arrival) (disk : StartDB ServerDB)
    : result (bytes * (list (answer (Z * payload)) * Process)) :=
  let listenAddress := envOr getenv "YUNPIN_LISTEN" ":8080" in
  let databasePath := envOr getenv "YUNPIN_DATABASE" "/data/yunpin-sync.db" in
  match make_directory (ReplayDisk.Dir databasePath) with
  | Err e => Err (Errorf_w "prepare data directory: %v" e)
  | Ok _ =>
      match New exec_script opened files databasePath (disk, O) with
      | (Err e, _) => Err (Errorf_w "initialize server: %v" e)
      | (Ok limiter, (started, n)) => Ok (listenAddress, serve arrivals (mkProcess (mkServerWorld (schema started) random n) limiter []))
      end
  end.

(** ** What the start keeps *)

(** A property of the data that no script breaks. *)
Variable I : ServerDB -> Prop.
Hypothesis scripts_keep : forall body s s', exec_script body s = Ok s' -> I s -> I s'.

Definition keeps {A} (m : St (StartDB ServerDB * nat) A) : Prop := forall w r w', I (schema w.1) -> m w = (r, w') -> I (schema w'.1).

Lemma start_lift {A} (r : result A) : keeps (lift r).
Proof. by intros w r' w' Hw [= _ <-]. Qed.

Lemma start_bind {A B} (m : St (StartDB ServerDB * nat) A) (f : A -> St (StartDB ServerDB * nat) B) :
  keeps m -> (forall a, keeps (f a)) -> keeps (bind m f).
Proof.
  intros Hm Hf w r w' Hw [(e & H & _)|(a & w1 & H1 & H)]%bind_cases; [by apply (Hm _ _ _ Hw) in H|].
  eapply (Hf a); [|exact H]. by apply (Hm _ _ _ Hw) in H1.
Qed.

Lemma start_attempt {A} (m : St (StartDB ServerDB * nat) A) : keeps m -> keeps (attempt m).
Proof. intros Hm w r w' Hw (r' & H & _)%attempt_inv. by apply (Hm _ _ _ Hw) in H. Qed.

Lemma start_wrap {A} format (m : St (StartDB ServerDB * nat) A) : keeps m -> keeps (wrap_error format m).
Proof. intros Hm w r w' Hw [(a & H & _)|(e & H & _)]%wrap_error_cases; by apply (Hm _ _ _ Hw) in H. Qed.

Lemma start_statement {A} (f : StartDB ServerDB -> result (A * StartDB ServerDB)) :
  (forall d a d', f d = Ok (a, d') -> I (schema d) -> I (schema d')) -> keeps (statement f).
Proof. intros Hf w r w' Hw [(e & _ & -> & _)|(a & _ & H)]%statement_cases; [done|]. by eapply Hf. Qed.

Lemma start_apply name body : keeps (apply_migration exec_script name body).
Proof.
  intros [d n] r w' Hw H. unfold apply_migration in H. destruct (statement_fails n); [by injection H as _ <-|].
  destruct (bind _ _ _) as [r1 [d1 n1]] eqn:E. destruct r1; [|by injection H as _ <-].
  destruct (statement_fails n1); injection H as _ <-; [done|]. cbn [fst] in *.
  refine ((_ : keeps _) (d, S n) _ (d1, n1) Hw E). apply start_bind; [|intros _; apply start_bind].
  - apply start_statement. unfold run_body. intros d2 [] d3 H2. apply rbind_Ok in H2 as (s & Hs & [= <-]). by apply (scripts_keep body).
  - intros [d2 n2] r2 w2 H2 [= _ <-]. done.
  - intros now. apply start_statement. unfold insert_row. intros d2 [] d3 H2. destruct (_ || _); [done|]. by injection H2 as <-.
Qed.

Lemma start_migrate file : keeps (migrate exec_script file).
Proof.
  unfold migrate. destruct (_ || _); [apply start_lift|]. apply start_bind; [apply start_wrap, start_lift|]. intros body.
  apply start_bind.
  - apply start_attempt, start_statement. unfold recorded_checksum. intros d a d' H. destruct (List.find _ _); [|done]. by injection H as _ <-.
  - intros [recorded|e]; [destruct (bool_decide _); apply start_lift|]. destruct (negb _); [apply start_lift|apply start_apply].
Qed.

Lemma start_each {A} (f : A -> St (StartDB ServerDB * nat) unit) l : (forall a, keeps (f a)) -> keeps (for_each f l).
Proof. intros Hf. induction l as [|a l IH]; [apply start_lift|]. cbn. by apply start_bind. Qed.

Lemma start_New opened files path : keeps (New exec_script opened files path).
Proof.
  assert (forall d (a : unit) d', Ok (tt, d) = Ok (a, d') -> I (schema d) -> I (schema d')) as Hsame by (by intros d a d' [= _ <-]).
  unfold New. destruct (bool_decide _); [apply start_lift|]. apply start_bind; [apply start_wrap, start_lift|]. intros _.
  apply start_bind; [|intros _; apply start_lift]. unfold initialize.
  apply start_bind; [apply start_each; intros; by apply start_wrap, start_statement|]. intros _.
  apply start_bind; [apply start_wrap, start_statement; by intros d a d' [= _ <-]|]. intros _.
  apply start_bind; [apply start_wrap, start_lift|]. intros l. apply start_each, start_migrate.
Qed.

End process.

(** ** Serving *)

(** The labels of the log. *)
Definition route_labels : list string :=
  ["/healthz"; "/v1/accounts"; "/v1/accounts/:id/recover"; "/v1/pairings"; "/v1/pairings/:id/approve"; "/v1/pairings/:id/claim";
   "/v1/pairings/:id"; "/v1/sync"; "/v1/devices"; "/v1/devices/:id"; "/v1/keyring"; "unmatched"].

Lemma routeLabel_known path : routeLabel path ∈ route_labels.
Proof. apply list_elem_of_In. unfold routeLabel. repeat case_match; cbn; auto 20. Qed.

Section serving.
Context `{P : Primitives} `{U : UnicodeTables} `{CH : Codec Header} `{SJ : ServerJson} `{SE : ServerEnv}.

Lemma ServeHTTP_inv arrival p a p' : ServeHTTP arrival p = (a, p') ->
  (reachable (sdb (world p)) -> reachable (sdb (world p'))) /\ log p' = log p ++ [log_line arrival (recorded_status a)].
Proof.
  unfold ServeHTTP. cbn zeta. destruct (withRateLimit _ _ _ _ _ _) as [[a1 w] l] eqn:E. intros [= <- <-]. split; [|done]. cbn [world].
  intros Hr. assert ((a1, w) = route (request arrival) (world p) \/ w = world p) as [E2| ->]; [|by (eapply rtc_r; [|eapply st_route])|done].
  unfold withRateLimit in E. destruct (bool_decide _); [left; congruence|]. destruct (allow _ _ _) as [[] l']; [left; congruence|right].
  unfold hfail in E. congruence.
Qed.

Lemma serve_inv arrivals : forall p answers p', serve arrivals p = (answers, p') ->
  (reachable (sdb (world p)) -> reachable (sdb (world p'))) /\ length answers = length arrivals /\
  log p' = log p ++ zip_with log_line arrivals (map recorded_status answers).
Proof.
  induction arrivals as [|arrival arrivals IH]; intros p answers p' H; cbn [serve] in H; [injection H as <- <-; by rewrite app_nil_r|].
  destruct (ServeHTTP arrival p) as [a p1] eqn:E1. destruct (serve arrivals p1) as [rest p2] eqn:E2. injection H as <- <-.
  apply ServeHTTP_inv in E1 as [R1 L1]. destruct (IH _ _ _ E2) as (R2 & N2 & L2). split_and!; [auto|cbn; congruence|].
  rewrite L2, L1, <- app_assoc. done.
Qed.

(** The relay process from its start to its end.  It serves only after its
    directory was made and every migration of the program is recorded with its
    checksum; a start that fails answers nothing.  On sound data, which
    migrations have to keep sound, the data are sound whatever was requested.
    The log has one line for each request, in order, made of the method, a label
    of a fixed list, the status and the duration: requests that agree in these
    have the same log, whatever identifiers, tokens or bodies they carry. *)
Theorem relay_process_sound exec_script getenv make_directory opened files random arrivals disk address answers p :
  (forall body s s', exec_script body s = Ok s' -> reachable s -> reachable s') -> reachable (schema disk) ->
  relay_main exec_script getenv make_directory opened files random arrivals disk = Ok (address, (answers, p)) ->
  server_ok (sdb (world p)) /\
  (exists l (started : StartDB ServerDB), files = Ok l /\ Forall (satisfied started) l /\ rows disk `prefix_of` rows started) /\
  log p = zip_with log_line arrivals (map recorded_status answers) /\ length answers = length arrivals /\
  Forall (fun line => l_path line ∈ route_labels) (log p).
Proof.
  intros Hkeep Hr H. unfold relay_main in H. destruct (make_directory _); [|done].
  destruct (New _ _ _ _ _) as [[limiter|e] [started n]] eqn:En; [|done].
  injection H as _ H. apply serve_inv in H as (Hreach & Hlen & Hlog). cbn [log world sdb app] in *. split_and!; try done.
  - apply reachable_ok, Hreach. exact (start_New exec_script _ Hkeep opened files _ (disk, O) _ _ Hr En).
  - apply (New_inv exec_script (schema disk)) in En as [[Hp _] Hs]. destruct (Hs eq_refl) as (l & -> & Hl). by exists l, started.
  - rewrite Hlog. clear. revert arrivals. induction answers as [|a answers IH]; intros [|arrival arrivals]; try constructor; [apply routeLabel_known|apply IH].
Qed.

(** A path that ends in a slash is served like the one without, but the log
    does not know it. *)
Lemma trailing_slash_unmatched method authorization body :
  route (mkRequest method (str "/v1/sync/") authorization body) = route (mkRequest method (str "/v1/sync") authorization body) /\
  routeLabel (str "/v1/sync/") <> routeLabel (str "/v1/sync").
Proof. split; [reflexivity|discriminate]. Qed.

End serving.
