(* ===== verification/ReplaySample.v ===== *)
(** * A concrete replay laboratory

    Instances of the parameters of the replay files that satisfy their laws, and
    the theorems at concrete inputs.  Times are written as sixteen hexadecimal
    digits, a resume event as the digits of its fields, other events as their
    place in a table; metadata have one fixed layout per state. *)

From S2P Require Import Prelude Effects Encoding Unicode Crypto ReplayEvent ReplaySequence ReplayReport ReplayNative ReplayDisk ReplayStore ReplayStoreFacts ReplayLab ReplaySafety ReplayCommand.

(** ** Times *)

Definition in_year (t : Z) : bool := (0 <=? t) && (t <? 2 ^ 64).

Definition time_text (t : Z) : bytes :=
  if in_year t then Hex.EncodeToString (BigEndian.put 8 t)
  else str "x" ++ str (if t <? 0 then "n" else "p") ++ replicate (Z.to_nat (Z.abs t)) Byte.x69.

Definition time_value (s : bytes) : option (Z * bool) :=
  match Hex.DecodeString s with
  | Some raw => if len raw =? 8 then Some (BigEndian.get raw, true) else None
  | None => None
  end.

#[export] Instance sample_time : TimeFormat := {| time_Parse := time_value; canonicalUTC := time_text |}.

Lemma get_put_8 t : 0 <= t < 2 ^ 64 -> BigEndian.get (BigEndian.put 8 t) = t.
Proof. intros H. rewrite get_put. by apply Z.mod_small. Qed.

Lemma time_value_text t : in_year t = true -> time_value (time_text t) = Some (t, true).
Proof.
  intros H. unfold time_text, time_value. rewrite H, hex_decode_encode, len_put. cbn [Z.of_nat Z.eqb]. unfold in_year in H. bools.
  by rewrite get_put_8 by lia.
Qed.

Lemma time_value_range s t u : time_value s = Some (t, u) -> in_year t = true /\ u = true.
Proof.
  unfold time_value. destruct (Hex.DecodeString s) as [raw|]; [|done]. destruct (len raw =? 8) eqn:E; [|done]. intros [= <- <-].
  split; [|done]. bools. pose proof (get_range raw) as Hr. rewrite E in Hr. unfold in_year. apply andb_true_iff. split; [apply Z.leb_le|apply Z.ltb_lt]; lia.
Qed.

#[export] Instance sample_time_laws : TimeLaws sample_time.
Proof.
  refine {| readable := in_year |}.
  - intros t u H. cbn [canonicalUTC sample_time] in H. destruct (in_year t) eqn:Et, (in_year u) eqn:Eu.
    + pose proof (time_value_text t Et) as Hv. rewrite H, time_value_text in Hv by done. by injection Hv.
    + exfalso. pose proof (time_value_text t Et) as Hv. rewrite H in Hv. unfold time_text in Hv. rewrite Eu in Hv. by destruct (u <? 0).
    + exfalso. pose proof (time_value_text u Eu) as Hv. rewrite <- H in Hv. unfold time_text in Hv. rewrite Et in Hv. by destruct (t <? 0).
    + unfold time_text in H. rewrite Et, Eu in H. apply app_inv_head in H.
      destruct (Z.ltb_spec t 0), (Z.ltb_spec u 0); cbn in H; injection H as H; try done;
        apply (f_equal length) in H; rewrite !length_replicate in H; lia.
  - intros t H. by apply time_value_text.
  - intros t H. cbn. unfold time_text. rewrite H. by rewrite len_hex_encode, len_put.
  - intros s t H _. by apply time_value_range in H as [? _].
Defined.

Lemma canonical_16 s : isCanonicalUTC s = true -> len s = 16.
Proof.
  unfold isCanonicalUTC. cbn [time_Parse canonicalUTC sample_time]. destruct (time_value s) as [[t u]|] eqn:E; [|done]. intros H. bools.
  apply time_value_range in E as [E _]. subst s. unfold time_text. rewrite E. by rewrite len_hex_encode, len_put.
Qed.

(** ** Events *)

#[export] Instance CandidateV1_eq_dec : EqDecision CandidateV1.
Proof. solve_decision. Defined.
#[export] Instance CompositionV1_eq_dec : EqDecision CompositionV1.
Proof. solve_decision. Defined.
#[export] Instance SelectionV1_eq_dec : EqDecision SelectionV1.
Proof. solve_decision. Defined.
#[export] Instance CommitV1_eq_dec : EqDecision CommitV1.
Proof. solve_decision. Defined.
#[export] Instance FinalTextV1_eq_dec : EqDecision FinalTextV1.
Proof. solve_decision. Defined.
#[export] Instance EventV1_eq_dec : EqDecision EventV1.
Proof. solve_decision. Defined.

Definition resume_event (session episode : bytes) (seq mono : Z) (utc : bytes) : EventV1 :=
  mkEvent EventVersionV1 session episode seq mono utc EventResume None None None 0 0 None.

Definition is_u64 (z : Z) : bool := (0 <=? z) && (z <=? MaxUint64).

Definition is_resume (e : EventV1) : bool :=
  bool_decide (e = resume_event (SessionID e) (EpisodeID e) (Seq e) (MonotonicUS e) (UTC e))
  && (len (SessionID e) =? 32) && (len (EpisodeID e) =? 32) && is_u64 (Seq e) && is_u64 (MonotonicUS e).

Definition resume_text (e : EventV1) : bytes :=
  Byte.x52 :: Hex.EncodeToString (SessionID e ++ EpisodeID e ++ BigEndian.put 8 (Seq e) ++ BigEndian.put 8 (MonotonicUS e) ++ UTC e).

Fixpoint place (table : list EventV1) (e : EventV1) (n : Z) : option Z :=
  match table with
  | [] => None
  | x :: rest => if bool_decide (x = e) then Some n else place rest e (n + 1)
  end.

Definition marshal_sample (table : list EventV1) (e : EventV1) : result bytes :=
  if is_resume e then Ok (resume_text e)
  else match place (take 200 table) e 0 with
       | Some n => Ok [Byte.x54; byte_of_Z (n + 32)]
       | None => fail "not in the sample"
       end.

Definition resume_value (raw : bytes) : EventV1 :=
  resume_event (take 32 raw) (take 32 (drop 32 raw)) (BigEndian.get (take 8 (drop 64 raw))) (BigEndian.get (take 8 (drop 72 raw))) (drop 80 raw).

Definition decode_sample (table : list EventV1) (text : bytes) : result (EventV1 * Trailing) :=
  match text with
  | Byte.x52 :: rest =>
      match Hex.DecodeString rest with Some raw => Ok (resume_value raw, AtEOF) | None => fail "no event" end
  | [Byte.x54; b] => match table !! Z.to_nat (u8 b - 32) with Some e => Ok (e, AtEOF) | None => fail "no event" end
  | _ => fail "no event"
  end.

Definition sample_json (table : list EventV1) : EventJson :=
  {| marshal_event := marshal_sample table; decode_event := decode_sample table |}.

Lemma place_inv table e : forall n k, place table e n = Some k ->
  n <= k < n + len table /\ table !! Z.to_nat (k - n) = Some e.
Proof.
  induction table as [|x table IH]; intros n k H; [done|]. cbn in H. rewrite len_cons. pose proof (len_nonneg table).
  destruct (bool_decide (x = e)) eqn:E; bools.
  - injection H as <-. subst. rewrite Z.sub_diag. split; [lia|done].
  - apply IH in H as [H1 H2]. split; [lia|]. replace (Z.to_nat (k - n)) with (S (Z.to_nat (k - (n + 1)))) by lia. done.
Qed.

Lemma parts_of (a b c e f : bytes) : len a = 32 -> len b = 32 -> len c = 8 -> len e = 8 ->
  let raw := a ++ b ++ c ++ e ++ f in
  take 32 raw = a /\ take 32 (drop 32 raw) = b /\ take 8 (drop 64 raw) = c /\ take 8 (drop 72 raw) = e /\ drop 80 raw = f.
Proof.
  cbn zeta. unfold len. intros Ha Hb Hc He.
  assert (forall n (x y : bytes), length x = n -> take n (x ++ y) = x /\ drop n (x ++ y) = y) as Hcut.
  { intros n x y <-. by rewrite take_app_length, drop_app_length. }
  set (raw := a ++ b ++ c ++ e ++ f).
  assert (drop 32 raw = b ++ c ++ e ++ f) as E1 by (apply Hcut; lia).
  assert (drop 64 raw = c ++ e ++ f) as E2.
  { change 64%nat with (32 + 32)%nat. rewrite <- drop_drop, E1. apply Hcut. lia. }
  assert (drop 72 raw = e ++ f) as E3.
  { change 72%nat with (64 + 8)%nat. rewrite <- drop_drop, E2. apply Hcut. lia. }
  assert (drop 80 raw = f) as E4.
  { change 80%nat with (72 + 8)%nat. rewrite <- drop_drop, E3. apply Hcut. lia. }
  rewrite E1, E2, E3, E4. split_and!; try done; apply Hcut; lia.
Qed.

Lemma resume_value_text table e : is_resume e = true -> decode_sample table (resume_text e) = Ok (e, AtEOF).
Proof.
  unfold is_resume, is_u64. intros H. bools. unfold decode_sample, resume_text. rewrite hex_decode_encode. unfold resume_value.
  destruct (parts_of (SessionID e) (EpisodeID e) (BigEndian.put 8 (Seq e)) (BigEndian.put 8 (MonotonicUS e)) (UTC e)) as (-> & -> & -> & -> & ->);
    try done; try by rewrite len_put.
  rewrite !get_put_8 by (unfold MaxUint64 in *; lia). by rewrite <- H.
Qed.

Lemma hex_no_break raw : Forall (fun b => u8 b <> 10 /\ u8 b <> 13) (Hex.EncodeToString raw).
Proof. eapply Forall_impl; [apply hex_characters|]. intros b [H _]. cbn. unfold hex_character in H. destruct (u8 b =? 10) eqn:E1, (u8 b =? 13) eqn:E2; bools; try done; rewrite ?E1, ?E2 in H; done. Qed.

#[export] Instance sample_json_laws table : EventJsonLaws sample_time (sample_json table).
Proof.
  split; cbn [marshal_event decode_event sample_json].
  - intros e text _ H. unfold marshal_sample in H. destruct (is_resume e) eqn:Er; [injection H as <-; by apply resume_value_text|].
    destruct (place (take 200 table) e 0) as [n|] eqn:Ep; [|done]. injection H as <-. apply place_inv in Ep as [Hn He].
    rewrite Z.sub_0_r in He. assert (n < 200) by (unfold len in Hn; rewrite length_take in Hn; lia).
    cbn [decode_sample]. rewrite u8_of_small by lia. replace (n + 32 - 32) with n by lia.
    apply lookup_take_Some in He as [He _]. by rewrite He.
  - intros e text H. unfold marshal_sample in H. destruct (is_resume e); [injection H as <-; split; [done|]|].
    + constructor; [done|apply hex_no_break].
    + destruct (place (take 200 table) e 0) as [n|] eqn:Ep; [|done]. injection H as <-. apply place_inv in Ep as [Hn _].
      assert (n < 200) by (unfold len in Hn; rewrite length_take in Hn; lia). split; [done|].
      constructor; [done|]. constructor; [|constructor]. rewrite u8_of_small by lia. lia.
  - intros session episode seq mono utc [Hs _]%validID_characters [He _]%validID_characters Hu Hseq Hmono.
    exists (resume_text (resume_event session episode seq mono utc)). split.
    + unfold marshal_sample. replace (is_resume _) with true; [done|]. symmetry. unfold is_resume, is_u64. cbn [resume_event SessionID EpisodeID Seq MonotonicUS UTC].
      rewrite bool_decide_true, Hs, He by done. unfold in_u64 in *. rewrite !(proj2 (Z.leb_le _ _)) by lia. done.
    + unfold resume_text. cbn [resume_event SessionID EpisodeID Seq MonotonicUS UTC]. rewrite len_cons, len_hex_encode, !len_app, !len_put, Hs, He.
      unfold MaxEventBytes. lia.
Qed.

(** ** Metadata *)

Definition sample_id : bytes := str "00112233445566778899aabbccddeeff".

Definition flag (b : bool) : byte := if b then Byte.x31 else Byte.x30.

Definition metadata_text (m : SessionMetadata) : bytes :=
  if bool_decide (State m = disabled) then
    Byte.x44 :: flag (MEpisodeClosed m) :: BigEndian.put 8 (MLastMonotonicUS m) ++ UpdatedUTC m ++ MLastEpisodeID m
  else
    Byte.x41 :: flag (bool_decide (State m = running)) :: flag (MEpisodeClosed m) :: MSessionID m ++ MLastEpisodeID m
      ++ BigEndian.put 8 (MLastSeq m) ++ BigEndian.put 8 (MLastMonotonicUS m) ++ StartedUTC m ++ UpdatedUTC m ++ MLastUTC m.

Definition is_flag (b : byte) : bool := bool_decide (b = Byte.x31).

Definition metadata_value (text : bytes) : result (SessionMetadata * Trailing) :=
  match text with
  | Byte.x44 :: closed :: rest =>
      Ok (mkMetadata sessionVersion [] disabled [] (take 16 (drop 8 rest)) [] (drop 24 rest) 0 (BigEndian.get (take 8 rest)) [] (is_flag closed), AtEOF)
  | Byte.x41 :: state :: closed :: rest =>
      let id := take 32 rest in
      let times := drop 80 rest in
      Ok (mkMetadata sessionVersion id (if is_flag state then running else paused) (take 16 times) (take 16 (drop 16 times)) (session_file id)
            (take 32 (drop 32 rest)) (BigEndian.get (take 8 (drop 64 rest))) (BigEndian.get (take 8 (drop 72 rest))) (drop 32 times)
            (is_flag closed), AtEOF)
  | _ => fail "no metadata"
  end.

Definition manifest_value (text : bytes) : result (LabManifest * Trailing) :=
  match text with
  | Byte.x4d :: root => Ok (mkManifest manifestVersion sample_id root (time_text 0) (str "each_event"), AtEOF)
  | _ => fail "no manifest"
  end.

#[export] Instance sample_lab : LabJson :=
  {| encode_manifest m := Ok (Byte.x4d :: LRoot m); decode_manifest := manifest_value;
     encode_metadata m := Ok (metadata_text m); decode_metadata := metadata_value |}.

Lemma is_flag_flag b : is_flag (flag b) = b.
Proof. by destruct b. Qed.

Lemma take_limit (text : bytes) : len text <= readLimit -> take (Z.to_nat readLimit) text = text.
Proof. intros H. apply take_ge. unfold len in H. lia. Qed.

Lemma cut_at (n : nat) (x y : bytes) : len x = Z.of_nat n -> take n (x ++ y) = x /\ drop n (x ++ y) = y.
Proof. unfold len. intros H. assert (length x = n) as <- by lia. by rewrite take_app_length, drop_app_length. Qed.

#[export] Instance sample_lab_laws : LabJsonLaws sample_lab.
Proof.
  split. intros m Hc Hseq Hmono Hep. exists (metadata_text m). split; [done|].
  unfold check_metadata in Hc. destruct (negb (bool_decide (MVersion m = _))) eqn:Ev; [done|]. destruct (negb (isCanonicalUTC _)) eqn:Eu; [done|]. bools.
  apply canonical_16 in Eu. cbn [decode_metadata sample_lab]. unfold metadata_text. destruct (bool_decide (State m = disabled)) eqn:Es.
  - apply reject_if_Ok in Hc. bools. rewrite take_limit.
    + unfold metadata_value. destruct (cut_at 8 (BigEndian.put 8 (MLastMonotonicUS m)) (UpdatedUTC m ++ MLastEpisodeID m)) as [C1 C2]; [by rewrite len_put|].
      destruct (cut_at 16 (UpdatedUTC m) (MLastEpisodeID m)) as [C3 C4]; [done|].
      change 24%nat with (8 + 16)%nat. rewrite <- drop_drop, C1, C2, C3, C4, is_flag_flag, get_put_8 by (unfold in_u64, MaxUint64 in *; lia).
      destruct m; cbn in *; by subst.
    + rewrite !len_cons, !len_app, len_put, Eu. unfold readLimit.
      assert (len (MLastEpisodeID m) <= 32) by (destruct Hep as [->|[-> _]%validID_characters]; done). lia.
  - destruct (_ || _) eqn:Est; [|done]. apply reject_if_Ok in Hc. bools.
    destruct (validID_characters (MSessionID m)) as [Hid _]; [done|]. destruct (validID_characters (MLastEpisodeID m)) as [Hid' _]; [done|].
    pose proof (canonical_16 (StartedUTC m) ltac:(done)) as Hst. pose proof (canonical_16 (MLastUTC m) ltac:(done)) as Hlast.
    rewrite take_limit by (rewrite !len_cons, !len_app, !len_put, Eu, Hid, Hid', Hst, Hlast; done). unfold metadata_value.
    destruct (parts_of (MSessionID m) (MLastEpisodeID m) (BigEndian.put 8 (MLastSeq m)) (BigEndian.put 8 (MLastMonotonicUS m))
      (StartedUTC m ++ UpdatedUTC m ++ MLastUTC m)) as (-> & -> & -> & -> & ->); try done; try by rewrite len_put.
    destruct (cut_at 16 (StartedUTC m) (UpdatedUTC m ++ MLastUTC m)) as [C1 C2]; [done|].
    destruct (cut_at 16 (UpdatedUTC m) (MLastUTC m)) as [C3 C4]; [done|].
    change 32%nat with (16 + 16)%nat. rewrite <- drop_drop, C1, C2, C3, C4, !is_flag_flag, !get_put_8 by (unfold in_u64, MaxUint64 in *; lia).
    replace (if bool_decide (State m = running) then running else paused) with (State m)
      by (destruct (bool_decide (State m = running)) eqn:E; bools; [done|by apply bool_decide_eq_true in Est]).
    destruct m; cbn in *; by subst.
Qed.

(** ** A session *)

Definition episode_1 : bytes := str "0000000000000000000000000000aaaa".
Definition episode_2 : bytes := str "0000000000000000000000000000bbbb".

Definition sample_composition : CompositionV1 :=
  mkComposition (str "nihao") (str "ni hao") 5 true [mkCandidate (str "ni") false true; mkCandidate (str "hao") true false].

Definition event_1 : EventV1 := resume_event sample_id episode_1 1 0 (time_text 5).
Definition event_2 : EventV1 :=
  mkEvent EventVersionV1 sample_id episode_1 2 10 (time_text 6) EventComposition (Some sample_composition) None None 0 0 None.
Definition event_3 : EventV1 :=
  mkEvent EventVersionV1 sample_id episode_1 3 11 (time_text 7) EventCommit (Some sample_composition) None
    (Some (mkCommit (str "ni") (str "candidate"))) 0 0 (Some (mkFinal (str "ni") (str "composition") (str "observed"))).
Definition event_4 : EventV1 :=
  mkEvent EventVersionV1 sample_id episode_2 4 12 (time_text 8) EventComposition (Some sample_composition) None None 0 0 None.
Definition loss_4 : EventV1 :=
  mkEvent EventVersionV1 sample_id episode_1 4 12 (time_text 8) EventDropCount None None None 0 3 None.
Definition loss_5 : EventV1 :=
  mkEvent EventVersionV1 sample_id episode_1 5 13 (time_text 9) EventDropCount None None None 0 1 None.

#[export] Instance session_json : EventJson := sample_json [event_2; event_3; event_4; loss_4; loss_5].

#[export] Instance session_json_laws : EventJsonLaws sample_time session_json.
Proof. apply sample_json_laws. Qed.

Definition session_events : list EventV1 := [event_1; event_2; event_3].

Definition unwrap {A} (x : A) (r : result A) : A := match r with Ok a => a | Err _ => x end.

Lemma unwrap_ok {A} (x : A) (r : result A) : is_Ok r = true -> r = Ok (unwrap x r).
Proof. by destruct r. Qed.

Definition state_after (events : list EventV1) : SequenceState := unwrap no_sequence (accept_all no_sequence events).

(** The witness of [accepted_stream]. *)
Lemma accepted_stream_witness :
  accept_all no_sequence session_events = Ok (state_after session_events) /\
  well_ordered session_events /\ summarizes session_events (state_after session_events).
Proof.
  assert (accept_all no_sequence session_events = Ok (state_after session_events)) as H by (apply unwrap_ok; vm_compute; reflexivity).
  split; [exact H|]. exact (accepted_stream session_events (state_after session_events) H).
Defined.

Definition report_of (events : list EventV1) : Report := unwrap (Finish NewAnalyzer).1 (Analyze events).

(** The witness of [report_counts]. *)
Lemma report_counts_witness :
  Analyze session_events = Ok (report_of session_events) /\ EventCount (report_of session_events) = 3.
Proof.
  assert (Analyze session_events = Ok (report_of session_events)) as H by (apply unwrap_ok; vm_compute; reflexivity).
  split; [exact H|]. exact (proj1 (report_counts session_events (report_of session_events) H)).
Defined.

(** ** A laboratory *)

Definition sample_parts : list bytes := [str "home"; str "lab"].

Lemma sample_parts_ok : sample_parts <> [] /\ Forall simple sample_parts.
Proof. split; [done|]. constructor; [|constructor; [|constructor]]; apply simple_check; vm_compute; reflexivity. Qed.

Definition sample_metadata (events : list EventV1) : SessionMetadata :=
  advance_metadata (start_metadata sample_id (time_text 5) episode_1) (state_after events) (time_text 7).

Definition encoded (e : EventV1) : bytes := match EncodeEventV1 e with Ok line => line | Err _ => [] end.

Definition sample_disk (described : list EventV1) : Disk :=
  mkDisk (list_to_map [(path_of [str "home"], Directory); (path_of sample_parts, Directory);
    (path_of (sample_parts ++ [str "sessions"]), Directory);
    (path_of (sample_parts ++ [manifestName]), Regular (Byte.x4d :: path_of sample_parts));
    (active_file sample_parts, Regular (metadata_text (sample_metadata described)));
    (log_file sample_parts sample_id, Regular (log_text (map encoded session_events)))]) ∅ (replicate 64 Byte.x61) 0.

Definition sample_store (cache : option SessionMetadata) : Store :=
  mkStore (path_of sample_parts) (mkManifest manifestVersion sample_id (path_of sample_parts) (time_text 0) (str "each_event")) cache
    (match cache with Some _ => state_after session_events | None => no_sequence end).

(** The metadata may describe a shorter part of the log. *)
Lemma sample_lab_holds (n : nat) (cache : option SessionMetadata) :
  n = 1%nat \/ n = 3%nat -> cache = None \/ cache = Some (sample_metadata session_events) ->
  lab sample_parts session_events (sample_store cache, sample_disk (take n session_events)).
Proof.
  intros Hn Hcache. split; [by destruct Hcache as [-> | ->]|]. exists (sample_metadata (take n session_events)).
  assert (check_metadata (sample_metadata session_events) = Ok tt) as Hck by (vm_compute; reflexivity).
  assert (accept_all no_sequence session_events = Ok (state_after session_events)) as Hall by (apply unwrap_ok; vm_compute; reflexivity).
  split_and!.
  - exists (metadata_text (sample_metadata (take n session_events))). split; [destruct Hn as [-> | ->]; vm_compute; reflexivity|].
    split; [rewrite take_limit by (destruct Hn as [-> | ->]; vm_compute; discriminate)|]; destruct Hn as [-> | ->]; vm_compute; reflexivity.
  - intros m Hm. destruct Hcache as [-> | ->]; [done|]. injection Hm as <-. split; [exact Hck|]. split; [done|]. intros _.
    exists (state_after session_events). split; [exact Hall|]. split; [|reflexivity]. split; vm_compute; reflexivity.
  - rewrite bool_decide_false by done. split.
    + exists (log_text (map encoded session_events)). split; [destruct Hn as [-> | ->]; vm_compute; reflexivity|]. exists (map encoded session_events). split; [|vm_compute; reflexivity].
      repeat constructor; vm_compute; reflexivity.
    + exists (state_after session_events). split; [exact Hall|vm_compute; reflexivity].
    + exists (take n session_events), (drop n session_events), (state_after (take n session_events)). rewrite take_drop.
      split_and!; [done|by destruct Hn as [-> | ->]|apply unwrap_ok|split]; destruct Hn as [-> | ->]; vm_compute; reflexivity.
    + repeat constructor; vm_compute; discriminate.
Qed.

(** A machine that never fails, and one that fails a single call. *)
Definition calm : Machine :=
  {| fault _ _ _ := None; transferred _ := O; survives _ _ := false; clock _ := 9;
     UserHomeDir := Ok (str "/home/me"); Getwd := Ok (str "/") |}.

#[export] Instance Call_eq_dec : EqDecision Call.
Proof. solve_decision. Defined.

Definition failing (c : Call) (path : bytes) (n : nat) : Machine :=
  {| fault c' path' n' := if bool_decide (c' = c) && bool_decide (path' = path) && bool_decide (n' = n) then Some (errors_New "input/output error") else None;
     transferred _ := O; survives _ _ := false; clock _ := 9; UserHomeDir := Ok (str "/home/me"); Getwd := Ok (str "/") |}.

Definition no_frames : NativeJson := fun _ => fail "no frames".

Definition cached_store : Store := sample_store (Some (sample_metadata session_events)).
Definition fresh_store : Store := sample_store None.
Definition current_disk : Disk := sample_disk (take 3 session_events).
Definition behind_disk : Disk := sample_disk (take 1 session_events).

Lemma cached_lab : lab sample_parts session_events (cached_store, current_disk).
Proof. apply sample_lab_holds; auto. Qed.

Lemma behind_lab : lab sample_parts session_events (fresh_store, behind_disk).
Proof. apply sample_lab_holds; auto. Qed.

Lemma sample_usable (n : nat) : n = 1%nat \/ n = 3%nat -> usable sample_parts (sample_disk (take n session_events)).
Proof.
  intros Hn. split.
  - destruct Hn as [-> | ->]; repeat constructor.
  - destruct Hn as [-> | ->]; vm_compute; discriminate.
  - intros random rest H.
    assert (NewID (replicate 64 Byte.x61) = Ok (Hex.EncodeToString (replicate 16 Byte.x61), replicate 48 Byte.x61)) as E by (vm_compute; reflexivity).
    change (entropy (sample_disk (take n session_events))) with (replicate 64 Byte.x61) in H. rewrite E in H.
    assert (random = Hex.EncodeToString (replicate 16 Byte.x61)) as -> by congruence. destruct Hn as [-> | ->]; vm_compute; reflexivity.
Qed.

(** The witness of [lab_log_append_only]: an event is recorded. *)
Lemma lab_log_append_only_witness :
  exists more, lab sample_parts (session_events ++ more) (Append (OS := calm) event_4 (cached_store, current_disk)).2 /\
    [event_4] `sublist_of` more /\ well_ordered (session_events ++ more).
Proof.
  destruct sample_parts_ok as [H1 H2].
  refine (lab_log_append_only (OS := calm) (NJ := no_frames) sample_parts H1 H2 _ session_events [event_4] (cached_store, current_disk)
    (Append (OS := calm) event_4 (cached_store, current_disk)).2 _ cached_lab _).
  - intros n. reflexivity.
  - intros id _ n. split_and!; reflexivity.
  - assert ([event_4] = [] ++ (if is_Ok (Append (OS := calm) event_4 (cached_store, current_disk)).1 then [event_4] else [])) as ->
      by (vm_compute; reflexivity).
    eapply run_step; [apply run_none|]. eapply step_Append; [vm_compute; split; discriminate|apply surjective_pairing].
Defined.

(** No file can be moved to its place, so the metadata are never replaced. *)
Definition no_rename : Machine :=
  {| fault c _ _ := if bool_decide (c = CRename) then Some (errors_New "input/output error") else None;
     transferred _ := O; survives _ _ := false; clock _ := 9; UserHomeDir := Ok (str "/home/me"); Getwd := Ok (str "/") |}.

(** The line is in the log, the metadata on disk are behind it. *)
Definition interrupted : result unit * (Store * Disk) := Append (OS := no_rename) event_4 (cached_store, current_disk).

Lemma interrupted_usable : usable sample_parts interrupted.2.2.
Proof.
  split.
  - apply Forall_forall. intros path Hin. assert (path ∈ [path_of [str "home"]; path_of sample_parts]) as Hp by exact Hin.
    apply elem_of_cons in Hp as [-> |[-> |[]%not_elem_of_nil]%elem_of_cons]; vm_compute; reflexivity.
  - vm_compute. discriminate.
  - intros random rest H.
    assert (NewID (entropy interrupted.2.2) = Ok (Hex.EncodeToString (replicate 16 Byte.x61), replicate 32 Byte.x61)) as E by (vm_compute; reflexivity).
    rewrite E in H. assert (random = Hex.EncodeToString (replicate 16 Byte.x61)) as -> by congruence. vm_compute. reflexivity.
Qed.

(** The witness of [lab_recovers]: the recording of an event reports a failure
    after its line was written, and the next process finds the line. *)
Lemma lab_recovers_witness :
  is_Ok interrupted.1 = false /\
  exists more m s1 s2, Status (OS := calm) (fresh_store, interrupted.2.2) = (Ok m, s1) /\ MLastSeq m = len (session_events ++ more) /\
    MLastSeq m = 4 /\ Events (OS := calm) s1 = (Ok (session_events ++ more), s2) /\ lab sample_parts (session_events ++ more) s1.
Proof.
  destruct sample_parts_ok as [H1 H2]. split; [vm_compute; reflexivity|].
  assert (forall n, readable (clock (Machine := no_rename) n) = true) as Hc1 by reflexivity.
  assert (forall n, readable (clock (Machine := calm) n) = true) as Hc2 by reflexivity.
  destruct (lab_recovers (NJ := no_frames) sample_parts H1 H2 no_rename calm Hc1 Hc2
    session_events [] (cached_store, current_disk) interrupted.2 fresh_store) as (more & m & s1 & s2 & _ & Hs & Hl & He & Hlab).
  - intros id _ n. split_and!; reflexivity.
  - exact cached_lab.
  - assert (@nil EventV1 = [] ++ (if is_Ok interrupted.1 then [event_4] else [])) as -> by (vm_compute; reflexivity).
    eapply run_step; [apply run_none|]. eapply step_Append; [vm_compute; split; discriminate|apply surjective_pairing].
  - intros c path n. reflexivity.
  - exact interrupted_usable.
  - reflexivity.
  - reflexivity.
  - exists more, m, s1, s2. split; [exact Hs|]. split; [exact Hl|]. split; [|split; [exact He|exact Hlab]].
    assert (match (Status (OS := calm) (fresh_store, interrupted.2.2)).1 with Ok m => MLastSeq m | Err _ => 0 end = 4) as E by (vm_compute; reflexivity).
    by rewrite Hs in E.
Defined.

(** The witness of [append_records]: a loss report. *)
Lemma append_records_witness :
  is_Ok (Accept (cachedSequence cached_store) loss_4) = true /\
  match Accept (cachedSequence cached_store) loss_4 with
  | Ok _ => exists s', Append (OS := calm) loss_4 (cached_store, current_disk) = (Ok tt, s') /\ lab sample_parts (session_events ++ [loss_4]) s'
  | Err e => Append (OS := calm) loss_4 (cached_store, current_disk) = (Err (Errorf_w "reject event: %w" e), (cached_store, current_disk))
  end.
Proof.
  destruct sample_parts_ok as [H1 H2]. split; [vm_compute; reflexivity|].
  refine (append_records (OS := calm) sample_parts H1 H2 _ session_events cached_store current_disk (sample_metadata session_events) loss_4
    _ (sample_usable 3 _) cached_lab _ _ _).
  - intros n. reflexivity.
  - intros c path n. reflexivity.
  - auto.
  - reflexivity.
  - vm_compute. discriminate.
  - vm_compute. split; discriminate.
Defined.

(** ** Failures *)

Definition log_path : bytes := log_file sample_parts sample_id.

(** The log cannot be opened, at the first call. *)
Definition no_log : Machine := failing COpen log_path 0.

Lemma some_is {A} (x : A) o : is_some o = true -> o = Some (default x o).
Proof. by destruct o. Qed.

Lemma first_is {A B} (x : A * B) a : x.1 = a -> x = (a, x.2).
Proof. destruct x. by intros <-. Qed.

Lemma pair_is {A B C} (x : A * (B * C)) a : x.1 = a -> x = (a, (x.2.1, x.2.2)).
Proof. destruct x as [y [z w]]. by intros <-. Qed.

(** The witness of [failed_append_blocks_episode]. *)
Lemma failed_append_blocks_episode_witness :
  exists store1, (Append (OS := no_log) event_4 (cached_store, current_disk)).2.1 = store1 /\
    is_Ok (Accept (cachedSequence cached_store) event_4) = true /\
    (Append (OS := no_log) event_4 (store1, tick current_disk)).1 =
      Err (Errorf_w "reject event: %w" (errors_New "episode_id was already closed and cannot be reused")).
Proof.
  destruct (failed_append_blocks_episode (OS := no_log) cached_store current_disk (tick current_disk) (sample_metadata session_events) event_4
    (unwrap no_sequence (Accept (cachedSequence cached_store) event_4)) (default ∅ (SeenEpisodes (cachedSequence cached_store))) log_path
    (Errorf_w "open event log: %w" (errors_New "input/output error"))) as (store1 & E1 & E2).
  - reflexivity.
  - vm_compute. discriminate.
  - apply unwrap_ok. vm_compute. reflexivity.
  - apply some_is. vm_compute. reflexivity.
  - vm_compute. discriminate.
  - vm_compute. reflexivity.
  - vm_compute. reflexivity.
  - exists store1. split; [by rewrite E1|]. split; [vm_compute; reflexivity|]. by rewrite E2.
Defined.

(** The line is written and its [Sync] fails (the third call). *)
Definition no_sync : Machine := failing CSync log_path 2.

Definition torn_line : result unit * Disk := appendEventFile (OS := no_sync) log_path loss_4 current_disk.
Definition torn : result unit * (Store * Disk) := Append (OS := no_sync) loss_4 (cached_store, current_disk).
(** The loss report is recorded again after its recording was reported as failed,
    and a later event after that. *)
Definition again : result unit * (Store * Disk) := Append (OS := no_sync) loss_4 torn.2.
Definition going_on : result unit * (Store * Disk) := Append (OS := no_sync) loss_5 again.2.

(** The witness of [torn_append_loses_log]: the process records on, and no other
    one can open the session. *)
Lemma torn_append_loses_log_witness :
  (is_Ok torn.1 = false /\ is_Ok again.1 = true /\ is_Ok going_on.1 = true) /\
  (exists text, entries again.2.2 !! log_path = Some (Regular text) /\ logged (session_events ++ [loss_4; loss_4]) text) /\
  exists e, (Status (OS := no_sync) (fresh_store, going_on.2.2)).1 = Err e.
Proof.
  destruct sample_parts_ok as [H1 H2].
  split; [split_and!; vm_compute; reflexivity|].
  assert (is_Ok again.1 = true) as Hok by (vm_compute; reflexivity).
  assert (is_Ok torn_line.1 = false) as Herr by (vm_compute; reflexivity).
  assert (entries torn_line.2 !! log_path = Some (Regular (contents current_disk log_path ++ encoded loss_4 ++ [newline]))) as Hnew
    by (vm_compute; reflexivity).
  destruct torn_line as [[[]|e] d1] eqn:E1; [discriminate|]. unfold torn_line in E1. cbn [fst snd] in *.
  assert (again = (Ok tt, (again.2.1, again.2.2))) as E2 by (destruct again as [[[]|] [? ?]]; [reflexivity|discriminate]).
  destruct (torn_append_loses_log (OS := no_sync) (NJ := no_frames) sample_parts H1 H2 session_events cached_store again.2.1
    current_disk d1 again.2.2 (sample_metadata session_events) loss_4 loss_4 (unwrap no_sequence (Accept (cachedSequence cached_store) loss_4))
    (encoded loss_4) e cached_lab) as (_ & Hlog & Hlost).
  - reflexivity.
  - vm_compute. discriminate.
  - apply unwrap_ok. vm_compute. reflexivity.
  - exact E1.
  - vm_compute. reflexivity.
  - exact Hnew.
  - vm_compute. split; discriminate.
  - exact E2.
  - split; [exact Hlog|]. destruct (Status (OS := no_sync) (fresh_store, going_on.2.2)) as [r s'] eqn:E3.
    assert (lab_run (OS := no_sync) (NJ := no_frames) sample_parts (again.2.1, again.2.2) ([] ++ (if is_Ok going_on.1 then [loss_5] else [])) going_on.2) as Hrun.
    { eapply run_step; [apply run_none|]. rewrite <- surjective_pairing. apply step_Append; [vm_compute; split; discriminate|].
      unfold going_on. apply surjective_pairing. }
    clear - Hlost Hrun E3. destruct going_on as [r5 [store5 d5]]. cbn [fst snd] in *.
    exact (Hlost _ _ (fresh_store, d5) r s' Hrun eq_refl eq_refl eq_refl E3).
Defined.

(** ** Exporting and clearing *)

Definition export_path : bytes := str "/home/copy.yunpinreplay".

Definition exported : result unit * (Store * Disk) := Export (OS := calm) export_path (cached_store, current_disk).

(** The witness of [export_holds_log]. *)
Lemma export_holds_log_witness :
  lab sample_parts session_events exported.2 /\ exists abs text, Abs (OS := calm) export_path = Ok abs /\
    below (lab_root sample_parts) abs = false /\ entries current_disk !! abs = None /\
    entries exported.2.2 !! abs = Some (Regular text) /\ logged session_events text.
Proof.
  destruct sample_parts_ok as [H1 H2].
  refine (export_holds_log (OS := calm) sample_parts H1 H2 _ session_events export_path (cached_store, current_disk) exported.2 cached_lab _).
  - intros n. reflexivity.
  - apply first_is. vm_compute. reflexivity.
Defined.

Definition cleared : result unit * Disk := Clear (OS := calm) (str "/home/lab") true current_disk.

(** The witness of [clear_only_removes_lab]: the laboratory is removed. *)
Lemma clear_only_removes_lab_witness :
  cleared.1 = Ok tt /\ entries cleared.2 !! path_of [str "home"] = Some Directory /\ entries cleared.2 !! log_path = None /\
  (entries cleared.2 = entries current_disk \/
   true = true /\ exists abs, Abs (OS := calm) (Clean (str "/home/lab")) = Ok abs /\ 2 <= len (path_fields [] (TrimPrefix abs [slash])) /\
     abs ∉ links current_disk /\ identified current_disk abs /\
     (forall path, below abs path = false -> entries cleared.2 !! path = entries current_disk !! path)).
Proof.
  split_and!; [vm_compute; reflexivity..|].
  exact (clear_only_removes_lab (OS := calm) (str "/home/lab") true current_disk cleared.2 cleared.1 (surjective_pairing _)).
Defined.

(** ** Native frames *)

Definition native_episode (n : Z) : bytes := episode_text sample_id n.
Definition native_1 : bytes := Eval vm_compute in native_episode 1.
Definition native_2 : bytes := Eval vm_compute in native_episode 2.
Definition native_3 : bytes := Eval vm_compute in native_episode 3.

Definition commit_frame : NativeFrameV1 :=
  mkFrame NativeEventVersionV1 100 1000 EventCommit (Some sample_composition) None 0 0 (str "ni").
Definition snapshot_frame : NativeFrameV1 :=
  mkFrame NativeEventVersionV1 120 1001 EventComposition (Some sample_composition) None 0 0 [].
Definition backspace_frame : NativeFrameV1 :=
  mkFrame NativeEventVersionV1 120 1001 EventBackspace (Some sample_composition) None 1 0 [].

Definition native_commit : EventV1 :=
  mkEvent EventVersionV1 sample_id native_1 2 101 (time_text 1000000) EventCommit (Some sample_composition) None
    (Some (mkCommit (str "ni") (str "candidate"))) 0 0 (Some (mkFinal (str "ni") (str "composition") (str "observed"))).
Definition native_next (kind : EventType) (edits : Z) : EventV1 :=
  mkEvent EventVersionV1 sample_id native_2 3 120 (time_text 1001000) kind (Some sample_composition) None None edits 0 None.

Definition native_json : EventJson := sample_json [native_commit; native_next EventComposition 0; native_next EventBackspace 1].

Lemma native_ids : episode_ids sample_id 3 = [native_1; native_2; native_3].
Proof. vm_compute. reflexivity. Qed.

Lemma native_ids_differ : NoDup (episode_ids sample_id 3).
Proof. rewrite native_ids. apply (bool_decide_unpack _). vm_compute. exact I. Qed.

Definition converter_0 : NativeEventConverter := mkConverter sample_id 0 0 zero_time [] 0 false.

Definition converted (frame : NativeFrameV1) : list EventV1 * NativeEventConverter :=
  unwrap ([], converter_0) (convert_all (EJ := native_json) converter_0 [commit_frame; frame]).

(** The witness of [native_stream_accepted]: a commit and a snapshot are read
    back, a commit and a backspace whose snapshot was lost are not. *)
Lemma native_stream_accepted_witness :
  (exists s, accept_all (EJ := native_json) no_sequence (converted snapshot_frame).1 = Ok s /\ in_step (converted snapshot_frame).2 s) /\
  (exists e, accept_all (EJ := native_json) no_sequence (converted backspace_frame).1 = Err e).
Proof.
  assert (EventJsonLaws sample_time native_json) as Hlaws by apply sample_json_laws.
  assert (forall frame, is_Ok (convert_all (EJ := native_json) converter_0 [commit_frame; frame]) = true -> frame_bounds frame ->
    ends_episode frame = false -> read_as (EJ := native_json) no_sequence (converted frame).1 (converted frame).2
      (snapshots_first false [commit_frame; frame])) as Hread.
  { intros frame Hok Hb He. refine (native_stream_accepted (EJ := native_json) sample_id converter_0 (converted frame).2 commit_frame [frame] (converted frame).1
      _ _ _ _ _ _).
    - vm_compute. reflexivity.
    - rewrite <- surjective_pairing. unfold converted. exact (unwrap_ok _ _ Hok).
    - constructor; [vm_compute; split; split; (reflexivity || discriminate)|]. by constructor; [|constructor].
    - reflexivity.
    - unfold ended. cbn [List.filter]. rewrite He. vm_compute. discriminate.
    - unfold ended. cbn [List.filter]. rewrite He. exact native_ids_differ. }
  assert (snapshots_first false [commit_frame; snapshot_frame] = true) as Hgood by (vm_compute; reflexivity).
  assert (snapshots_first false [commit_frame; backspace_frame] = false) as Hbad by (vm_compute; reflexivity).
  assert (frame_bounds snapshot_frame /\ frame_bounds backspace_frame) as [Hb1 Hb2] by (vm_compute; repeat split; discriminate).
  assert (is_Ok (convert_all (EJ := native_json) converter_0 [commit_frame; snapshot_frame]) = true) as Hok1 by (vm_compute; reflexivity).
  assert (is_Ok (convert_all (EJ := native_json) converter_0 [commit_frame; backspace_frame]) = true) as Hok2 by (vm_compute; reflexivity).
  pose proof (Hread snapshot_frame Hok1 Hb1 eq_refl) as R1. pose proof (Hread backspace_frame Hok2 Hb2 eq_refl) as R2.
  rewrite Hgood in R1. rewrite Hbad in R2. unfold read_as in R1, R2. split; [exact R1|exact R2].
Defined.

(** ** The command line *)

Lemma sample_typed line event : DecodeEventV1 line = Ok event -> in_u64 (MonotonicUS event).
Proof.
  unfold DecodeEventV1. destruct (len line =? 0); [done|]. destruct (len line >? MaxEventBytes); [done|].
  destruct (decode_event line) as [[e trailing]|] eqn:E; [|done]. cbn [wrapped rbind]. intros H.
  assert (e = event) as <- by (destruct trailing; [|done..]; destruct (Validate e); [by injection H|done]). clear H.
  cbn [decode_event session_json sample_json] in E. unfold decode_sample in E.
  assert (forall text, in_u64 (BigEndian.get (take 8 text))) as Hget.
  { intros text. pose proof (get_range (take 8 text)) as [H1 H2]. split; [done|]. unfold MaxUint64.
    enough (2 ^ (8 * len (take 8 text)) <= 2 ^ 64) by lia. apply Z.pow_le_mono_r; [done|]. unfold len. rewrite length_take. lia. }
  assert (Forall (fun e => in_u64 (MonotonicUS e)) [event_2; event_3; event_4; loss_4; loss_5]) as Htable
    by (repeat constructor; vm_compute; discriminate).
  repeat match type of E with (match ?x with _ => _ end) = _ => destruct x eqn:?; try discriminate E end; injection E as <- _.
  all: first [apply Hget | by eapply (Forall_lookup_1 _ _ _ _ Htable)].
Qed.

Lemma sample_fresh : fresh_session sample_parts behind_disk.
Proof.
  intros id rest H. assert (NewID (entropy behind_disk) = Ok (Hex.EncodeToString (replicate 16 Byte.x61), replicate 48 Byte.x61)) as E by (vm_compute; reflexivity).
  rewrite E in H. injection H as <- _. vm_compute. reflexivity.
Qed.

(** An empty line and an event, on standard input and in a file. *)
Definition sample_stdin : bytes := newline :: log_text (map encoded [loss_4]).

Definition input_path : bytes := str "/home/stream.jsonl".
Definition input_disk : Disk := set_entries behind_disk (<[input_path := Regular sample_stdin]> (entries behind_disk)).

Definition ingested (args : list bytes) (stdin : bytes) (d : Disk) : result output * Disk :=
  run (OS := calm) (NJ := no_frames) (Ok (str "/home/lab")) (str "ingest" :: args) (stdin, None) d.

Definition from_stdin : result output * Disk := ingested [str "--input=-"] sample_stdin behind_disk.
Definition from_file : result output * Disk := ingested [str "--input"; input_path] [] input_disk.

Lemma input_lab : lab sample_parts session_events (fresh_store, input_disk).
Proof.
  destruct sample_parts_ok as [H1 H2]. refine (lab_kept sample_parts H1 H2 session_events fresh_store behind_disk input_disk _ behind_lab).
  intros q e Hq. cbn. destruct (decide (q = input_path)) as [->|Hne]; [vm_compute in Hq; discriminate|]. by rewrite lookup_insert_ne.
Qed.

Lemma input_fresh : fresh_session sample_parts input_disk.
Proof.
  intros id rest H. assert (NewID (entropy input_disk) = Ok (Hex.EncodeToString (replicate 16 Byte.x61), replicate 48 Byte.x61)) as E by (vm_compute; reflexivity).
  rewrite E in H. injection H as <- _. vm_compute. reflexivity.
Qed.

(** The witness of [command_keeps_log]: the event is recorded from standard input
    and from the file. *)
Lemma command_keeps_log_witness :
  (from_stdin.1 = Ok (Ingested 1) /\ exists store more, lab sample_parts (session_events ++ more) (store, from_stdin.2) /\
    decodes (filled_lines sample_stdin) more /\ 1 = len more) /\
  (from_file.1 = Ok (Ingested 1) /\ exists store more, lab sample_parts (session_events ++ more) (store, from_file.2) /\
    decodes (filled_lines sample_stdin) more /\ 1 = len more).
Proof.
  destruct sample_parts_ok as [H1 H2].
  assert (forall n, readable (clock (Machine := calm) n) = true) as Hclock by reflexivity.
  assert (sound_logs (OS := calm) sample_parts) as Hsound by (intros id _ n; split_and!; reflexivity).
  split; (split; [vm_compute; reflexivity|]).
  - assert (from_stdin.1 = Ok (Ingested 1)) as Hr by (vm_compute; reflexivity).
    destruct (command_keeps_log (OS := calm) (NJ := no_frames) sample_parts H1 H2 Hclock sample_typed Hsound session_events fresh_store
      behind_disk from_stdin.2 (str "/home/lab") (str "ingest") [str "--input=-"] (default_flags (str "/home/lab")) (sample_stdin, None)
      from_stdin.1 behind_lab sample_fresh) as (store & more & Hm & _ & _ & Hn).
    + vm_compute. reflexivity.
    + vm_compute. reflexivity.
    + discriminate.
    + discriminate.
    + apply surjective_pairing.
    + destruct (Hn 1 Hr) as (text & Ht & Hd & Hl). exists store, more. split; [exact Hm|].
      assert (text = sample_stdin) as -> by (unfold input_text in Ht; cbn in Ht; congruence). split; [exact Hd|exact Hl].
  - assert (from_file.1 = Ok (Ingested 1)) as Hr by (vm_compute; reflexivity).
    destruct (command_keeps_log (OS := calm) (NJ := no_frames) sample_parts H1 H2 Hclock sample_typed Hsound session_events fresh_store
      input_disk from_file.2 (str "/home/lab") (str "ingest") [str "--input"; input_path] (mkFlags (str "/home/lab") input_path [] false) ([], None)
      from_file.1 input_lab input_fresh) as (store & more & Hm & _ & _ & Hn).
    + vm_compute. reflexivity.
    + vm_compute. reflexivity.
    + discriminate.
    + discriminate.
    + apply surjective_pairing.
    + destruct (Hn 1 Hr) as (text & Ht & Hd & Hl). exists store, more. split; [exact Hm|].
      assert (entries input_disk !! input_path = Some (Regular sample_stdin)) as Hf by (vm_compute; reflexivity).
      assert (text = sample_stdin) as -> by (change (entries input_disk !! input_path = Some (Regular text)) in Ht; congruence).
      split; [exact Hd|exact Hl].
Defined.
